(* ===== verification/_CoqProject ===== *)
-Q . S2P
Prelude.v
AppSource.v
InputGroups.v
Cycle.v
DependencyGraph.v
DeploymentSpec.v
Propagation.v
FileReader.v
GraphReports.v
PathOps.v
DeploymentPackage.v
Traversal.v
JsonData.v
DeploymentSchema.v
JsonHtml.v
JsonConverters.v
InstallationGraph.v
ServerClass.v
ServerCollection.v
Partition.v
ConfExport.v
Persistence.v
PackageExport.v
SourcePackage.v
