(* ===== verification/Prelude.v ===== *)
(** * slim: a verification development of the deployment core

    The program (src/slim/app) computes, for a Splunk-style app and the
    apps it depends on, a dependency graph, the deployment specification
    each app receives, and per-workload packages; server classes record
    which apps are installed where.  Its parts, leaves first:

    - semantic versions and app sources (app/_source.py, the
      [semantic_version] package): outside [src/], modelled from the spec
      in AppSource.v ([SemVer.range_match], [AppSource], [Dependency],
      [InputGroup], [dependencies_for_target_os]);
    - input-group sets (_deployment.py: [all_input_groups],
      [no_input_groups], [_union_of], [InputGroupsConverter]):
      InputGroups.v;
    - cycle detection ([AppDependencyGraph._is_cyclic]): Cycle.v, a DFS
      generic in the node type;
    - the dependency graph ([AppDependencyGraph.__init__], [_add_source],
      [_get_dependencies], [_check_dependencies]): DependencyGraph.v.  The
      state is the record [Graph]: [_graph], [_dependents], the
      [_dependencies] attribute the code stores on each source, and the
      repository cache [_repository_sources] that resolution updates;
    - deployment specifications ([AppDeploymentSpecification]: its four
      converters, [from_forwarder_workloads] and the static
      [get_deployment_specifications] that builds the list of targets):
      DeploymentSpec.v, the static methods in the nested Module
      [AppDeploymentSpecification];
    - the propagation of a specification over the graph
      ([AppDependencyGraph.get_deployment_specifications] and its
      recursion [_get_deployment_specifications]): Propagation.v, with the
      exceptions the recursion can raise as values of [PropError];
    - the report of input groups no dependent requires
      ([report_unreferenced_input_groups]): GraphReports.v;
    - the graph's [traverse(visit)] and its [description] rendered by
      [_describe]: Traversal.v, a visitor being a function on a state of
      the caller's choice;
    - the line reader (_internal/file_reader.py, [FileReader]):
      FileReader.v, its state the record [Reader];
    - [posixpath] and [fnmatch], the library functions the package code
      calls: PathOps.v, modelled on strings from the library's behaviour;
    - deployment packages ([AppDeploymentPackage.__init__] and what it
      calls: identifiers, the partition of the configuration over the
      packaging-rule interface [PackagingRule], the exclusion patterns,
      [_get_excluded_filenames], the walk of [_set_asset_filenames] over a
      finite directory [Tree], [_detect_is_empty]): DeploymentPackage.v;
    - the JSON schema framework (_internal/json_data.py: [JsonSchema],
      [JsonValue], the data types and their [validate] and
      [convert_from]): JsonData.v, over Python values [PyVal], with the
      calls to [onerror] and the exceptions threaded by the monad [M].
      Each overriding method is its own definition ([array_validate_with],
      [object_convert_with], ...) taking the dispatch [type_validate] or
      [type_convert] as an argument;
    - the schema of a deployment specification and its converters on
      Python values ([AppDeploymentSpecification.schema]):
      DeploymentSchema.v, which connects the framework to the converter
      models of DeploymentSpec.v;
    - the HTML documentation of a schema ([to_html] of [JsonSchema],
      [JsonValue], [JsonField] and the data types): JsonHtml.v, the lxml
      elements and tuples as [HVal] and [itertools.chain] as iteration;
    - the string converters of the framework ([JsonFilenameConverter],
      [JsonVersionConverter], [JsonVersionSpecConverter]):
      JsonConverters.v, with [os.stat] and the [semantic_version] parsers
      as Section variables;
    - the installation graph of a server class ([AppInstallationGraph]
      and [AppInstallation] of app/_installation.py, outside [src/]):
      InstallationGraph.v, modelled from the spec as the type class
      [AppInstallationGraph] of the operations the server-class code
      calls and the class [AppInstallationGraphLaws] of what the spec
      promises of them, with an association-list instance [ListGraph]
      that satisfies the laws;
    - a server class ([AppServerClass]: [add_source], [get_source],
      [remove_app], [update_installation], [describe_app],
      [from_deployment_specification]): ServerClass.v.  The package
      repository is one dict shared by the collection and its classes, so
      the model keeps it once and passes it to the methods;
    - the collection ([AppServerClassCollection]: [__init__], [add],
      [update_app], [remove_app], [update_installation]):
      ServerCollection.v, over the record [Collection].  It composes the
      dependency graph of DependencyGraph.v, the propagation of
      Propagation.v and the static [get_deployment_specifications] of
      DeploymentSpec.v with the installation-graph interface.  Exceptions
      are values of [Exc].  Reading packages, the source's
      [validate_deployment_specification] are Section variables;
    - the partition of an app into deployment packages
      ([AppServerClassCollection.partition] and
      [AppServerClassUpdate.save]): Partition.v.  The files it writes are
      an ordered trace of [FsOp] steps ([mkstemp], [TarFile.add],
      [os.remove], [os.rename], the write of installation-actions.json);
      the installation actions go to the payload of [Diag].
      [installation.partition] (outside [src/]), [mkstemp],
      [package_prefix] and [path.abspath] are Section variables;
    - the persistence of the collection ([load], [reload], [save], and
      [AppServerClass.__init__] and [to_dict]): Persistence.v, with the
      graph's own document as the interface [InstallationGraphDocument]
      (no law is assumed of it: rebuilding a graph from its document may
      raise, as [reload]'s docstring says) and [os.chdir], the file
      system, the decoder and the encoder as Section variables; the
      [OSError] of [os.chdir], outside the [try], ends [load];
    - the loop of [AppDeploymentPackage._export] that writes the
      partition's configuration files: ConfExport.v, on a [FileSystem] of
      file contents and directories, with [io.open]'s errno a Section
      variable.  Its stanza headers are read back by the line reader of
      FileReader.v;
    - the package itself and its export ([AppDeploymentPackage.__init__]
      as [package_init], composing the pieces of DeploymentPackage.v;
      [export], [_export] and [__str__]): PackageExport.v, on a [Disk]
      of files, directories and tar archives.  [_export] clears the
      staging path, copies the app there, runs the loop of ConfExport.v,
      opens the archive ([tarfile.open] opens its file as [io.open] does,
      with the same errno variable), archives the staging directory and
      removes it; [export] adds the
      debug files.  [shutil.rmtree], [os.remove] and [TarFile.add] are
      written after CPython; [shutil.copytree], [hash_object] and the
      JSON encoder are Section variables;
    - the app's source package
      ([AppDependencyGraph.export_source_package]): SourcePackage.v, the
      app's directory filtered by [SlimIgnore] and the packages of the
      other graph nodes under [.dependencies], on the same [Disk].

    Shared notions live here, in the prelude: Python's [OrderedDict] as an
    association list whose assignment keeps a key's position ([od_get],
    [od_set]), the internal [OrderedSet] ([ordered_set]), the two
    [collections.deque] operations the code uses ([dq_pop] on the right,
    [dq_extendleft] on the left), [del l[i]] with its [IndexError]
    ([py_del]), and the diagnostics sink: [SlimLogger] and the global
    [slim_configuration.payload] become an explicit [Diag] record threaded
    through every operation, with structured messages [Msg].  Decoded
    JSON values are [JValue].

    What the theorems show.
    - Cycle.v: [is_cyclic_correct], the DFS with a shared [visited] set
      answers exactly "some node reaches itself" ([has_cycle], the
      transitive closure of the edge relation), whatever the start order.
    - DependencyGraph.v: construction terminates ([add_source_total]); the
      nodes are exactly the sources reachable from the root through
      resolved dependencies, each mapped to the ordered set of its
      resolved sources ([dependency_graph_nodes]); resolution does not
      depend on the repository cache it fills; the deque makes the loop a
      FIFO breadth-first search ([add_source_loop_fifo]); a clean acyclic
      closure logs no error ([dependency_graph_no_errors]); the only errors
      logged are of four kinds and "is conflicted" never
      ([dependency_graph_errors]).
    - InputGroups.v: the algebra of [_union_of] on normalised sets and the
      converter's output.
    - Propagation.v: on a well-formed acyclic graph the recursion
      terminates ([get_deployment_specifications_total]); every entry keeps
      the requested name and workload and a dependency receives only input
      groups some input group requires of it ([..._entries]); the apps
      served are the nodes reachable from the root ([..._nodes]).  An
      input group without the attribute [requires] is skipped, one whose
      [requires] is [None] raises [TypeError] ([InputGroup] records both
      whether the attribute exists and its value).
    - DeploymentSpec.v: each converter's accepted inputs exactly
      ([safe_filename_convert_spec], [workload_convert_spec]) and the
      well-formedness of what they produce ([spec_convert_wf]);
      [from_forwarder_workloads] equals a reference aggregation; the
      static [get_deployment_specifications] exactly, in the separate
      branch and in the combining branch with one specification to merge;
      with two, at positions [i < j], the ascending deletions remove the
      original positions [i] and [j + 1] or raise [IndexError]
      ([get_deployment_specifications_combine_two]); the duplicate-name
      check fires exactly on a repeated name.
    - GraphReports.v: the report logs exactly the dependencies whose
      declared input groups no merged requirement covers, in graph order,
      when every group has the attribute [requires] (reading a missing
      one raises [AttributeError] there).
    - Traversal.v: [traverse] returns on well-formed graphs for every
      visitor that filters or reorders ([traverse_total]), calls the
      visitor at most once per app ([traverse_visits_once]), exactly on the
      reachable apps when it follows everything
      ([traverse_visits_reachable]), in FIFO breadth-first order
      ([traverse_fifo_order]); the description is computed on acyclic
      graphs ([description_total]) and never on a graph whose dependencies
      reach a cycle ([describe_cyclic]).
    - FileReader.v: [read_continuation] equals a reference joining of
      continued lines; [put_back] undoes [__next__]; iteration yields the
      lines of the stream; a put-back empty line blocks the reader.
    - DeploymentPackage.v: what the partition keeps is included by the
      rules and never empty ([partition_configuration_sound]); the
      exclusion patterns and the excluded names exactly
      ([exclusion_patterns_spec], [get_excluded_filenames_spec]);
      [_detect_is_empty] returns exactly unless a document path is
      absolute ([detect_is_empty_none]); whenever the walk keeps nothing
      of the app root, [_set_asset_filenames] raises [KeyError]
      ([set_asset_filenames_root_keyerror]); an evaluated example of the
      [bin] prefix test.
    - JsonData.v: with an [onerror] that returns, [validate] answers
      [True] exactly when it reported nothing ([validate_reports]).
    - DeploymentSchema.v: converting a JSON specification through the
      schema with the default [onerror] is the converter model of
      DeploymentSpec.v ([deployment_schema_convert],
      [spec_converter_spec]); a missing name is reported twice.
    - JsonHtml.v: the chains and tuples of [to_html] line up, giving one
      six-cell row per documented value in preorder
      ([schema_to_html_rows]); a free-form [JsonObject()] makes it raise
      [AttributeError] (evaluated: [free_object_to_html_raises]).
    - JsonConverters.v: [JsonFilenameConverter] returns its [verify]
      callback instead of calling it ([filename_convert_verify_ignored]).
    - ServerClass.v: [remove_app] keeps and reports an app other apps
      require, and otherwise removes it ([sc_remove_app_spec]); a package
      [add_source] adds is found by [get_source]
      ([add_source_get_source]); [get_source] never memoizes a package it
      reads ([get_source_not_memoized]).
    - ServerCollection.v: a [set] action without errors leaves the app on
      no class outside its new specifications ([set_removes_untargeted]).
      [update_app] rebuilds exactly the classes that have the app or that
      it does not target ([update_app_rebuilds]; evaluated:
      [update_app_installs_untargeted]).  [remove_app] never raises and
      ends each named class as [AppServerClass.remove_app] does
      ([remove_app_spec]).  [add] changes only the targeted classes and
      creates the missing ones ([add_classes]).  It never recurses
      forever, because it propagates only over graphs built without error
      ([add_no_recursion_error]).  Its removal loop never raises
      ([remove_empty_spec]), and any earlier error of the process makes it
      do nothing ([add_aborts]).  Its local error count is stale: whenever
      the log holds more errors than the count, as after a dependency's
      validation error, the next targeted class is skipped
      ([add_skips_after_validation_error]).
    - Partition.v: [save] with [partition_all] adds exactly the
      sub-packages the installations produce to one archive, removing
      each after adding it, and renames or removes the temporary file
      ([update_save_partition_all]); [partition] saves every installed
      and targeted class in order, records one installation action each,
      returns the archives that exist and writes installation-actions.json
      exactly when it returns one ([partition_audit]).
    - Persistence.v: when [os.chdir] into the repository succeeds and
      each class's graph can be rebuilt from its own document, saving a
      collection and loading the file back gives the same classes in
      order, with their names, workloads and the rebuilt graphs
      ([save_load_roundtrip], the spec's round trip); under the same
      condition [reload] rebuilds every graph in place
      ([reload_keeps_classes]), and when a graph cannot be rebuilt it
      raises with the earlier classes reloaded and the rest as they were
      ([reload_error_partial]).
    - ConfExport.v: a stanza header, newlines escaped, reads back through
      [FileReader.__next__] and [read_continuation] as the stanza name,
      whatever the name ([stanza_header_read_back]); the export writes
      every file, creating missing directories, when [io.open] raises only
      [ENOENT] ([export_configuration_writes]), and any other [IOError]
      stops it with the earlier files written
      ([export_configuration_error]).
    - PackageExport.v: the archive [_export] writes holds every
      configuration file it wrote, at its name under the app directory's
      base name, and the staging directory is gone afterwards
      ([export_archive_configuration]); with debug logging, [export]
      writes the digest of the archive's files sorted by name
      ([export_debug_digest]), whose hashes are those of the app's own
      files at [path.join(path.dirname(app_root), name)], not of the
      rewritten configuration it archived; an [IOError] of the
      configuration loop ([export_error_keeps_staging]) or of
      [tarfile.open] ([export_archive_open_error]) leaves the staging
      directory behind.
    - SourcePackage.v: the source package holds the filtered app
      directory and, when the graph has other nodes, the [.dependencies]
      entry and each other node's package once, in graph order
      ([export_source_package_members]); a missing package raises with
      the members added so far ([export_source_package_missing]).

    Bounds and fuel.  Loops that are not structural take fuel and return
    [option]: [Cycle.visit] gets one unit more than the nodes and
    successors of the graph, [add_source_loop] gets
    [|universe| * (max declarations + 1) + 2] where the universe is the
    root, the bundled dependency sources and the repository, and
    [Propagation.propagate] gets one unit more than the nodes of the graph
    (a call chain of the recursion is a simple path when the graph has no
    cycle); [Traversal.describe] gets the same bound for the same reason;
    [Traversal.traverse_loop] gets two units more than the total length
    of the adjacency lists (each pop removes a queue entry, and each
    expansion adds at most the dependencies it removes from the weight of
    unvisited nodes); [FileReader.read_continuation] and [iter] get one
    unit more than the lines left and the put-back slot.  Each bound is
    proved sufficient ([is_cyclic_fuel_enough], [add_source_total],
    [get_deployment_specifications_total], [description_total],
    [traverse_total], [read_continuation_spec]), so the [None] branches
    are unreachable there.  [None] stands for non-termination where the
    code does not terminate: [_get_deployment_specifications] and
    [_describe] on a cyclic graph, and the [dirname] loop of
    [_detect_is_empty] on an absolute path (one unit per character of the
    normalised path, enough for relative paths: [detect_is_empty_none]).
    [_split_filename] gets one unit per character, and the empty-directory
    loop of [_set_asset_filenames] one per asset plus one.  The JSON
    framework recurses on the schema, structurally; its [str.format]
    ([JsonData.format_go]) consumes a character per step and gets one
    unit per character plus one.

    Modelling choices.  App sources are compared structurally; the
    repository cache keeps one object per package, which is the identity
    the code relies on.  Frozensets are [gset string] (iteration order is
    irrelevant where the code folds with [_union_of], see
    [union_all_proper]).  A version range is a conjunction of clauses.

    Not modelled yet (planned): a functional specification of the asset
    walk.  Out of the model: floats and bytes as JSON values, and the
    parsing done by [os.stat], [Version.coerce] and [semantic_version.Spec]
    (library calls, Section variables).  The remaining stream and
    JSON-encoder I/O ([print_description], [_AppJsonEncoder]) stays out: it has no logic of the core beyond the
    calls it makes.  [shutil.copytree] is a Section variable: the
    theorems hold for any copy that creates its destination and removes
    no directory.  Reading splits
    lines at ['\n'] only ([ConfExport.lines_of]); Python's universal
    newlines would also split at ['\r'], which the export does not
    escape. *)

From stdpp Require Import base list gmap strings sets.

Declare Scope slim_scope.
Delimit Scope slim_scope with slim.

#[export] Set Warnings "-clear-no-such-hyp".

Create HintDb slim discriminated.
Create Rewrite HintDb slim_rw.

(** ** Python [OrderedDict] as an association list

    Assigning an existing key keeps its position and replaces the value;
    a new key is appended at the end. *)

Section OrderedDict.
Context {K V : Type} `{EqDecision K}.

Fixpoint od_get (m : list (K * V)) (k : K) : option V :=
  match m with
  | [] => None
  | (k', v) :: m' => if decide (k = k') then Some v else od_get m' k
  end.

Fixpoint od_set (m : list (K * V)) (k : K) (v : V) : list (K * V) :=
  match m with
  | [] => [(k, v)]
  | (k', v') :: m' =>
      if decide (k = k') then (k, v) :: m' else (k', v') :: od_set m' k v
  end.

Definition od_keys (m : list (K * V)) : list K := map fst m.

Lemma od_get_set_eq m k v : od_get (od_set m k v) k = Some v.
Proof. induction m as [|[k' v'] m IH]; simpl; repeat case_decide; simpl; auto; try case_decide; done. Qed.

Lemma od_get_set_ne m k k' v : k ≠ k' → od_get (od_set m k v) k' = od_get m k'.
Proof.
  intros Hne. induction m as [|[k0 v0] m IH]; simpl.
  - case_decide; congruence.
  - repeat (case_decide; simpl); subst; try congruence.
Qed.

Lemma od_get_Some_elem m k v : od_get m k = Some v → k ∈ od_keys m.
Proof.
  induction m as [|[k' v'] m IH]; simpl; [done|].
  case_decide; intros Hv; subst; set_solver.
Qed.

Lemma od_get_Some_in m k v : od_get m k = Some v → (k, v) ∈ m.
Proof.
  induction m as [|[k' v'] m IH]; simpl; [done|].
  case_decide; intros Hv; simplify_eq; set_solver.
Qed.

Lemma od_get_None m k : od_get m k = None ↔ k ∉ od_keys m.
Proof.
  induction m as [|[k' v'] m IH]; simpl; [set_solver|].
  case_decide; subst; [split; [done|set_solver]|].
  rewrite IH. set_solver.
Qed.

Lemma elem_of_od_keys_get m k : k ∈ od_keys m ↔ is_Some (od_get m k).
Proof. rewrite <- not_eq_None_Some, od_get_None. split; [intros ? []|intros ?]; [done|]. by apply dec_stable. Qed.

Lemma od_keys_set m k v :
  od_keys (od_set m k v) = if decide (k ∈ od_keys m) then od_keys m else od_keys m ++ [k].
Proof.
  induction m as [|[k' v'] m IH]; simpl; [done|].
  repeat case_decide; simpl; subst; try rewrite IH; repeat case_decide; set_solver.
Qed.

Lemma elem_of_od_set m k v kv :
  kv ∈ od_set m k v → kv = (k, v) ∨ kv ∈ m.
Proof.
  induction m as [|[k' v'] m IH]; simpl; [set_solver|].
  case_decide; rewrite !elem_of_cons; [subst; naive_solver|]. intros [->|Hk]; [naive_solver|].
  destruct (IH Hk); naive_solver.
Qed.

Lemma elem_of_od_keys_set m k v k' : k' ∈ od_keys (od_set m k v) ↔ k' = k ∨ k' ∈ od_keys m.
Proof. rewrite od_keys_set. case_decide; set_solver. Qed.

Lemma od_keys_set_NoDup m k v : NoDup (od_keys m) → NoDup (od_keys (od_set m k v)).
Proof.
  rewrite od_keys_set. case_decide; [done|].
  intros Hnd. apply NoDup_app. split_and!; [done| |by apply NoDup_singleton]. set_solver.
Qed.
(** Assigning a new key appends it. *)
Lemma od_set_fresh m k v : k ∉ od_keys m → od_set m k v = m ++ [(k, v)].
Proof.
  induction m as [|[k' v'] m IH]; intros Hk; [done|]. cbn in *.
  rewrite decide_False by set_solver. rewrite IH by set_solver. done.
Qed.

(** Assigning an existing key replaces its value in place. *)
Lemma od_set_app pre k v v' post : k ∉ od_keys pre → od_set (pre ++ (k, v') :: post) k v = pre ++ (k, v) :: post.
Proof.
  induction pre as [|[k' w] pre IH]; intros Hk; cbn in *; [by rewrite decide_True|].
  rewrite decide_False by set_solver. rewrite IH by set_solver. done.
Qed.

Lemma od_get_elem_NoDup m k v : NoDup (od_keys m) → (k, v) ∈ m → od_get m k = Some v.
Proof.
  induction m as [|[k' v'] m IH]; cbn; [set_solver|]. intros [Hk' Hnd]%NoDup_cons [[= -> ->]|Hin]%elem_of_cons.
  - by rewrite decide_True.
  - rewrite decide_False; [by apply IH|]. intros ->. apply Hk'. apply list_elem_of_fmap. by exists (k', v).
Qed.

(** An ordered dictionary that maps each key of a list to [f] of it. *)
Lemma od_get_map (f : K → V) ks k :
  od_get (map (λ k', (k', f k')) ks) k = if decide (k ∈ ks) then Some (f k) else None.
Proof.
  induction ks as [|k' ks IH]; cbn [od_get map]; [case_decide; [set_solver|done]|].
  rewrite IH. repeat case_decide; subst; try done; set_solver.
Qed.

Lemma od_set_map_in (f : K → V) ks k v :
  k ∈ ks → NoDup ks →
  od_set (map (λ k', (k', f k')) ks) k v = map (λ k', (k', if decide (k' = k) then v else f k')) ks.
Proof.
  induction ks as [|k' ks IH]; cbn [od_set map]; intros Hk Hnd; [set_solver|]. apply NoDup_cons in Hnd as [Hk' Hnd].
  case_decide as Heq.
  - subst. rewrite decide_True by done. f_equal. apply map_ext_in. intros a Ha%list_elem_of_In.
    rewrite decide_False by set_solver. done.
  - rewrite decide_False by done. f_equal. apply IH; [set_solver|done].
Qed.

Lemma od_set_map_notin (f : K → V) ks k v :
  k ∉ ks → od_set (map (λ k', (k', f k')) ks) k v = map (λ k', (k', f k')) ks ++ [(k, v)].
Proof.
  induction ks as [|k' ks IH]; cbn [od_set map app]; intros Hk; [done|].
  rewrite decide_False by set_solver. f_equal. apply IH. set_solver.
Qed.
End OrderedDict.

(** ** The internal [OrderedSet]: duplicates dropped, first occurrence kept *)

Section OrderedSetSec.
Context {A : Type} `{EqDecision A}.

Fixpoint ordered_set_go (seen : list A) (l : list A) : list A :=
  match l with
  | [] => []
  | x :: l' =>
      if decide (x ∈ seen) then ordered_set_go seen l' else x :: ordered_set_go (x :: seen) l'
  end.

Definition ordered_set (l : list A) : list A := ordered_set_go [] l.

Lemma elem_of_ordered_set_go seen l x :
  x ∈ ordered_set_go seen l ↔ x ∈ l ∧ x ∉ seen.
Proof.
  revert seen. induction l as [|y l IH]; intros seen; simpl; [set_solver|].
  case_decide; [rewrite IH|rewrite elem_of_cons, IH]; destruct (decide (x = y)); set_solver.
Qed.

Lemma elem_of_ordered_set l x : x ∈ ordered_set l ↔ x ∈ l.
Proof. unfold ordered_set. rewrite elem_of_ordered_set_go. set_solver. Qed.

Lemma ordered_set_NoDup l : NoDup (ordered_set l).
Proof.
  unfold ordered_set. generalize (@nil A). induction l as [|y l IH]; intros seen; simpl.
  - constructor.
  - case_decide; [done|]. constructor; [|done].
    rewrite elem_of_ordered_set_go. set_solver.
Qed.

Lemma ordered_set_go_snoc seen l x :
  ordered_set_go seen (l ++ [x]) =
  ordered_set_go seen l ++ (if decide (x ∈ seen ∨ x ∈ l) then [] else [x]).
Proof.
  revert seen. induction l as [|y l IH]; intros seen; simpl.
  - repeat case_decide; try done; set_solver.
  - destruct (decide (y ∈ seen)); rewrite IH; [|simpl]; f_equal; [|f_equal];
      repeat case_decide; try done; set_solver.
Qed.

Lemma ordered_set_snoc l x :
  ordered_set (l ++ [x]) = if decide (x ∈ l) then ordered_set l else ordered_set l ++ [x].
Proof.
  unfold ordered_set. rewrite ordered_set_go_snoc.
  repeat case_decide; rewrite ?app_nil_r; try done; set_solver.
Qed.
End OrderedSetSec.

(** ** [collections.deque] restricted to [pop] and [extendleft]

    A deque is the list of its items from left to right; [pop] removes the
    rightmost item, [extendleft xs] pushes the items of [xs] one by one on
    the left, so that they end up in reverse order. *)

Section Deque.
Context {A : Type}.

Definition dq_pop (d : list A) : option (A * list A) :=
  match rev d with
  | [] => None
  | x :: r => Some (x, rev r)
  end.

Definition dq_extendleft (xs : list A) (d : list A) : list A := rev xs ++ d.

(** Seen through [rev], the deque is a FIFO queue: [pop] takes the head
    and [extendleft] appends at the tail. *)
Lemma dq_pop_rev x q : dq_pop (rev (x :: q)) = Some (x, rev q).
Proof. unfold dq_pop. by rewrite rev_involutive. Qed.

Lemma dq_pop_rev_nil : dq_pop (rev (@nil A)) = None.
Proof. done. Qed.

Lemma dq_extendleft_rev xs q : dq_extendleft xs (rev q) = rev (q ++ xs).
Proof. unfold dq_extendleft. by rewrite rev_app_distr. Qed.
Lemma elem_of_rev x (l : list A) : x ∈ rev l ↔ x ∈ l.
Proof.
  rewrite !list_elem_of_In. split; [|apply in_rev].
  intros Hx. rewrite <-(rev_involutive l). by apply (in_rev (rev l)).
Qed.

Lemma elem_of_dq_extendleft xs d x : x ∈ dq_extendleft xs d ↔ x ∈ xs ∨ x ∈ d.
Proof. unfold dq_extendleft. by rewrite elem_of_app, elem_of_rev. Qed.

Lemma length_dq_extendleft xs d : length (dq_extendleft xs d) = length xs + length d.
Proof. unfold dq_extendleft. by rewrite length_app, length_rev. Qed.

Lemma dq_pop_Some d x d' :
  dq_pop d = Some (x, d') → d = d' ++ [x].
Proof.
  unfold dq_pop. destruct (rev d) as [|y r] eqn:Hr; [done|]. intros Hs; simplify_eq.
  rewrite <-(rev_involutive d), Hr. done.
Qed.

Lemma dq_pop_None d : dq_pop d = None → d = [].
Proof.
  unfold dq_pop. destruct (rev d) eqn:Hr; [|done]. intros _.
  by rewrite <-(rev_involutive d), Hr.
Qed.
End Deque.

#[export] Hint Rewrite @dq_pop_rev @dq_extendleft_rev @od_get_set_eq : slim_rw.

(** ** Lists *)

Lemma filter_none {A} (P : A → Prop) `{∀ x, Decision (P x)} (l : list A) :
  (∀ x, x ∈ l → ¬ P x) → filter P l = [].
Proof.
  induction l as [|x l IH]; intros Hl; [done|].
  rewrite filter_cons_False by (apply Hl; left). apply IH. intros y Hy. apply Hl. by right.
Qed.

(** ** Loops written as folds *)

(** A loop that assigns [d[key(x)] = val(x)] to a fresh ordered dictionary
    for the [x] that pass a test: every entry comes from such an [x]. *)
Lemma elem_of_foldl_od_set {A K V} `{EqDecision K} (c : A → bool) (key : A → K) (val : A → V)
    (l : list A) k v :
  (k, v) ∈ foldl (λ acc x, if c x then od_set acc (key x) (val x) else acc) [] l →
  ∃ x, x ∈ l ∧ c x = true ∧ key x = k ∧ val x = v.
Proof.
  cut (∀ acc, (k, v) ∈ foldl (λ acc x, if c x then od_set acc (key x) (val x) else acc) acc l →
         (k, v) ∈ acc ∨ ∃ x, x ∈ l ∧ c x = true ∧ key x = k ∧ val x = v).
  { intros H Hin. destruct (H [] Hin) as [Hn%elem_of_nil|]; done. }
  induction l as [|x l IH]; intros acc Hin; simpl in Hin; [by left|].
  destruct (IH _ Hin) as [Hacc|(y & Hy & Hc & Hk & Hv)]; [|right; exists y; split_and!; [by right|done..]].
  destruct (c x) eqn:Hcx; [|by left].
  apply elem_of_od_set in Hacc as [[= Hk Hv]|Hacc]; [|by left].
  right. exists x. split_and!; [by left|done|by rewrite Hk|by rewrite Hv].
Qed.

Lemma foldl_invariant {A B} (P : A → Prop) (f : A → B → A) (l : list B) (a : A) :
  P a → (∀ a x, x ∈ l → P a → P (f a x)) → P (foldl f a l).
Proof.
  revert a. induction l as [|x l IH]; intros a Ha Hf; simpl; [done|].
  apply IH; [apply Hf; [set_solver|done]|]. intros; apply Hf; [set_solver|done].
Qed.

(** A fold whose steps each add at most one to a measure. *)
Lemma foldl_measure {A B} (m : A → nat) (f : A → B → A) (l : list B) (a : A) :
  (∀ a x, m (f a x) ≤ S (m a)) → m (foldl f a l) ≤ m a + length l.
Proof.
  intros Hf. revert a. induction l as [|x l IH]; intros a; simpl; [lia|].
  specialize (IH (f a x)). specialize (Hf a x). lia.
Qed.

Lemma foldr_max_ge {A} (m : A → nat) (l : list A) x : x ∈ l → m x ≤ foldr (λ y n, m y `max` n) 0 l.
Proof. induction l as [|y l IH]; simpl; [set_solver|]. intros [->|Hx]%elem_of_cons; [lia|]. specialize (IH Hx). lia. Qed.

Lemma list_fmap_concat {A B} (f : A → B) (ls : list (list A)) :
  f <$> concat ls = concat ((λ l : list A, f <$> l) <$> ls).
Proof. induction ls as [|l ls IH]; [done|]. cbn. by rewrite fmap_app, IH. Qed.

Lemma length_omap_le {A B} (f : A → option B) (l : list A) : length (omap f l) ≤ length l.
Proof. induction l as [|x l IH]; cbn; [lia|]. destruct (f x); cbn; lia. Qed.

(** A loop whose body may raise: the first exception ends it. *)
Fixpoint fold_err {E A B} (f : A → B → E + A) (a : A) (l : list B) : E + A :=
  match l with
  | [] => inr a
  | x :: l' => match f a x with inl e => inl e | inr a' => fold_err f a' l' end
  end.

Lemma fold_err_invariant {E A B} (P : A → Prop) (f : A → B → E + A) (l : list B) (a a' : A) :
  P a → (∀ a x a', x ∈ l → P a → f a x = inr a' → P a') → fold_err f a l = inr a' → P a'.
Proof.
  revert a. induction l as [|x l IH]; intros a Ha Hf; simpl; [by intros [= <-]|].
  destruct (f a x) as [e|a1] eqn:Hx; [done|].
  apply IH; [apply (Hf a x a1); [set_solver|done|done]|].
  intros b y b' Hy Hb Hfy. apply (Hf b y b'); [set_solver|done|done].
Qed.

Lemma fold_err_inl {E A B} (f : A → B → E + A) (l : list B) (a : A) (e : E) :
  fold_err f a l = inl e → ∃ a' x, x ∈ l ∧ f a' x = inl e.
Proof.
  revert a. induction l as [|x l IH]; intros a; simpl; [done|].
  destruct (f a x) as [e'|a1] eqn:Hx.
  - intros [= <-]. exists a, x. split; [set_solver|done].
  - intros (a' & y & Hy & Hf)%IH. exists a', y. split; [set_solver|done].
Qed.

(** The loop over [l1 ++ l2] runs over [l1], then, unless it raised, over [l2]. *)
Lemma fold_err_app {E A B} (f : A → B → E + A) (a : A) (l1 l2 : list B) :
  fold_err f a (l1 ++ l2) = match fold_err f a l1 with inl e => inl e | inr a' => fold_err f a' l2 end.
Proof. revert a. induction l1 as [|x l1 IH]; intros a; simpl; [done|]. by destruct (f a x). Qed.

(** ** Python list deletion [del l[i]]: out of range raises [IndexError] *)

Fixpoint py_del {A} (l : list A) (i : nat) : option (list A) :=
  match l, i with
  | [], _ => None
  | _ :: l', 0 => Some l'
  | x :: l', S i' => option_map (cons x) (py_del l' i')
  end.

(** [del l[i]] is [delete i l] in range and raises out of it. *)
Lemma py_del_spec {A} (l : list A) i : py_del l i = if decide (i < length l) then Some (delete i l) else None.
Proof.
  revert i. induction l as [|x l IH]; intros [|i]; cbn; [done|done|done|]. rewrite IH.
  destruct (decide (i < length l)), (decide (S i < S (length l))); cbn; done || lia.
Qed.

(** ** Decoded JSON values

  What [json.load] produces: [None], booleans, numbers, strings, lists and
  (ordered) objects.  [ObjectView.get_json_type_name] names the type of a
  value in error messages. *)

Inductive JValue :=
| JNull
| JBool (b : bool)
| JNumber (n : Z)
| JString (s : string)
| JArray (items : list JValue)
| JObject (fields : list (string * JValue)).

Definition json_type_name (v : JValue) : string :=
  match v with
  | JNull => "null"
  | JBool _ => "boolean"
  | JNumber _ => "number"
  | JString _ => "string"
  | JArray _ => "array"
  | JObject _ => "object"
  end.

(** ** The diagnostics sink

    [SlimLogger] counts errors and the global [slim_configuration.payload]
    records missing dependencies and a status.  Both are threaded explicitly
    as a [Diag] value.  Messages are kept structured, one constructor per
    message the code formats. *)

Inductive SlimStatus := StatusSuccess | StatusMissingDependencies | StatusDependencyRequired.

Inductive Msg :=
| MsgCyclic (root : string)
| MsgConflicted (root : string)
| MsgOptionalSkipped (name : string)
| MsgDynamicSkipped (name : string)
| MsgStaticNotFound (package : string)
| MsgOutsideRange (app name package : string)
| MsgVersionSelected (app dependent : string)
| MsgDuplicateSpecName (name : string)
| MsgUnreferenced (app dependency : string) (groups : gset string)  (** printed sorted *)
| MsgNonTargeted (name : string)                   (** Application includes non-targeted workload for: *)
| MsgNotTargetedWorkload (name : string)           (** Application does not include targeted workload: *)
| MsgAppNotTargeted (app name : string)            (** App ... does not include targeted workload: *)
| MsgNotInstalled (app : string)
| MsgStillRequired (app : string) (dependents : list string)
| MsgPackageNotFound (package repository_path : string)
| MsgNotSourcePackage (package repository_path : string)
| MsgCannotAdd (package repository_path : string)
| MsgInvalidSpecification (app name : string)    (** logged by [AppSource.validate_deployment_specification] *)
| MsgUnknownAction (action : string)
| MsgCannotAccessRepository (repository_path : string)
| MsgCannotLoadGraph (filename : string)
| MsgDuplicateServerClass (name : string)
| MsgSavedConfiguration (stage_name filename : string)   (** Saved ... configuration to ... (debug) *)
| MsgSavedDigest (stage_name filename : string).        (** Saved ... file digest to ... (debug) *)

Record Diag := mkDiag {
  d_errors : list Msg;
  d_warnings : list Msg;
  d_missing : list string;
  d_missing_optional : list string;
  d_status : SlimStatus;
  d_requirements : list string;   (** [payload.set_dependency_requirements] *)
  d_installation_graph : option JValue;   (** [payload.set_installation_graph] *)
  d_installation_actions : list (string * option (list string) * option string);
      (** [payload.add_installation_action]: server class, removed app ids, added archive *)
  d_source_package : option string;   (** [payload.set_source_package] *)
}.

Definition diag0 : Diag := mkDiag [] [] [] [] StatusSuccess [] None [] None.

Definition log_error (m : Msg) (d : Diag) : Diag :=
  mkDiag (d_errors d ++ [m]) (d_warnings d) (d_missing d) (d_missing_optional d) (d_status d) (d_requirements d) (d_installation_graph d) (d_installation_actions d) (d_source_package d).

Definition log_warning (m : Msg) (d : Diag) : Diag :=
  mkDiag (d_errors d) (d_warnings d ++ [m]) (d_missing d) (d_missing_optional d) (d_status d) (d_requirements d) (d_installation_graph d) (d_installation_actions d) (d_source_package d).

Definition add_missing_dependency (name : string) (d : Diag) : Diag :=
  mkDiag (d_errors d) (d_warnings d) (d_missing d ++ [name]) (d_missing_optional d) (d_status d) (d_requirements d) (d_installation_graph d) (d_installation_actions d) (d_source_package d).

Definition add_missing_optional_dependency (name : string) (d : Diag) : Diag :=
  mkDiag (d_errors d) (d_warnings d) (d_missing d) (d_missing_optional d ++ [name]) (d_status d) (d_requirements d) (d_installation_graph d) (d_installation_actions d) (d_source_package d).

(** [SlimLogger.message(level, ...)]: errors and warnings are recorded,
    lower levels only printed. *)
Inductive Level := LevelDebug | LevelInfo | LevelWarning | LevelError.

Definition log_message (level : Level) (m : Msg) (d : Diag) : Diag :=
  match level with
  | LevelError => log_error m d
  | LevelWarning => log_warning m d
  | _ => d
  end.

Definition set_status (st : SlimStatus) (d : Diag) : Diag :=
  mkDiag (d_errors d) (d_warnings d) (d_missing d) (d_missing_optional d) st (d_requirements d) (d_installation_graph d) (d_installation_actions d) (d_source_package d).

(** [payload.set_dependency_requirements(dependents)] *)
Definition set_dependency_requirements (l : list string) (d : Diag) : Diag :=
  mkDiag (d_errors d) (d_warnings d) (d_missing d) (d_missing_optional d) (d_status d) l (d_installation_graph d) (d_installation_actions d) (d_source_package d).

(** [payload.add_installation_action(OrderedDict(serverClass, remove, add))] *)
Definition add_installation_action (server_class : string) (remove : option (list string)) (add : option string)
    (d : Diag) : Diag :=
  mkDiag (d_errors d) (d_warnings d) (d_missing d) (d_missing_optional d) (d_status d) (d_requirements d)
    (d_installation_graph d) (d_installation_actions d ++ [(server_class, remove, add)]) (d_source_package d).

(** [payload.set_installation_graph(graph)] *)
Definition set_installation_graph (g : JValue) (d : Diag) : Diag :=
  mkDiag (d_errors d) (d_warnings d) (d_missing d) (d_missing_optional d) (d_status d) (d_requirements d) (Some g)
    (d_installation_actions d) (d_source_package d).

(** [payload.set_source_package(path)] *)
Definition set_source_package (p : string) (d : Diag) : Diag :=
  mkDiag (d_errors d) (d_warnings d) (d_missing d) (d_missing_optional d) (d_status d) (d_requirements d)
    (d_installation_graph d) (d_installation_actions d) (Some p).

(** [SlimLogger.error_count()] *)
Definition error_count (d : Diag) : nat := length (d_errors d).

(** [d'] extends [d]: the log only grows. *)
Definition diag_le (d d' : Diag) : Prop :=
  ∃ e w m o, d_errors d' = d_errors d ++ e ∧ d_warnings d' = d_warnings d ++ w ∧
             d_missing d' = d_missing d ++ m ∧ d_missing_optional d' = d_missing_optional d ++ o.

Lemma diag_le_refl d : diag_le d d.
Proof. exists [], [], [], []. by rewrite !app_nil_r. Qed.

Lemma diag_le_trans d1 d2 d3 : diag_le d1 d2 → diag_le d2 d3 → diag_le d1 d3.
Proof.
  intros (e&w&m&o&H1&H2&H3&H4) (e'&w'&m'&o'&H1'&H2'&H3'&H4').
  exists (e ++ e'), (w ++ w'), (m ++ m'), (o ++ o').
  rewrite H1', H2', H3', H4', H1, H2, H3, H4, !app_assoc. done.
Qed.

Lemma diag_le_log_error m d : diag_le d (log_error m d).
Proof. exists [m], [], [], []. by rewrite !app_nil_r. Qed.

Lemma diag_le_log_warning m d : diag_le d (log_warning m d).
Proof. exists [], [m], [], []. by rewrite !app_nil_r. Qed.

Lemma diag_le_missing n d : diag_le d (add_missing_dependency n d).
Proof. exists [], [], [n], []. by rewrite !app_nil_r. Qed.

Lemma diag_le_missing_optional n d : diag_le d (add_missing_optional_dependency n d).
Proof. exists [], [], [], [n]. by rewrite !app_nil_r. Qed.

Lemma diag_le_status st d : diag_le d (set_status st d).
Proof. exists [], [], [], []. by rewrite !app_nil_r. Qed.

Lemma diag_le_requirements l d : diag_le d (set_dependency_requirements l d).
Proof. exists [], [], [], []. by rewrite !app_nil_r. Qed.

Lemma diag_le_installation_graph g d : diag_le d (set_installation_graph g d).
Proof. exists [], [], [], []. by rewrite !app_nil_r. Qed.

Lemma diag_le_installation_action n r a d : diag_le d (add_installation_action n r a d).
Proof. exists [], [], [], []. by rewrite !app_nil_r. Qed.

Lemma diag_le_source_package p d : diag_le d (set_source_package p d).
Proof. exists [], [], [], []. by rewrite !app_nil_r. Qed.

Lemma diag_le_errors d d' : diag_le d d' → error_count d ≤ error_count d'.
Proof. intros (e&w&m&o&He&_). unfold error_count. rewrite He, length_app. lia. Qed.

(** [d'] extends [d] by errors that all satisfy [ok]. *)
Definition errors_only (ok : Msg → Prop) (d d' : Diag) : Prop :=
  ∃ l, d_errors d' = d_errors d ++ l ∧ Forall ok l.

Lemma errors_only_same ok d d' : d_errors d' = d_errors d → errors_only ok d d'.
Proof. intros He. exists []. rewrite app_nil_r. done. Qed.

Lemma errors_only_trans ok d1 d2 d3 : errors_only ok d1 d2 → errors_only ok d2 d3 → errors_only ok d1 d3.
Proof.
  intros (l1 & H1 & F1) (l2 & H2 & F2). exists (l1 ++ l2).
  rewrite H2, H1, app_assoc. split; [done|by apply Forall_app].
Qed.

Lemma errors_only_log_error (ok : Msg → Prop) m d : ok m → errors_only ok d (log_error m d).
Proof. intros Hm. exists [m]. split; [done|by constructor]. Qed.

Lemma errors_only_elem ok d d' m : errors_only ok d d' → m ∈ d_errors d' → m ∈ d_errors d ∨ ok m.
Proof.
  intros (l & He & Hl). rewrite He, elem_of_app. intros [|Hm]; [by left|right].
  by eapply Forall_forall in Hl.
Qed.

Lemma errors_only_count ok d d' : errors_only ok d d' → error_count d ≤ error_count d'.
Proof. intros (l & He & _). unfold error_count. rewrite He, length_app. lia. Qed.

Lemma error_count_log_error m d : error_count (log_error m d) = S (error_count d).
Proof. unfold error_count. cbn. rewrite length_app. cbn. lia. Qed.

Lemma error_count_log_warning m d : error_count (log_warning m d) = error_count d.
Proof. done. Qed.

#[export] Hint Resolve diag_le_refl diag_le_log_error diag_le_log_warning diag_le_missing
  diag_le_missing_optional diag_le_status diag_le_requirements diag_le_installation_graph
  diag_le_installation_action diag_le_source_package : slim.
