(* ===== verification/AppSource.v ===== *)
(** * App sources and semantic versions (collaborators outside [src/])

    The core consumes [AppSource] objects (app/_source.py) and version
    ranges from the [semantic_version] package; neither is under [src/].
    Both are modelled here from the spec (section 3 "Data model", section 6
    "collaborator contract for version ranges: match(version) -> bool"),
    reduced to the fields the core reads. *)

From stdpp Require Import base list gmap strings sets.
From S2P Require Import Prelude.

(** ** Semantic versions and ranges *)

Module SemVer.
Record Version := mkVersion { v_major : nat; v_minor : nat; v_patch : nat }.

#[export] Instance Version_eq_dec : EqDecision Version.
Proof. solve_decision. Defined.

Definition version_lt (a b : Version) : bool :=
  (v_major a <? v_major b) ||
  ((v_major a =? v_major b) && ((v_minor a <? v_minor b) ||
    ((v_minor a =? v_minor b) && (v_patch a <? v_patch b)))).

Definition version_le (a b : Version) : bool := version_lt a b || bool_decide (a = b).

(** One clause of a [semantic_version.Spec]; a range is their conjunction. *)
Inductive Clause :=
| CAny
| CEq (v : Version)
| CGe (v : Version)
| CLt (v : Version)
| CTilde (v : Version)
| CCaret (v : Version).

Definition Range := list Clause.

Definition clause_match (c : Clause) (x : Version) : bool :=
  match c with
  | CAny => true
  | CEq v => bool_decide (x = v)
  | CGe v => version_le v x
  | CLt v => version_lt x v
  | CTilde v => version_le v x && version_lt x (mkVersion (v_major v) (S (v_minor v)) 0)
  | CCaret v => version_le v x && version_lt x (mkVersion (S (v_major v)) 0 0)
  end.

#[export] Instance Clause_eq_dec : EqDecision Clause.
Proof. solve_decision. Defined.

(** [version_range.match(version)] *)
Definition range_match (r : Range) (x : Version) : bool := forallb (fun c => clause_match c x) r.
End SemVer.
Export SemVer.

(** ** Manifest declarations and the app source *)

(** One entry of [manifest.dependencies]: [{version, package, optional}] and
    the target operating systems it applies to. *)
Record Dependency := mkDependency {
  dep_version : Range;
  dep_package : option string;
  dep_optional : bool;
  dep_os : option (list string);
}.

(** One entry of [manifest.inputGroups]: [requires] maps a dependency alias
    to the input groups of that dependency the group needs.  The entry is
    an object view: [ig_has_requires] is whether it has the attribute
    [requires] at all (reading a missing one raises [AttributeError]),
    [ig_requires] its value, [None] for a JSON [null]. *)
Record InputGroup := mkInputGroup {
  ig_requires : option (list (string * gset string));
  ig_has_requires : bool;
}.

(** An app source is identified by its package file name ([src_package]),
    the key under which the repository caches it. *)
Record AppSource := mkAppSource {
  src_package : string;
  src_id : string;
  src_group : option string;
  src_version : Version;
  src_has_manifest : bool;
  src_dependencies : option (list (string * Dependency));
  src_input_groups : option (list (string * InputGroup));
  src_target_workloads : option (list string);
}.

(** App sources are compared structurally; the repository cache keeps one
    object per package, so this matches the identity the code relies on. *)
#[export] Instance Dependency_eq_dec : EqDecision Dependency.
Proof. solve_decision. Defined.
#[export] Instance InputGroup_eq_dec : EqDecision InputGroup.
Proof. solve_decision. Defined.
#[export] Instance AppSource_eq_dec : EqDecision AppSource.
Proof. solve_decision. Defined.

(** [SlimTargetOSWildcard] *)
Definition target_os_wildcard : string := "*".

(** [AppSource.get_dependencies_for_target_os(target_os)]: the declared
    dependencies that apply to [target_os], in declaration order. *)
Definition dependencies_for_target_os (s : AppSource) (target_os : string)
    : list (string * Dependency) :=
  List.filter (fun nd => match dep_os nd.2 with
                         | None => true
                         | Some oss => bool_decide (target_os = target_os_wildcard ∨ target_os ∈ oss)
                         end)
         (default [] (src_dependencies s)).
