(* ===== verification/InputGroups.v ===== *)
(** * Input-group sets ([AppDeploymentSpecification] sentinels and [_union_of])

    src/slim/app/_deployment.py: [all_input_groups = frozenset('*')],
    [no_input_groups = frozenset()], [AppDependencyGraph._union_of],
    [is_all_input_groups], [are_no_input_groups] and the
    [InputGroupsConverter].  A frozenset of strings is a [gset string]. *)

From stdpp Require Import base list gmap strings sets.
From S2P Require Import Prelude.

Module InputGroups.

Definition wildcard : string := "*".

(** [AppDeploymentSpecification.all_input_groups]: [frozenset('*')] *)
Definition all_input_groups : gset string := {[ wildcard ]}.

(** [AppDeploymentSpecification.no_input_groups] *)
Definition no_input_groups : gset string := ∅.

(** [AppDependencyGraph._union_of] *)
Definition union_of (fg_1 fg_2 : gset string) : gset string :=
  if decide (wildcard ∈ fg_1 ∨ wildcard ∈ fg_2) then all_input_groups else fg_1 ∪ fg_2.

(** [is_all_input_groups]: absent ([None]) or exactly the wildcard set. *)
Definition is_all_input_groups (o : option (gset string)) : bool :=
  match o with
  | None => true
  | Some g => bool_decide (g = all_input_groups)
  end.

(** [are_no_input_groups] *)
Definition are_no_input_groups (g : gset string) : bool := bool_decide (g = no_input_groups).

(** [InputGroupsConverter.convert_from] *)
Definition input_groups_convert (value : list string) : gset string :=
  match value with
  | [] => no_input_groups
  | _ => let s : gset string := list_to_set value in
         if decide (wildcard ∈ s) then all_input_groups else s
  end.

(** A set is normalised when it names the wildcard only as [ALL] itself;
    the converter produces only such sets. *)
Definition normalized (g : gset string) : Prop := wildcard ∈ g → g = all_input_groups.

#[export] Instance normalized_dec g : Decision (normalized g).
Proof. unfold normalized. apply _. Defined.

(** The fold that merges the requirement sets of several groups, in the
    iteration order of a frozenset. *)
Definition union_all (base : gset string) (gs : list (gset string)) : gset string :=
  foldl union_of base gs.

(** ** Algebra of [union_of] *)

Lemma elem_of_all_input_groups x : x ∈ all_input_groups ↔ x = wildcard.
Proof. unfold all_input_groups. set_solver. Qed.

Lemma union_of_spec a b :
  (wildcard ∈ a ∨ wildcard ∈ b → union_of a b = all_input_groups) ∧
  (wildcard ∉ a → wildcard ∉ b → union_of a b = a ∪ b).
Proof. unfold union_of. split; intros; case_decide; naive_solver. Qed.

Lemma union_of_comm a b : union_of a b = union_of b a.
Proof. unfold union_of. do 2 case_decide; [done|naive_solver..|set_solver]. Qed.

Lemma union_of_wildcard a b : wildcard ∈ union_of a b ↔ wildcard ∈ a ∨ wildcard ∈ b.
Proof. unfold union_of. case_decide; [rewrite elem_of_all_input_groups|]; set_solver. Qed.

Lemma union_of_assoc a b c : union_of a (union_of b c) = union_of (union_of a b) c.
Proof.
  destruct (decide (wildcard ∈ a ∨ wildcard ∈ b ∨ wildcard ∈ c)) as [Hw|Hw].
  - rewrite (proj1 (union_of_spec _ _)), (proj1 (union_of_spec (union_of a b) c)); [done| |].
    all: rewrite ?union_of_wildcard; naive_solver.
  - rewrite !(proj2 (union_of_spec _ _)); rewrite ?union_of_wildcard; [set_solver|naive_solver..].
Qed.

Lemma union_of_subseteq a b : union_of a b ⊆ a ∪ b.
Proof.
  unfold union_of. case_decide; [|done].
  intros x. rewrite elem_of_all_input_groups. set_solver.
Qed.

Lemma union_of_normalized a b : normalized (union_of a b).
Proof.
  unfold normalized, union_of. case_decide; [done|]. set_solver.
Qed.

Lemma union_of_all_input_groups_l b : union_of all_input_groups b = all_input_groups.
Proof. apply union_of_spec. left. by apply elem_of_all_input_groups. Qed.

Lemma union_of_no_input_groups_l b : normalized b → union_of no_input_groups b = b.
Proof.
  unfold union_of, no_input_groups, normalized. intros Hn. case_decide as Hw.
  - symmetry. apply Hn. set_solver.
  - set_solver.
Qed.

Lemma union_of_idem a : normalized a → union_of a a = a.
Proof.
  unfold union_of, normalized. intros Hn. case_decide as Hw.
  - symmetry. apply Hn. naive_solver.
  - set_solver.
Qed.

(** Folding [union_of] does not depend on the iteration order. *)
#[export] Instance union_all_proper base :
  Proper ((≡ₚ) ==> (=)) (union_all base).
Proof.
  intros gs gs' Hp. unfold union_all. revert base.
  induction Hp as [|g l l' _ IH|g g' l|l l' l'' _ IH1 _ IH2]; intros base; simpl.
  - done.
  - apply IH.
  - by rewrite <-!union_of_assoc, (union_of_comm g g').
  - by rewrite IH1, IH2.
Qed.

Lemma union_all_subseteq base gs : union_all base gs ⊆ base ∪ ⋃ gs.
Proof.
  unfold union_all. revert base. induction gs as [|g gs IH]; intros base; simpl; [set_solver|].
  etrans; [apply IH|]. pose proof (union_of_subseteq base g). set_solver.
Qed.

Lemma input_groups_convert_normalized value : normalized (input_groups_convert value).
Proof.
  unfold input_groups_convert, normalized. destruct value; [set_solver|].
  case_decide; [done|]. intros Hw. set_solver.
Qed.

#[export] Hint Resolve union_of_normalized union_of_subseteq input_groups_convert_normalized : slim.

(** On normalised sets, [_union_of] has [ALL] as an absorbing element
    and [NONE] as a neutral one, is commutative, associative and
    idempotent, and yields a normalised set. *)
Theorem union_of_laws a b c :
  normalized a → normalized b →
  union_of all_input_groups a = all_input_groups ∧
  union_of no_input_groups a = a ∧
  union_of a b = union_of b a ∧
  union_of a (union_of b c) = union_of (union_of a b) c ∧
  union_of a a = a ∧
  normalized (union_of a b).
Proof.
  intros Ha Hb. split_and!; auto using union_of_all_input_groups_l, union_of_no_input_groups_l,
    union_of_comm, union_of_assoc, union_of_idem, union_of_normalized.
Qed.

Lemma union_of_laws_witness :
  (normalized {["in"]} ∧ normalized all_input_groups) ∧
  union_of {["in"]} all_input_groups = all_input_groups.
Proof.
  assert (Hn1 : normalized {["in"]}) by (intros Hw%elem_of_singleton; discriminate).
  assert (Hn2 : normalized all_input_groups) by (intros _; reflexivity).
  split; [done|].
  destruct (union_of_laws {["in"]} all_input_groups ∅ Hn1 Hn2) as (_ & _ & Hc & _).
  rewrite Hc. apply union_of_all_input_groups_l.
Defined.

(** [InputGroupsConverter.convert_from]: an empty list gives [NONE], a
    list naming [*] gives [ALL], any other list gives the set of its
    names; the result is always normalised. *)
Theorem input_groups_convert_spec value x :
  normalized (input_groups_convert value) ∧
  (x ∈ input_groups_convert value ↔
     if decide (wildcard ∈ value) then x = wildcard else x ∈ value).
Proof.
  unfold input_groups_convert. destruct value as [|v vs]; [split; [by intros ?|set_solver]|].
  case_decide as Hw; rewrite elem_of_list_to_set in Hw; case_decide; try done.
  - split; [done|apply elem_of_all_input_groups].
  - split; [intros Hn; set_solver|]. by rewrite elem_of_list_to_set.
Qed.
End InputGroups.
Export InputGroups.
