(* ===== verification/Cycle.v ===== *)
(** * Cycle detection ([AppDependencyGraph._is_cyclic])

    src/slim/app/_deployment.py lines 430-449: a depth-first search with a
    shared [visited] set and the set [graph_path] of the nodes on the
    current recursion path; meeting a neighbour that is on the path is a
    back edge.  The search is generic in the node type: the dependency
    graph instantiates it with app sources.

    The recursion is given fuel; [is_cyclic] supplies one more unit than the
    number of nodes and successors, which [is_cyclic_fuel_enough] shows is
    never exhausted.  [is_cyclic_correct] shows the search answers exactly
    the reference question "does some node reach itself". *)

From stdpp Require Import base list gmap relations sets.
From S2P Require Import Prelude.

Module Cycle.
Section Cycle.
Context {A : Type} `{EqDecision A}.
Implicit Types (g : list (A * list A)) (u v : A) (vis path : list A).

(** [graph.get(app_source, ())] *)
Definition succs g u : list A := default [] (od_get g u).

(** The loop [for neighbour in graph.get(app_source, ())] of [visit(u)],
    with [rec] the recursive call and [path] already extended by [u]. *)
Fixpoint visit_loop (rec : A → list A → list A → option (bool * list A))
    (path nbs vis : list A) : option (bool * list A) :=
  match nbs with
  | [] => Some (false, vis)
  | nb :: rest =>
      if decide (nb ∈ path) then Some (true, vis) else
      match rec nb vis path with
      | None => None
      | Some (true, vis') => Some (true, vis')
      | Some (false, vis') => visit_loop rec path rest vis'
      end
  end.

(** [visit(app_source)]; returns the answer and the updated [visited]. *)
Fixpoint visit (fuel : nat) g u vis path : option (bool * list A) :=
  match fuel with
  | 0 => None
  | S f =>
      if decide (u ∈ vis) then Some (false, vis)
      else visit_loop (visit f g) (u :: path) (succs g u) (u :: vis)
  end.

(** [any(visit(app_source) for app_source in graph)] *)
Fixpoint any_visit (fuel : nat) g (ns vis : list A) : option bool :=
  match ns with
  | [] => Some false
  | n :: ns' =>
      match visit fuel g n vis [] with
      | None => None
      | Some (true, _) => Some true
      | Some (false, vis') => any_visit fuel g ns' vis'
      end
  end.

(** Every node the search can meet. *)
Definition universe g : list A := od_keys g ++ concat (map snd g).

Definition is_cyclic_fuel (fuel : nat) g : option bool := any_visit fuel g (od_keys g) [].

(** [AppDependencyGraph._is_cyclic] *)
Definition is_cyclic g : bool := default false (is_cyclic_fuel (S (length (universe g))) g).

(** The reference: some node reaches itself through one or more edges. *)
Definition edge g u v : Prop := v ∈ succs g u.
Definition has_cycle g : Prop := ∃ u, tc (edge g) u u.

(** ** Soundness: a [true] answer exhibits a cycle *)

Lemma visit_true_cycle f g u vis path vis' :
  visit f g u vis path = Some (true, vis') →
  (∀ p, p ∈ path → rtc (edge g) p u) → has_cycle g.
Proof.
  revert u vis path vis'. induction f as [|f IH]; intros u vis path vis'; simpl; [done|].
  case_decide; [done|]. intros Hrun Hpath.
  assert (Hsub : ∀ nb, nb ∈ succs g u → edge g u nb) by (intros; done).
  revert Hrun Hsub. generalize (u :: vis) as vis0. generalize (succs g u) as nbs.
  intros nbs. induction nbs as [|nb nbs IHn]; intros vis0 Hrun Hsub; simpl in Hrun; [done|].
  assert (Hedge : edge g u nb) by (apply Hsub; set_solver).
  case_decide as Hin.
  - exists nb. apply elem_of_cons in Hin as [Heq|Hin].
    + subst nb. by apply tc_once.
    + eapply tc_rtc_l; [by apply Hpath|by apply tc_once].
  - destruct (visit f g nb vis0 (u :: path)) as [[[|] vis1]|] eqn:Hv; [|simpl in Hrun|done].
    2:{ eapply IHn; [exact Hrun|]. intros x Hx. apply Hsub. set_solver. }
    simplify_eq. eapply IH; [exact Hv|]. intros p Hp. apply elem_of_cons in Hp as [Hp|Hp].
    + subst p. by apply rtc_once.
    + eapply rtc_r; [by apply Hpath|done].
Qed.

(** ** Completeness: a [false] answer rules out every cycle

    The finished nodes (visited, off the path) are closed under edges and
    none lies on a cycle. *)

Definition dfs_inv g vis path : Prop :=
  (∀ x y, x ∈ vis → x ∉ path → edge g x y → y ∈ vis ∧ y ∉ path) ∧
  (∀ x, x ∈ vis → x ∉ path → ¬ tc (edge g) x x).

Lemma dfs_inv_rtc g vis path x z :
  dfs_inv g vis path → x ∈ vis → x ∉ path → rtc (edge g) x z → z ∈ vis ∧ z ∉ path.
Proof. intros [Hcl _] Hx Hp Hr. induction Hr as [|x y z Hxy _ IH]; [done|]. apply IH; apply (Hcl x y); done. Qed.

Lemma dfs_inv_push g vis path u :
  u ∉ vis → dfs_inv g vis path → dfs_inv g (u :: vis) (u :: path).
Proof.
  intros Hu [Hcl Hac]. split.
  - intros x y [->|Hx]%elem_of_cons Hxp Hxy; [set_solver|].
    destruct (Hcl x y) as [Hy Hyp]; [done|set_solver|done|].
    split; [set_solver|]. intros [->|]%elem_of_cons; [done|done].
  - intros x Hx Hxp. apply Hac; set_solver.
Qed.

Lemma dfs_inv_pop g vis path u :
  dfs_inv g vis (u :: path) → u ∈ vis →
  (∀ y, edge g u y → y ∈ vis ∧ y ∉ u :: path) → dfs_inv g vis path.
Proof.
  intros [Hcl Hac] Hu Hsucc. split.
  - intros x y Hx Hxp Hxy. destruct (decide (x = u)) as [->|Hne].
    + destruct (Hsucc y Hxy). set_solver.
    + destruct (Hcl x y); set_solver.
  - intros x Hx Hxp Hcyc. destruct (decide (x = u)) as [->|Hne].
    + assert (∃ y, edge g u y ∧ rtc (edge g) y u) as (y & Hy & Hyu).
      { inversion Hcyc; subst; eauto using tc_rtc. }
      destruct (Hsucc y Hy).
      destruct (dfs_inv_rtc g vis (u :: path) y u) as [_ Hbad]; [split; done|done|done|done|].
      set_solver.
    + apply (Hac x); set_solver.
Qed.

Lemma visit_false_inv f g u vis path vis' :
  visit f g u vis path = Some (false, vis') → dfs_inv g vis path → u ∉ path →
  dfs_inv g vis' path ∧ u ∈ vis' ∧ vis ⊆ vis'.
Proof.
  revert u vis path vis'. induction f as [|f IH]; intros u vis path vis'; simpl; [done|].
  case_decide as Hu; [intros; simplify_eq; done|]. intros Hrun Hinv Hup.
  assert (Hloop : ∀ nbs vis0, visit_loop (visit f g) (u :: path) nbs vis0 = Some (false, vis') →
            dfs_inv g vis0 (u :: path) →
            dfs_inv g vis' (u :: path) ∧ vis0 ⊆ vis' ∧ ∀ nb, nb ∈ nbs → nb ∈ vis' ∧ nb ∉ u :: path).
  { intros nbs. induction nbs as [|nb nbs IHn]; intros vis0 Hl Hi; simpl in Hl.
    - simplify_eq. set_solver.
    - case_decide as Hnb; [done|].
      destruct (visit f g nb vis0 (u :: path)) as [[[|] vis1]|] eqn:Hv; [done| |done].
      destruct (IH _ _ _ _ Hv Hi Hnb) as (Hi1 & Hnb1 & Hsub1).
      destruct (IHn vis1 Hl Hi1) as (Hi2 & Hsub2 & Hall).
      split_and!; [done|set_solver|]. intros x [->|Hx]%elem_of_cons; [set_solver|by apply Hall]. }
  destruct (Hloop _ _ Hrun (dfs_inv_push g vis path u Hu Hinv)) as (Hi & Hsub & Hall).
  split_and!; [|set_solver|set_solver].
  apply (dfs_inv_pop g vis' path u Hi); [set_solver|]. intros y Hy. by apply Hall.
Qed.

Lemma any_visit_false_inv f g ns vis :
  any_visit f g ns vis = Some false → dfs_inv g vis [] →
  ∃ vis', dfs_inv g vis' [] ∧ vis ⊆ vis' ∧ ∀ n, n ∈ ns → n ∈ vis'.
Proof.
  revert vis. induction ns as [|n ns IH]; intros vis; simpl.
  - intros _ Hi. exists vis. set_solver.
  - destruct (visit f g n vis []) as [[[|] vis1]|] eqn:Hv; [done| |done]. intros Hrun Hi.
    destruct (visit_false_inv _ _ _ _ _ _ Hv Hi) as (Hi1 & Hn & Hsub); [set_solver|].
    destruct (IH vis1 Hrun Hi1) as (vis' & Hi' & Hsub' & Hall). exists vis'.
    split_and!; [done|set_solver|]. intros x [->|Hx]%elem_of_cons; [set_solver|by apply Hall].
Qed.

(** ** Fuel: one unit per node not yet visited, plus one *)

Definition unvisited (U vis : list A) : nat := length (filter (λ x, x ∉ vis) U).

Lemma unvisited_mono U vis vis' : vis ⊆ vis' → unvisited U vis' ≤ unvisited U vis.
Proof.
  intros Hs. unfold unvisited. induction U as [|x U IH]; simpl; [done|].
  rewrite !filter_cons. repeat case_decide; simpl; [lia|set_solver|lia|lia].
Qed.

Lemma unvisited_lt U vis u : u ∈ U → u ∉ vis → unvisited U (u :: vis) < unvisited U vis.
Proof.
  intros HU Hv. unfold unvisited. induction U as [|x U IH]; [set_solver|].
  rewrite !filter_cons. apply elem_of_cons in HU as [<-|HU].
  - rewrite decide_False by set_solver. rewrite decide_True by done. simpl.
    assert (Hm : unvisited U (u :: vis) ≤ unvisited U vis) by (apply unvisited_mono; set_solver).
    unfold unvisited in Hm. lia.
  - specialize (IH HU). repeat case_decide; simpl; try lia; set_solver.
Qed.

Lemma unvisited_le U vis : unvisited U vis ≤ length U.
Proof. apply length_filter. Qed.

Lemma visit_loop_mono (rec : A → list A → list A → option (bool * list A)) path nbs vis (b : bool) vis' :
  (∀ nb w (b' : bool) w', rec nb w path = Some (b', w') → w ⊆ w') →
  visit_loop rec path nbs vis = Some (b, vis') → vis ⊆ vis'.
Proof.
  intros Hrec. revert vis. induction nbs as [|nb nbs IH]; intros vis; simpl.
  - intros; simplify_eq; done.
  - case_decide; [intros; simplify_eq; done|].
    destruct (rec nb vis path) as [[[|] w]|] eqn:Hv; intros Hl; simplify_eq.
    + by eapply Hrec.
    + etrans; [by eapply Hrec|by apply IH].
Qed.

Lemma visit_mono f g u vis path (b : bool) vis' : visit f g u vis path = Some (b, vis') → vis ⊆ vis'.
Proof.
  revert u vis path b vis'. induction f as [|f IH]; intros u vis path b vis'; simpl; [done|].
  case_decide; [intros; simplify_eq; done|]. intros Hl.
  etrans; [|eapply visit_loop_mono; [|exact Hl]]; [set_solver|]. intros. by eapply IH.
Qed.

Lemma succs_universe g u v : v ∈ succs g u → v ∈ universe g.
Proof.
  unfold succs, universe. destruct (od_get g u) as [l|] eqn:Hg; simpl; [|set_solver].
  apply od_get_Some_in in Hg. intros Hv. apply elem_of_app. right.
  apply list_elem_of_In, in_concat. exists l. split; [|by apply list_elem_of_In].
  apply in_map_iff. exists (u, l). split; [done|by apply list_elem_of_In].
Qed.

Lemma visit_total f g u vis path :
  u ∈ universe g → unvisited (universe g) vis < f → is_Some (visit f g u vis path).
Proof.
  revert u vis path. induction f as [|f IH]; intros u vis path HuU Hf; [lia|simpl].
  case_decide as Hu; [by eexists|].
  pose proof (unvisited_lt (universe g) vis u HuU Hu) as Hlt.
  assert (Hnbs : ∀ nb, nb ∈ succs g u → nb ∈ universe g) by eauto using succs_universe.
  assert (Hsub : u :: vis ⊆ u :: vis) by done.
  revert Hnbs Hsub. generalize (u :: vis) at 2 3 as vis0. generalize (succs g u) as nbs.
  intros nbs. induction nbs as [|nb nbs IHn]; intros vis0 Hnbs Hsub; simpl; [by eexists|].
  case_decide; [by eexists|].
  pose proof (unvisited_mono (universe g) _ _ Hsub).
  destruct (IH nb vis0 (u :: path)) as [[[|] w] Hv]; [set_solver|lia|rewrite Hv; by eexists|].
  rewrite Hv. apply IHn; [set_solver|]. pose proof (visit_mono _ _ _ _ _ _ _ Hv). set_solver.
Qed.

Lemma any_visit_total g ns vis :
  ns ⊆ universe g → is_Some (any_visit (S (length (universe g))) g ns vis).
Proof.
  revert vis. induction ns as [|n ns IH]; intros vis Hns; cbn [any_visit]; [by eexists|].
  destruct (visit_total (S (length (universe g))) g n vis []) as [[[|] w] Hv];
    [set_solver|pose proof (unvisited_le (universe g) vis); lia|rewrite Hv; by eexists|].
  rewrite Hv. apply IH. set_solver.
Qed.

Lemma is_cyclic_fuel_enough g : is_Some (is_cyclic_fuel (S (length (universe g))) g).
Proof. apply any_visit_total. unfold universe. set_solver. Qed.

Lemma edge_source_key g u v : edge g u v → u ∈ od_keys g.
Proof.
  unfold edge, succs. destruct (od_get g u) eqn:Hg; simpl; [|set_solver].
  intros _. by eapply od_get_Some_elem.
Qed.

Lemma any_visit_true_cycle f g ns vis : any_visit f g ns vis = Some true → has_cycle g.
Proof.
  revert vis. induction ns as [|n ns IH]; intros vis; cbn [any_visit]; [done|].
  destruct (visit f g n vis []) as [[[|] w]|] eqn:Hv; [|apply IH|done].
  intros _. eapply visit_true_cycle; [exact Hv|]. set_solver.
Qed.

Lemma tc_source_key g u v : tc (edge g) u v → u ∈ od_keys g.
Proof. intros Ht. inversion Ht; subst; eauto using edge_source_key. Qed.

Lemma is_cyclic_sound g : is_cyclic g = true → has_cycle g.
Proof.
  unfold is_cyclic. destruct (is_cyclic_fuel_enough g) as [b Hb]. rewrite Hb. simpl.
  intros ->. by eapply any_visit_true_cycle.
Qed.

Lemma is_cyclic_complete g : has_cycle g → is_cyclic g = true.
Proof.
  unfold is_cyclic. destruct (is_cyclic_fuel_enough g) as [b Hb]. rewrite Hb. simpl.
  unfold is_cyclic_fuel in Hb. intros [u Hu]. destruct b; [done|].
  destruct (any_visit_false_inv _ _ _ _ Hb) as (vis' & [_ Hac] & _ & Hall); [split; set_solver|].
  destruct (Hac u); [apply Hall; by eapply tc_source_key|set_solver|done].
Qed.

(** C1. [_is_cyclic] answers [True] exactly when some node of the graph
    reaches itself through one or more edges: the depth-first search with
    a shared [visited] set decides the reference property [has_cycle],
    whatever the order in which it starts from the nodes. *)
Theorem is_cyclic_correct g : is_cyclic g = true ↔ has_cycle g.
Proof. split; [apply is_cyclic_sound|apply is_cyclic_complete]. Qed.
End Cycle.
End Cycle.
