(* ===== verification/DependencyGraph.v ===== *)
(** * Construction of the dependency graph ([AppDependencyGraph.__init__])

    src/slim/app/_deployment.py lines 72-458.  The graph maps each app
    source to the ordered set of its resolved dependencies ([g_graph]), the
    reverse map of dependents ([g_dependents]), the resolved dependency list
    the code stores on each source as [_dependencies] ([g_resolved]), and
    the repository cache [_repository_sources], which resolution updates.
    The breadth-first loop of [_add_source] is given fuel; [add_source]
    supplies enough (theorem [add_source_total] below). *)

From stdpp Require Import base list gmap strings sets relations.
From S2P Require Import Prelude AppSource Cycle.

Module DependencyGraph.

(** What the constructor receives: the root, the root's bundled
    [dependency_sources], the repository ([populate_dependency_sources]),
    the [installed_packages] index and the target OS. *)
Record GraphEnv := mkGraphEnv {
  env_root : AppSource;
  env_dependency_sources : gmap string AppSource;
  env_repository : gmap string AppSource;
  env_installed : option (list (string * string));
  env_target_os : string;
}.

Record Graph := mkGraph {
  g_graph : list (AppSource * list AppSource);
  g_dependents : list (AppSource * list (Dependency * AppSource));
  g_resolved : list (AppSource * list (Dependency * AppSource));
  g_repository : gmap string AppSource;
}.

Definition empty_graph (env : GraphEnv) : Graph := mkGraph [] [] [] (env_repository env).

(** A Python string used as a condition: the empty string is false. *)
Definition truthy_string (o : option string) : option string :=
  match o with
  | Some p => if decide (p = "") then None else Some p
  | None => None
  end.

(** [self._installed_packages and self._installed_packages.get(name)] *)
Definition installed_package (inst : option (list (string * string))) (name : string)
    : option string :=
  match inst with
  | None | Some [] => None
  | Some l => truthy_string (od_get l name)
  end.

(** The package a declaration names: [dependency.package] if set, else
    the installed package of that name. *)
Definition dependency_package (env : GraphEnv) (name : string) (dep : Dependency) : option string :=
  match truthy_string (dep_package dep) with
  | Some p => Some p
  | None => installed_package (env_installed env) name
  end.

(** [dependency_sources[package]], falling back on [repository_sources[package]] *)
Definition lookup_source (ds repo : gmap string AppSource) (p : string) : option AppSource :=
  match ds !! p with
  | Some s => Some s
  | None => repo !! p
  end.

(** One iteration of the loop of [_get_dependencies] (lines 337-380). *)
Definition get_dependency_step (env : GraphEnv) (app : AppSource)
    (acc : list (Dependency * AppSource) * gmap string AppSource * Diag)
    (nd : string * Dependency) : list (Dependency * AppSource) * gmap string AppSource * Diag :=
  let '(deps, repo, d) := acc in
  let '(name, dep) := nd in
  match dependency_package env name dep with
  | None =>
      if dep_optional dep then
        (deps, repo, add_missing_optional_dependency name (log_warning (MsgOptionalSkipped name) d))
      else
        (deps, repo, set_status StatusMissingDependencies
                       (add_missing_dependency name (log_warning (MsgDynamicSkipped name) d)))
  | Some package =>
      match lookup_source (env_dependency_sources env) repo package with
      | None =>
          (deps, repo, set_status StatusMissingDependencies
                         (add_missing_dependency name (log_error (MsgStaticNotFound package) d)))
      | Some ds =>
          let repo' := <[package := ds]> repo in
          if negb (src_has_manifest ds) then (deps, repo', d) else
          let d' := if range_match (dep_version dep) (src_version ds) then d
                    else log_error (MsgOutsideRange (src_id app) name (src_package ds)) d in
          (deps ++ [(dep, ds)], repo', d')
      end
  end.

(** [_get_dependencies(app_source)] *)
Definition get_dependencies (env : GraphEnv) (app : AppSource) (repo : gmap string AppSource)
    (d : Diag) : list (Dependency * AppSource) * gmap string AppSource * Diag :=
  match src_dependencies app with
  | None => ([], repo, d)
  | Some _ => foldl (get_dependency_step env app) ([], repo, d)
                    (dependencies_for_target_os app (env_target_os env))
  end.

(** [dependents.append((app_dependency, app_source))] for each resolved
    dependency, creating the entry on first use. *)
Definition record_dependents (s : AppSource) (deps : list (Dependency * AppSource))
    (m : list (AppSource * list (Dependency * AppSource)))
    : list (AppSource * list (Dependency * AppSource)) :=
  foldl (λ m dd, od_set m dd.2 (default [] (od_get m dd.2) ++ [(dd.1, s)])) m deps.

(** The [while len(queue) > 0] loop of [_add_source] (lines 288-306):
    [queue.pop()] takes the rightmost source, [queue.extendleft] pushes
    the new dependency sources on the left. *)
Fixpoint add_source_loop (fuel : nat) (env : GraphEnv) (queue : list AppSource)
    (g : Graph) (d : Diag) : option (Graph * Diag) :=
  match fuel with
  | 0 => None
  | S f =>
      match dq_pop queue with
      | None => Some (g, d)
      | Some (s, queue') =>
          if decide (s ∈ od_keys (g_graph g)) then add_source_loop f env queue' g d
          else
            let '(deps, repo, d') := get_dependencies env s (g_repository g) d in
            let srcs := map snd deps in
            add_source_loop f env (dq_extendleft srcs queue')
              (mkGraph (od_set (g_graph g) s (ordered_set srcs))
                       (record_dependents s deps (g_dependents g))
                       (od_set (g_resolved g) s deps)
                       repo) d'
      end
  end.

(** The sources construction can meet, and the largest number of
    declarations one of them has: they bound the loop. *)
Definition env_universe (env : GraphEnv) : list AppSource :=
  env_root env :: map snd (map_to_list (env_dependency_sources env))
               ++ map snd (map_to_list (env_repository env)).

Definition max_declarations (env : GraphEnv) : nat :=
  foldr (λ s n, length (dependencies_for_target_os s (env_target_os env)) `max` n) 0 (env_universe env).

Definition graph_fuel (env : GraphEnv) : nat :=
  S (S (length (env_universe env) * S (max_declarations env))).

(** [_add_source(root)] *)
Definition add_source (env : GraphEnv) (d : Diag) : option (Graph * Diag) :=
  add_source_loop (graph_fuel env) env [env_root env] (empty_graph env) d.

(** [_check_dependencies()] (lines 308-316): logs every dependent whose
    required range excludes the selected version.  The method has no
    [return] statement: its value is [None], written [false] here. *)
Definition check_dependencies (g : Graph) (d : Diag) : Diag * bool :=
  (foldl (λ d sdeps,
            foldl (λ d dd,
                     if range_match (dep_version dd.1) (src_version sdeps.1) then d
                     else log_error (MsgVersionSelected (src_id sdeps.1) (src_id dd.2)) d)
                  d sdeps.2)
         d (g_dependents g), false).

(** [AppDependencyGraph.__init__] (lines 76-92). *)
Definition dependency_graph (env : GraphEnv) (d : Diag) : Graph * Diag :=
  let '(g, d1) := default (empty_graph env, d) (add_source env d) in
  if Cycle.is_cyclic (g_graph g) then (g, log_error (MsgCyclic (src_id (env_root env))) d1)
  else
    let '(d2, conflicted) := check_dependencies g d1 in
    if conflicted then (g, log_error (MsgConflicted (src_id (env_root env))) d2) else (g, d2).

(** A well-formed graph: the root is a node, every node carries the list
    of resolved dependencies whose sources are nodes, and its adjacency is
    the ordered set of those sources. *)
Definition graph_wf (root : AppSource) (g : Graph) : Prop :=
  root ∈ od_keys (g_graph g) ∧
  ∀ x, x ∈ od_keys (g_graph g) → ∃ l, od_get (g_resolved g) x = Some l ∧
       od_get (g_graph g) x = Some (ordered_set (map snd l)) ∧
       ∀ dd, dd ∈ l → dd.2 ∈ od_keys (g_graph g).

(** * Properties of the construction

  Termination of the [_add_source] loop, the set of nodes it builds (the
  sources reachable from the root by resolved dependencies), the FIFO
  order of the deque, and the diagnostics of [AppDependencyGraph.__init__]. *)

Section Env.
Context (env : GraphEnv).

Abbreviation U := (env_universe env).
Abbreviation B := (max_declarations env).

(** ** Everything construction touches stays in the universe *)

Definition repo_in_universe (repo : gmap string AppSource) : Prop :=
  ∀ p s, repo !! p = Some s → s ∈ U.

Lemma map_values_in {K} `{Countable K} (m : gmap K AppSource) p s :
  m !! p = Some s → s ∈ map snd (map_to_list m).
Proof.
  intros Hp. apply list_elem_of_fmap. exists (p, s). split; [done|].
  by apply elem_of_map_to_list.
Qed.

Lemma dependency_sources_in_universe p s :
  env_dependency_sources env !! p = Some s → s ∈ U.
Proof. intros Hp. apply elem_of_cons. right. apply elem_of_app. left. by eapply map_values_in. Qed.

Lemma env_repository_in_universe : repo_in_universe (env_repository env).
Proof. intros p s Hp. apply elem_of_cons. right. apply elem_of_app. right. by eapply map_values_in. Qed.

Lemma lookup_source_in_universe repo p s :
  repo_in_universe repo → lookup_source (env_dependency_sources env) repo p = Some s → s ∈ U.
Proof.
  unfold lookup_source. destruct (_ !! p) eqn:Hd; intros Hr Hs; simplify_eq;
    eauto using dependency_sources_in_universe.
Qed.

Definition step_in_universe (acc : list (Dependency * AppSource) * gmap string AppSource * Diag) :=
  (∀ dd, dd ∈ acc.1.1 → dd.2 ∈ U) ∧ repo_in_universe acc.1.2.

Lemma get_dependency_step_universe app acc nd :
  step_in_universe acc → step_in_universe (get_dependency_step env app acc nd).
Proof.
  destruct acc as [[deps repo] d], nd as [name dep]. unfold step_in_universe. simpl.
  intros [Hdeps Hrepo]. destruct (dependency_package env name dep) as [p|]; [|by destruct (dep_optional dep)].
  destruct (lookup_source _ repo p) as [ds|] eqn:Hl; [|done].
  assert (Hds : ds ∈ U) by eauto using lookup_source_in_universe.
  assert (Hrepo' : repo_in_universe (<[p:=ds]> repo)).
  { intros q s. rewrite lookup_insert. case_decide; intros; simplify_eq; eauto. }
  destruct (src_has_manifest ds); simpl; [|done]. split; [|done].
  intros dd [Hdd|Hdd%list_elem_of_singleton]%elem_of_app; [eauto|by subst].
Qed.

Lemma get_dependencies_universe app repo d :
  repo_in_universe repo →
  step_in_universe (get_dependencies env app repo d) ∧
  length (get_dependencies env app repo d).1.1 ≤ length (dependencies_for_target_os app (env_target_os env)).
Proof.
  intros Hr. unfold get_dependencies. destruct (src_dependencies app); [|split; [split; [set_solver|done]|simpl; lia]].
  split.
  - apply foldl_invariant; [split; [set_solver|done]|]. intros. by apply get_dependency_step_universe.
  - etrans; [apply (foldl_measure (λ acc, length acc.1.1))|simpl; lia].
    intros [[deps repo'] d'] [name dep]. simpl.
    destruct (dependency_package env name dep); [|destruct (dep_optional dep); simpl; lia].
    destruct (lookup_source _ _ _); [|simpl; lia]. destruct (src_has_manifest _); simpl; [|lia].
    rewrite length_app. simpl. lia.
Qed.

Lemma declarations_le_max s : s ∈ U → length (dependencies_for_target_os s (env_target_os env)) ≤ B.
Proof. apply (foldr_max_ge (λ s, length (dependencies_for_target_os s (env_target_os env)))). Qed.

(** ** Termination of [_add_source] *)

Definition loop_inv (q : list AppSource) (g : Graph) : Prop :=
  (∀ x, x ∈ q → x ∈ U) ∧ repo_in_universe (g_repository g) ∧
  NoDup (od_keys (g_graph g)) ∧ (∀ x, x ∈ od_keys (g_graph g) → x ∈ U).

Definition loop_measure (q : list AppSource) (g : Graph) : nat :=
  (length U - length (od_keys (g_graph g))) * S B + length q.

Lemma keys_le_universe (ks : list AppSource) : NoDup ks → (∀ x, x ∈ ks → x ∈ U) → length ks ≤ length U.
Proof.
  intros Hnd Hin. apply NoDup_incl_length; [by apply NoDup_ListNoDup|].
  intros x Hx. apply list_elem_of_In, Hin, list_elem_of_In, Hx.
Qed.

Lemma add_source_loop_total f q g d :
  loop_inv q g → loop_measure q g < f → is_Some (add_source_loop f env q g d).
Proof.
  revert q g d. induction f as [|f IH]; intros q g d Hinv Hm; [lia|]. simpl.
  destruct (dq_pop q) as [[s q']|] eqn:Hpop; [|by eexists].
  apply dq_pop_Some in Hpop as ->. destruct Hinv as (Hq & Hrepo & Hnd & Hkeys).
  unfold loop_measure in Hm. rewrite length_app in Hm. cbn [length] in Hm.
  case_decide as Hs.
  - apply IH; [split_and!; try done; set_solver|unfold loop_measure; lia].
  - destruct (get_dependencies env s (g_repository g) d) as [[deps repo] d'] eqn:Hgd.
    destruct (get_dependencies_universe s (g_repository g) d Hrepo) as [[Hdeps Hrepo'] Hlen].
    rewrite Hgd in Hdeps, Hrepo', Hlen. simpl in Hdeps, Hrepo', Hlen.
    assert (HsU : s ∈ U) by set_solver.
    pose proof (declarations_le_max s HsU).
    assert (Hnd' : NoDup (od_keys (od_set (g_graph g) s (ordered_set (map snd deps)))))
      by by apply od_keys_set_NoDup.
    assert (Hkeys' : ∀ x, x ∈ od_keys (od_set (g_graph g) s (ordered_set (map snd deps))) → x ∈ U).
    { intros x [->|Hx]%elem_of_od_keys_set; auto. }
    pose proof (keys_le_universe _ Hnd' Hkeys') as Hle.
    rewrite od_keys_set, decide_False in Hle by done. rewrite length_app in Hle. cbn [length] in Hle.
    apply IH.
    + split_and!; simpl; try done.
      intros x [Hx|Hx]%elem_of_dq_extendleft; [|set_solver].
      apply list_elem_of_fmap in Hx as (dd & -> & Hdd). auto.
    + unfold loop_measure. cbn [g_graph]. rewrite od_keys_set, decide_False by done.
      rewrite length_app, length_dq_extendleft, length_map. cbn [length].
      destruct (length U - length (od_keys (g_graph g))) as [|k] eqn:Hk; [lia|].
      replace (length U - (length (od_keys (g_graph g)) + 1)) with k by lia.
      cbn [Nat.mul] in Hm. lia.
Qed.

(** [_add_source] always finishes: the loop never exhausts the fuel
    [graph_fuel], one pass per node of the universe and declaration. *)
Theorem add_source_total d : is_Some (add_source env d).
Proof.
  apply add_source_loop_total.
  - split_and!; simpl; [|apply env_repository_in_universe|constructor|set_solver].
    intros x ->%list_elem_of_singleton. apply elem_of_cons. by left.
  - unfold loop_measure, graph_fuel. simpl. lia.
Qed.

(** ** Resolution does not depend on the repository cache

    [repository_sources[package] = dependency_source] only stores the
    source the lookup found, so every later lookup answers as before. *)

Definition repo_consistent (repo : gmap string AppSource) : Prop :=
  ∀ p, lookup_source (env_dependency_sources env) repo p =
       lookup_source (env_dependency_sources env) (env_repository env) p.

Lemma lookup_source_insert ds repo p s q :
  lookup_source ds repo p = Some s → lookup_source ds (<[p:=s]> repo) q = lookup_source ds repo q.
Proof.
  unfold lookup_source. intros Hp. destruct (ds !! q) eqn:Hq; [done|].
  rewrite lookup_insert. case_decide; [subst; by rewrite Hq in Hp|done].
Qed.

Lemma repo_consistent_insert repo p s :
  repo_consistent repo → lookup_source (env_dependency_sources env) repo p = Some s →
  repo_consistent (<[p:=s]> repo).
Proof. intros Hc Hl q. rewrite (lookup_source_insert _ _ _ _ _ Hl). apply Hc. Qed.

(** The dependencies [_get_dependencies] resolves for [s]. *)
Definition resolve (s : AppSource) : list (Dependency * AppSource) :=
  (get_dependencies env s (env_repository env) diag0).1.1.

Lemma fold_steps_consistent app l deps repo1 repo2 d1 d2 :
  repo_consistent repo1 → repo_consistent repo2 →
  (foldl (get_dependency_step env app) (deps, repo1, d1) l).1.1 =
    (foldl (get_dependency_step env app) (deps, repo2, d2) l).1.1 ∧
  repo_consistent (foldl (get_dependency_step env app) (deps, repo1, d1) l).1.2.
Proof.
  revert deps repo1 repo2 d1 d2. induction l as [|[name dep] l IH]; intros deps repo1 repo2 d1 d2 H1 H2;
    simpl; [done|].
  destruct (dependency_package env name dep) as [p|]; [|destruct (dep_optional dep); by apply IH].
  rewrite (H1 p), (H2 p).
  destruct (lookup_source _ (env_repository env) p) as [ds|] eqn:Hl; [|by apply IH].
  assert (Hc1 : repo_consistent (<[p:=ds]> repo1)) by (apply repo_consistent_insert; [|rewrite H1]; done).
  assert (Hc2 : repo_consistent (<[p:=ds]> repo2)) by (apply repo_consistent_insert; [|rewrite H2]; done).
  destruct (src_has_manifest ds); simpl; by apply IH.
Qed.

Lemma get_dependencies_consistent s repo d :
  repo_consistent repo →
  (get_dependencies env s repo d).1.1 = resolve s ∧ repo_consistent (get_dependencies env s repo d).1.2.
Proof.
  intros Hc. unfold resolve, get_dependencies. destruct (src_dependencies s); [|done].
  assert (Henv : repo_consistent (env_repository env)) by (intros p; done).
  destruct (fold_steps_consistent s (dependencies_for_target_os s (env_target_os env)) [] repo
              (env_repository env) d diag0 Hc Henv).
  done.
Qed.

(** ** The nodes are exactly the sources reachable from the root *)

Definition dep_edge (a b : AppSource) : Prop := b ∈ map snd (resolve a).
Definition reachable (s : AppSource) : Prop := rtc dep_edge (env_root env) s.

(** The reverse map: each dependent is a node that resolved the entry's
    source through that declaration. *)
Definition dependents_ok (g : Graph) : Prop :=
  ∀ k l dd, (k, l) ∈ g_dependents g → dd ∈ l →
    dd.2 ∈ od_keys (g_graph g) ∧ (dd.1, k) ∈ resolve dd.2.

Definition reach_inv (q : list AppSource) (g : Graph) : Prop :=
  repo_consistent (g_repository g) ∧
  (∀ x, x ∈ od_keys (g_graph g) →
        od_get (g_graph g) x = Some (ordered_set (map snd (resolve x))) ∧
        od_get (g_resolved g) x = Some (resolve x)) ∧
  (∀ x y, x ∈ od_keys (g_graph g) → dep_edge x y → y ∈ od_keys (g_graph g) ∨ y ∈ q) ∧
  (env_root env ∈ od_keys (g_graph g) ∨ env_root env ∈ q) ∧
  (∀ x, x ∈ od_keys (g_graph g) ∨ x ∈ q → reachable x) ∧
  dependents_ok g.

Lemma record_dependents_ok (P : AppSource → Dependency * AppSource → Prop) s deps m :
  (∀ k l dd, (k, l) ∈ m → dd ∈ l → P k dd) → (∀ dd, dd ∈ deps → P dd.2 (dd.1, s)) →
  ∀ k l dd, (k, l) ∈ record_dependents s deps m → dd ∈ l → P k dd.
Proof.
  intros Hm Hdeps. unfold record_dependents.
  apply (foldl_invariant (λ m, ∀ k l dd, (k, l) ∈ m → dd ∈ l → P k dd)); [done|].
  intros m' dd0 Hdd0 Hm' k l dd [Hkl|Hkl]%elem_of_od_set Hdd; [|by eapply Hm'].
  simplify_eq. apply elem_of_app in Hdd as [Hdd|Hdd%list_elem_of_singleton].
  - destruct (od_get m' dd0.2) as [l0|] eqn:Hg; [|set_solver].
    eapply Hm'; [by apply od_get_Some_in|done].
  - subst. by apply Hdeps.
Qed.

Lemma reach_inv_skip s q' g :
  s ∈ od_keys (g_graph g) → reach_inv (q' ++ [s]) g → reach_inv q' g.
Proof.
  intros Hs (Hc & Hadj & Hcl & Hroot & Hr & Hdep). split_and!; [done|done| |set_solver|set_solver|done].
  intros x y Hx Hxy. destruct (Hcl x y Hx Hxy) as [|Hy]; [by left|].
  apply elem_of_app in Hy as [Hy|Hy%list_elem_of_singleton]; [by right|subst; by left].
Qed.

Lemma reach_inv_process s q' g deps repo d'' :
  s ∉ od_keys (g_graph g) → reach_inv (q' ++ [s]) g →
  (deps, repo) = (get_dependencies env s (g_repository g) d'').1 →
  deps = resolve s ∧
  reach_inv (dq_extendleft (map snd deps) q')
    (mkGraph (od_set (g_graph g) s (ordered_set (map snd deps)))
             (record_dependents s deps (g_dependents g))
             (od_set (g_resolved g) s deps) repo).
Proof.
  intros Hs (Hc & Hadj & Hcl & Hroot & Hr & Hdep) Hgd.
  destruct (get_dependencies_consistent s (g_repository g) d'' Hc) as [Hdeps Hc'].
  rewrite <-Hgd in Hdeps, Hc'. simpl in Hdeps, Hc'. subst deps. split; [done|].
  assert (Hrs : reachable s) by (apply Hr; set_solver).
  unfold reach_inv. cbn [g_graph g_resolved g_repository g_dependents]. split_and!.
  - done.
  - intros x [->|Hx]%elem_of_od_keys_set; [rewrite !od_get_set_eq; done|].
    assert (x ≠ s) by (intros ->; done). rewrite !od_get_set_ne by done. by apply Hadj.
  - intros x y [->|Hx]%elem_of_od_keys_set Hxy.
    + right. apply elem_of_dq_extendleft. by left.
    + rewrite elem_of_od_keys_set, elem_of_dq_extendleft.
      destruct (Hcl x y Hx Hxy) as [|[Hy|Hy%list_elem_of_singleton]%elem_of_app]; subst; naive_solver.
  - rewrite elem_of_od_keys_set, elem_of_dq_extendleft.
    destruct Hroot as [|[|Hy%list_elem_of_singleton]%elem_of_app]; subst; naive_solver.
  - intros x. rewrite elem_of_od_keys_set, elem_of_dq_extendleft.
    intros [[->|Hx]|[Hx|Hx]]; [done|apply Hr; by left| |apply Hr; set_solver].
    eapply rtc_r; [exact Hrs|exact Hx].
  - unfold dependents_ok. cbn [g_dependents g_graph].
    apply (record_dependents_ok (λ k dd, dd.2 ∈ od_keys (od_set (g_graph g) s (ordered_set (map snd (resolve s))))
                                           ∧ (dd.1, k) ∈ resolve dd.2)).
    + intros k l dd Hkl Hdd. destruct (Hdep k l dd Hkl Hdd). rewrite elem_of_od_keys_set. naive_solver.
    + intros [dep k] Hdd. simpl. rewrite elem_of_od_keys_set. naive_solver.
Qed.

Lemma add_source_loop_reach f q g d g' d' :
  add_source_loop f env q g d = Some (g', d') → reach_inv q g → reach_inv [] g'.
Proof.
  revert q g d. induction f as [|f IH]; intros q g d; simpl; [done|].
  destruct (dq_pop q) as [[s q']|] eqn:Hpop; [|intros; simplify_eq; by apply dq_pop_None in Hpop as <-].
  apply dq_pop_Some in Hpop as ->. intros Hrun Hinv.
  case_decide as Hs; [by eapply IH, reach_inv_skip|].
  destruct (get_dependencies env s (g_repository g) d) as [[deps repo] d''] eqn:Hgd.
  eapply IH; [exact Hrun|]. eapply reach_inv_process; [done|done|]. by rewrite Hgd.
Qed.

Lemma reach_inv_init : reach_inv [env_root env] (empty_graph env).
Proof.
  split_and!; simpl; [by intros p|set_solver|set_solver|set_solver| |].
  - intros x [Hx|Hx%list_elem_of_singleton]; [set_solver|subst; apply rtc_refl].
  - intros k l dd Hkl. by apply not_elem_of_nil in Hkl.
Qed.

Lemma add_source_reach d g d' :
  add_source env d = Some (g, d') →
  (∀ x, x ∈ od_keys (g_graph g) ↔ reachable x) ∧
  (∀ x, x ∈ od_keys (g_graph g) →
        od_get (g_graph g) x = Some (ordered_set (map snd (resolve x))) ∧
        od_get (g_resolved g) x = Some (resolve x)).
Proof.
  intros Hrun. destruct (add_source_loop_reach _ _ _ _ _ _ Hrun reach_inv_init)
    as (_ & Hadj & Hcl & Hroot & Hr & _).
  split; [|done]. intros x. split; [intros; apply Hr; by left|].
  revert x. apply (rtc_ind_r (λ z, z ∈ od_keys (g_graph g))); [set_solver|].
  intros y z _ Hyz Hy. destruct (Hcl y z Hy Hyz); set_solver.
Qed.

(** C2. The graph [_add_source] builds has for nodes exactly the sources
    reachable from the root through resolved dependencies, and maps each
    node to the ordered set of the sources it resolves its declarations
    to (the [_dependencies] list it stores on the node). *)
Theorem dependency_graph_nodes d :
  let g := (dependency_graph env d).1 in
  (∀ x, x ∈ od_keys (g_graph g) ↔ reachable x) ∧
  (∀ x, x ∈ od_keys (g_graph g) →
        od_get (g_graph g) x = Some (ordered_set (map snd (resolve x))) ∧
        od_get (g_resolved g) x = Some (resolve x)).
Proof.
  destruct (add_source_total d) as [[g d1] Hrun].
  unfold dependency_graph. rewrite Hrun. simpl.
  destruct (Cycle.is_cyclic _); [|destruct (check_dependencies g d1) as [d2 []]];
    eapply add_source_reach; exact Hrun.
Qed.


(** ** Diagnostics of [AppDependencyGraph.__init__] *)

(** A declaration resolves cleanly: it names a package, the package is
    found, and the version found is in the declared range. *)
Definition clean_decl (nd : string * Dependency) : bool :=
  match dependency_package env nd.1 nd.2 with
  | None => false
  | Some p =>
      match lookup_source (env_dependency_sources env) (env_repository env) p with
      | None => false
      | Some ds => range_match (dep_version nd.2) (src_version ds)
      end
  end.

Definition clean (s : AppSource) : bool :=
  forallb clean_decl (dependencies_for_target_os s (env_target_os env)).

Lemma clean_elem s nd : clean s = true → nd ∈ dependencies_for_target_os s (env_target_os env) →
  clean_decl nd = true.
Proof. unfold clean. rewrite forallb_forall. intros H Hnd. apply H, list_elem_of_In, Hnd. Qed.

Lemma get_dependencies_clean s repo d :
  repo_consistent repo → clean s = true → d_errors (get_dependencies env s repo d).2 = d_errors d.
Proof.
  intros Hc Hcl. unfold get_dependencies. destruct (src_dependencies s); [|done].
  enough (d_errors (foldl (get_dependency_step env s) ([], repo, d)
             (dependencies_for_target_os s (env_target_os env))).2 = d_errors d ∧
          repo_consistent (foldl (get_dependency_step env s) ([], repo, d)
             (dependencies_for_target_os s (env_target_os env))).1.2) by tauto.
  apply (foldl_invariant (λ acc, d_errors acc.2 = d_errors d ∧ repo_consistent acc.1.2)); [done|].
  intros [[deps r] d0] [name dep] Hnd [He Hr]. simpl in *.
  pose proof (clean_elem s _ Hcl Hnd) as Hdecl. unfold clean_decl in Hdecl. simpl in Hdecl.
  destruct (dependency_package env name dep) as [p|]; [|done].
  rewrite <-(Hr p) in Hdecl. destruct (lookup_source _ r p) as [ds|] eqn:Hl; [|done].
  assert (repo_consistent (<[p:=ds]> r)) by by apply repo_consistent_insert.
  destruct (src_has_manifest ds); simpl; [|done]. by rewrite Hdecl.
Qed.

(** Every resolved pair comes from a declaration whose package lookup
    found that source. *)
Definition justified (s : AppSource) (dd : Dependency * AppSource) : Prop :=
  ∃ name p, (name, dd.1) ∈ dependencies_for_target_os s (env_target_os env) ∧
    dependency_package env name dd.1 = Some p ∧
    lookup_source (env_dependency_sources env) (env_repository env) p = Some dd.2.

Lemma resolve_justified s dd : dd ∈ resolve s → justified s dd.
Proof.
  unfold resolve, get_dependencies. destruct (src_dependencies s); [|set_solver].
  enough (∀ dd, dd ∈ (foldl (get_dependency_step env s) ([], env_repository env, diag0)
             (dependencies_for_target_os s (env_target_os env))).1.1 → justified s dd) by auto.
  apply (foldl_invariant (λ acc, (∀ dd, dd ∈ acc.1.1 → justified s dd) ∧ repo_consistent acc.1.2));
    [split; [set_solver|by intros p]|].
  intros [[deps r] d0] [name dep] Hnd [Hj Hr]. simpl in *.
  destruct (dependency_package env name dep) as [p|] eqn:Hp; [|by destruct (dep_optional dep)].
  destruct (lookup_source _ r p) as [ds|] eqn:Hl; [|done].
  assert (repo_consistent (<[p:=ds]> r)) by by apply repo_consistent_insert.
  destruct (src_has_manifest ds); simpl; [|done]. split; [|done].
  intros dd' [Hdd|Hdd%list_elem_of_singleton]%elem_of_app; [by apply Hj|subst].
  exists name, p. rewrite <-(Hr p). done.
Qed.

Lemma resolve_in_range s dd :
  clean s = true → dd ∈ resolve s → range_match (dep_version dd.1) (src_version dd.2) = true.
Proof.
  intros Hcl Hdd. destruct (resolve_justified s dd Hdd) as (name & p & Hnd & Hp & Hl).
  pose proof (clean_elem s _ Hcl Hnd) as Hdecl. unfold clean_decl in Hdecl. simpl in Hdecl.
  by rewrite Hp, Hl in Hdecl.
Qed.

Lemma add_source_loop_errors f q g d g' d' :
  add_source_loop f env q g d = Some (g', d') → reach_inv q g →
  (∀ x, reachable x → clean x = true) → d_errors d' = d_errors d.
Proof.
  revert q g d. induction f as [|f IH]; intros q g d; simpl; [done|].
  destruct (dq_pop q) as [[s q']|] eqn:Hpop; [|intros; by simplify_eq].
  apply dq_pop_Some in Hpop as ->. intros Hrun Hinv Hclean.
  case_decide as Hs; [eapply IH; [exact Hrun|by apply (reach_inv_skip s)|done]|].
  destruct (get_dependencies env s (g_repository g) d) as [[deps repo] d''] eqn:Hgd.
  assert (Hd'' : d_errors d'' = d_errors d).
  { destruct Hinv as (Hc & _ & _ & _ & Hr & _).
    pose proof (get_dependencies_clean s (g_repository g) d Hc) as He. rewrite Hgd in He.
    apply He, Hclean, Hr. set_solver. }
  rewrite <-Hd''. eapply IH; [exact Hrun| |done].
  eapply reach_inv_process; [done|done|]. by rewrite Hgd.
Qed.

Lemma check_dependencies_in_range g d :
  (∀ k l dd, (k, l) ∈ g_dependents g → dd ∈ l → range_match (dep_version dd.1) (src_version k) = true) →
  d_errors (check_dependencies g d).1 = d_errors d.
Proof.
  intros Hok. unfold check_dependencies. simpl.
  apply (foldl_invariant (λ d', d_errors d' = d_errors d)); [done|].
  intros d0 [k l] Hkl He. simpl.
  apply (foldl_invariant (λ d', d_errors d' = d_errors d)); [done|].
  intros d1 dd Hdd He1. by rewrite (Hok k l dd Hkl Hdd).
Qed.

(** The edges of the built graph are resolved dependencies of reachable nodes. *)
Lemma graph_edge_dep_edge g x y :
  reach_inv [] g → Cycle.edge (g_graph g) x y → dep_edge x y ∧ reachable x.
Proof.
  intros (_ & Hadj & _ & _ & Hr & _) Hxy.
  assert (Hx : x ∈ od_keys (g_graph g)) by by eapply Cycle.edge_source_key.
  unfold Cycle.edge, Cycle.succs in Hxy. rewrite (proj1 (Hadj x Hx)) in Hxy. unfold default, id in Hxy. simpl in Hxy.
  rewrite elem_of_ordered_set in Hxy. split; [done|apply Hr; by left].
Qed.

Lemma graph_cycle_dep_cycle g :
  reach_inv [] g → Cycle.has_cycle (g_graph g) → ∃ u, reachable u ∧ tc dep_edge u u.
Proof.
  intros Hinv [u Hu]. exists u. split.
  - inversion Hu as [x y Hxy|x y z Hxy]; subst; exact (proj2 (graph_edge_dep_edge g _ _ Hinv Hxy)).
  - assert (Hgen : ∀ a b, tc (Cycle.edge (g_graph g)) a b → tc dep_edge a b).
    { intros a b Hab. induction Hab as [x y Hxy|x y z Hxy _ IH].
      + apply tc_once. exact (proj1 (graph_edge_dep_edge g _ _ Hinv Hxy)).
      + eapply tc_l; [|exact IH]. exact (proj1 (graph_edge_dep_edge g _ _ Hinv Hxy)). }
    by apply Hgen.
Qed.

Lemma check_dependencies_snd g d : (check_dependencies g d).2 = false.
Proof. done. Qed.

Lemma dependency_graph_eq d g d1 :
  add_source env d = Some (g, d1) →
  dependency_graph env d =
    if Cycle.is_cyclic (g_graph g) then (g, log_error (MsgCyclic (src_id (env_root env))) d1)
    else (g, (check_dependencies g d1).1).
Proof. intros Hrun. unfold dependency_graph. by rewrite Hrun. Qed.

(** C3. When every declaration reachable from the root names a package
    that is found in the declared version range, and no reachable source
    depends on itself, [AppDependencyGraph.__init__] logs no error. *)
Theorem dependency_graph_no_errors d :
  (∀ s, reachable s → clean s = true) → (∀ s, reachable s → ¬ tc dep_edge s s) →
  d_errors (dependency_graph env d).2 = d_errors d.
Proof.
  intros Hclean Hacyc. destruct (add_source_total d) as [[g d1] Hrun].
  pose proof (add_source_loop_reach _ _ _ _ _ _ Hrun reach_inv_init) as Hinv.
  pose proof (add_source_loop_errors _ _ _ _ _ _ Hrun reach_inv_init Hclean) as He.
  rewrite (dependency_graph_eq d g d1 Hrun).
  destruct (Cycle.is_cyclic (g_graph g)) eqn:Hcyc.
  - exfalso. apply Cycle.is_cyclic_sound in Hcyc.
    destruct (graph_cycle_dep_cycle g Hinv Hcyc) as (u & Hu & Hc). by apply (Hacyc u).
  - cbn [snd]. rewrite check_dependencies_in_range; [done|].
    intros k l dd Hkl Hdd. destruct Hinv as (_ & _ & _ & _ & Hr & Hdep).
    destruct (Hdep k l dd Hkl Hdd) as [Hkeys Hres].
    apply (resolve_in_range dd.2 (dd.1, k)); [apply Hclean, Hr; by left|done].
Qed.

(** The errors construction can log. *)
Definition graph_error (m : Msg) : Prop :=
  (∃ p, m = MsgStaticNotFound p) ∨ (∃ a n p, m = MsgOutsideRange a n p) ∨
  (∃ a b, m = MsgVersionSelected a b) ∨ (∃ r, m = MsgCyclic r).

Lemma get_dependencies_errors s repo d :
  errors_only graph_error d (get_dependencies env s repo d).2.
Proof.
  unfold get_dependencies. destruct (src_dependencies s); [|by apply errors_only_same].
  apply (foldl_invariant (λ acc, errors_only graph_error d acc.2)); [by apply errors_only_same|].
  intros [[deps r] d0] [name dep] _ Hd0. simpl in *.
  destruct (dependency_package env name dep) as [p|]; [|destruct (dep_optional dep); eapply errors_only_trans; [exact Hd0| |exact Hd0|]; by apply errors_only_same].
  destruct (lookup_source _ r p) as [ds|].
  - destruct (src_has_manifest ds); simpl; [|done]. destruct (range_match _ _); [done|].
    eapply errors_only_trans; [exact Hd0|]. apply errors_only_log_error. unfold graph_error. eauto 10.
  - eapply errors_only_trans; [exact Hd0|]. eapply errors_only_trans; [apply errors_only_log_error|apply errors_only_same]; [|done].
    unfold graph_error. eauto.
Qed.

Lemma add_source_loop_errors_only f q g d g' d' :
  add_source_loop f env q g d = Some (g', d') → errors_only graph_error d d'.
Proof.
  revert q g d. induction f as [|f IH]; intros q g d; simpl; [done|].
  destruct (dq_pop q) as [[s q']|]; [|intros; simplify_eq; by apply errors_only_same].
  case_decide; [apply IH|].
  destruct (get_dependencies env s (g_repository g) d) as [[deps repo] d''] eqn:Hgd.
  intros Hrun. eapply errors_only_trans; [|exact (IH _ _ _ Hrun)].
  pose proof (get_dependencies_errors s (g_repository g) d) as He. by rewrite Hgd in He.
Qed.

Lemma check_dependencies_errors g d : errors_only graph_error d (check_dependencies g d).1.
Proof.
  unfold check_dependencies. simpl.
  apply (foldl_invariant (λ d', errors_only graph_error d d')); [by apply errors_only_same|].
  intros d0 [k l] _ Hd0. simpl.
  apply (foldl_invariant (λ d', errors_only graph_error d d')); [done|].
  intros d1 dd _ Hd1. destruct (range_match _ _); [done|].
  eapply errors_only_trans; [exact Hd1|]. apply errors_only_log_error. unfold graph_error. eauto 10.
Qed.

(** C4. Every error [AppDependencyGraph.__init__] logs is a missing static
    dependency, a packaged version outside its range, a selected version
    outside a dependent's range, or a cycle.  In particular the message
    "is conflicted" (line 92) is never logged: [_check_dependencies] has
    no [return] and its [None] result never triggers the branch. *)
Theorem dependency_graph_errors d : errors_only graph_error d (dependency_graph env d).2.
Proof.
  destruct (add_source_total d) as [[g d1] Hrun].
  pose proof (add_source_loop_errors_only _ _ _ _ _ _ Hrun) as He.
  rewrite (dependency_graph_eq d g d1 Hrun).
  destruct (Cycle.is_cyclic (g_graph g)); cbn [snd]; eapply errors_only_trans; [exact He| |exact He|].
  - apply errors_only_log_error. unfold graph_error. eauto 10.
  - apply check_dependencies_errors.
Qed.

Lemma dependency_graph_not_conflicted d r :
  MsgConflicted r ∈ d_errors (dependency_graph env d).2 → MsgConflicted r ∈ d_errors d.
Proof.
  intros Hm. destruct (errors_only_elem _ _ _ _ (dependency_graph_errors d) Hm) as [|Hbad]; [done|].
  unfold graph_error in Hbad. naive_solver.
Qed.

(** ** Visiting order: the deque is a FIFO queue

    The reference loop below pops the head of a list and appends the new
    dependency sources at its tail: a breadth-first search in
    declaration order. *)
Fixpoint add_source_fifo (fuel : nat) (q : list AppSource) (g : Graph) (d : Diag)
    : option (Graph * Diag) :=
  match fuel with
  | 0 => None
  | S f =>
      match q with
      | [] => Some (g, d)
      | s :: q' =>
          if decide (s ∈ od_keys (g_graph g)) then add_source_fifo f q' g d
          else
            let '(deps, repo, d') := get_dependencies env s (g_repository g) d in
            let srcs := map snd deps in
            add_source_fifo f (q' ++ srcs)
              (mkGraph (od_set (g_graph g) s (ordered_set srcs))
                       (record_dependents s deps (g_dependents g))
                       (od_set (g_resolved g) s deps) repo) d'
      end
  end.

(** C8. [queue.pop()] on the right with [queue.extendleft(...)] on the
    left makes [_add_source] a first-in first-out breadth-first search:
    the loop on the deque [rev q] computes what the FIFO loop computes on
    [q].  Siblings queued earlier are processed before the children of
    the source dequeued last. *)
Theorem add_source_loop_fifo f q g d :
  add_source_loop f env (rev q) g d = add_source_fifo f q g d.
Proof.
  revert q g d. induction f as [|f IH]; intros q g d; [done|]. simpl.
  destruct q as [|s q']; [done|]. rewrite dq_pop_rev.
  case_decide; [apply IH|].
  destruct (get_dependencies env s (g_repository g) d) as [[deps repo] d'].
  by rewrite dq_extendleft_rev, IH.
Qed.

Lemma dependency_graph_reach d :
  let g := (dependency_graph env d).1 in
  (∀ x, x ∈ od_keys (g_graph g) ↔ reachable x) ∧
  (∀ x, x ∈ od_keys (g_graph g) →
        od_get (g_graph g) x = Some (ordered_set (map snd (resolve x))) ∧
        od_get (g_resolved g) x = Some (resolve x)).
Proof.
  destruct (add_source_total d) as [[g d1] Hrun].
  rewrite (dependency_graph_eq d g d1 Hrun).
  destruct (Cycle.is_cyclic _); eapply add_source_reach; exact Hrun.
Qed.

Lemma dependency_graph_wf d : graph_wf (env_root env) (dependency_graph env d).1.
Proof.
  destruct (add_source_total d) as [[g d1] Hrun].
  assert (Hg : (dependency_graph env d).1 = g)
    by (rewrite (dependency_graph_eq d g d1 Hrun); by destruct (Cycle.is_cyclic _)).
  rewrite Hg. destruct (add_source_loop_reach _ _ _ _ _ _ Hrun reach_inv_init)
    as (_ & Hadj & Hcl & Hroot & _ & _).
  split; [set_solver|]. intros x Hx. exists (resolve x). destruct (Hadj x Hx) as [H1 H2].
  split_and!; [done|done|]. intros [dep y] Hy. simpl.
  destruct (Hcl x y Hx) as [|Hn]; [|done|set_solver].
  apply list_elem_of_fmap. by exists (dep, y).
Qed.

(** A cycle through reachable sources is a cycle of the built graph. *)
Lemma dep_cycle_graph_cycle d s :
  reachable s → tc dep_edge s s → Cycle.has_cycle (g_graph (dependency_graph env d).1).
Proof.
  intros Hs Hc. destruct (dependency_graph_reach d) as [Hnodes Hadj]. exists s.
  assert (Hgen : ∀ a b, reachable a → tc dep_edge a b → tc (Cycle.edge (g_graph (dependency_graph env d).1)) a b).
  { intros a b Ha Hab. induction Hab as [x y Hxy|x y z Hxy _ IH].
    - apply tc_once. unfold Cycle.edge, Cycle.succs.
      rewrite (proj1 (Hadj x (proj2 (Hnodes x) Ha))). simpl. by apply elem_of_ordered_set.
    - eapply tc_l; [|apply IH; eapply rtc_r; [exact Ha|exact Hxy]].
      unfold Cycle.edge, Cycle.succs.
      rewrite (proj1 (Hadj x (proj2 (Hnodes x) Ha))). simpl. by apply elem_of_ordered_set. }
  by apply Hgen.
Qed.

End Env.
End DependencyGraph.
Export DependencyGraph.

(** ** Concrete graphs *)
Module GraphExamples.
Definition v1 : Version := mkVersion 1 0 0.
Definition on (p : string) : Dependency := mkDependency [CTilde v1] (Some p) false None.
Definition app (p : string) (deps : list (string * Dependency)) : AppSource :=
  mkAppSource p p None v1 true (Some deps) None None.
Definition c_src := app "c" [].
Definition b_src := app "b" [("c", on "c")].
Definition d_src := app "d" [("c", on "c")].
Definition a_src := app "a" [("b", on "b"); ("d", on "d")].
Definition env_abdc : GraphEnv :=
  mkGraphEnv a_src ∅ (<["b":=b_src]> (<["c":=c_src]> (<["d":=d_src]> ∅))) None "*".
End GraphExamples.

Module GraphWitnesses.
Import GraphExamples.

(** The clean, acyclic four-app example logs no error. *)
Lemma dependency_graph_no_errors_witness :
  d_errors (dependency_graph env_abdc diag0).2 = d_errors diag0.
Proof.
  apply (DependencyGraph.dependency_graph_no_errors env_abdc diag0).
  - intros s Hs. apply (proj2 (proj1 (DependencyGraph.dependency_graph_reach env_abdc diag0) s)) in Hs.
    assert (Hall : forallb (DependencyGraph.clean env_abdc)
                     (od_keys (g_graph (dependency_graph env_abdc diag0).1)) = true)
      by (vm_compute; reflexivity).
    rewrite forallb_forall in Hall. apply Hall, list_elem_of_In, Hs.
  - intros s Hs Hc. pose proof (DependencyGraph.dep_cycle_graph_cycle env_abdc diag0 s Hs Hc) as Hcyc.
    apply Cycle.is_cyclic_complete in Hcyc. vm_compute in Hcyc. discriminate.
Defined.
End GraphWitnesses.
