(* ===== verification/DeploymentSpec.v ===== *)
(** * Deployment specifications ([AppDeploymentSpecification])

    src/slim/app/_deployment.py lines 813-1061: a named target, the set of
    workloads it deploys to and, for forwarders, the input groups it
    enables.  [inputGroups] is absent ([None]) unless set; the sentinels
    and [_union_of] are in InputGroups.v.  This file holds the four
    converters of the schema ([SafeFilenameConverter] with the semantics of
    Python's [re], [WorkloadConverter], [Converter]), the static
    [from_forwarder_workloads] and, in Module [AppDeploymentSpecification],
    the static [get_deployment_specifications] with its [IndexError] as
    [None] and its duplicate-name errors in the [Diag]. *)

From stdpp Require Import base list gmap strings sets.
From S2P Require Import Prelude InputGroups.

Module DeploymentSpec.

(** [AppDeploymentSpecification((('name', ...), ('workload', ...), ('inputGroups', ...)))] *)
Record DeploymentSpecification := mkSpec {
  ds_name : string;
  ds_workload : gset string;
  ds_input_groups : option (gset string);
}.

#[export] Instance DeploymentSpecification_eq_dec : EqDecision DeploymentSpecification.
Proof. solve_decision. Defined.

(** [all_workloads] (line 823) and [WorkloadConverter._workload_names] (line 1046). *)
Definition all_workloads : gset string := {["searchHead"; "indexer"; "forwarder"]}.
Definition workload_names : gset string := {["forwarder"; "indexer"; "searchHead"]}.

(** The [ValueError]s the converters and [from_forwarder_workloads] raise. *)
Inductive ValueError :=
| ErrIllegalName (value : string)
| ErrInvalidWorkload
| ErrInputGroupsWithoutForwarder
| ErrNotServerClassName (type_name : string)
| ErrNotServerClassNameOrList (type_name : string).

(** ** [SafeFilenameConverter]

  [re.compile(r'[-._ a-zA-Z0-9]+$').match(value)]: [match] anchors at the
  start, the class is a list of ASCII characters (a non-ASCII code point,
  or any byte of its encoding, is outside it) and [$] matches at the end
  of the string or just before a newline that ends it. *)

Definition safe_char (c : Ascii.ascii) : bool :=
  let n := Ascii.nat_of_ascii c in
  bool_decide (48 ≤ n ≤ 57) || bool_decide (65 ≤ n ≤ 90) || bool_decide (97 ≤ n ≤ 122) ||
  bool_decide (n ∈ [45; 46; 95; 32]).

Definition newline_char : Ascii.ascii := Ascii.ascii_of_nat 10.
Definition newline : string := String newline_char EmptyString.

(** [[-._ a-zA-Z0-9]*$] at a position of the string, with backtracking. *)
Fixpoint safe_tail (s : string) : bool :=
  match s with
  | EmptyString => true
  | String c rest =>
      (safe_char c && safe_tail rest) ||
      (bool_decide (c = newline_char) && bool_decide (rest = EmptyString))
  end.

Definition safe_filename_match (s : string) : bool :=
  match s with
  | EmptyString => false
  | String c rest => safe_char c && safe_tail rest
  end.

(** [SafeFilenameConverter.convert_from] *)
Definition safe_filename_convert (value : string) : ValueError + string :=
  if safe_filename_match value then inr value else inl (ErrIllegalName value).

(** ** [WorkloadConverter.convert_from] *)
Definition workload_convert (value : list string) : ValueError + gset string :=
  if bool_decide (Forall (λ w, w ∈ workload_names) value) then inr (list_to_set value)
  else inl ErrInvalidWorkload.

(** ** [Converter.convert_from]: the object-level check, after the fields
    are converted ([inputGroups] absent is [None]). *)
Definition spec_convert (value : DeploymentSpecification) : ValueError + DeploymentSpecification :=
  match ds_input_groups value with
  | None =>
      if decide ("forwarder" ∈ ds_workload value)
      then inr (mkSpec (ds_name value) (ds_workload value) (Some all_input_groups))
      else inr value
  | Some _ =>
      if decide ("forwarder" ∉ ds_workload value) then inl ErrInputGroupsWithoutForwarder
      else inr value
  end.

(** ** [from_forwarder_workloads]

  [forwarder_workloads] maps each input group to a server-class name or a
  list of them.  The closure [update()] (lines 842-859) becomes
  [fw_update] with the loop variables as parameters.  An entry created by
  [update] always has its [inputGroups] set, so the [None] case of
  [input_groups.union] does not arise; it is read as the empty set. *)

Definition special_server_classes : list string := ["_search_heads"; "_indexers"].

Definition fw_update (input_group server_class : string)
    (specs : list (string * DeploymentSpecification)) : list (string * DeploymentSpecification) :=
  let ds :=
    match od_get specs server_class with
    | None => mkSpec server_class {["forwarder"]} (Some {[input_group]})
    | Some d => mkSpec (ds_name d) (ds_workload d) (Some (default ∅ (ds_input_groups d) ∪ {[input_group]}))
    end in
  let ds :=
    if decide (server_class ∈ special_server_classes)
    then mkSpec (ds_name ds) (ds_workload ds ∪ {[server_class]}) (ds_input_groups ds)
    else ds in
  od_set specs server_class ds.

(** One element of a list of server classes (lines 867-873). *)
Definition fw_item (input_group : string) (specs : list (string * DeploymentSpecification)) (item : JValue)
    : ValueError + list (string * DeploymentSpecification) :=
  match item with
  | JString server_class => inr (fw_update input_group server_class specs)
  | other => inl (ErrNotServerClassName (json_type_name other))
  end.

(** One input group of [forwarder_workloads] (lines 836-879). *)
Definition fw_entry (specs : list (string * DeploymentSpecification)) (entry : string * JValue)
    : ValueError + list (string * DeploymentSpecification) :=
  let '(input_group, server_classes) := entry in
  match server_classes with
  | JString server_class => inr (fw_update input_group server_class specs)
  | JArray items => fold_err (fw_item input_group) specs items
  | other => inl (ErrNotServerClassNameOrList (json_type_name other))
  end.

Definition from_forwarder_workloads (forwarder_workloads : list (string * JValue))
    : ValueError + list DeploymentSpecification :=
  match fold_err fw_entry [] forwarder_workloads with
  | inl e => inl e
  | inr specs => inr (map snd specs)
  end.

(** ** The static [get_deployment_specifications] (lines 885-978)

  The caller's list is extended in place and returned; the model returns
  the new list.  [del deployment_specifications[index]] may raise
  [IndexError]: the result is [None] then. *)

Module AppDeploymentSpecification.

Definition search_head_indexer : gset string := {["searchHead"; "indexer"]}.

Definition spec_search_head_indexers : DeploymentSpecification :=
  mkSpec "_search_head_indexers" {["searchHead"; "indexer"]} None.
Definition spec_forwarders : DeploymentSpecification := mkSpec "_forwarders" {["forwarder"]} None.
Definition spec_search_heads : DeploymentSpecification := mkSpec "_search_heads" {["searchHead"]} None.
Definition spec_indexers : DeploymentSpecification := mkSpec "_indexers" {["indexer"]} None.

(** The body of [for index, deployment_specification in enumerate(...)]
    (lines 905-911): the state is [(input_groups, remove_list)]. *)
Definition combine_step (st : gset string * list nat) (e : nat * DeploymentSpecification)
    : gset string * list nat :=
  let '(input_groups, remove_list) := st in
  let '(index, s) := e in
  if decide (ds_workload s ## search_head_indexer) then st
  else match ds_input_groups s with
       | None => st
       | Some g => (input_groups ∪ g, remove_list ++ [index])
       end.

Definition combine_scan (specs : list DeploymentSpecification) : gset string * list nat :=
  foldl combine_step (∅, []) (zip (seq 0 (length specs)) specs).

(** [for index in remove_list: del deployment_specifications[index]] *)
Fixpoint del_all {A} (l : list A) (remove_list : list nat) : option (list A) :=
  match remove_list with
  | [] => Some l
  | index :: rest => py_del l index ≫= (λ l', del_all l' rest)
  end.

(** Lines 916-924. *)
Definition combined_spec (input_groups : gset string) : DeploymentSpecification :=
  if decide (size input_groups = 0) then spec_search_head_indexers
  else mkSpec "_search_head_indexers" {["searchHead"; "indexer"; "forwarder"]} (Some input_groups).

(** The scan of lines 936-948 with its [break]: [None] is
    [update_list = None]. *)
Fixpoint update_scan (update_list : gset string) (specs : list DeploymentSpecification)
    : option (gset string) :=
  match specs with
  | [] => Some update_list
  | s :: rest =>
      let workload := ds_workload s ∩ update_list in
      if decide (size workload = 0) then update_scan update_list rest
      else if decide (size workload = size update_list) then None
      else update_scan (update_list ∖ workload) rest
  end.

(** Lines 950-965. *)
Definition default_specs (update_list : option (gset string)) : list DeploymentSpecification :=
  match update_list with
  | None => []
  | Some u =>
      (if decide ("searchHead" ∈ u) then [spec_search_heads] else []) ++
      (if decide ("indexer" ∈ u) then [spec_indexers] else []) ++
      (if decide ("forwarder" ∈ u) then [spec_forwarders] else [])
  end.

(** Lines 970-976: every name already seen is an error. *)
Definition name_clash_step (st : gset string * Diag) (s : DeploymentSpecification) : gset string * Diag :=
  let '(name_clashes, d) := st in
  let name := ds_name s in
  (name_clashes ∪ {[name]},
   if decide (name ∈ name_clashes) then log_error (MsgDuplicateSpecName name) d else d).

Definition report_name_clashes (specs : list DeploymentSpecification) (d : Diag) : Diag :=
  (foldl name_clash_step (∅, d) specs).2.

Definition get_deployment_specifications (deployment_specifications : list DeploymentSpecification)
    (combine_search_head_indexer_workloads : bool)
    (forwarder_deployment_specifications : option (list DeploymentSpecification)) (d : Diag)
    : option (list DeploymentSpecification * Diag) :=
  let specs := deployment_specifications in
  let result :=
    if combine_search_head_indexer_workloads then
      if decide (length specs = 0) then Some (specs ++ [spec_search_head_indexers; spec_forwarders])
      else
        let '(input_groups, remove_list) := combine_scan specs in
        l ← del_all specs remove_list;
        Some (l ++ [combined_spec input_groups])
    else
      let update_list :=
        if decide (length specs = 0 ∧ forwarder_deployment_specifications = None)
        then Some {["searchHead"; "indexer"; "forwarder"]}
        else update_scan search_head_indexer specs in
      Some (specs ++ default_specs update_list ++ default [] forwarder_deployment_specifications) in
  specs' ← result;
  Some (specs', report_name_clashes specs' d).

End AppDeploymentSpecification.

(** * Properties of the converters *)

Fixpoint all_safe (s : string) : bool :=
  match s with
  | EmptyString => true
  | String c rest => safe_char c && all_safe rest
  end.

Lemma safe_char_newline : safe_char newline_char = false.
Proof. reflexivity. Qed.

Lemma append_newline_cons c p rest :
  String c rest = String.append p newline ↔
  (p = EmptyString ∧ c = newline_char ∧ rest = EmptyString) ∨
  (∃ p', p = String c p' ∧ rest = String.append p' newline).
Proof.
  destruct p as [|c' p']; simpl; split.
  - intros [= -> ->]. by left.
  - intros [(_ & -> & ->)|(p' & ? & _)]; [done|discriminate].
  - intros [= -> ->]. right. by eexists.
  - intros [(? & _)|(p'' & [= -> ->] & ->)]; done.
Qed.

Lemma safe_tail_spec s :
  safe_tail s = true ↔ all_safe s = true ∨ ∃ p, all_safe p = true ∧ s = String.append p newline.
Proof.
  induction s as [|c rest IH]; simpl.
  { split; [by left|done]. }
  rewrite orb_true_iff, !andb_true_iff, IH, !bool_decide_eq_true.
  setoid_rewrite append_newline_cons. split.
  - intros [[Hc [Hr|(p & Hp & ->)]]|[-> ->]].
    + left. by rewrite Hc, Hr.
    + right. exists (String c p). simpl. rewrite Hc, Hp. split; [done|]. right. by eexists.
    + right. exists EmptyString. split; [done|]. by left.
  - intros [[Hc Hr]|(p & Hp & [(-> & -> & ->)|(p' & -> & ->)])].
    + left. naive_solver.
    + by right.
    + simpl in Hp. apply andb_true_iff in Hp as [Hc Hp']. left. split; [done|]. right. by exists p'.
Qed.

(** The names [SafeFilenameConverter] accepts: a non-empty run of safe
    characters, optionally followed by one newline. *)
Lemma safe_filename_match_spec s :
  safe_filename_match s = true ↔
  ∃ p, p ≠ EmptyString ∧ all_safe p = true ∧ (s = p ∨ s = String.append p newline).
Proof.
  destruct s as [|c rest]; simpl.
  - split; [done|]. intros (p & Hp & _ & [<-|Happ]); [done|]. destruct p; discriminate.
  - rewrite andb_true_iff, safe_tail_spec. setoid_rewrite append_newline_cons. split.
    + intros [Hc [Hr|(p & Hp & ->)]].
      * exists (String c rest). simpl. rewrite Hc, Hr. naive_solver.
      * exists (String c p). simpl. rewrite Hc, Hp. split_and!; [done|done|]. right. right. by eexists.
    + intros (p & Hne & Hp & [<-|[(-> & _)|(p' & -> & ->)]]); [|done|].
      * simpl in Hp. apply andb_true_iff in Hp as [Hc Hr]. split; [done|]. by left.
      * simpl in Hp. apply andb_true_iff in Hp as [Hc Hr]. split; [done|]. right. by exists p'.
Qed.

(** * [from_forwarder_workloads] against a reference

  The loops visit the pairs (input group, server class) in order
  ([fw_pairs]).  The reference result has one specification per distinct
  server class, in order of first appearance, whose input groups are all
  the groups that name it and whose workload is [forwarder], plus the
  server-class name itself for [_search_heads] and [_indexers]. *)

Definition string_item (i : JValue) : list string :=
  match i with JString s => [s] | _ => [] end.

Definition server_classes_of (v : JValue) : list string :=
  match v with
  | JString s => [s]
  | JArray items => items ≫= string_item
  | _ => []
  end.

Definition fw_pairs (fw : list (string * JValue)) : list (string * string) :=
  fw ≫= (λ e, (λ sc, (e.1, sc)) <$> server_classes_of e.2).

Definition is_string (v : JValue) : Prop := ∃ s, v = JString s.

Definition fw_valid (v : JValue) : Prop :=
  match v with
  | JString _ => True
  | JArray items => Forall is_string items
  | _ => False
  end.

Definition fw_workload (sc : string) : gset string :=
  {["forwarder"]} ∪ (if decide (sc ∈ special_server_classes) then {[sc]} else ∅).

Definition fw_spec (P : list (string * string)) (sc : string) : DeploymentSpecification :=
  mkSpec sc (fw_workload sc) (Some (list_to_set (fst <$> filter (λ p, p.2 = sc) P))).

Definition fw_ref (P : list (string * string)) : list (string * DeploymentSpecification) :=
  (λ sc, (sc, fw_spec P sc)) <$> ordered_set (snd <$> P).

Lemma fw_spec_snoc_ne P ig sc k : k ≠ sc → fw_spec (P ++ [(ig, sc)]) k = fw_spec P k.
Proof.
  intros Hne. unfold fw_spec. rewrite filter_app, filter_cons_False, filter_nil, app_nil_r by done.
  done.
Qed.

Lemma fw_workload_idem sc : sc ∈ special_server_classes → fw_workload sc ∪ {[sc]} = fw_workload sc.
Proof. unfold fw_workload. case_decide; [set_solver|done]. Qed.

Lemma fw_update_ref P ig sc : fw_update ig sc (fw_ref P) = fw_ref (P ++ [(ig, sc)]).
Proof.
  unfold fw_update, fw_ref. rewrite od_get_map, fmap_app.
  change (snd <$> [(ig, sc)]) with [sc]. rewrite ordered_set_snoc.
  assert (Hspec : ∀ S, S = list_to_set (fst <$> filter (λ p, p.2 = sc) P) →
    fw_spec (P ++ [(ig, sc)]) sc = mkSpec sc (fw_workload sc) (Some (S ∪ {[ig]}))).
  { intros S ->. unfold fw_spec. rewrite filter_app, filter_cons_True, filter_nil by done.
    rewrite fmap_app, list_to_set_app_L. do 2 f_equal. set_solver. }
  destruct (decide (sc ∈ ordered_set (snd <$> P))) as [Hin|Hin];
    pose proof Hin as Hin'; rewrite elem_of_ordered_set in Hin'.
  - rewrite (decide_True _ _ Hin'). rewrite od_set_map_in by (done || apply ordered_set_NoDup).
    apply map_ext_in. intros k _. case_decide as Hk; [subst|by rewrite fw_spec_snoc_ne].
    rewrite (Hspec _ eq_refl). unfold fw_spec. cbn [ds_name ds_workload ds_input_groups default].
    case_decide; [|done]. by rewrite fw_workload_idem.
  - rewrite (decide_False _ _ Hin'). rewrite od_set_map_notin by done. rewrite fmap_app. simpl. f_equal.
    + apply map_ext_in. intros k Hk%list_elem_of_In. rewrite fw_spec_snoc_ne; [done|set_solver].
    + rewrite (Hspec ∅).
      * unfold fw_workload. case_decide; simpl; by rewrite ?(left_id_L ∅ (∪)), ?(right_id_L ∅ (∪)).
      * rewrite filter_none; [done|]. intros [a b] Hab Hb.
        simpl in Hb. subst. apply Hin'. apply list_elem_of_fmap. by exists (a, sc).
Qed.

Lemma fw_items_ref ig items P st :
  fold_err (fw_item ig) (fw_ref P) items = inr st ↔
  Forall is_string items ∧ st = fw_ref (P ++ ((λ sc, (ig, sc)) <$> (items ≫= string_item))).
Proof.
  revert P. induction items as [|i items IH]; intros P; simpl.
  { rewrite app_nil_r. split; [intros [= <-]; by split|by intros [_ ->]]. }
  rewrite Forall_cons. destruct i as [| | |sc| |]; simpl;
    try (split; [done|intros [[[? ?] _] _]; discriminate]).
  rewrite fw_update_ref, IH, <-(assoc_L (++)). simpl.
  assert (is_string (JString sc)) by (by eexists). naive_solver.
Qed.

Lemma fw_entries_ref fw P st :
  fold_err fw_entry (fw_ref P) fw = inr st ↔
  Forall (λ e, fw_valid e.2) fw ∧ st = fw_ref (P ++ fw_pairs fw).
Proof.
  revert P. induction fw as [|[ig v] fw IH]; intros P.
  { cbn. rewrite app_nil_r. split; [intros [= <-]; by split|by intros [_ ->]]. }
  change (fw_pairs ((ig, v) :: fw)) with (((λ sc, (ig, sc)) <$> server_classes_of v) ++ fw_pairs fw).
  cbn [fold_err]. rewrite Forall_cons.
  destruct v as [| | |sc|items|]; cbn [fw_entry fw_valid server_classes_of snd];
    try (split; [done|intros [[[] _] _]]).
  - rewrite fw_update_ref, IH, <-(assoc_L (++)). simpl. naive_solver.
  - destruct (fold_err (fw_item ig) (fw_ref P) items) as [e|st1] eqn:Hitems.
    + split; [done|]. intros [[Hs _] _].
      pose proof (proj2 (fw_items_ref ig items P _) (conj Hs eq_refl)). congruence.
    + apply fw_items_ref in Hitems as [Hs ->]. rewrite IH, <-(assoc_L (++)). naive_solver.
Qed.

(** C9. [from_forwarder_workloads] returns a list exactly when every value
    is a server-class name or a list of names (it raises [ValueError]
    otherwise); the list has one specification per distinct server class,
    in order of first appearance, with input groups the groups that name it
    and workload [forwarder] plus, for [_search_heads] and [_indexers], the
    server-class name itself. *)
Theorem from_forwarder_workloads_spec fw specs :
  from_forwarder_workloads fw = inr specs ↔
  Forall (λ e, fw_valid e.2) fw ∧ specs = fw_spec (fw_pairs fw) <$> ordered_set (snd <$> fw_pairs fw).
Proof.
  unfold from_forwarder_workloads. change [] with (fw_ref []).
  destruct (fold_err fw_entry (fw_ref []) fw) as [e|st] eqn:Hrun.
  - split; [done|]. intros [Hv _].
    pose proof (proj2 (fw_entries_ref fw [] _) (conj Hv eq_refl)). congruence.
  - apply fw_entries_ref in Hrun as [Hv ->]. unfold fw_ref. rewrite <-list_fmap_compose.
    split; [intros [= <-]; by split|by intros [_ ->]].
Qed.

(** ** The converters of the schema *)

(** C31. [SafeFilenameConverter] accepts exactly a non-empty run of the
    characters [-._ a-zA-Z0-9], optionally followed by one newline (the
    [$] of Python's [re]), and returns the name unchanged. *)
Theorem safe_filename_convert_spec s r :
  safe_filename_convert s = inr r ↔
  r = s ∧ ∃ p, p ≠ EmptyString ∧ all_safe p = true ∧ (s = p ∨ s = String.append p newline).
Proof.
  unfold safe_filename_convert. rewrite <-safe_filename_match_spec.
  destruct (safe_filename_match s); naive_solver.
Qed.

Lemma workload_names_all : workload_names = all_workloads.
Proof. unfold workload_names, all_workloads. set_solver. Qed.

(** C37. [WorkloadConverter] accepts exactly the lists of known workload
    names, the empty list included, and returns their set. *)
Theorem workload_convert_spec v w :
  workload_convert v = inr w ↔ (∀ x, x ∈ v → x ∈ all_workloads) ∧ w = list_to_set v.
Proof.
  unfold workload_convert. rewrite <-workload_names_all.
  case_bool_decide as Hv; rewrite Forall_forall in Hv; naive_solver.
Qed.

(** The invariant of a deployment specification (spec section 3): known
    workloads, [inputGroups] present exactly with [forwarder], and a
    normalised set of input groups. *)
Definition spec_wf (s : DeploymentSpecification) : Prop :=
  ds_workload s ⊆ all_workloads ∧
  ("forwarder" ∈ ds_workload s ↔ is_Some (ds_input_groups s)) ∧
  ∀ g, ds_input_groups s = Some g → normalized g.

Lemma spec_convert_inl v e :
  spec_convert v = inl e → is_Some (ds_input_groups v) ∧ "forwarder" ∉ ds_workload v.
Proof.
  unfold spec_convert. destruct (ds_input_groups v); [|by case_decide].
  case_decide; [intros _; split; [by eexists|done]|done].
Qed.

(** A specification whose fields went through [WorkloadConverter] and
    [InputGroupsConverter] and that [Converter] accepts is well formed:
    absent [inputGroups] on a forwarder becomes [ALL]; [Converter] rejects
    [inputGroups] without [forwarder]. *)
Theorem spec_convert_wf name wl igs w s :
  workload_convert wl = inr w →
  spec_convert (mkSpec name w (input_groups_convert <$> igs)) = inr s →
  ds_name s = name ∧ spec_wf s.
Proof.
  intros [Hw ->]%workload_convert_spec. unfold spec_convert, spec_wf. simpl.
  assert (Hsub : list_to_set wl ⊆ all_workloads) by (intros x Hx%elem_of_list_to_set; auto).
  destruct igs as [l|]; simpl.
  - case_decide; [done|]. intros [= <-]. simpl. split_and!; [done|done|naive_solver|].
    intros g [= <-]. apply input_groups_convert_normalized.
  - case_decide; intros [= <-]; simpl; split_and!; try done.
    all: first [split; [by eexists|done] | split; [done|by intros []] | by intros g [= <-] _].
Qed.

(** * The static [get_deployment_specifications] *)

Section Static.
Import AppDeploymentSpecification.

Lemma name_clashes_go l seen d :
  let d' := (foldl name_clash_step (seen, d) l).2 in
  diag_le d d' ∧
  (d_errors d' = d_errors d ↔ NoDup (ds_name <$> l) ∧ ∀ s, s ∈ l → ds_name s ∉ seen).
Proof.
  revert seen d. induction l as [|s l IH]; intros seen d; simpl.
  { split; [apply diag_le_refl|]. split; [intros _; split; [constructor|set_solver]|done]. }
  destruct (decide (ds_name s ∈ seen)) as [Hin|Hin].
  - destruct (IH (seen ∪ {[ds_name s]}) (log_error (MsgDuplicateSpecName (ds_name s)) d)) as [Hle _].
    split; [eapply diag_le_trans; [apply diag_le_log_error|exact Hle]|].
    split; [|intros [_ Hs]; exfalso; apply (Hs s); [left|done]].
    destruct Hle as (e & _ & _ & _ & He & _). rewrite He. simpl. intros Heq.
    apply (f_equal length) in Heq. rewrite !length_app in Heq. simpl in Heq. lia.
  - destruct (IH (seen ∪ {[ds_name s]}) d) as [Hle ->]. split; [done|].
    rewrite NoDup_cons, list_elem_of_fmap. split.
    + intros [Hnd Hs]. split_and!; [|done|].
      * intros (s' & Heq & Hs'). apply (Hs s' Hs'). set_solver.
      * intros s' [->|Hs']%elem_of_cons; [done|]. specialize (Hs s' Hs'). set_solver.
    + intros [[Hn Hnd] Hs]. split; [done|]. intros s' Hs'. apply not_elem_of_union. split.
      * apply Hs. by right.
      * intros Heq%elem_of_singleton. apply Hn. exists s'. split; [symmetry; exact Heq|exact Hs'].
Qed.

(** The duplicate-name check logs an error exactly when two
    specifications of the list share a name. *)
Theorem report_name_clashes_spec l d :
  d_errors (report_name_clashes l d) = d_errors d ↔ NoDup (ds_name <$> l).
Proof.
  unfold report_name_clashes. rewrite (proj2 (name_clashes_go l ∅ d)). set_solver.
Qed.

(** The workloads some specification of a list already targets. *)
Definition workloads_of (l : list DeploymentSpecification) : gset string := ⋃ (ds_workload <$> l).

Lemma update_scan_spec ul l :
  (∀ u, update_scan ul l = Some u → u ⊆ ul) ∧
  ∀ x, x ∈ ul →
    (match update_scan ul l with Some u => x ∈ u | None => False end ↔ x ∉ workloads_of l).
Proof.
  unfold workloads_of. revert ul. induction l as [|s l IH]; intros ul; simpl.
  { split; [by intros u [= <-]|set_solver]. }
  try rewrite union_list_cons.
  destruct (decide (size (ds_workload s ∩ ul) = 0)) as [H0|H0].
  - apply size_empty_inv in H0. destruct (IH ul) as [Hsub Hx]. split; [done|].
    intros x Hxu. rewrite Hx by done. set_solver.
  - destruct (decide (size (ds_workload s ∩ ul) = size ul)) as [Heq|Hne].
    + assert (Hall : ds_workload s ∩ ul ≡ ul) by (apply set_subseteq_size_equiv; [set_solver|lia]).
      split; [done|]. set_solver.
    + destruct (IH (ul ∖ (ds_workload s ∩ ul))) as [Hsub Hx]. split; [intros u Hu; specialize (Hsub u Hu); set_solver|].
      intros x Hxu. destruct (decide (x ∈ ds_workload s)).
      * split; [|set_solver]. destruct (update_scan _ l) as [u|] eqn:Hu; [|done].
        intros Hxu'. specialize (Hsub u eq_refl). set_solver.
      * rewrite Hx by set_solver. set_solver.
Qed.

Lemma default_specs_scan l :
  default_specs (update_scan search_head_indexer l) =
  (if decide ("searchHead" ∈ workloads_of l) then [] else [spec_search_heads]) ++
  (if decide ("indexer" ∈ workloads_of l) then [] else [spec_indexers]).
Proof.
  destruct (update_scan_spec search_head_indexer l) as [Hsub Hx].
  pose proof (Hx "searchHead" ltac:(set_solver)) as Hsh. pose proof (Hx "indexer" ltac:(set_solver)) as Hidx.
  destruct (update_scan search_head_indexer l) as [u|]; simpl.
  - specialize (Hsub u eq_refl). rewrite (decide_False (P := "forwarder" ∈ u)) by set_solver.
    rewrite app_nil_r. repeat case_decide; try done; naive_solver.
  - repeat case_decide; try done; naive_solver.
Qed.

(** Without combining, the result is the given specifications, then
    [_search_heads] and [_indexers] for each of [searchHead] and [indexer]
    that no given specification targets, [_forwarders] when nothing was
    given, then the forwarder specifications. *)
Theorem get_deployment_specifications_separate specs fwd d :
  fst <$> get_deployment_specifications specs false fwd d =
  Some (specs ++
        (if decide ("searchHead" ∈ workloads_of specs) then [] else [spec_search_heads]) ++
        (if decide ("indexer" ∈ workloads_of specs) then [] else [spec_indexers]) ++
        (if decide (specs = [] ∧ fwd = None) then [spec_forwarders] else []) ++
        default [] fwd).
Proof.
  unfold get_deployment_specifications. simpl.
  destruct (decide (length specs = 0 ∧ fwd = None)) as [[Hl ->]|Hn].
  - destruct specs; [|done]. unfold default_specs, workloads_of. simpl.
    repeat case_decide; try done; set_solver.
  - rewrite default_specs_scan, (decide_False (P := specs = [] ∧ fwd = None)) by (intros [-> ->]; by apply Hn).
    by rewrite ?app_nil_r, <-?(assoc_L (++)).
Qed.

(** The input groups a specification contributes to the combined one: it
    targets [searchHead] or [indexer] and has input groups.  Such a
    specification is the one the combining branch removes. *)
Definition removed_groups (s : DeploymentSpecification) : list (gset string) :=
  if decide (ds_workload s ## search_head_indexer) then []
  else match ds_input_groups s with Some g => [g] | None => [] end.

Fixpoint removed_indices (k : nat) (l : list DeploymentSpecification) : list nat :=
  match l with
  | [] => []
  | s :: r => (if decide (removed_groups s = []) then [] else [k]) ++ removed_indices (S k) r
  end.

Lemma combine_step_cases g rl k s :
  (removed_groups s = [] ∧ combine_step (g, rl) (k, s) = (g, rl)) ∨
  (∃ g', removed_groups s = [g'] ∧ combine_step (g, rl) (k, s) = (g ∪ g', rl ++ [k])).
Proof.
  unfold removed_groups, combine_step. case_decide; [by left|].
  destruct (ds_input_groups s); [right; by eexists|by left].
Qed.

Lemma combine_scan_go l k g rl :
  foldl combine_step (g, rl) (zip (seq k (length l)) l) =
  (g ∪ ⋃ (l ≫= removed_groups), rl ++ removed_indices k l).
Proof.
  revert k g rl. induction l as [|s l IH]; intros k g rl; cbn [foldl zip seq length removed_indices].
  { simpl. f_equal; [set_solver|by rewrite app_nil_r]. }
  rewrite bind_cons.
  destruct (combine_step_cases g rl k s) as [[Hs ->]|(g' & Hs & ->)]; rewrite IH, Hs.
  - rewrite decide_True by done. simpl. done.
  - rewrite decide_False by done. simpl. f_equal; [set_solver|by rewrite <-(assoc_L (++))].
Qed.

Lemma removed_indices_ge k l j : j ∈ removed_indices k l → k ≤ j.
Proof.
  revert k. induction l as [|s l IH]; intros k; simpl; [set_solver|].
  intros [Hj|Hj]%elem_of_app; [case_decide; set_solver|]. specialize (IH _ Hj). lia.
Qed.

Lemma length_removed_indices k l :
  length (removed_indices k l) = length (filter (λ s, removed_groups s ≠ []) l).
Proof.
  revert k. induction l as [|s l IH]; intros k; simpl; [done|].
  rewrite length_app, IH. rewrite filter_cons. by repeat case_decide.
Qed.

Lemma removed_indices_del k l :
  (removed_indices k l = [] → filter (λ s, removed_groups s = []) l = l) ∧
  (∀ i, removed_indices k l = [k + i] → py_del l i = Some (filter (λ s, removed_groups s = []) l)).
Proof.
  revert k. induction l as [|s l IH]; intros k; simpl; [split; [done|by intros ? ?]|].
  rewrite filter_cons. destruct (decide (removed_groups s = [])) as [Hs|Hs]; simpl.
  - destruct (IH (S k)) as [H1 H2]. split; [intros ->%H1; done|].
    intros [|i] Hi.
    + exfalso. assert (S k ≤ k + 0) by (apply (removed_indices_ge (S k) l); rewrite Hi; left). lia.
    + simpl. rewrite (H2 i); [done|]. rewrite Hi. f_equal. lia.
  - destruct (IH (S k)) as [H1 _]. split; [done|].
    intros [|i] [= Hk Hr]; [|lia]. simpl. by rewrite H1.
Qed.

Lemma removed_indices_sorted k l i rest : removed_indices k l = i :: rest → Forall (λ x, i < x) rest.
Proof.
  revert k. induction l as [|s l IH]; intros k; cbn; [done|]. case_decide; cbn; [apply IH|].
  intros [= <- <-]. apply Forall_forall. intros x Hx%removed_indices_ge. lia.
Qed.

Lemma removed_indices_lookup k l j :
  j ∈ removed_indices k l → k ≤ j ∧ ∃ s, l !! (j - k) = Some s ∧ removed_groups s ≠ [].
Proof.
  revert k. induction l as [|s l IH]; intros k; cbn; [set_solver|].
  intros [Hj|Hj]%elem_of_app.
  - case_decide; [set_solver|]. apply list_elem_of_singleton in Hj as ->. rewrite Nat.sub_diag. eauto.
  - destruct (IH (S k) Hj) as (Hk & s' & Hs' & Hg). split; [lia|]. exists s'.
    by replace (j - k) with (S (j - S k)) by lia.
Qed.

(** C30. Combining with two specifications to merge, at positions [i < j],
    deletes by ascending index from a list that shrinks: the second
    [del] removes the specification at the original position [j + 1],
    so the one at [j], which is merged, stays in the result; when [j] is
    the last position, it raises [IndexError]. *)
Theorem get_deployment_specifications_combine_two specs fwd d i j :
  removed_indices 0 specs = [i; j] →
  (S j < length specs →
     fst <$> get_deployment_specifications specs true fwd d =
       Some (delete j (delete i specs) ++ [combined_spec (⋃ (specs ≫= removed_groups))]) ∧
     ∃ s, specs !! j = Some s ∧ removed_groups s ≠ [] ∧ s ∈ delete j (delete i specs)) ∧
  (S j = length specs → get_deployment_specifications specs true fwd d = None).
Proof.
  intros Hidx. pose proof (removed_indices_sorted 0 specs i [j] Hidx) as [Hij _]%Forall_cons.
  destruct (removed_indices_lookup 0 specs j) as (_ & s & Hs & Hg); [rewrite Hidx; set_solver|].
  rewrite Nat.sub_0_r in Hs. pose proof (lookup_lt_Some _ _ _ Hs) as Hjl.
  assert (length (delete i specs) = length specs - 1) as Hdl by (apply length_delete, lookup_lt_is_Some; lia).
  unfold get_deployment_specifications. cbn [negb]. rewrite decide_False by lia.
  unfold combine_scan. rewrite combine_scan_go, (left_id_L ∅ (∪)), Hidx. cbn [app del_all].
  rewrite (py_del_spec specs i), decide_True by lia. cbn [mbind option_bind].
  rewrite py_del_spec, Hdl. split.
  - intros Hlt. rewrite decide_True by lia. split; [done|]. exists s. split_and!; [done|done|].
    apply (list_elem_of_lookup_2 _ (j - 1)). rewrite list_lookup_delete_lt, list_lookup_delete_ge by lia.
    by replace (S (j - 1)) with j by lia.
  - intros Heq. by rewrite decide_False by lia.
Qed.

(** Combining, with at most one specification to merge: the result is
    the specifications that target neither [searchHead] nor [indexer] or
    have no input groups, followed by [_search_head_indexers] carrying the
    union of the merged input groups. *)
Theorem get_deployment_specifications_combine specs fwd d :
  specs ≠ [] → length (filter (λ s, removed_groups s ≠ []) specs) ≤ 1 →
  fst <$> get_deployment_specifications specs true fwd d =
  Some (filter (λ s, removed_groups s = []) specs ++ [combined_spec (⋃ (specs ≫= removed_groups))]).
Proof.
  intros Hne Hle. unfold get_deployment_specifications. simpl.
  rewrite decide_False by (destruct specs; simpl; [done|lia]).
  unfold combine_scan. rewrite combine_scan_go, (left_id_L ∅ (∪)). simpl.
  rewrite <-(length_removed_indices 0) in Hle.
  destruct (removed_indices_del 0 specs) as [H1 H2].
  destruct (removed_indices 0 specs) as [|i [|j rest]] eqn:Hidx; simpl in Hle; [|clear Hle|lia].
  - simpl. by rewrite H1.
  - simpl. by rewrite (H2 i).
Qed.

End Static.

Module DeploymentSpecExamples.
Import AppDeploymentSpecification.
Definition sh_all := mkSpec "sh1" {["searchHead"; "forwarder"]} (Some all_input_groups).
Definition idx_a := mkSpec "idx" {["indexer"; "forwarder"]} (Some {["a"]}).
Definition fwd_b := mkSpec "fwd" {["forwarder"]} (Some {["b"]}).
End DeploymentSpecExamples.

Module DeploymentSpecWitnesses.
Import AppDeploymentSpecification DeploymentSpecExamples.

Lemma spec_convert_wf_witness :
  ∃ s, spec_convert (mkSpec "forwarders" {["forwarder"]} (input_groups_convert <$> None)) = inr s ∧
       spec_wf s.
Proof.
  assert (Hw : workload_convert ["forwarder"] = inr ({["forwarder"]} : gset string))
    by (vm_compute; reflexivity).
  eexists. split; [reflexivity|].
  apply (proj2 (DeploymentSpec.spec_convert_wf "forwarders" ["forwarder"] None _ _ Hw eq_refl)).
Defined.

Lemma get_deployment_specifications_combine_witness :
  fst <$> get_deployment_specifications [fwd_b; sh_all] true None diag0 =
  Some [fwd_b; combined_spec all_input_groups].
Proof.
  rewrite (DeploymentSpec.get_deployment_specifications_combine [fwd_b; sh_all] None diag0);
    [|discriminate|vm_compute; lia].
  vm_compute. reflexivity.
Defined.

(** With [sh1; idx; fwd], the merged [idx] stays and [fwd] is removed;
    with [sh1; fwd; idx], the second [del] raises. *)
Lemma get_deployment_specifications_combine_two_witness :
  removed_indices 0 [sh_all; idx_a; fwd_b] = [0; 1] ∧ 2 < length [sh_all; idx_a; fwd_b] ∧
  fst <$> get_deployment_specifications [sh_all; idx_a; fwd_b] true None diag0 =
    Some ([idx_a] ++ [combined_spec (⋃ ([sh_all; idx_a; fwd_b] ≫= removed_groups))]) ∧
  removed_indices 0 [sh_all; fwd_b; idx_a] = [0; 2] ∧
  get_deployment_specifications [sh_all; fwd_b; idx_a] true None diag0 = None.
Proof.
  assert (H1 : removed_indices 0 [sh_all; idx_a; fwd_b] = [0; 1]) by (vm_compute; reflexivity).
  assert (H2 : removed_indices 0 [sh_all; fwd_b; idx_a] = [0; 2]) by (vm_compute; reflexivity).
  split_and!; [exact H1|cbn; lia| |exact H2|].
  - apply (proj1 (proj1 (DeploymentSpec.get_deployment_specifications_combine_two _ None diag0 0 1 H1) ltac:(cbn; lia))).
  - apply (proj2 (DeploymentSpec.get_deployment_specifications_combine_two _ None diag0 0 2 H2)). reflexivity.
Defined.

End DeploymentSpecWitnesses.


End DeploymentSpec.
Export DeploymentSpec.
