(* ===== verification/Propagation.v ===== *)
(** * Propagating a deployment specification over the dependency graph

    src/slim/app/_deployment.py lines 182-199 and 386-428
    ([AppDependencyGraph.get_deployment_specifications] and
    [_get_deployment_specifications]).  With [inputGroups] absent or [ALL]
    every node receives the requested specification; otherwise the
    recursion walks the graph from the root and gives each dependency the
    input groups that the active groups of its dependent require of it,
    merged with [_union_of] into what it already received.

    The exceptions the recursion can raise ([KeyError] on an unknown alias
    or package, the [assert] on the graph, iterating a missing set) are the
    values of [PropError].  The recursion is given fuel; on a graph without
    cycles one unit per node suffices ([get_deployment_specifications_total]). *)

From stdpp Require Import base list gmap strings sets relations.
From S2P Require Import Prelude AppSource InputGroups Cycle DependencyGraph DeploymentSpec.

Module Propagation.

Inductive PropError :=
| ErrUnknownAlias (app alias : string)   (** [dependencies[alias]] raises [KeyError] *)
| ErrNoSource (app alias : string)       (** [self._repository_sources[dependency.package]] raises *)
| ErrCorrupt (app : string)              (** [assert ..., 'Dependency graph is corrupt'] *)
| ErrNotIterable (app : string).         (** [None] is iterated: [TypeError] *)

Abbreviation Result := (list (AppSource * DeploymentSpecification)).

(** [dependency = dependencies[alias]] then
    [dependency_source = self._repository_sources[dependency.package]] *)
Definition alias_source (g : Graph) (app : AppSource) (alias : string) : PropError + AppSource :=
  match src_dependencies app ≫= (λ ds, od_get ds alias) with
  | None => inl (ErrUnknownAlias (src_id app) alias)
  | Some dependency =>
      match dep_package dependency ≫= (λ p, g_repository g !! p) with
      | None => inl (ErrNoSource (src_id app) alias)
      | Some dsrc => inr dsrc
      end
  end.

(** One alias of [group.requires] (lines 407-414). *)
Definition require_step (g : Graph) (app : AppSource)
    (reqs : list (AppSource * gset string)) (ar : string * gset string)
    : PropError + list (AppSource * gset string) :=
  match alias_source g app ar.1 with
  | inl e => inl e
  | inr dsrc =>
      if decide (dsrc ∈ default [] (od_get (g_graph g) app))
      then inr (od_set reqs dsrc (union_of (default no_input_groups (od_get reqs dsrc)) ar.2))
      else inl (ErrCorrupt (src_id app))
  end.

(** One active input-group name (lines 399-414): a group without the
    attribute [requires] is skipped (the [AttributeError] is caught), one
    whose [requires] is [None] raises [TypeError] at [for alias in aliases]. *)
Definition group_step (g : Graph) (app : AppSource) (igs : list (string * InputGroup))
    (reqs : list (AppSource * gset string)) (name : string)
    : PropError + list (AppSource * gset string) :=
  match od_get igs name with
  | None => inr reqs
  | Some group =>
      if negb (ig_has_requires group) then inr reqs
      else match ig_requires group with
           | None => inl (ErrNotIterable (src_id app))
           | Some aliases => fold_err (require_step g app) reqs aliases
           end
  end.

(** The dictionary of dependent app requirements (lines 392-414); the
    frozenset of active names is iterated in the order of [elements]. *)
Definition requirements_of (g : Graph) (app : AppSource) (spec : DeploymentSpecification)
    : PropError + list (AppSource * gset string) :=
  match src_input_groups app with
  | None => inr []
  | Some igs =>
      match ds_input_groups spec with
      | None => inl (ErrNotIterable (src_id app))
      | Some names => fold_err (group_step g app igs) [] (elements names)
      end
  end.

(** The specification a dependency receives (lines 419-427). *)
Definition dependency_spec (spec : DeploymentSpecification) (reqs : list (AppSource * gset string))
    (result : Result) (dsrc : AppSource) : PropError + DeploymentSpecification :=
  let igs := default no_input_groups (od_get reqs dsrc) in
  match od_get result dsrc with
  | Some prev =>
      match ds_input_groups prev with
      | Some p => inr (mkSpec (ds_name spec) (ds_workload spec) (Some (union_of p igs)))
      | None => inl (ErrNotIterable (src_id dsrc))
      end
  | None => inr (mkSpec (ds_name spec) (ds_workload spec) (Some igs))
  end.

(** The loop [for dependency, dependency_source in app_source.dependencies]
    (lines 418-428), with [rec] the recursive call. *)
Fixpoint propagate_loop (rec : AppSource → DeploymentSpecification → Result → option (PropError + Result))
    (spec : DeploymentSpecification) (reqs : list (AppSource * gset string))
    (deps : list (Dependency * AppSource)) (result : Result) : option (PropError + Result) :=
  match deps with
  | [] => Some (inr result)
  | (_, dsrc) :: rest =>
      match dependency_spec spec reqs result dsrc with
      | inl e => Some (inl e)
      | inr dspec =>
          match rec dsrc dspec result with
          | None => None
          | Some (inl e) => Some (inl e)
          | Some (inr result') => propagate_loop rec spec reqs rest result'
          end
      end
  end.

(** [_get_deployment_specifications(app_source, deployment_specification, result)] *)
Fixpoint propagate (fuel : nat) (g : Graph) (app : AppSource) (spec : DeploymentSpecification)
    (result : Result) : option (PropError + Result) :=
  match fuel with
  | 0 => None
  | S f =>
      let result := od_set result app spec in
      match requirements_of g app spec with
      | inl e => Some (inl e)
      | inr reqs => propagate_loop (propagate f g) spec reqs (default [] (od_get (g_resolved g) app)) result
      end
  end.

(** [get_deployment_specifications(deployment_specification)] (lines 182-199). *)
Definition get_deployment_specifications (root : AppSource) (g : Graph) (spec : DeploymentSpecification)
    : option (PropError + Result) :=
  if is_all_input_groups (ds_input_groups spec)
  then Some (inr (map (λ s, (s, spec)) (od_keys (g_graph g))))
  else propagate (S (length (od_keys (g_graph g)))) g root spec [].

(** * Properties *)

Section Wf.
Context (root : AppSource) (g : Graph) (Hwf : graph_wf root g).

Abbreviation keys := (od_keys (g_graph g)).

Lemma resolved_of x : x ∈ keys → ∃ l, od_get (g_resolved g) x = Some l ∧
  (∀ dd, dd ∈ l → dd.2 ∈ keys ∧ Cycle.edge (g_graph g) x dd.2).
Proof.
  intros Hx. destruct (proj2 Hwf x Hx) as (l & Hl & Hadj & Hin). exists l. split; [done|].
  intros [dep y] Hdd. split; [by apply (Hin (dep, y))|].
  unfold Cycle.edge, Cycle.succs. rewrite Hadj. simpl. apply elem_of_ordered_set.
  apply list_elem_of_fmap. by exists (dep, y).
Qed.

Lemma nodup_path_le (path : list AppSource) app :
  NoDup (app :: path) → (∀ p, p ∈ app :: path → p ∈ keys) → S (length path) ≤ length keys.
Proof.
  intros Hnd Hin. change (S (length path)) with (length (app :: path)).
  apply NoDup_incl_length; [by apply NoDup_ListNoDup|]. intros x Hx.
  apply list_elem_of_In, Hin, list_elem_of_In, Hx.
Qed.

(** ** Termination on graphs without cycles *)

Lemma propagate_loop_total rec spec reqs deps result :
  (∀ dd sp r, dd ∈ deps → is_Some (rec dd.2 sp r)) →
  is_Some (propagate_loop rec spec reqs deps result).
Proof.
  revert result. induction deps as [|[dep y] deps IH]; intros result Hrec; simpl; [by eexists|].
  destruct (dependency_spec spec reqs result y) as [e|dspec]; [by eexists|].
  destruct (Hrec (dep, y) dspec result) as [[e|r'] Hr]; [by left|..]; simpl in Hr; rewrite Hr; [by eexists|].
  apply IH. intros dd sp r Hdd. apply Hrec. by right.
Qed.

Lemma propagate_total f app path spec result :
  ¬ Cycle.has_cycle (g_graph g) → app ∈ keys → NoDup (app :: path) →
  (∀ p, p ∈ path → p ∈ keys ∧ tc (Cycle.edge (g_graph g)) p app) →
  length keys < f + length path → is_Some (propagate f g app spec result).
Proof.
  intros Hacyc. revert app path spec result.
  induction f as [|f IH]; intros app path spec result Happ Hnd Hpath Hlen.
  { exfalso. cut (S (length path) ≤ length keys); [lia|]. apply (nodup_path_le path app Hnd).
    intros p [->|Hp]%elem_of_cons; [done|]. by apply Hpath. }
  simpl. destruct (requirements_of g app spec) as [e|reqs]; [by eexists|].
  destruct (resolved_of app Happ) as (l & -> & Hl). simpl.
  apply propagate_loop_total. intros [dep y] sp r Hdd. destruct (Hl _ Hdd) as [Hy Hedge]; simpl in *.
  assert (Hpy : ∀ p, p ∈ app :: path → tc (Cycle.edge (g_graph g)) p y).
  { intros p [->|Hp]%elem_of_cons; [by apply tc_once|].
    eapply tc_r; [apply Hpath, Hp|exact Hedge]. }
  apply (IH y (app :: path)); [done| |..|simpl; lia].
  - constructor; [|done]. intros Hin. apply Hacyc. exists y. by apply Hpy.
  - intros p Hp. split; [|by apply Hpy]. apply elem_of_cons in Hp as [->|Hp]; [done|]. by apply Hpath.
Qed.

(** ** What a dependency can receive

  [requirement_sets g x] lists every set that an input group of a node of
  the graph requires of an alias that resolves to [x]: the only sets that
  can flow into [x]'s specification. *)

Definition alias_targets (a x : AppSource) : list (gset string) :=
  default [] (src_input_groups a) ≫= (λ ng,
    default [] (ig_requires ng.2) ≫= (λ ar,
      match alias_source g a ar.1 with
      | inr y => if decide (y = x) then [ar.2] else []
      | inl _ => []
      end)).

Definition requirement_sets (x : AppSource) : list (gset string) :=
  keys ≫= (λ a, alias_targets a x).

Definition reqs_bound (reqs : list (AppSource * gset string)) : Prop :=
  ∀ y S, od_get reqs y = Some S → S ⊆ ⋃ requirement_sets y.

Lemma requirement_sets_in app igs ng aliases ar y :
  app ∈ keys → src_input_groups app = Some igs → ng ∈ igs → ig_requires ng.2 = Some aliases →
  ar ∈ aliases → alias_source g app ar.1 = inr y → ar.2 ⊆ ⋃ requirement_sets y.
Proof.
  intros Happ Higs Hng Hreq Har Hy x Hx. apply elem_of_union_list. exists ar.2. split; [|done].
  apply list_elem_of_bind. exists app. split; [|done].
  apply list_elem_of_bind. exists ng. rewrite Higs. split; [|done].
  apply list_elem_of_bind. exists ar. rewrite Hreq, Hy. split; [|done].
  rewrite decide_True; [|done]. by apply list_elem_of_singleton.
Qed.

Lemma requirements_of_bound app spec reqs :
  app ∈ keys → requirements_of g app spec = inr reqs → reqs_bound reqs.
Proof.
  unfold requirements_of. intros Happ. destruct (src_input_groups app) as [igs|] eqn:Higs; [|by intros [= <-]].
  destruct (ds_input_groups spec) as [names|]; [|done].
  apply fold_err_invariant; [done|]. intros reqs0 name reqs1 _ H0. unfold group_step.
  destruct (od_get igs name) as [grp|] eqn:Hgrp; [|by intros [= <-]].
  destruct (ig_has_requires grp); [|by intros [= <-]]. cbn [negb].
  destruct (ig_requires grp) as [aliases|] eqn:Hreq; [|done].
  apply fold_err_invariant; [done|]. intros r ar r' Har Hr. unfold require_step.
  destruct (alias_source g app ar.1) as [e|y] eqn:Hy; [done|]. case_decide; [|done].
  intros [= <-] z S. destruct (decide (z = y)) as [->|Hne].
  - rewrite od_get_set_eq. intros [= <-]. etrans; [apply union_of_subseteq|].
    apply union_least; [|eapply (requirement_sets_in app igs (name, grp)); eauto using od_get_Some_in].
    destruct (od_get r y) as [S0|] eqn:HS0; simpl; [by apply Hr|apply empty_subseteq].
  - rewrite od_get_set_ne by done. apply Hr.
Qed.

Lemma propagate_loop_inv (P : Result → Prop) rec spec reqs deps result r' :
  (∀ dd dspec res res', dd ∈ deps → P res → dependency_spec spec reqs res dd.2 = inr dspec →
     rec dd.2 dspec res = Some (inr res') → P res') →
  P result → propagate_loop rec spec reqs deps result = Some (inr r') → P r'.
Proof.
  revert result. induction deps as [|[dep y] deps IH]; intros result Hstep Hres; simpl; [by intros [= <-]|].
  destruct (dependency_spec spec reqs result y) as [e|dspec] eqn:Hd; [done|].
  destruct (rec y dspec result) as [[e|r1]|] eqn:Hr; [done| |done].
  apply IH; [|by apply (Hstep (dep, y) dspec result r1); [left|..]].
  intros dd ds res res' Hdd. apply Hstep. by right.
Qed.

Section Bound.
Context (spec0 : DeploymentSpecification).

(** The entry of [x]: the requested name and workload, and below the root
    only input groups that some node requires of [x]. *)
Definition spec_ok (x : AppSource) (sx : DeploymentSpecification) : Prop :=
  ds_name sx = ds_name spec0 ∧ ds_workload sx = ds_workload spec0 ∧
  (x ≠ root → ∃ igs, ds_input_groups sx = Some igs ∧ igs ⊆ ⋃ requirement_sets x).

Definition result_ok (r : Result) : Prop := ∀ x sx, od_get r x = Some sx → spec_ok x sx.

Lemma result_ok_set r x sx : result_ok r → spec_ok x sx → result_ok (od_set r x sx).
Proof.
  intros Hr Hx y sy. destruct (decide (y = x)) as [->|Hne].
  - rewrite od_get_set_eq. by intros [= <-].
  - rewrite od_get_set_ne by done. apply Hr.
Qed.

Lemma dependency_spec_ok app spec reqs r y dspec :
  spec_ok app spec → reqs_bound reqs → result_ok r →
  dependency_spec spec reqs r y = inr dspec → spec_ok y dspec.
Proof.
  intros (Hn & Hw & _) Hreqs Hr. unfold dependency_spec.
  assert (Higs : default no_input_groups (od_get reqs y) ⊆ ⋃ requirement_sets y).
  { destruct (od_get reqs y) eqn:Hy; simpl; [by apply Hreqs|apply empty_subseteq]. }
  destruct (od_get r y) as [prev|] eqn:Hprev.
  - destruct (ds_input_groups prev) as [p|] eqn:Hp; [|done]. intros [= <-].
    split_and!; [done|done|]. intros Hroot. eexists; split; [done|].
    destruct (Hr y prev Hprev) as (_ & _ & Hpb). destruct (Hpb Hroot) as (p' & Hp' & Hsub).
    rewrite Hp in Hp'. simplify_eq. etrans; [apply union_of_subseteq|]. by apply union_least.
  - intros [= <-]. split_and!; [done|done|]. intros _. by eexists.
Qed.

Lemma propagate_ok f app spec result r' :
  app ∈ keys → spec_ok app spec → result_ok result →
  propagate f g app spec result = Some (inr r') → result_ok r'.
Proof.
  revert app spec result r'. induction f as [|f IH]; intros app spec result r' Happ Hspec Hres; [done|].
  simpl. destruct (requirements_of g app spec) as [e|reqs] eqn:Hreqs; [done|].
  apply requirements_of_bound in Hreqs; [|done].
  destruct (resolved_of app Happ) as (l & -> & Hl). simpl.
  apply propagate_loop_inv; [|by apply result_ok_set].
  intros dd dspec res res' Hdd Hres' Hd. apply IH; [apply (Hl dd Hdd)| |done].
  by eapply dependency_spec_ok.
Qed.

End Bound.

(** ** Which nodes receive a specification *)

Abbreviation E := (Cycle.edge (g_graph g)).

Lemma edge_resolved x l y : od_get (g_resolved g) x = Some l → x ∈ keys → E x y → ∃ dd, dd ∈ l ∧ dd.2 = y.
Proof.
  intros Hl Hx. destruct (proj2 Hwf x Hx) as (l' & Hl' & Hadj & _). rewrite Hl in Hl'. simplify_eq.
  unfold Cycle.edge, Cycle.succs. rewrite Hadj. simpl.
  intros [dd [-> Hdd]]%elem_of_ordered_set%list_elem_of_fmap. by exists dd.
Qed.

(** [r] extends [r0], and every node [r] adds has its successors in [r]. *)
Definition covers (r0 r : Result) : Prop :=
  (∀ x, x ∈ od_keys r0 → x ∈ od_keys r) ∧
  (∀ x, x ∈ od_keys r → x ∈ od_keys r0 ∨ ∀ y, E x y → y ∈ od_keys r).

Lemma covers_refl r : covers r r.
Proof. split; auto. Qed.

Lemma covers_trans r0 r1 r2 : covers r0 r1 → covers r1 r2 → covers r0 r2.
Proof.
  intros [Hk1 Hc1] [Hk2 Hc2]. split; [auto|]. intros x Hx.
  destruct (Hc2 x Hx) as [Hx1|]; [|by right]. destruct (Hc1 x Hx1) as [|Hcl]; [by left|].
  right. intros y Hy. by apply Hk2, Hcl.
Qed.

Definition from (a : AppSource) (r0 r : Result) : Prop :=
  ∀ x, x ∈ od_keys r → x ∈ od_keys r0 ∨ rtc E a x.

Lemma propagate_loop_covers rec spec reqs deps app result r' :
  (∀ dd, dd ∈ deps → E app dd.2) →
  (∀ dd dspec res res', dd ∈ deps → rec dd.2 dspec res = Some (inr res') →
     covers res res' ∧ dd.2 ∈ od_keys res' ∧ from dd.2 res res') →
  propagate_loop rec spec reqs deps result = Some (inr r') →
  covers result r' ∧ (∀ dd, dd ∈ deps → dd.2 ∈ od_keys r') ∧ from app result r'.
Proof.
  intros Hedge Hrec. revert result. induction deps as [|[dep y] deps IH]; intros result; simpl.
  { intros [= <-]. split_and!; [apply covers_refl|set_solver|by left]. }
  destruct (dependency_spec spec reqs result y) as [e|dspec]; [done|].
  destruct (rec y dspec result) as [[e|r1]|] eqn:Hr; [done| |done].
  destruct (Hrec (dep, y) dspec result r1) as (Hc1 & Hy & Hf1); [by left|done|].
  intros Hloop. destruct (IH (λ dd Hdd, Hedge dd (list_elem_of_further _ _ _ Hdd))
    (λ dd ds res res' Hdd, Hrec dd ds res res' (list_elem_of_further _ _ _ Hdd)) r1 Hloop)
    as (Hc2 & Hin & Hf2).
  split_and!; [by eapply covers_trans| |].
  - intros dd [->|Hdd]%elem_of_cons; [|by apply Hin]. by apply (proj1 Hc2).
  - intros x Hx. destruct (Hf2 x Hx) as [Hx1|]; [|by right].
    destruct (Hf1 x Hx1) as [|Hyx]; [by left|]. right.
    eapply rtc_l; [apply (Hedge (dep, y)); by left|done].
Qed.

Lemma propagate_covers f app spec result r' :
  app ∈ keys → propagate f g app spec result = Some (inr r') →
  covers result r' ∧ app ∈ od_keys r' ∧ from app result r'.
Proof.
  revert app spec result r'. induction f as [|f IH]; intros app spec result r' Happ; [done|].
  simpl. destruct (requirements_of g app spec) as [e|reqs]; [done|].
  destruct (resolved_of app Happ) as (l & Hgl & Hl). rewrite Hgl. simpl. intros Hloop.
  destruct (propagate_loop_covers (propagate f g) spec reqs l app _ r' (λ dd Hdd, proj2 (Hl dd Hdd))
    (λ dd ds res res' Hdd, IH dd.2 ds res res' (proj1 (Hl dd Hdd))) Hloop) as ([Hk Hc] & Hin & Hf).
  assert (Happ' : app ∈ od_keys r') by (apply Hk, elem_of_od_keys_set; by left).
  split_and!; [split| |].
  - intros x Hx. apply Hk, elem_of_od_keys_set. by right.
  - intros x Hx. destruct (Hc x Hx) as [[->|Hx1]%elem_of_od_keys_set|Hcl]; [|by left|by right].
    right. intros y Hy. destruct (edge_resolved app l y Hgl Happ Hy) as (dd & Hdd & <-). by apply Hin.
  - done.
  - intros x Hx. destruct (Hf x Hx) as [[->|Hx1]%elem_of_od_keys_set|]; [right; constructor|by left|by right].
Qed.

End Wf.

(** C5. On a well-formed dependency graph without cycles the recursion of
    [get_deployment_specifications] terminates: with one unit of fuel per
    node it returns a result or one of the code's exceptions. *)
Theorem get_deployment_specifications_total root g spec :
  graph_wf root g → Cycle.is_cyclic (g_graph g) = false →
  is_Some (get_deployment_specifications root g spec).
Proof.
  intros Hwf Hcyc. unfold get_deployment_specifications.
  destruct (is_all_input_groups _); [by eexists|].
  apply (propagate_total root g Hwf _ root []).
  - intros Hc. apply Cycle.is_cyclic_complete in Hc. congruence.
  - apply (proj1 Hwf).
  - apply NoDup_singleton.
  - set_solver.
  - simpl. lia.
Qed.

Lemma od_get_map_const (l : list AppSource) (spec sx : DeploymentSpecification) x :
  od_get (map (λ s, (s, spec)) l) x = Some sx → sx = spec.
Proof. intros [? [? ?]]%od_get_Some_in%list_elem_of_fmap. by simplify_eq. Qed.

Lemma od_keys_map_const (l : list AppSource) (spec : DeploymentSpecification) :
  od_keys (map (λ s, (s, spec)) l) = l.
Proof. unfold od_keys. rewrite map_map. apply map_id. Qed.

(** C6. What each app receives: with [inputGroups] absent or [ALL] every
    entry is the requested specification; otherwise every entry keeps the
    requested name and workload, and an app other than the root receives
    only input groups that some input group of a node requires of it
    (none when nothing refers to it, never [ALL] unless required). *)
Theorem get_deployment_specifications_entries root g spec r x sx :
  graph_wf root g → get_deployment_specifications root g spec = Some (inr r) →
  od_get r x = Some sx →
  if is_all_input_groups (ds_input_groups spec) then sx = spec
  else ds_name sx = ds_name spec ∧ ds_workload sx = ds_workload spec ∧
       (x ≠ root → ∃ igs, ds_input_groups sx = Some igs ∧ igs ⊆ ⋃ requirement_sets g x).
Proof.
  intros Hwf. unfold get_deployment_specifications.
  destruct (is_all_input_groups _); [intros [= <-]; apply od_get_map_const|].
  intros Hrun Hx. apply (propagate_ok root g Hwf spec _ root spec [] r (proj1 Hwf)) in Hrun;
    [by apply Hrun| |done].
  split_and!; [done|done|done].
Qed.

(** C7. Which apps receive a specification: with [inputGroups] absent or
    [ALL] every node of the graph, otherwise exactly the nodes reachable
    from the root along dependency edges. *)
Theorem get_deployment_specifications_nodes root g spec r x :
  graph_wf root g → get_deployment_specifications root g spec = Some (inr r) →
  x ∈ od_keys r ↔
  (if is_all_input_groups (ds_input_groups spec) then x ∈ od_keys (g_graph g)
   else rtc (Cycle.edge (g_graph g)) root x).
Proof.
  intros Hwf. unfold get_deployment_specifications.
  destruct (is_all_input_groups _); [intros [= <-]; by rewrite od_keys_map_const|].
  intros Hrun. destruct (propagate_covers root g Hwf _ root spec [] r (proj1 Hwf) Hrun)
    as ([_ Hc] & Hroot & Hf). split.
  - intros Hx. by destruct (Hf x Hx) as [Hn%elem_of_nil|].
  - revert x. apply rtc_ind_r; [done|]. intros v w _ Hvw Hv.
    destruct (Hc v Hv) as [Hn%elem_of_nil|Hcl]; [done|]. by apply Hcl.
Qed.

End Propagation.
Export Propagation.

(** * A worked example

  [a] depends on [b] and [d], both on [c].  Input group [main] of [a]
  requires [bin] of [b]; [bin] requires [cin] of [c]; [d] has no input
  groups.  Deploying [a] with [{main}] gives [b] {bin}, [c] {cin} and [d]
  nothing. *)
Module PropagationExamples.
Definition v1 : Version := mkVersion 1 0 0.
Definition on (p : string) : Dependency := mkDependency [CAny] (Some p) false None.
Definition grp (reqs : list (string * gset string)) : InputGroup := mkInputGroup (Some reqs) true.
Definition c_src := mkAppSource "c" "c" None v1 true (Some []) (Some [("cin", grp [])]) None.
Definition b_src := mkAppSource "b" "b" None v1 true (Some [("c", on "c")])
  (Some [("bin", grp [("c", {["cin"]})]); ("bother", grp [])]) None.
Definition d_src := mkAppSource "d" "d" None v1 true (Some [("c", on "c")]) None None.
Definition a_src := mkAppSource "a" "a" None v1 true (Some [("b", on "b"); ("d", on "d")])
  (Some [("main", grp [("b", {["bin"]})])]) None.
Definition ex_env : GraphEnv :=
  mkGraphEnv a_src ∅ (<["b":=b_src]> (<["c":=c_src]> (<["d":=d_src]> ∅))) None "*".
Definition ex_graph : Graph := (dependency_graph ex_env diag0).1.
Definition ex_spec : DeploymentSpecification := mkSpec "fw" {["forwarder"]} (Some {["main"]}).
Definition ex_result : Result :=
  match get_deployment_specifications a_src ex_graph ex_spec with Some (inr r) => r | _ => [] end.
Definition ex_entry (x : AppSource) : DeploymentSpecification := default ex_spec (od_get ex_result x).

End PropagationExamples.

Module PropagationWitnesses.
Import PropagationExamples.

Lemma ex_graph_wf : graph_wf a_src ex_graph.
Proof. exact (dependency_graph_wf ex_env diag0). Qed.

Lemma get_deployment_specifications_total_witness :
  is_Some (get_deployment_specifications a_src ex_graph ex_spec).
Proof.
  apply (Propagation.get_deployment_specifications_total a_src ex_graph ex_spec ex_graph_wf).
  vm_compute. reflexivity.
Defined.

(** [d] is referred to by no input group, so it receives none. *)
Lemma get_deployment_specifications_entries_witness :
  ∃ igs, ds_input_groups (ex_entry d_src) = Some igs ∧ igs ⊆ ∅.
Proof.
  pose proof (Propagation.get_deployment_specifications_entries a_src ex_graph ex_spec ex_result
    d_src (ex_entry d_src) ex_graph_wf ltac:(vm_compute; reflexivity) ltac:(vm_compute; reflexivity)) as H.
  change (is_all_input_groups (ds_input_groups ex_spec)) with false in H. cbv iota beta in H.
  destruct H as (_ & _ & H). destruct H as (igs & Higs & Hsub); [vm_compute; discriminate|].
  exists igs. split; [exact Higs|].
  assert (Hr : requirement_sets ex_graph d_src = []) by (vm_compute; reflexivity).
  rewrite Hr in Hsub. exact Hsub.
Defined.

(** [c] is reached through [b], so it receives a specification. *)
Lemma get_deployment_specifications_nodes_witness : c_src ∈ od_keys ex_result.
Proof.
  apply (proj2 (Propagation.get_deployment_specifications_nodes a_src ex_graph ex_spec ex_result
    c_src ex_graph_wf ltac:(vm_compute; reflexivity))).
  change (is_all_input_groups (ds_input_groups ex_spec)) with false. cbv iota beta.
  apply (rtc_l _ a_src b_src c_src); [unfold Cycle.edge; apply list_elem_of_In; vm_compute; auto|].
  apply (rtc_l _ b_src c_src c_src); [unfold Cycle.edge; apply list_elem_of_In; vm_compute; auto|].
  apply rtc_refl.
Defined.

End PropagationWitnesses.
