(* ===== verification/FileReader.v ===== *)
(** * The line reader ([slim.app._internal.file_reader.FileReader])

    src/slim/app/_internal/file_reader.py: an iterator over the lines of a
    stream that counts the lines it reads, can take one line back
    ([put_back]) and joins lines continued by a trailing backslash
    ([read_continuation]).  The state is the record [Reader]: the lines the
    stream has not produced yet, [_line_number] and the put-back slot
    [_line].  A line is a list of characters; the stream is the list of
    lines [next(istream)] would produce.  [StopIteration] and the failed
    [assert] of [put_back] are the values of [ReadError]. *)

From stdpp Require Import base list.
From S2P Require Import Prelude.

Module FileReader.

Abbreviation Line := (list Ascii.ascii).

Record Reader := mkReader {
  fr_stream : list Line;          (** what [next(self._istream)] still yields *)
  fr_line_number : nat;           (** [_line_number] *)
  fr_line : option Line;          (** [_line], [None] when empty *)
}.

Inductive ReadError := StopIteration | AssertionError.

(** [FileReader(istream, filename)] *)
Definition open_reader (stream : list Line) : Reader := mkReader stream 0 None.

(** [__next__]: a put-back line is returned if it is truthy (non-empty);
    otherwise the next line of the stream, counting it. *)
Definition next (r : Reader) : ReadError + (Line * Reader) :=
  match fr_line r with
  | Some (c :: cs) => inr (c :: cs, mkReader (fr_stream r) (fr_line_number r) None)
  | _ =>
      match fr_stream r with
      | [] => inl StopIteration
      | line :: rest => inr (line, mkReader rest (S (fr_line_number r)) (fr_line r))
      end
  end.

(** [put_back(line)] *)
Definition put_back (line : Line) (r : Reader) : ReadError + Reader :=
  match fr_line r with
  | None => inr (mkReader (fr_stream r) (fr_line_number r) (Some line))
  | Some _ => inl AssertionError
  end.

Definition backslash : Ascii.ascii := Ascii.ascii_of_nat 92.
Definition newline : Ascii.ascii := Ascii.ascii_of_nat 10.

(** [line.endswith('\\\n')] *)
Definition ends_with_continuation (line : Line) : bool :=
  match rev line with
  | n :: b :: _ => bool_decide (n = newline) && bool_decide (b = backslash)
  | _ => false
  end.

(** [line[:-2] + '\n' + continuation] *)
Definition join_continuation (line continuation : Line) : Line :=
  take (length line - 2) line ++ [newline] ++ continuation.

(** [read_continuation(line)]: each round reads one line, so the loop runs
    at most once per line of the stream plus once for a put-back line. *)
Fixpoint read_continuation_fuel (fuel : nat) (r : Reader) (line : Line) : option (Line * Reader) :=
  match fuel with
  | 0 => None
  | S f =>
      if ends_with_continuation line then
        match next r with
        | inl _ => Some (line, r)
        | inr (continuation, r') => read_continuation_fuel f r' (join_continuation line continuation)
        end
      else Some (line, r)
  end.

(** The loop bound: the lines left in the stream and the put-back slot. *)
Definition reader_measure (r : Reader) : nat :=
  length (fr_stream r) + match fr_line r with Some (_ :: _) => 1 | _ => 0 end.

Definition read_continuation (r : Reader) (line : Line) : option (Line * Reader) :=
  read_continuation_fuel (S (reader_measure r)) r line.

(** [__iter__]: the generator yields lines until an empty one or the end
    of the stream. *)
Fixpoint iter_fuel (fuel : nat) (r : Reader) : option (list Line * Reader) :=
  match fuel with
  | 0 => None
  | S f =>
      match next r with
      | inl _ => Some ([], r)
      | inr ([], r') => Some ([], r')
      | inr (line, r') => '(lines, r'') ← iter_fuel f r'; Some (line :: lines, r'')
      end
  end.

Definition iter (r : Reader) : option (list Line * Reader) := iter_fuel (S (reader_measure r)) r.

(** * Properties *)

Lemma next_measure r l r' : next r = inr (l, r') → reader_measure r' < reader_measure r.
Proof.
  unfold next, reader_measure. destruct (fr_line r) as [[|c cs]|] eqn:Hl.
  - destruct (fr_stream r) as [|x rest]; [done|]. intros [= <- <-]. simpl. lia.
  - intros [= <- <-]. simpl. lia.
  - destruct (fr_stream r) as [|x rest]; [done|]. intros [= <- <-]. simpl. lia.
Qed.

Lemma read_continuation_fuel_total f r line :
  reader_measure r < f → is_Some (read_continuation_fuel f r line).
Proof.
  revert r line. induction f as [|f IH]; intros r line Hf; [lia|]. simpl.
  destruct (ends_with_continuation line); [|by eexists].
  destruct (next r) as [e|[c r']] eqn:Hn; [by eexists|].
  apply IH. apply next_measure in Hn. lia.
Qed.

(** The continuation loop on the lines themselves: the reference. *)
Fixpoint continuation_ref (line : Line) (stream : list Line) : Line * list Line :=
  if ends_with_continuation line then
    match stream with
    | [] => (line, [])
    | c :: rest => continuation_ref (join_continuation line c) rest
    end
  else (line, stream).

Lemma continuation_ref_suffix line stream :
  ∃ pre, stream = pre ++ (continuation_ref line stream).2.
Proof.
  revert line. induction stream as [|c rest IH]; intros line; simpl;
    destruct (ends_with_continuation line); try by exists [].
  destruct (IH (join_continuation line c)) as [pre Hpre]. exists (c :: pre). simpl. by rewrite <-Hpre.
Qed.

Lemma read_continuation_fuel_ref f stream n line :
  length stream < f →
  read_continuation_fuel f (mkReader stream n None) line =
  Some ((continuation_ref line stream).1,
        mkReader (continuation_ref line stream).2 (n + (length stream - length (continuation_ref line stream).2)) None).
Proof.
  revert f n line. induction stream as [|c rest IH]; intros f n line Hf;
    (destruct f as [|f]; [lia|]); simpl; destruct (ends_with_continuation line); simpl;
    try (do 3 f_equal; lia).
  simpl in Hf. rewrite IH by lia. destruct (continuation_ref_suffix (join_continuation line c) rest) as [pre Hpre].
  do 3 f_equal. rewrite Hpre at 1 3. rewrite length_app. lia.
Qed.

(** [read_continuation] always returns, and with no line put back it
    returns what joining the lines of the stream one by one gives: every
    trailing backslash-newline becomes a newline followed by the next line,
    until a line does not end with one or the stream ends; the line number
    counts the lines consumed. *)
Theorem read_continuation_spec stream n line :
  read_continuation (mkReader stream n None) line =
  Some ((continuation_ref line stream).1,
        mkReader (continuation_ref line stream).2
          (n + (length stream - length (continuation_ref line stream).2)) None).
Proof. apply read_continuation_fuel_ref. unfold reader_measure. simpl. lia. Qed.

(** [put_back] undoes [__next__]: with nothing put back, reading a
    non-empty line, putting it back and reading again gives the same line
    and the same reader. *)
Theorem put_back_next r l r' :
  fr_line r = None → next r = inr (l, r') → l ≠ [] →
  ∃ r'', put_back l r' = inr r'' ∧ next r'' = inr (l, r').
Proof.
  unfold next, put_back. intros Hl. rewrite Hl. destruct (fr_stream r) as [|x rest]; [done|].
  intros [= <- <-] Hne. simpl. eexists. split; [done|].
  destruct x as [|c cs]; [done|]. simpl. done.
Qed.

Lemma iter_fuel_lines f stream n :
  Forall (λ l, l ≠ []) stream → length stream < f →
  iter_fuel f (mkReader stream n None) = Some (stream, mkReader [] (n + length stream) None).
Proof.
  revert f n. induction stream as [|l rest IH]; intros f n Hne Hf;
    (destruct f as [|f]; [lia|]); simpl; [by rewrite Nat.add_0_r|].
  apply Forall_cons in Hne as [Hl Hrest]. destruct l as [|c cs]; [done|].
  simpl in Hf. rewrite IH by (done || lia). simpl. do 3 f_equal. lia.
Qed.

(** Iterating a fresh reader over a stream of non-empty lines (the
    lines of a file) yields every line, in order, and leaves the line
    number at the number of lines. *)
Theorem iter_open_reader stream :
  Forall (λ l, l ≠ []) stream →
  iter (open_reader stream) = Some (stream, mkReader [] (length stream) None).
Proof.
  intros Hne. unfold iter, open_reader. rewrite iter_fuel_lines; [done|done|].
  unfold reader_measure. simpl. lia.
Qed.

(** Putting back an empty line loses it and blocks the slot: [__next__]
    tests the slot for truth, so the empty line is never returned nor
    cleared, and the next [put_back] of a line just read fails its
    [assert self._line is None]. *)
Example put_back_empty_line :
  let a : Line := [Ascii.ascii_of_nat 97; newline] in
  match put_back [] (open_reader [a]) with
  | inr r1 =>
      match next r1 with
      | inr (l, r2) => l = a ∧ fr_line r2 = Some [] ∧ put_back l r2 = inl AssertionError
      | inl _ => False
      end
  | inl _ => False
  end.
Proof. simpl. split_and!; reflexivity. Qed.

Module FileReaderWitnesses.

Definition line_a : Line := [Ascii.ascii_of_nat 97; newline].
Definition line_b : Line := [Ascii.ascii_of_nat 98; newline].

Lemma put_back_next_witness :
  ∃ r'', put_back line_a (mkReader [line_b] 1 None) = inr r'' ∧ next r'' = inr (line_a, mkReader [line_b] 1 None).
Proof.
  apply (FileReader.put_back_next (mkReader [line_a; line_b] 0 None)); [reflexivity|reflexivity|discriminate].
Defined.

Lemma iter_open_reader_witness :
  iter (open_reader [line_a; line_b]) = Some ([line_a; line_b], mkReader [] 2 None).
Proof.
  apply (FileReader.iter_open_reader [line_a; line_b]). repeat constructor; discriminate.
Defined.
End FileReaderWitnesses.

End FileReader.
