(* ===== verification/GraphReports.v ===== *)
(** * Reports over a built dependency graph

    src/slim/app/_deployment.py lines 203-261
    ([AppDependencyGraph.report_unreferenced_input_groups]): for every app
    of the graph that declares input groups, the input groups of each of
    its dependencies that none of its own groups requires are reported at
    the given level.  The [KeyError]s the lookups can raise, and the
    [AttributeError] of a group without [requires], are the values of
    [ReportError]; a dependency's qualified id is its [src_id]. *)

From stdpp Require Import base list gmap strings sets.
From S2P Require Import Prelude AppSource InputGroups DependencyGraph.

Module GraphReports.

Inductive ReportError :=
| ErrUnknownDependency (app name : string)  (** [dependency_declarations[dependency_name]] *)
| ErrNoSource (app name : string)           (** [repository_sources[dependency_package]] *)
| ErrNotADependency (app name : string)     (** [referenced_dependencies[dependency_source]] *)
| ErrNoRequires (app group : string).       (** [group.requires] raises [AttributeError] *)

Abbreviation References := (list (AppSource * gset string)).

(** One [dependency_name] of [group.requires] (lines 230-235). *)
Definition reference_step (g : Graph) (app : AppSource) (decls : list (string * Dependency))
    (refs : References) (req : string * gset string) : ReportError + References :=
  let '(dependency_name, dependency_groups) := req in
  match od_get decls dependency_name with
  | None => inl (ErrUnknownDependency (src_id app) dependency_name)
  | Some dependency =>
      match dep_package dependency ≫= (λ p, g_repository g !! p) with
      | None => inl (ErrNoSource (src_id app) dependency_name)
      | Some dependency_source =>
          match od_get refs dependency_source with
          | None => inl (ErrNotADependency (src_id app) dependency_name)
          | Some references =>
              inr (od_set refs dependency_source (union_of references dependency_groups))
          end
      end
  end.

(** One group of the app (lines 226-235): reading a missing [requires]
    raises; a [None] one is skipped. *)
Definition group_references (g : Graph) (app : AppSource) (decls : list (string * Dependency))
    (refs : References) (group : string * InputGroup) : ReportError + References :=
  if negb (ig_has_requires group.2) then inl (ErrNoRequires (src_id app) group.1)
  else match ig_requires group.2 with
       | None => inr refs
       | Some group_requires => fold_err (reference_step g app decls) refs group_requires
       end.

(** [referenced_dependencies] of an app (lines 221-235). *)
Definition referenced_dependencies (g : Graph) (app : AppSource) (input_groups : list (string * InputGroup))
    : ReportError + References :=
  let refs := map (λ d, (d, no_input_groups)) (default [] (od_get (g_graph g) app)) in
  match src_dependencies app with
  | None => inr refs
  | Some decls => fold_err (group_references g app decls) refs input_groups
  end.

(** [input_groups.difference(references)] for a dependency (lines 243-245). *)
Definition unreferenced_groups (dependency_source : AppSource) (references : gset string) : gset string :=
  let input_groups :=
    match src_input_groups dependency_source with
    | None => no_input_groups
    | Some igs => list_to_set (od_keys igs)
    end in
  input_groups ∖ references.

(** The report loop over [referenced_dependencies] (lines 240-259). *)
Definition report_step (level : Level) (app : AppSource) (st : bool * Diag)
    (e : AppSource * gset string) : bool * Diag :=
  let '(reported, d) := st in
  let '(dependency_source, references) := e in
  if decide (references = all_input_groups) then st
  else
    let unreferenced := unreferenced_groups dependency_source references in
    if decide (size unreferenced = 0) then st
    else (true, log_message level (MsgUnreferenced (src_id app) (src_id dependency_source) unreferenced) d).

(** One app of the graph (lines 215-259). *)
Definition report_app (g : Graph) (level : Level) (st : bool * Diag) (app : AppSource)
    : ReportError + (bool * Diag) :=
  match src_input_groups app with
  | None => inr st
  | Some input_groups =>
      match referenced_dependencies g app input_groups with
      | inl e => inl e
      | inr refs => inr (foldl (report_step level app) st refs)
      end
  end.

(** [report_unreferenced_input_groups(level)] *)
Definition report_unreferenced_input_groups (g : Graph) (level : Level) (d : Diag)
    : ReportError + (bool * Diag) :=
  fold_err (report_app g level) (false, d) (od_keys (g_graph g)).

(** * The report against a reference *)

(** [dependency_declarations[name].package] looked up in the repository. *)
Definition resolve_alias (g : Graph) (decls : list (string * Dependency)) (name : string)
    : option AppSource :=
  od_get decls name ≫= (λ dep, dep_package dep ≫= (λ p, g_repository g !! p)).

(** The sets that the [requires] entries [reqs] ask of [x]. *)
Definition sets_for (g : Graph) (decls : list (string * Dependency))
    (reqs : list (string * gset string)) (x : AppSource) : list (gset string) :=
  reqs ≫= (λ req, if decide (resolve_alias g decls req.1 = Some x) then [req.2] else []).

Definition required_sets (g : Graph) (decls : list (string * Dependency))
    (igs : list (string * InputGroup)) (x : AppSource) : list (gset string) :=
  igs ≫= (λ grp, sets_for g decls (default [] (ig_requires grp.2)) x).

(** What the groups of [app] require of its dependency [x], merged with
    [_union_of] in the order of the loops. *)
Definition app_references (g : Graph) (app : AppSource) (igs : list (string * InputGroup))
    (x : AppSource) : gset string :=
  match src_dependencies app with
  | None => no_input_groups
  | Some decls => union_all no_input_groups (required_sets g decls igs x)
  end.

Definition report_entry (app : AppSource) (e : AppSource * gset string)
    : list (AppSource * AppSource * gset string) :=
  if decide (e.2 = all_input_groups) then []
  else let u := unreferenced_groups e.1 e.2 in
       if decide (size u = 0) then [] else [(app, e.1, u)].

Definition report_entries (app : AppSource) (refs : list (AppSource * gset string))
    : list (AppSource * AppSource * gset string) :=
  refs ≫= report_entry app.

(** Every (app, dependency, unreferenced groups) the report must name. *)
Definition unreferenced_report (g : Graph) : list (AppSource * AppSource * gset string) :=
  od_keys (g_graph g) ≫= (λ app,
    match src_input_groups app with
    | None => []
    | Some igs =>
        report_entries app ((λ x, (x, app_references g app igs x)) <$> default [] (od_get (g_graph g) app))
    end).

Definition log_entries (level : Level) (d : Diag) (es : list (AppSource * AppSource * gset string)) : Diag :=
  foldl (λ d e, log_message level (MsgUnreferenced (src_id e.1.1) (src_id e.1.2) e.2) d) d es.

(** Every group of an app with declared dependencies has the attribute
    [requires], and every alias it requires names a declared dependency
    whose source is a dependency of the app in the graph: the lookups do
    not raise. *)
Definition requires_resolved (g : Graph) : Prop :=
  ∀ app igs decls, app ∈ od_keys (g_graph g) → src_input_groups app = Some igs →
    src_dependencies app = Some decls →
    (∀ grp, grp ∈ igs → ig_has_requires grp.2 = true) ∧
    ∀ grp req, grp ∈ igs → req ∈ default [] (ig_requires grp.2) →
      ∃ x, resolve_alias g decls req.1 = Some x ∧ x ∈ default [] (od_get (g_graph g) app).

Section Refs.
Context (g : Graph) (app : AppSource) (decls : list (string * Dependency)) (L : list AppSource).
Context (HL : NoDup L).

Abbreviation refs_of F := (map (λ x, (x, union_all no_input_groups (F x))) L).

Lemma reference_step_ref (F : AppSource → list (gset string)) req :
  (∃ x, resolve_alias g decls req.1 = Some x ∧ x ∈ L) →
  reference_step g app decls (refs_of F) req =
  inr (refs_of (λ x, F x ++ sets_for g decls [req] x)).
Proof.
  intros (y & Hy0 & HyL). destruct req as [name gs]. simpl in *. pose proof Hy0 as Hy.
  unfold resolve_alias in Hy. simpl.
  destruct (od_get decls name) as [dep|]; [|done]. simpl in Hy. rewrite Hy, od_get_map.
  rewrite decide_True by done. f_equal. rewrite od_set_map_in by done.
  apply map_ext_in. intros x _. unfold sets_for. simpl. rewrite Hy0.
  case_decide as Hx; subst.
  - rewrite decide_True by done. simpl. unfold union_all. by rewrite foldl_app.
  - rewrite decide_False by congruence. by rewrite app_nil_r.
Qed.

Lemma fold_reference_step (F : AppSource → list (gset string)) reqs :
  (∀ req, req ∈ reqs → ∃ x, resolve_alias g decls req.1 = Some x ∧ x ∈ L) →
  fold_err (reference_step g app decls) (refs_of F) reqs =
  inr (refs_of (λ x, F x ++ sets_for g decls reqs x)).
Proof.
  revert F. induction reqs as [|req reqs IH]; intros F Hreqs; simpl.
  { f_equal. apply map_ext. intros x. unfold sets_for. simpl. by rewrite app_nil_r. }
  rewrite reference_step_ref by (apply Hreqs; left). rewrite IH by (intros r Hr; apply Hreqs; by right).
  f_equal. apply map_ext. intros x. unfold sets_for. rewrite !bind_cons. simpl. rewrite app_nil_r. by rewrite (assoc_L (++)).
Qed.

Lemma fold_group_references (F : AppSource → list (gset string)) igs :
  (∀ grp, grp ∈ igs → ig_has_requires grp.2 = true) →
  (∀ grp req, grp ∈ igs → req ∈ default [] (ig_requires grp.2) →
     ∃ x, resolve_alias g decls req.1 = Some x ∧ x ∈ L) →
  fold_err (group_references g app decls) (refs_of F) igs =
  inr (refs_of (λ x, F x ++ required_sets g decls igs x)).
Proof.
  revert F. induction igs as [|grp igs IH]; intros F Hhas Higs; cbn [fold_err].
  { f_equal. apply map_ext. intros x. by rewrite app_nil_r. }
  unfold group_references at 1. rewrite (Hhas grp) by left. cbn [negb].
  assert (∀ gr, gr ∈ igs → ig_has_requires gr.2 = true) as Hhas' by (intros gr Hg; apply Hhas; by right).
  destruct (ig_requires grp.2) as [reqs|] eqn:Hreq.
  - rewrite fold_reference_step by (intros r Hr; apply (Higs grp); [left|by rewrite Hreq]).
    rewrite IH by first [exact Hhas' | intros gr r Hg Hr; apply (Higs gr); [by right|done]].
    f_equal. apply map_ext. intros x. unfold required_sets. rewrite bind_cons, Hreq.
    by rewrite (assoc_L (++)).
  - rewrite IH by first [exact Hhas' | intros gr r Hg Hr; apply (Higs gr); [by right|done]].
    f_equal. apply map_ext. intros x. unfold required_sets. rewrite bind_cons, Hreq. done.
Qed.
End Refs.

Lemma referenced_dependencies_ref g app igs :
  NoDup (default [] (od_get (g_graph g) app)) →
  (∀ decls, src_dependencies app = Some decls →
     (∀ grp, grp ∈ igs → ig_has_requires grp.2 = true) ∧
     ∀ grp req, grp ∈ igs → req ∈ default [] (ig_requires grp.2) →
       ∃ x, resolve_alias g decls req.1 = Some x ∧ x ∈ default [] (od_get (g_graph g) app)) →
  referenced_dependencies g app igs =
  inr ((λ x, (x, app_references g app igs x)) <$> default [] (od_get (g_graph g) app)).
Proof.
  intros HL Hres. unfold referenced_dependencies, app_references.
  destruct (src_dependencies app) as [decls|]; [|done].
  change (map (λ d, (d, no_input_groups)) (default [] (od_get (g_graph g) app))) with
    (map (λ x, (x, union_all no_input_groups ((λ _, []) x))) (default [] (od_get (g_graph g) app))).
  destruct (Hres decls) as [Hhas Hreq]; [done|].
  rewrite fold_group_references by (done || by apply Hreq). done.
Qed.

Lemma foldl_report_step level app b d refs :
  foldl (report_step level app) (b, d) refs =
  (b || bool_decide (report_entries app refs ≠ []), log_entries level d (report_entries app refs)).
Proof.
  revert b d. induction refs as [|[x r] refs IH]; intros b d; cbn [foldl].
  { unfold report_entries. simpl. by rewrite orb_false_r. }
  unfold report_entries. rewrite bind_cons. fold (report_entries app refs).
  unfold report_step at 2, report_entry. simpl.
  destruct (decide (r = all_input_groups)); [by rewrite IH|].
  destruct (decide (size (unreferenced_groups x r) = 0)); [by rewrite IH|].
  rewrite IH. simpl. by rewrite orb_true_r.
Qed.

Lemma bool_decide_app_nonempty {A} (l1 l2 : list A) :
  bool_decide (l1 ++ l2 ≠ []) = bool_decide (l1 ≠ []) || bool_decide (l2 ≠ []).
Proof. destruct l1, l2; simpl; repeat case_bool_decide; done. Qed.

Lemma report_keys g level keys b d :
  (∀ app igs, app ∈ keys → src_input_groups app = Some igs →
     referenced_dependencies g app igs =
     inr ((λ x, (x, app_references g app igs x)) <$> default [] (od_get (g_graph g) app))) →
  fold_err (report_app g level) (b, d) keys =
  let es := keys ≫= (λ app,
    match src_input_groups app with
    | None => []
    | Some igs => report_entries app ((λ x, (x, app_references g app igs x)) <$> default [] (od_get (g_graph g) app))
    end) in
  inr (b || bool_decide (es ≠ []), log_entries level d es).
Proof.
  revert b d. induction keys as [|app keys IH]; intros b d Href; simpl.
  { by rewrite orb_false_r. }
  unfold report_app at 1. destruct (src_input_groups app) as [igs|] eqn:Higs.
  - rewrite (Href app igs) by (done || left). simpl. rewrite foldl_report_step.
    rewrite IH by (intros a i Ha; apply Href; by right).
    cbv zeta. unfold log_entries. rewrite foldl_app. f_equal.
    by rewrite bool_decide_app_nonempty, orb_assoc.
  - rewrite IH by (intros a i Ha; apply Href; by right). done.
Qed.

(** A decision procedure for [requires_resolved]. *)
Definition requires_resolvedb (g : Graph) : bool :=
  forallb (λ app,
    match src_input_groups app, src_dependencies app with
    | Some igs, Some decls =>
        forallb (λ grp, ig_has_requires grp.2 && forallb (λ req,
          match resolve_alias g decls req.1 with
          | Some x => bool_decide (x ∈ default [] (od_get (g_graph g) app))
          | None => false
          end) (default [] (ig_requires grp.2))) igs
    | _, _ => true
    end) (od_keys (g_graph g)).

Lemma requires_resolvedb_sound g : requires_resolvedb g = true → requires_resolved g.
Proof.
  unfold requires_resolvedb, requires_resolved. rewrite forallb_forall.
  intros Hall app igs decls Happ Higs Hdecls.
  specialize (Hall app (proj1 (list_elem_of_In _ _) Happ)). rewrite Higs, Hdecls in Hall.
  split.
  { intros grp Hgrp. apply forallb_forall with (x := grp) in Hall; [|by apply list_elem_of_In].
    by apply andb_prop in Hall as [? _]. }
  intros grp req Hgrp Hreq.
  apply forallb_forall with (x := grp) in Hall; [|by apply list_elem_of_In]. apply andb_prop in Hall as [_ Hall].
  apply forallb_forall with (x := req) in Hall; [|by apply list_elem_of_In].
  destruct (resolve_alias g decls req.1) as [x|]; [|done]. apply bool_decide_eq_true_1 in Hall. by exists x.
Qed.

(** When every alias an input group requires resolves to a dependency
    of its app in the graph, [report_unreferenced_input_groups] reports, in
    the order of the graph and of each app's dependencies, exactly the
    (app, dependency, groups) where the dependency declares input groups
    that the app's groups, merged with [_union_of], neither require nor
    cover with [ALL]; it returns whether it reported anything. *)
Theorem report_unreferenced_input_groups_spec root g level d :
  graph_wf root g → requires_resolved g →
  report_unreferenced_input_groups g level d =
  inr (bool_decide (unreferenced_report g ≠ []), log_entries level d (unreferenced_report g)).
Proof.
  intros Hwf Hres. unfold report_unreferenced_input_groups. rewrite report_keys; [done|].
  intros app igs Happ Higs. apply referenced_dependencies_ref.
  - destruct (proj2 Hwf app Happ) as (l & _ & -> & _). apply ordered_set_NoDup.
  - intros decls Hdecls. by apply (Hres app igs decls).
Qed.

Module ReportExamples.
Definition v1 : Version := mkVersion 1 0 0.
Definition grp (reqs : list (string * gset string)) : InputGroup := mkInputGroup (Some reqs) true.
Definition b_src := mkAppSource "b" "b" None v1 true (Some []) (Some [("bin", grp []); ("bother", grp [])]) None.
Definition a_src := mkAppSource "a" "a" None v1 true
  (Some [("b", mkDependency [CAny] (Some "b") false None)]) (Some [("main", grp [("b", {["bin"]})])]) None.
Definition ex_env : GraphEnv := mkGraphEnv a_src ∅ (<["b":=b_src]> ∅) None "*".
Definition ex_graph : Graph := (dependency_graph ex_env diag0).1.
End ReportExamples.

Module ReportWitnesses.
Import ReportExamples.

(** [a] requires only [bin] of [b]: [bother] is reported. *)
Lemma report_unreferenced_input_groups_spec_witness :
  report_unreferenced_input_groups ex_graph LevelError diag0 =
  inr (true, log_entries LevelError diag0 [(a_src, b_src, {["bother"]})]).
Proof.
  rewrite (GraphReports.report_unreferenced_input_groups_spec a_src ex_graph LevelError diag0).
  - vm_compute. reflexivity.
  - exact (dependency_graph_wf ex_env diag0).
  - apply requires_resolvedb_sound. vm_compute. reflexivity.
Defined.
End ReportWitnesses.

End GraphReports.
