(* ===== verification/PathOps.v ===== *)
(** * POSIX path strings and [fnmatch]

    The functions of Python's [posixpath] and [fnmatch] that the deployment
    package calls ([join], [split], [dirname], [normpath], [commonprefix],
    [str.startswith], [str.endswith], [fnmatch]), on [string]s, written
    after CPython's [Lib/posixpath.py] and [Lib/fnmatch.py]: library code
    the sources only call.  [fnmatch] is given for the wildcards [*] and
    [?] and literal characters, which is what the patterns of
    [AppDeploymentPackage._exclusion_rule] use; a [[...]] class is not. *)

From stdpp Require Import base list strings sets.
From S2P Require Import Prelude.

Module PathOps.

Abbreviation chars := String.list_ascii_of_string.
Abbreviation of_chars := String.string_of_list_ascii.

Definition slash : Ascii.ascii := Ascii.ascii_of_nat 47.
Definition sep : string := String slash EmptyString.

Definition str_append (a b : string) : string := String.append a b.

(** [a.startswith(b)] and [a.endswith(b)] *)
Definition startswith (a b : string) : bool := bool_decide (chars b `prefix_of` chars a).
Definition endswith (a b : string) : bool := bool_decide (chars b `suffix_of` chars a).

(** [posixpath.join(a, b)] *)
Definition path_join (a b : string) : string :=
  if startswith b sep then b
  else if bool_decide (a = EmptyString) || endswith a sep then str_append a b
  else str_append a (str_append sep b).

(** The index just after the last ['/'] ([p.rfind('/') + 1]). *)
Fixpoint after_last_slash (cs : list Ascii.ascii) (i acc : nat) : nat :=
  match cs with
  | [] => acc
  | x :: rest => after_last_slash rest (S i) (if decide (x = slash) then S i else acc)
  end.

Definition split_index (p : string) : nat := after_last_slash (chars p) 0 0.

(** [rstrip('/')] on a list of characters. *)
Fixpoint drop_slashes (cs : list Ascii.ascii) : list Ascii.ascii :=
  match cs with
  | x :: rest => if decide (x = slash) then drop_slashes rest else cs
  | [] => []
  end.

(** [posixpath.split(p)]: the head loses its trailing slashes unless it
    is all slashes. *)
Definition path_split (p : string) : string * string :=
  let cs := chars p in
  let i := split_index p in
  let head := take i cs in
  let tail := drop i cs in
  let head' :=
    if bool_decide (head ≠ []) && negb (forallb (λ c, bool_decide (c = slash)) head)
    then rev (drop_slashes (rev head))
    else head in
  (of_chars head', of_chars tail).

Definition dirname (p : string) : string := (path_split p).1.
Definition basename (p : string) : string := (path_split p).2.

(** [p.split('/')] *)
Fixpoint split_on (c : Ascii.ascii) (cs : list Ascii.ascii) : list (list Ascii.ascii) :=
  match cs with
  | [] => [[]]
  | x :: rest =>
      if decide (x = c) then [] :: split_on c rest
      else match split_on c rest with
           | [] => [[x]]
           | w :: ws => (x :: w) :: ws
           end
  end.

Definition dot : list Ascii.ascii := [Ascii.ascii_of_nat 46].
Definition dotdot : list Ascii.ascii := [Ascii.ascii_of_nat 46; Ascii.ascii_of_nat 46].

(** [sep.join(comps)] *)
Fixpoint join_with (c : Ascii.ascii) (comps : list (list Ascii.ascii)) : list Ascii.ascii :=
  match comps with
  | [] => []
  | [w] => w
  | w :: rest => w ++ c :: join_with c rest
  end.

(** The component loop of [normpath]. *)
Definition normpath_step (initial_slashes : nat) (new_comps : list (list Ascii.ascii))
    (comp : list Ascii.ascii) : list (list Ascii.ascii) :=
  if decide (comp = [] ∨ comp = dot) then new_comps
  else if decide (comp ≠ dotdot ∨ (initial_slashes = 0 ∧ new_comps = []) ∨
                  last new_comps = Some dotdot)
  then new_comps ++ [comp]
  else match new_comps with [] => [] | _ => removelast new_comps end.

(** [initial_slashes] of [normpath]: two for exactly two leading slashes,
    one for one or three or more, none otherwise. *)
Definition initial_slashes (cs : list Ascii.ascii) : nat :=
  match cs with
  | c1 :: c2 :: rest =>
      if decide (c1 = slash ∧ c2 = slash ∧ head rest ≠ Some slash) then 2
      else if decide (c1 = slash) then 1 else 0
  | [c1] => if decide (c1 = slash) then 1 else 0
  | [] => 0
  end.

(** [posixpath.normpath(path)] *)
Definition normpath (p : string) : string :=
  let cs := chars p in
  if decide (cs = []) then of_chars dot
  else
    let initial_slashes := initial_slashes cs in
    let comps := foldl (normpath_step initial_slashes) [] (split_on slash cs) in
    let joined := join_with slash comps in
    let res := replicate initial_slashes slash ++ joined in
    if decide (res = []) then of_chars dot else of_chars res.

(** [posixpath.commonprefix((a, b))]: the longest common prefix. *)
Fixpoint common_prefix (a b : list Ascii.ascii) : list Ascii.ascii :=
  match a, b with
  | x :: a', y :: b' => if decide (x = y) then x :: common_prefix a' b' else []
  | _, _ => []
  end.

Definition commonprefix (a b : string) : string := of_chars (common_prefix (chars a) (chars b)).

(** [s[n:]] *)
Definition str_drop (n : nat) (s : string) : string := of_chars (drop n (chars s)).

(** [fnmatch.fnmatch(name, pattern)] for patterns made of literal
    characters, [?] and [*]: the whole name must match. *)
Fixpoint glob_match (pat name : list Ascii.ascii) : bool :=
  match pat with
  | [] => bool_decide (name = [])
  | p :: pat' =>
      if decide (p = Ascii.ascii_of_nat 42) then
        (fix star (n : list Ascii.ascii) : bool :=
           glob_match pat' n || match n with [] => false | _ :: n' => star n' end) name
      else match name with
           | [] => false
           | c :: name' => (bool_decide (p = Ascii.ascii_of_nat 63) || bool_decide (c = p)) && glob_match pat' name'
           end
  end.

Definition fnmatch (name pattern : string) : bool := glob_match (chars pattern) (chars name).

(** * Facts used by the callers' loops *)

Definition relative (cs : list Ascii.ascii) : Prop := head cs ≠ Some slash.
Definition absolute (cs : list Ascii.ascii) : Prop := head cs = Some slash.

Lemma after_last_slash_le cs k acc : acc ≤ k → after_last_slash cs k acc ≤ k + length cs.
Proof.
  revert k acc. induction cs as [|x cs IH]; intros k acc Hacc; simpl; [lia|].
  specialize (IH (S k) (if decide (x = slash) then S k else acc)). case_decide; lia.
Qed.

Lemma after_last_slash_full cs k acc :
  acc ≤ k → cs ≠ [] → after_last_slash cs k acc = k + length cs → last cs = Some slash.
Proof.
  revert k acc. induction cs as [|x cs IH]; intros k acc Hacc Hne; [done|].
  change (after_last_slash (x :: cs) k acc) with
    (after_last_slash cs (S k) (if decide (x = slash) then S k else acc)).
  destruct cs as [|y cs'].
  - simpl. case_decide; [by subst|lia].
  - intros Heq. change (last (x :: y :: cs')) with (last (y :: cs')).
    apply (IH (S k) (if decide (x = slash) then S k else acc)); [case_decide; lia|done|].
    rewrite Heq. simpl. lia.
Qed.

Lemma drop_slashes_suffix cs : ∃ pre, cs = pre ++ drop_slashes cs.
Proof.
  induction cs as [|x cs IH]; simpl; [by exists []|]. case_decide; [|by exists []].
  destruct IH as [pre Hpre]. exists (x :: pre). simpl. by rewrite <-Hpre.
Qed.

Lemma drop_slashes_nil cs : drop_slashes cs = [] → forallb (λ c, bool_decide (c = slash)) cs = true.
Proof.
  induction cs as [|x cs IH]; simpl; [done|]. case_decide as Hx; [|done]. intros Hd. rewrite IH by done.
  by rewrite bool_decide_eq_true_2.
Qed.

(** The head [path_split] returns is a prefix of the path. *)
Lemma rstrip_prefix h : rev (drop_slashes (rev h)) `prefix_of` h.
Proof.
  destruct (drop_slashes_suffix (rev h)) as [pre Hpre]. exists (rev pre).
  rewrite <-rev_app_distr, <-Hpre, rev_involutive. done.
Qed.

Lemma path_split_head p :
  (path_split p).1 = of_chars
    (if bool_decide (take (split_index p) (chars p) ≠ []) &&
        negb (forallb (λ c, bool_decide (c = slash)) (take (split_index p) (chars p)))
     then rev (drop_slashes (rev (take (split_index p) (chars p))))
     else take (split_index p) (chars p)).
Proof. done. Qed.

(** The head [path_split] returns is a prefix of the path. *)
Lemma path_split_head_prefix p : chars (path_split p).1 `prefix_of` chars p.
Proof.
  rewrite path_split_head, String.list_ascii_of_string_of_list_ascii.
  etrans; [|apply (prefix_take _ (split_index p))]. case_match; [apply rstrip_prefix|done].
Qed.

Lemma prefix_head (l1 l2 : list Ascii.ascii) : l1 `prefix_of` l2 → l1 ≠ [] → head l1 = head l2.
Proof. intros [k ->] Hne. by destruct l1. Qed.

Lemma split_index_le p : split_index p ≤ length (chars p).
Proof. unfold split_index. pose proof (after_last_slash_le (chars p) 0 0). lia. Qed.

(** [path.split] shortens a non-empty relative path and keeps it relative:
    the loops that call it on a relative path end. *)
Lemma path_split_relative p :
  chars p ≠ [] → relative (chars p) →
  length (chars (path_split p).1) < length (chars p) ∧ relative (chars (path_split p).1).
Proof.
  intros Hne Hrel. split.
  - rewrite path_split_head, String.list_ascii_of_string_of_list_ascii.
    pose proof (split_index_le p) as Hle.
    destruct (decide (split_index p = length (chars p))) as [Heq|Hlt].
    + rewrite Heq, firstn_all. apply after_last_slash_full in Heq; [|lia|done].
      destruct (chars p) as [|c cs] eqn:Hcs; [done|].
      rewrite bool_decide_eq_true_2 by done.
      assert (Hnot : forallb (λ c, bool_decide (c = slash)) (c :: cs) = false).
      { simpl. unfold relative in Hrel. simpl in Hrel. rewrite bool_decide_eq_false_2; [done|congruence]. }
      rewrite Hnot. cbn [andb negb]. apply last_Some in Heq as [init Hinit]. rewrite Hinit, rev_unit. simpl.
      rewrite length_rev.
      pose proof (drop_slashes_suffix (rev init)) as [pre Hpre].
      assert (length (drop_slashes (rev init)) ≤ length (rev init)) by (rewrite Hpre at 2; rewrite length_app; lia).
      rewrite Hinit, length_app, length_rev in *. simpl. lia.
    + case_match.
      * pose proof (rstrip_prefix (take (split_index p) (chars p))) as Hp%prefix_length.
        rewrite length_take in Hp. lia.
      * rewrite length_take. lia.
  - unfold relative. pose proof (path_split_head_prefix p) as Hpre.
    destruct (chars (path_split p).1) eqn:Hh; [done|]. rewrite (prefix_head _ _ Hpre) by done. done.
Qed.

Lemma after_last_slash_ge cs k acc : acc ≤ k → acc ≤ after_last_slash cs k acc.
Proof.
  revert k acc. induction cs as [|x cs IH]; intros k acc Hacc; simpl; [lia|].
  etrans; [|apply IH; case_decide; lia]. case_decide; lia.
Qed.

Lemma forallb_rev {A} (f : A → bool) l : forallb f (rev l) = forallb f l.
Proof.
  induction l as [|x l IH]; simpl; [done|]. rewrite forallb_app, IH. simpl.
  by rewrite andb_true_r, andb_comm.
Qed.

(** [path.split] keeps an absolute path absolute (and non-empty): the
    loops that call it on an absolute path never end. *)
Lemma path_split_absolute p : absolute (chars p) → absolute (chars (path_split p).1).
Proof.
  unfold absolute. intros Habs. destruct (chars p) as [|c cs] eqn:Hcs; [done|]. simpl in Habs. simplify_eq.
  assert (Hi : 1 ≤ split_index p).
  { unfold split_index. rewrite Hcs. simpl. by apply after_last_slash_ge. }
  rewrite path_split_head, String.list_ascii_of_string_of_list_ascii, Hcs.
  destruct (split_index p) as [|i]; [lia|]. simpl.
  destruct (forallb _ (take i cs)) eqn:Hall; simpl; [done|].
  pose proof (rstrip_prefix (slash :: take i cs)) as Hpre. simpl in Hpre.
  destruct (rev (drop_slashes (rev (take i cs) ++ [slash]))) as [|x xs] eqn:Hr.
  - exfalso. apply (f_equal (@rev Ascii.ascii)) in Hr. rewrite rev_involutive in Hr. simpl in Hr.
    apply drop_slashes_nil in Hr. rewrite forallb_app in Hr. apply andb_true_iff in Hr as [Hr _].
    rewrite forallb_rev in Hr. congruence.
  - by rewrite (prefix_head _ _ Hpre).
Qed.

Lemma split_on_no_sep c cs w : w ∈ split_on c cs → c ∉ w.
Proof.
  revert w. induction cs as [|x cs IH]; intros w; simpl.
  { intros Hw%list_elem_of_singleton. subst. apply not_elem_of_nil. }
  case_decide.
  - intros [Hw|Hw]%elem_of_cons; [subst; apply not_elem_of_nil|by apply IH].
  - destruct (split_on c cs) as [|w0 ws] eqn:Hs.
    + intros Hw%list_elem_of_singleton. subst. set_solver.
    + intros [Hw|Hw]%elem_of_cons; [subst w|].
      * apply not_elem_of_cons. split; [done|]. apply IH. by left.
      * apply IH. by right.
Qed.

Lemma elem_of_removelast {A} (x : A) l : x ∈ removelast l → x ∈ l.
Proof.
  induction l as [|y [|z l] IH]; simpl; [done|set_solver|].
  intros [->|Hx]%elem_of_cons; [left|right; by apply IH].
Qed.

Lemma normpath_comps_ok k cs w :
  w ∈ foldl (normpath_step k) [] (split_on slash cs) → w ≠ [] ∧ slash ∉ w.
Proof.
  revert w. apply foldl_invariant; [set_solver|]. intros acc comp Hcomp IH w. unfold normpath_step.
  case_decide as Hskip; [by apply IH|]. case_decide.
  - intros [Hw|Hw%list_elem_of_singleton]%elem_of_app; [by apply IH|]. subst w.
    split; [naive_solver|by eapply split_on_no_sep].
  - destruct acc as [|a acc']; [set_solver|]. intros Hw. apply IH. by apply elem_of_removelast.
Qed.

Lemma join_with_head c comps :
  (∀ w, w ∈ comps → w ≠ [] ∧ c ∉ w) → join_with c comps = [] ∨ head (join_with c comps) ≠ Some c.
Proof.
  destruct comps as [|w [|w' comps]]; [by left| |]; intros Hok;
    destruct (Hok w (list_elem_of_here _ _)) as [Hw Hc]; (destruct w as [|x w]; [done|]); right; simpl;
    intros [= ->]; apply Hc; left.
Qed.

Lemma initial_slashes_absolute cs : absolute cs → 1 ≤ initial_slashes cs.
Proof.
  unfold absolute. destruct cs as [|c1 [|c2 rest]]; simpl; intros Habs; simplify_eq;
    repeat case_decide; naive_solver lia.
Qed.

Lemma initial_slashes_relative cs : relative cs → initial_slashes cs = 0.
Proof.
  unfold relative. destruct cs as [|c1 [|c2 rest]]; simpl; intros Hrel; [done|..];
    repeat case_decide; naive_solver.
Qed.

Lemma normpath_absolute p : absolute (chars p) → absolute (chars (normpath p)).
Proof.
  unfold normpath. intros Habs. rewrite decide_False by (intros Hn; rewrite Hn in Habs; discriminate).
  pose proof (initial_slashes_absolute _ Habs) as Hk.
  destruct (initial_slashes (chars p)) as [|k]; [lia|]. simpl.
  done.
Qed.

Lemma normpath_relative p : relative (chars p) → relative (chars (normpath p)).
Proof.
  unfold normpath. intros Hrel. case_decide; [done|].
  rewrite (initial_slashes_relative _ Hrel). simpl.
  destruct (join_with_head slash (foldl (normpath_step 0) [] (split_on slash (chars p))))
    as [Hnil|Hhead]; [apply normpath_comps_ok|..].
  - rewrite Hnil. simpl. done.
  - case_decide as Hres; [done|]. by rewrite String.list_ascii_of_string_of_list_ascii.
Qed.

End PathOps.
