(* ===== verification/DeploymentPackage.v ===== *)
(** * Deployment packages ([AppDeploymentPackage])

    src/slim/app/_deployment.py lines 461-809: what one app contributes to
    one deployment specification.  Modelled here: the package identifiers
    (lines 473-478), the partition of the app's configuration by the
    packaging rules (lines 485-507, the rules are an interface, they live
    outside [src/]), the choice of exclusion patterns (lines 512-517 and
    the table [_exclusion_rule]), the matching of a directory's entries
    against them ([_get_excluded_filenames], [_get_match_function],
    [_exclude_conf_spec]), the walk that collects the asset files and
    drops empty directories ([_set_asset_filenames], [_split_filename],
    [_ignore_assets]) and [_detect_is_empty].  The file system is a finite
    tree ([Tree]) walked in list order; [os.walk] follows no links in it.
    [__init__] itself, [export] and [_export] are in PackageExport.v. *)

From stdpp Require Import base list gmap strings sets pretty.
From S2P Require Import Prelude AppSource DeploymentSpec PathOps.

Module DeploymentPackage.
Import PathOps.

(** ** Identifiers *)

(** [app_manifest.info.id]: group, name and version (spec section 3). *)
Record ManifestId := mkManifestId {
  mid_group : option string;
  mid_name : option string;
  mid_version : Version;
}.

(** [string(version)] of a [semantic_version.Version]. *)
Definition version_string (v : Version) : string :=
  String.append (pretty (v_major v)) (String.append "." (String.append (pretty (v_minor v))
    (String.append "." (pretty (v_patch v))))).

(** ['-'.join(parts)] *)
Fixpoint dash_join (parts : list string) : string :=
  match parts with
  | [] => ""
  | [p] => p
  | p :: rest => String.append p (String.append "-" (dash_join rest))
  end.

(** [self._name], [self._stage_name], [self._archive_name] (lines 473-478). *)
Definition package_name (app_root : string) (id : ManifestId) : string :=
  let name := default app_root (mid_name id) in
  dash_join (option_list (mid_group id) ++ [name; version_string (mid_version id)]).

Definition stage_name (app_root : string) (id : ManifestId) (spec : DeploymentSpecification) : string :=
  String.append (package_name app_root id) (String.append "-" (ds_name spec)).

Definition archive_name (app_root : string) (id : ManifestId) (spec : DeploymentSpecification) : string :=
  String.append (stage_name app_root id spec) ".tar.gz".

(** ** Partitioning the configuration (lines 485-507)

  A configuration is a list of files (by name), each a list of sections
  (by path), each a list of stanzas (by name), each a list of settings.
  The packaging rules ([InputsPackagingRule], [DefaultPackagingRule]) are
  outside [src/]: they are an interface of two predicates. *)

Record Setting := mkSetting { setting_name : string; setting_value : string }.
Record Stanza := mkStanza { stanza_name : string; stanza_settings : list Setting }.
Record Section := mkSection { section_name : string; section_stanzas : list Stanza }.
Record ConfigurationFile := mkConfigurationFile { file_name : string; file_sections : list Section }.

Class PackagingRule := {
  should_include_setting : Stanza → Setting → DeploymentSpecification → AppSource → bool;
  should_include_stanza : Stanza → list (string * Setting) → DeploymentSpecification → AppSource → bool;
}.

Abbreviation Partition := (list (string * list (string * list (string * list (string * Setting))))).

Section Partition.
Context (inputs_rule default_rule : PackagingRule) (app_manifest : AppSource).

(** [(InputsPackagingRule if configuration_file.name == 'inputs' else DefaultPackagingRule).instance()] *)
Definition rule_for (f : ConfigurationFile) : PackagingRule :=
  if decide (file_name f = "inputs") then inputs_rule else default_rule.

Definition relevant_settings (rule : PackagingRule) (spec : DeploymentSpecification) (st : Stanza)
    : list (string * Setting) :=
  foldl (λ acc s, if @should_include_setting rule st s spec app_manifest then od_set acc (setting_name s) s else acc)
    [] (stanza_settings st).

Definition relevant_stanzas (rule : PackagingRule) (spec : DeploymentSpecification) (sec : Section)
    : list (string * list (string * Setting)) :=
  foldl (λ acc st,
           let settings := relevant_settings rule spec st in
           if @should_include_stanza rule st settings spec app_manifest then od_set acc (stanza_name st) settings else acc)
    [] (section_stanzas sec).

(** [section.name[len(path.commonprefix((app_root, section.name))) + 1:]] *)
Definition relative_file_name (app_root : string) (sec : Section) : string :=
  str_drop (length (chars (commonprefix app_root (section_name sec))) + 1) (section_name sec).

Definition relevant_files (app_root : string) (spec : DeploymentSpecification) (f : ConfigurationFile)
    : list (string * list (string * list (string * Setting))) :=
  foldl (λ acc sec,
           let stanzas := relevant_stanzas (rule_for f) spec sec in
           if bool_decide (0 < length stanzas) then od_set acc (relative_file_name app_root sec) stanzas else acc)
    [] (file_sections f).

Definition partition_configuration (app_root : string) (spec : DeploymentSpecification)
    (files : list ConfigurationFile) : Partition :=
  foldl (λ acc f,
           let rf := relevant_files app_root spec f in
           if bool_decide (0 < length rf) then od_set acc (file_name f) rf else acc)
    [] files.
End Partition.

(** ** Exclusion patterns *)

(** The last element of a pattern: a glob, or the method [_exclude_conf_spec]. *)
Inductive MatchItem := MGlob (pattern : string) | MExcludeConfSpec.

(** A pattern: the globs of the enclosing directories, top down, and the
    matcher of the entry itself. *)
Record ExclusionPattern := mkPattern { pat_dirs : list string; pat_last : MatchItem }.

Definition all_roles : gset string := {["forwarder"; "indexer"; "searchHead"]}.
Definition fwd_idx : gset string := {["forwarder"; "indexer"]}.

(** [AppDeploymentPackage._exclusion_rule] (lines 663-673) *)
Definition exclusion_rule : list (ExclusionPattern * gset string) :=
  [(mkPattern [] (MGlob "app.manifest"), all_roles);
   (mkPattern [] (MGlob "appserver"), fwd_idx);
   (mkPattern [] (MGlob "lookups"), fwd_idx);
   (mkPattern [] (MGlob "static"), fwd_idx);
   (mkPattern ["default"] (MGlob "data"), fwd_idx);
   (mkPattern ["default"] (MGlob "*.conf"), all_roles);
   (mkPattern ["local"] (MGlob "*.conf"), all_roles);
   (mkPattern ["metadata"] (MGlob "local.meta"), all_roles);
   (mkPattern ["README"] MExcludeConfSpec, all_roles)].

(** Lines 512-517: the patterns whose excluded roles leave nothing of the
    workload. *)
Definition exclusion_patterns (workload : gset string) : list ExclusionPattern :=
  foldl (λ acc r, if decide (size (workload ∖ r.2) = 0) then acc ++ [r.1] else acc) [] exclusion_rule.

(** [_exclude_conf_spec(filename)] (lines 657-661): [configuration] is the
    list of configuration names kept. *)
Definition conf_spec_suffix : string := ".conf.spec".

Definition exclude_conf_spec (configuration : list string) (filename : string) : bool :=
  if endswith filename conf_spec_suffix then
    let configuration_name := of_chars (take (length (chars filename) - 10) (chars filename)) in
    negb (bool_decide (configuration_name ∈ configuration))
  else false.

(** [_get_match_function(pattern)] (lines 746-754) *)
Definition match_function (configuration : list string) (item : MatchItem) : string → bool :=
  match item with
  | MGlob pattern => λ filename, fnmatch filename pattern
  | MExcludeConfSpec => exclude_conf_spec configuration
  end.

(** The test of lines 723-729: the pattern has one element more than
    [root] has parts, and the enclosing directories match top down. *)
Definition pattern_applies (root : list string) (p : ExclusionPattern) : bool :=
  bool_decide (length (pat_dirs p) + 1 = length root + 1) &&
  forallb (λ fp, fnmatch fp.1 fp.2) (zip (rev root) (pat_dirs p)).

(** [_get_excluded_filenames(root, names, ignore_patterns)] (lines 718-744) *)
Definition get_excluded_filenames (configuration : list string) (root : list string)
    (names : list string) (ignore_patterns : list ExclusionPattern) : list string :=
  let candidates :=
    foldl (λ acc p, if pattern_applies root p then acc ++ [match_function configuration (pat_last p)] else acc)
      [] ignore_patterns in
  match candidates with
  | [] => []
  | _ => filter (λ filename, existsb (λ f, f filename) candidates = true) names
  end.

(** [_split_filename(filename)] (lines 799-806): the parts from the leaf
    up.  The loop does not end on a name that starts with [/]
    ([path.split('/')] is [('/', '')]): fuel. *)
Fixpoint split_filename_fuel (fuel : nat) (filename : string) (parts : list string) : option (list string) :=
  match fuel with
  | 0 => None
  | S f =>
      if decide (filename = EmptyString) then Some parts
      else let '(head, part) := path_split filename in split_filename_fuel f head (parts ++ [part])
  end.

Definition split_filename (filename : string) : option (list string) :=
  split_filename_fuel (S (length (chars filename))) filename [].

(** ** The asset walk *)

(** A directory: its files and its subdirectories, in listing order. *)
Inductive Tree := Dir (files : list string) (dirs : list (string * Tree)).

Abbreviation Counts := (list (string * Z)).

(** The body of [for root, directory_names, filenames in os.walk(...)]
    (lines 768-782) for the directory [root] of [app_root]. *)
Definition walk_step (configuration : list string) (ignore_patterns : list ExclusionPattern)
    (app_root root : string) (files : list string) (dir_names : list string)
    (st : gset string * Counts) : option (list string * (gset string * Counts)) :=
  let '(assets, counts) := st in
  app_subdir ← split_filename (str_drop (length (chars (commonprefix app_root root)) + 1) root);
  let kept_dirs :=
    match dir_names with
    | [] => []
    | _ => let excluded := get_excluded_filenames configuration app_subdir dir_names ignore_patterns in
           filter (λ n, n ∉ excluded) dir_names
    end in
  let kept_files :=
    match files with
    | [] => []
    | _ => let excluded := get_excluded_filenames configuration app_subdir files ignore_patterns in
           filter (λ n, n ∉ excluded) files
    end in
  let assets := foldl (λ a n, a ∪ {[path_join root n]}) assets kept_dirs in
  let counts := foldl (λ c n, od_set c (path_join root n) 0%Z) counts kept_dirs in
  let assets := foldl (λ a n, a ∪ {[path_join root n]}) assets kept_files in
  let counts := od_set counts root (default 0%Z (od_get counts root) + Z.of_nat (length kept_dirs + length kept_files))%Z in
  Some (kept_dirs, (assets, counts)).

(** [os.walk(app_root, topdown=True)]: a directory is visited before the
    subdirectories that the step keeps, in order. *)
Fixpoint walk (configuration : list string) (ignore_patterns : list ExclusionPattern)
    (app_root root : string) (t : Tree) (st : gset string * Counts) : option (gset string * Counts) :=
  match t with
  | Dir files dirs =>
      '(kept, st') ← walk_step configuration ignore_patterns app_root root files (map fst dirs) st;
      (fix walk_dirs (ds : list (string * Tree)) (st : gset string * Counts) : option (gset string * Counts) :=
         match ds with
         | [] => Some st
         | (n, sub) :: rest =>
             if decide (n ∈ kept) then
               st'' ← walk configuration ignore_patterns app_root (path_join root n) sub st;
               walk_dirs rest st''
             else walk_dirs rest st
         end) dirs st'
  end.

Inductive AssetError := KeyError.

(** The loop over [empty_directories] (lines 786-794). *)
Fixpoint drop_empty (fuel : nat) (queue : list string) (assets : gset string) (counts : Counts)
    : option (AssetError + gset string) :=
  match fuel with
  | 0 => None
  | S f =>
      match queue with
      | [] => Some (inr assets)
      | name :: rest =>
          if decide (name ∉ assets) then Some (inl KeyError)
          else
            let assets := assets ∖ {[name]} in
            if decide (size assets = 0) then Some (inr assets)
            else
              let parent := dirname name in
              match od_get counts parent with
              | None => Some (inl KeyError)
              | Some c =>
                  let counts := od_set counts parent (c - 1)%Z in
                  drop_empty f (if decide (c - 1 ≤ 0)%Z then rest ++ [parent] else rest) assets counts
              end
      end
  end.

(** [_set_asset_filenames(ignore_patterns)] (lines 759-796). *)
Definition set_asset_filenames (configuration : list string) (ignore_patterns : list ExclusionPattern)
    (app_root : string) (t : Tree) : option (AssetError + gset string) :=
  '(assets, counts) ← walk configuration ignore_patterns app_root app_root t (∅, [(app_root, 0%Z)]);
  let empty_directories := map fst (filter (λ nc, nc.2 = 0%Z) counts) in
  drop_empty (S (size assets)) empty_directories assets counts.

(** [_ignore_assets(source, names)] (lines 756-757) *)
Definition ignore_assets (asset_filenames : gset string) (source : string) (names : list string) : list string :=
  filter (λ name, path_join source name ∉ asset_filenames) names.

(** ** [_detect_is_empty] (lines 618-655) *)

(** [license], [privacyPolicy], [releaseNotes]: absent, or with an absent
    or present [text]. *)
Abbreviation InfoItem := (option (option string)).

(** The loop [while len(filename) > 0] of lines 649-651. *)
Fixpoint add_parents (fuel : nat) (app_root filename : string) (empty_set : gset string)
    : option (gset string) :=
  match fuel with
  | 0 => None
  | S f =>
      if decide (filename = EmptyString) then Some empty_set
      else add_parents f app_root (dirname filename) (empty_set ∪ {[normpath (path_join app_root filename)]})
  end.

(** One item (lines 645-651); the loop gets one round per character of
    the normalised name, enough when the name is relative. *)
Definition add_info_item (app_root : string) (empty_set : gset string) (item : InfoItem)
    : option (gset string) :=
  match item with
  | Some (Some text) =>
      let filename := normpath text in
      add_parents (S (length (chars filename))) app_root filename empty_set
  | _ => Some empty_set
  end.

Definition detect_is_empty (app_root : string) (info : list InfoItem)
    (asset_filenames : gset string) (configurations : list string) : option bool :=
  if decide (length configurations = 0 ∨ (length configurations = 1 ∧ "app" ∈ configurations)) then
    if decide (size asset_filenames = 0) then Some true
    else
      let empty_set : gset string :=
        {[path_join app_root "metadata"; path_join (path_join app_root "metadata") "default.meta"]} in
      let app_bin := path_join app_root "bin" in
      let empty_set := empty_set ∪ filter (λ a, startswith a app_bin = true) asset_filenames in
      empty_set ← foldl (λ acc item, acc ≫= (λ e, add_info_item app_root e item)) (Some empty_set) info;
      if decide (asset_filenames ⊆ empty_set) then Some true else Some false
  else Some false.

(** * Properties *)

(** ** Partition *)

Section PartitionProps.
Context (inputs_rule default_rule : PackagingRule) (m : AppSource).
Context (app_root : string) (spec : DeploymentSpecification).

Lemma relevant_settings_sound rule st n s :
  (n, s) ∈ relevant_settings m rule spec st →
  s ∈ stanza_settings st ∧ setting_name s = n ∧ @should_include_setting rule st s spec m = true.
Proof.
  intros (s' & Hs' & Hc & <- & <-)%(elem_of_foldl_od_set (λ s, @should_include_setting rule st s spec m)
    setting_name id). done.
Qed.

Lemma relevant_stanzas_sound rule sec n settings :
  (n, settings) ∈ relevant_stanzas m rule spec sec →
  ∃ st, st ∈ section_stanzas sec ∧ stanza_name st = n ∧
        @should_include_stanza rule st settings spec m = true ∧
        settings = relevant_settings m rule spec st.
Proof.
  intros (st & Hst & Hc & <- & <-)%(elem_of_foldl_od_set
    (λ st, @should_include_stanza rule st (relevant_settings m rule spec st) spec m)
    stanza_name (relevant_settings m rule spec)). by exists st.
Qed.

Lemma relevant_files_sound f n stanzas :
  (n, stanzas) ∈ relevant_files inputs_rule default_rule m app_root spec f →
  stanzas ≠ [] ∧ ∃ sec, sec ∈ file_sections f ∧ relative_file_name app_root sec = n ∧
    stanzas = relevant_stanzas m (rule_for inputs_rule default_rule f) spec sec.
Proof.
  intros (sec & Hsec & Hc%bool_decide_eq_true_1 & <- & <-)%(elem_of_foldl_od_set
    (λ sec, bool_decide (0 < length (relevant_stanzas m (rule_for inputs_rule default_rule f) spec sec)))
    (relative_file_name app_root) (relevant_stanzas m (rule_for inputs_rule default_rule f) spec)).
  split; [intros Hnil; rewrite Hnil in Hc; simpl in Hc; lia|by exists sec].
Qed.

(** C35. The partition keeps only what the packaging rule of each file
    includes, and no empty level: every kept file has kept sections, every
    kept section kept stanzas, every kept stanza is one the rule includes
    with its kept settings, and every kept setting is one of the stanza's
    settings the rule includes. *)
Theorem partition_configuration_sound files fname rf :
  (fname, rf) ∈ partition_configuration inputs_rule default_rule m app_root spec files →
  ∃ f, f ∈ files ∧ file_name f = fname ∧ rf ≠ [] ∧
    ∀ sname stanzas, (sname, stanzas) ∈ rf →
      stanzas ≠ [] ∧ ∃ sec, sec ∈ file_sections f ∧ relative_file_name app_root sec = sname ∧
      ∀ stname settings, (stname, settings) ∈ stanzas →
        ∃ st, st ∈ section_stanzas sec ∧ stanza_name st = stname ∧
          @should_include_stanza (rule_for inputs_rule default_rule f) st settings spec m = true ∧
          ∀ n s, (n, s) ∈ settings →
            s ∈ stanza_settings st ∧ setting_name s = n ∧
            @should_include_setting (rule_for inputs_rule default_rule f) st s spec m = true.
Proof.
  intros (f & Hf & Hlen%bool_decide_eq_true_1 & <- & <-)%(elem_of_foldl_od_set
    (λ f, bool_decide (0 < length (relevant_files inputs_rule default_rule m app_root spec f)))
    file_name (relevant_files inputs_rule default_rule m app_root spec)).
  exists f. split_and!; [done|done|by intros Hnil; rewrite Hnil in Hlen; simpl in Hlen; lia|].
  intros sname stanzas Hs. destruct (relevant_files_sound f sname stanzas Hs) as (Hne & sec & Hsec & Hsn & ->).
  split; [done|]. exists sec. split_and!; [done|done|]. intros stname settings Hst.
  destruct (relevant_stanzas_sound _ sec stname settings Hst) as (st & Hst' & Hname & Hinc & ->).
  exists st. split_and!; [done|done|done|]. intros n s Hns. by apply relevant_settings_sound.
Qed.
End PartitionProps.

(** ** Exclusion *)

Lemma exclusion_fold workload (rule : list (ExclusionPattern * gset string)) acc :
  foldl (λ acc r, if decide (size (workload ∖ r.2) = 0) then acc ++ [r.1] else acc) acc rule =
  acc ++ (fst <$> filter (λ r, workload ⊆ r.2) rule).
Proof.
  revert acc. induction rule as [|r rule IH]; intros acc; cbn [foldl]; [by rewrite filter_nil, app_nil_r|].
  rewrite IH, filter_cons. destruct (decide (size (workload ∖ r.2) = 0)) as [H0|H0];
    rewrite size_empty_iff in H0.
  - rewrite decide_True by set_solver. simpl. by rewrite <-(assoc_L (++)).
  - rewrite decide_False by set_solver. done.
Qed.

(** The exclusion patterns chosen for a workload are, in table order,
    those whose excluded roles contain every role of the workload. *)
Theorem exclusion_patterns_spec workload :
  exclusion_patterns workload = fst <$> filter (λ r, workload ⊆ r.2) exclusion_rule.
Proof. apply exclusion_fold. Qed.

Lemma candidates_eq configuration root (ps : list ExclusionPattern) acc :
  foldl (λ acc p, if pattern_applies root p then acc ++ [match_function configuration (pat_last p)] else acc) acc ps =
  acc ++ ((match_function configuration ∘ pat_last) <$> filter (λ p, pattern_applies root p = true) ps).
Proof.
  revert acc. induction ps as [|p ps IH]; intros acc; cbn [foldl]; [by rewrite filter_nil, app_nil_r|].
  rewrite IH, filter_cons. destruct (pattern_applies root p); simpl; [by rewrite <-(assoc_L (++))|done].
Qed.

(** [_get_excluded_filenames] returns, in order, the names that the
    last element of some applicable pattern matches, a pattern applying
    when it is one longer than the directory path and its globs match the
    directories top down. *)
Theorem get_excluded_filenames_spec configuration root names ps :
  get_excluded_filenames configuration root names ps =
  filter (λ n, existsb (λ p, pattern_applies root p && match_function configuration (pat_last p) n) ps = true) names.
Proof.
  unfold get_excluded_filenames. rewrite candidates_eq. simpl.
  assert (Hex : ∀ n, existsb (λ f, f n) ((match_function configuration ∘ pat_last) <$>
                        filter (λ p, pattern_applies root p = true) ps) =
                     existsb (λ p, pattern_applies root p && match_function configuration (pat_last p) n) ps).
  { intros n. induction ps as [|p ps IH]; [done|]. rewrite filter_cons.
    destruct (pattern_applies root p) eqn:Ha; [rewrite decide_True by done|rewrite decide_False by done].
    - rewrite fmap_cons. cbn [existsb]. rewrite IH, Ha. reflexivity.
    - cbn [existsb]. rewrite IH, Ha. reflexivity. }
  destruct ((match_function configuration ∘ pat_last) <$> _) as [|f fs] eqn:Hc.
  - symmetry. apply filter_none. intros n _. by rewrite <-Hex.
  - apply list_filter_iff. intros n. by rewrite <-Hex.
Qed.

(** ** Termination of the path loops *)

Lemma chars_nonempty p : p ≠ EmptyString → chars p ≠ [].
Proof. by destruct p. Qed.

Lemma add_parents_relative f app_root p e :
  relative (chars p) → length (chars p) < f → is_Some (add_parents f app_root p e).
Proof.
  revert p e. induction f as [|f IH]; intros p e Hrel Hlen; [lia|]. simpl.
  case_decide as Hp; [by eexists|].
  destruct (path_split_relative p (chars_nonempty p Hp) Hrel) as [Hshort Hrel'].
  apply IH; [done|unfold dirname; lia].
Qed.

Lemma add_parents_absolute f app_root p e : absolute (chars p) → add_parents f app_root p e = None.
Proof.
  revert p e. induction f as [|f IH]; intros p e Habs; [done|]. simpl.
  rewrite decide_False by (intros ->; discriminate). apply IH. by apply path_split_absolute.
Qed.

Lemma relative_or_absolute cs : relative cs ∨ absolute cs.
Proof. unfold relative, absolute. destruct (decide (head cs = Some slash)); auto. Qed.

Lemma foldl_bind_none {A B} (g : A → B → option A) l : foldl (λ acc x, acc ≫= (λ e, g e x)) None l = None.
Proof. induction l; simpl; auto. Qed.

Lemma info_fold_none app_root info e :
  foldl (λ acc item, acc ≫= (λ e, add_info_item app_root e item)) (Some e) info = None ↔
  ∃ text, Some (Some text) ∈ info ∧ absolute (chars text).
Proof.
  revert e. induction info as [|item info IH]; intros e; simpl.
  { split; [done|]. intros (t & Ht%elem_of_nil & _). done. }
  destruct (add_info_item app_root e item) as [e'|] eqn:Hadd.
  - rewrite IH. split.
    + intros (t & Ht & Habs). exists t. split; [by right|done].
    + intros (t & [<-|Ht]%elem_of_cons & Habs); [|by exists t].
      exfalso. unfold add_info_item in Hadd. rewrite add_parents_absolute in Hadd; [done|].
      by apply normpath_absolute.
  - rewrite foldl_bind_none. split; [|done]. intros _.
    destruct item as [[text|]|]; unfold add_info_item in Hadd; try discriminate. cbv zeta in Hadd.
    exists text. split; [by left|].
    destruct (relative_or_absolute (chars text)) as [Hrel|]; [|done].
    destruct (add_parents_relative (S (length (chars (normpath text)))) app_root (normpath text) e)
      as [e' He']; [by apply normpath_relative|lia|]. congruence.
Qed.

(** C38. [_detect_is_empty] fails to return exactly when the check reaches
    the manifest's documents (no configuration but [app], some assets) and
    the text of one of them is an absolute path: then [path.dirname]
    reaches ['/'] and stays there.  On relative paths it always returns. *)
Theorem detect_is_empty_none app_root info asset_filenames configurations :
  detect_is_empty app_root info asset_filenames configurations = None ↔
  (length configurations = 0 ∨ (length configurations = 1 ∧ "app" ∈ configurations)) ∧
  size asset_filenames ≠ 0 ∧ ∃ text, Some (Some text) ∈ info ∧ absolute (chars text).
Proof.
  unfold detect_is_empty. case_decide as Hconf; [|naive_solver]. case_decide as Hsize; [naive_solver|].
  cbv zeta. match goal with |- context [foldl _ (Some ?e) info] => rewrite <-(info_fold_none app_root info e) end.
  destruct (foldl _ _ info); simpl; [case_decide|]; naive_solver.
Qed.

Lemma foldl_union_singletons_empty {A} (f : A → string) (acc : gset string) l :
  foldl (λ a n, a ∪ {[f n]}) acc l = ∅ → acc = ∅ ∧ l = [].
Proof.
  revert acc. induction l as [|x l IH]; intros acc; [done|]. cbn. intros [Hacc _]%IH. set_solver.
Qed.

(** [os.walk] leaves the directories the step drops unvisited. *)
Lemma walk_dirs_none configuration ignore_patterns app_root root dirs st :
  (fix walk_dirs (ds : list (string * Tree)) (st : gset string * Counts) : option (gset string * Counts) :=
     match ds with
     | [] => Some st
     | (n, sub) :: rest =>
         if decide (n ∈ []) then
           st'' ← walk configuration ignore_patterns app_root (path_join root n) sub st; walk_dirs rest st''
         else walk_dirs rest st
     end) dirs st = Some st.
Proof. induction dirs as [|[n sub] dirs IH]; [done|]. by rewrite decide_False by set_solver. Qed.

(** C36. When the walk of the app's root keeps none of its files and
    directories, [_set_asset_filenames] raises [KeyError]: the root is
    the only directory counted, with no entry, so it is queued as empty
    and [asset_filenames.remove(app_root)] finds an empty set. *)
Theorem set_asset_filenames_root_keyerror configuration ignore_patterns app_root files dirs kept counts :
  walk_step configuration ignore_patterns app_root app_root files (map fst dirs) (∅, [(app_root, 0%Z)]) =
    Some (kept, (∅, counts)) →
  set_asset_filenames configuration ignore_patterns app_root (Dir files dirs) = Some (inl KeyError).
Proof.
  intros Hw. assert (kept = [] ∧ counts = [(app_root, 0%Z)]) as [-> ->].
  { unfold walk_step in Hw. destruct (split_filename _) as [sub|]; [|done]. cbn in Hw.
    injection Hw as Hk Ha Hc. apply foldl_union_singletons_empty in Ha as [[_ Hd]%foldl_union_singletons_empty Hf].
    rewrite Hd in Hk, Hc. rewrite Hf in Hc. subst kept counts. split; [done|].
    cbn. rewrite !decide_True by done. done. }
  unfold set_asset_filenames. cbn [walk]. rewrite Hw. cbn [mbind option_bind]. rewrite walk_dirs_none.
  cbn. by rewrite decide_True by set_solver.
Qed.

Module DeploymentPackageExamples.
Import DeploymentSpec.

Definition include_all : PackagingRule :=
  {| should_include_setting := λ _ _ _ _, true; should_include_stanza := λ _ _ _ _, true |}.
(** A rule that drops [password] settings and the stanzas left empty. *)
Definition no_passwords : PackagingRule :=
  {| should_include_setting := λ _ s _ _, negb (bool_decide (setting_name s = "password"));
     should_include_stanza := λ _ settings _ _, bool_decide (0 < length settings) |}.
Definition v1 : Version := mkVersion 1 0 0.
Definition app_a : AppSource := mkAppSource "a" "a" None v1 true None None None.
Definition spec_sh : DeploymentSpecification := mkSpec "sh" {["searchHead"]} None.
Definition pw : Setting := mkSetting "password" "x".
Definition host : Setting := mkSetting "host" "h".
Definition inputs_conf : ConfigurationFile :=
  mkConfigurationFile "inputs" [mkSection "/apps/a/default/inputs.conf"
    [mkStanza "monitor" [host; pw]; mkStanza "secret" [pw]]].
Definition props_conf : ConfigurationFile :=
  mkConfigurationFile "props" [mkSection "/apps/a/default/props.conf" []].

End DeploymentPackageExamples.

Module DeploymentPackageWitnesses.
Import DeploymentSpec DeploymentPackageExamples.

Lemma partition_configuration_sound_witness :
  ∃ f, f ∈ [inputs_conf; props_conf] ∧ file_name f = "inputs" ∧
    [("default/inputs.conf", [("monitor", [("host", host)])])] ≠ [] ∧
    ∀ sname stanzas, (sname, stanzas) ∈ [("default/inputs.conf", [("monitor", [("host", host)])])] →
      stanzas ≠ [] ∧ ∃ sec, sec ∈ file_sections f ∧ relative_file_name "/apps/a" sec = sname ∧
      ∀ stname settings, (stname, settings) ∈ stanzas →
        ∃ st, st ∈ section_stanzas sec ∧ stanza_name st = stname ∧
          @should_include_stanza (rule_for no_passwords include_all f) st settings spec_sh app_a = true ∧
          ∀ n s, (n, s) ∈ settings →
            s ∈ stanza_settings st ∧ setting_name s = n ∧
            @should_include_setting (rule_for no_passwords include_all f) st s spec_sh app_a = true.
Proof.
  apply (DeploymentPackage.partition_configuration_sound no_passwords include_all app_a "/apps/a" spec_sh
           [inputs_conf; props_conf]).
  vm_compute. constructor.
Defined.

(** The [bin] test of [_detect_is_empty] is a string prefix test: an
    asset directory [binaries] counts as part of [bin]. *)
Example detect_is_empty_bin_prefix :
  detect_is_empty "/apps/a" [] {["/apps/a/binaries"; "/apps/a/binaries/x.py"]} ["app"] = Some true.
Proof. vm_compute. reflexivity. Qed.

Lemma set_asset_filenames_root_keyerror_witness :
  set_asset_filenames [] (exclusion_patterns all_roles) "/apps/a" (Dir ["app.manifest"] []) = Some (inl KeyError).
Proof.
  apply (DeploymentPackage.set_asset_filenames_root_keyerror [] (exclusion_patterns all_roles) "/apps/a"
           ["app.manifest"] [] [] [("/apps/a", 0%Z)]).
  vm_compute. reflexivity.
Defined.

End DeploymentPackageWitnesses.

End DeploymentPackage.
