(* ===== verification/Traversal.v ===== *)
(** * Traversal and description of the dependency graph

    src/slim/app/_deployment.py lines 112-118 and 263-328:
    [AppDependencyGraph.traverse(visit)] walks the graph from the root and
    calls [visit(app_source, dependency_sources, dependent_sources)] once per
    node; [visit] returns the dependencies to continue into.  Python
    visitors are closures with effects of their own; here a visitor is a
    function on a state [St] of the caller's choice ([Visitor]).  The
    [description] property renders the resolved dependencies depth first
    with [_describe(app_source, level)], a recursion with no visited set:
    it is given fuel, and the fuel is enough exactly when no cycle is
    reachable.  [string(version)] and [str(version_range)] are the
    formatting of the semantic-version library and are parameters. *)

From stdpp Require Import base list strings relations list_numbers.
From S2P Require Import Prelude AppSource Cycle DependencyGraph Propagation.

Module Traversal.
Import DependencyGraph.

Inductive TraverseError := KeyError.

(** [visit(app_source, dependency_sources, dependent_sources)] with the
    caller's state. *)
Abbreviation Visitor St :=
  (St → AppSource → list AppSource → option (list (Dependency * AppSource)) → St * list AppSource).

Section Traverse.
Context {St : Type} (visit : Visitor St) (g : Graph).

(** The [while] loop of [traverse] (lines 272-279): [queue.pop()] on the
    right, [queue.extendleft(...)] on the left; [visited] in insertion
    order; [graph[app_source]] raises [KeyError] for an app that is not a
    node. *)
Fixpoint traverse_loop (fuel : nat) (queue visited : list AppSource) (st : St)
    : option (TraverseError + (St * list AppSource)) :=
  match fuel with
  | 0 => None
  | S f =>
      match dq_pop queue with
      | None => Some (inr (st, visited))
      | Some (app, queue') =>
          if decide (app ∈ visited) then traverse_loop f queue' visited st
          else
            match od_get (g_graph g) app with
            | None => Some (inl KeyError)
            | Some deps =>
                let '(st', ds) := visit st app deps (od_get (g_dependents g) app) in
                traverse_loop f (dq_extendleft ds queue') (visited ++ [app]) st'
            end
      end
  end.

(** The adjacency not yet expanded: each node that is not visited counts
    the length of its dependency list. *)
Definition unvisited_weight (adj : list (AppSource * list AppSource)) (visited : list AppSource) : nat :=
  sum_list_with (λ kv, if decide (kv.1 ∈ visited) then 0 else length kv.2) adj.

(** [traverse(visit)]: returns [self._dependents]. *)
Definition traverse (root : AppSource) (st : St)
    : option (TraverseError + (St * list (AppSource * list (Dependency * AppSource)))) :=
  res ← traverse_loop (S (S (unvisited_weight (g_graph g) []))) [root] [] st;
  Some (match res with inl e => inl e | inr (st', _) => inr (st', g_dependents g) end).
End Traverse.

(** A visitor that records its calls and continues into every dependency. *)
Definition record_visit : Visitor (list AppSource) := λ log app deps _, (log ++ [app], deps).

(** Any visitor, with the list of the apps it is called on beside its state. *)
Definition with_log {St} (visit : Visitor St) : Visitor (St * list AppSource) :=
  λ stl app deps dts, let '(st', ds) := visit stl.1 app deps dts in ((st', stl.2 ++ [app]), ds).

Section Describe.
Context (version_str : Version → string) (range_str : Range → string) (g : Graph).

Definition nl : string := String (Ascii.ascii_of_nat 10) EmptyString.

(** ['   ' * level] *)
Definition spaces (level : nat) : string := foldr String.append "" (replicate level "   ").

(** The line of a dependency (lines 323-326). *)
Definition dependency_line (level : nat) (dep : Dependency) (dsrc : AppSource) : string :=
  "|" +:+ spaces level +:+ "|-- " +:+ src_id dsrc +:+ "@" +:+ version_str (src_version dsrc) +:+
  " (accepting " +:+ range_str (dep_version dep) +:+ ")" +:+ nl.

(** The loop [for app_dependency, app_dependency_source in
    app_source.dependencies] with [rec] the recursive call. *)
Fixpoint describe_loop (rec : AppSource → nat → option string) (level : nat)
    (deps : list (Dependency * AppSource)) (out : string) : option string :=
  match deps with
  | [] => Some out
  | (dep, dsrc) :: rest =>
      let out := out +:+ dependency_line level dep dsrc in
      match rec dsrc (S level) with
      | None => None
      | Some s => describe_loop rec level rest (out +:+ s)
      end
  end.

(** [_describe(app_source, level)] (lines 318-328); [None] is the
    [RecursionError] of a recursion that does not end. *)
Fixpoint describe (fuel : nat) (app : AppSource) (level : nat) : option string :=
  match fuel with
  | 0 => None
  | S f =>
      let out := if decide (level = 1)
                 then "|-- " +:+ src_id app +:+ "@" +:+ version_str (src_version app) +:+ nl
                 else "" in
      describe_loop (describe f) level (default [] (od_get (g_resolved g) app)) out
  end.

(** The [description] property (lines 112-118): [_describe(self.root, 1)]. *)
Definition description (root : AppSource) : option string :=
  describe (S (length (od_keys (g_graph g)))) root 1.

(** The edges [_describe] follows: [app_source.dependencies]. *)
Definition resolved_edge (x y : AppSource) : Prop := y ∈ map snd (default [] (od_get (g_resolved g) x)).
End Describe.

(** * Properties of [traverse] *)

Lemma unvisited_weight_mono adj vis x : unvisited_weight adj (vis ++ [x]) ≤ unvisited_weight adj vis.
Proof.
  unfold unvisited_weight. induction adj as [|[k v] adj IH]; cbn; [done|].
  repeat case_decide; try set_solver; lia.
Qed.

(** Visiting [x] removes its dependency list from the weight. *)
Lemma unvisited_weight_visit adj vis x deps :
  x ∉ vis → od_get adj x = Some deps → unvisited_weight adj (vis ++ [x]) + length deps ≤ unvisited_weight adj vis.
Proof.
  unfold unvisited_weight. intros Hx. induction adj as [|[k v] adj IH]; cbn; [done|].
  case_decide as Hk; [intros [= <-]; subst k|intros Hget; specialize (IH Hget)].
  - rewrite decide_True, decide_False by set_solver.
    pose proof (unvisited_weight_mono adj vis x). unfold unvisited_weight in *. lia.
  - repeat case_decide; set_solver || lia.
Qed.

Section TraverseProps.
Context {St : Type} (visit : Visitor St) (g : Graph).

(** The visitor continues into some of the dependencies it is given:
    reordered, filtered, never more. *)
Definition filtering_visitor : Prop := ∀ st app deps dts, (visit st app deps dts).2 ⊆+ deps.

(** Every dependency of a node is a node. *)
Definition adjacency_closed : Prop :=
  ∀ x deps y, od_get (g_graph g) x = Some deps → y ∈ deps → y ∈ od_keys (g_graph g).

Lemma traverse_loop_total (Hsub : filtering_visitor) (Hcl : adjacency_closed) f q vis st :
  (∀ x, x ∈ q → x ∈ od_keys (g_graph g)) → length q + unvisited_weight (g_graph g) vis < f →
  ∃ st' vis', traverse_loop visit g f q vis st = Some (inr (st', vis')).
Proof.
  revert q vis st. induction f as [|f IH]; intros q vis st Hq Hf; [lia|]. cbn [traverse_loop].
  destruct (dq_pop q) as [[x q']|] eqn:Hpop; [|by eauto].
  apply dq_pop_Some in Hpop as ->. rewrite length_app in Hf. cbn [length] in Hf.
  case_decide as Hx; [apply IH; [set_solver|lia]|].
  destruct (od_get (g_graph g) x) as [deps|] eqn:Hget;
    [|exfalso; apply od_get_None in Hget; set_solver].
  pose proof (Hsub st x deps (od_get (g_dependents g) x)) as Hs.
  destruct (visit st x deps _) as [st' ds]. simpl in Hs. apply IH.
  - intros y [Hy|Hy]%elem_of_dq_extendleft; [|set_solver].
    eapply Hcl; [done|]. by eapply elem_of_submseteq.
  - rewrite length_dq_extendleft. pose proof (submseteq_length _ _ Hs).
    pose proof (unvisited_weight_visit (g_graph g) vis x deps Hx Hget). lia.
Qed.

Lemma traverse_loop_nodup f q vis st st' vis' :
  traverse_loop visit g f q vis st = Some (inr (st', vis')) → NoDup vis → NoDup vis'.
Proof.
  revert q vis st. induction f as [|f IH]; intros q vis st; cbn [traverse_loop]; [done|].
  destruct (dq_pop q) as [[x q']|]; [|by intros [= <- <-]].
  case_decide as Hx; [apply IH|].
  destruct (od_get (g_graph g) x) as [deps|]; [|done].
  destruct (visit st x deps _) as [st'' ds]. intros Hrun Hnd. eapply IH; [exact Hrun|].
  apply NoDup_app. split_and!; [done| |by apply NoDup_singleton].
  intros y Hy ->%list_elem_of_singleton. done.
Qed.

Lemma traverse_loop_with_log f q vis st log st' log' vis' :
  traverse_loop (with_log visit) g f q vis (st, log) = Some (inr ((st', log'), vis')) →
  ∃ new, vis' = vis ++ new ∧ log' = log ++ new.
Proof.
  revert q vis st log. induction f as [|f IH]; intros q vis st log; cbn [traverse_loop]; [done|].
  destruct (dq_pop q) as [[x q']|]; [|intros [= <- <-]; exists []; by rewrite !app_nil_r].
  case_decide as Hx; [apply IH|].
  destruct (od_get (g_graph g) x) as [deps|]; [|done]. unfold with_log. simpl.
  destruct (visit st x deps _) as [st'' ds]. intros (new & -> & ->)%IH.
  exists (x :: new). by rewrite <-!(assoc_L (++)).
Qed.
End TraverseProps.

(** The same loop on a first-in first-out queue: pop at the front, the
    continuation list appended at the back. *)
Fixpoint traverse_fifo {St} (visit : Visitor St) (g : Graph) (fuel : nat) (queue visited : list AppSource) (st : St)
    : option (TraverseError + (St * list AppSource)) :=
  match fuel with
  | 0 => None
  | S f =>
      match queue with
      | [] => Some (inr (st, visited))
      | app :: queue' =>
          if decide (app ∈ visited) then traverse_fifo visit g f queue' visited st
          else
            match od_get (g_graph g) app with
            | None => Some (inl KeyError)
            | Some deps =>
                let '(st', ds) := visit st app deps (od_get (g_dependents g) app) in
                traverse_fifo visit g f (queue' ++ ds) (visited ++ [app]) st'
            end
      end
  end.

Lemma wf_adjacency_closed root g : graph_wf root g → adjacency_closed g.
Proof.
  intros Hwf x deps y Hget Hy. destruct (proj2 Hwf x (od_get_Some_elem _ _ _ Hget)) as (l & _ & Hadj & Hin).
  rewrite Hget in Hadj. injection Hadj as ->. apply elem_of_ordered_set, list_elem_of_fmap in Hy as (dd & -> & Hdd).
  by apply Hin.
Qed.

(** The state of [record_visit] is the visited list. *)
Lemma traverse_loop_record g f q vis st' vis' :
  traverse_loop record_visit g f q vis vis = Some (inr (st', vis')) → st' = vis'.
Proof.
  revert q vis. induction f as [|f IH]; intros q vis; cbn [traverse_loop]; [done|].
  destruct (dq_pop q) as [[x q']|]; [|by intros [= <- <-]].
  case_decide; [apply IH|]. destruct (od_get (g_graph g) x); [apply IH|done].
Qed.

(** What the loop keeps true with [record_visit]: the queue and the
    visited nodes are reachable, the root is among them, and every edge
    out of a visited node leads to a visited or queued node. *)
Definition traverse_inv (root : AppSource) (g : Graph) (q vis : list AppSource) : Prop :=
  (∀ x, x ∈ vis ++ q → rtc (Cycle.edge (g_graph g)) root x) ∧ root ∈ vis ++ q ∧
  (∀ x y, x ∈ vis → Cycle.edge (g_graph g) x y → y ∈ vis ++ q).

Lemma traverse_inv_skip root g q vis x : x ∈ vis → traverse_inv root g (q ++ [x]) vis → traverse_inv root g q vis.
Proof.
  intros Hx (Hr & Hroot & Hcl). split_and!.
  - intros y Hy. apply Hr. set_solver.
  - set_solver.
  - intros y z Hy Hyz. specialize (Hcl y z Hy Hyz). set_solver.
Qed.

Lemma traverse_inv_visit root g q vis x deps :
  od_get (g_graph g) x = Some deps → traverse_inv root g (q ++ [x]) vis →
  traverse_inv root g (dq_extendleft deps q) (vis ++ [x]).
Proof.
  intros Hget (Hr & Hroot & Hcl).
  assert (Hedge : ∀ y, Cycle.edge (g_graph g) x y ↔ y ∈ deps).
  { intros y. unfold Cycle.edge, Cycle.succs. by rewrite Hget. }
  split_and!.
  - intros y [Hy|[Hy|Hy]%elem_of_dq_extendleft]%elem_of_app.
    + apply Hr. set_solver.
    + apply (rtc_r _ x); [apply Hr; set_solver|by apply Hedge].
    + apply Hr. set_solver.
  - rewrite elem_of_app, elem_of_dq_extendleft. set_solver.
  - intros y z [Hy|Hy%list_elem_of_singleton]%elem_of_app Hyz;
      rewrite elem_of_app, elem_of_dq_extendleft.
    + specialize (Hcl y z Hy Hyz). set_solver.
    + subst y. right. left. by apply Hedge.
Qed.

Lemma traverse_loop_reach root g f q vis st' vis' :
  traverse_loop record_visit g f q vis vis = Some (inr (st', vis')) → traverse_inv root g q vis →
  ∀ x, x ∈ vis' ↔ rtc (Cycle.edge (g_graph g)) root x.
Proof.
  revert q vis. induction f as [|f IH]; intros q vis; cbn [traverse_loop]; [done|].
  destruct (dq_pop q) as [[x q']|] eqn:Hpop.
  - apply dq_pop_Some in Hpop as ->. case_decide as Hx.
    + intros Hrun Hinv. eapply IH; [exact Hrun|]. by eapply traverse_inv_skip.
    + destruct (od_get (g_graph g) x) as [deps|] eqn:Hget; [|done]. cbn [record_visit].
      intros Hrun Hinv. eapply IH; [exact Hrun|]. by eapply traverse_inv_visit.
  - apply dq_pop_None in Hpop as ->. intros [= _ <-] (Hr & Hroot & Hcl) y.
    rewrite app_nil_r in Hr, Hroot, Hcl. split; [auto|].
    assert (Hclo : ∀ a b, rtc (Cycle.edge (g_graph g)) a b → a ∈ vis → b ∈ vis)
      by (induction 1; eauto). intros Hy. by apply (Hclo root).
Qed.

Lemma traverse_loop_fifo {St} (visit : Visitor St) g f q vis st :
  traverse_loop visit g f (rev q) vis st = traverse_fifo visit g f q vis st.
Proof.
  revert q vis st. induction f as [|f IH]; intros q vis st; [done|]. cbn [traverse_loop traverse_fifo].
  destruct q as [|x q]; [by rewrite dq_pop_rev_nil|]. rewrite dq_pop_rev.
  case_decide; [apply IH|]. destruct (od_get (g_graph g) x); [|done].
  destruct (visit st x _ _). by rewrite dq_extendleft_rev, IH.
Qed.

(** [traverse] always returns, without [KeyError], on a well-formed
    graph when the visitor continues into some of the dependencies it is
    given (reordered or filtered): the loop runs at most once per queued
    entry, and the entries are bounded by the root and the dependency
    lists of the nodes, each expanded once.  It returns the dependents
    map. *)
Theorem traverse_total {St} (visit : Visitor St) root g st0 :
  filtering_visitor visit → graph_wf root g →
  ∃ st, traverse visit g root st0 = Some (inr (st, g_dependents g)).
Proof.
  intros Hsub Hwf. unfold traverse.
  destruct (traverse_loop_total visit g Hsub (wf_adjacency_closed root g Hwf)
    (S (S (unvisited_weight (g_graph g) []))) [root] [] st0) as (st & vis & ->).
  - intros x Hx%list_elem_of_singleton; subst x. apply Hwf.
  - simpl. lia.
  - by exists st.
Qed.

(** [traverse] calls the visitor at most once per app, whatever the
    visitor does: the apps it is called on, logged beside its state, are
    distinct. *)
Theorem traverse_visits_once {St} (visit : Visitor St) g root st0 st log deps :
  traverse (with_log visit) g root (st0, []) = Some (inr ((st, log), deps)) → NoDup log.
Proof.
  unfold traverse. destruct (traverse_loop _ g _ [root] [] (st0, [])) as [[e|[[st' log'] vis']]|] eqn:Hrun;
    simpl; intros; simplify_eq.
  destruct (traverse_loop_with_log visit g _ _ _ _ _ _ _ _ Hrun) as (new & -> & ->).
  simpl. eapply traverse_loop_nodup; [exact Hrun|constructor].
Qed.

(** With a visitor that continues into every dependency, [traverse]
    calls it exactly once for each app reachable from the root. *)
Theorem traverse_visits_reachable root g :
  graph_wf root g →
  ∃ calls, traverse record_visit g root [] = Some (inr (calls, g_dependents g)) ∧ NoDup calls ∧
    ∀ x, x ∈ calls ↔ rtc (Cycle.edge (g_graph g)) root x.
Proof.
  intros Hwf. unfold traverse.
  destruct (traverse_loop_total record_visit g (λ _ _ _ _, reflexivity _) (wf_adjacency_closed root g Hwf)
    (S (S (unvisited_weight (g_graph g) []))) [root] [] []) as (st & vis & Hrun).
  { intros x Hx%list_elem_of_singleton; subst x. apply Hwf. } { simpl. lia. }
  rewrite Hrun. simpl. pose proof (traverse_loop_record _ _ _ _ _ _ Hrun) as ->.
  exists vis. split_and!; [done|by eapply traverse_loop_nodup; [exact Hrun|constructor]|].
  eapply traverse_loop_reach; [exact Hrun|]. split_and!; [|set_solver|set_solver].
  intros x Hx%list_elem_of_singleton; subst x. done.
Qed.

(** C33. [queue.pop()] on the right with [queue.extendleft(...)] on the
    left makes [traverse] a first-in first-out walk: on the deque [rev q]
    it computes what the loop that pops the front of [q] and appends at
    the back computes.  The visit order is breadth first, not the
    depth-first order of a stack. *)
Theorem traverse_fifo_order {St} (visit : Visitor St) g root st :
  traverse visit g root st =
  res ← traverse_fifo visit g (S (S (unvisited_weight (g_graph g) []))) [root] [] st;
  Some (match res with inl e => inl e | inr (st', _) => inr (st', g_dependents g) end).
Proof. unfold traverse. by rewrite <-traverse_loop_fifo. Qed.

(** * Properties of [_describe] *)

Section DescribeProps.
Context (version_str : Version → string) (range_str : Range → string) (g : Graph).

Lemma describe_loop_total rec level deps out :
  (∀ dd lv, dd ∈ deps → is_Some (rec dd.2 lv)) → is_Some (describe_loop version_str range_str rec level deps out).
Proof.
  revert out. induction deps as [|[dep y] deps IH]; intros out Hrec; simpl; [by eexists|].
  destruct (Hrec (dep, y) (S level)) as [s Hs]; [by left|]. simpl in Hs. rewrite Hs. apply IH.
  intros dd lv Hdd. apply Hrec. by right.
Qed.

Lemma describe_loop_none rec level deps out dd :
  dd ∈ deps → (∀ lv, rec dd.2 lv = None) → describe_loop version_str range_str rec level deps out = None.
Proof.
  revert out. induction deps as [|[dep y] deps IH]; intros out Hdd Hrec; [by apply elem_of_nil in Hdd|]. simpl.
  apply elem_of_cons in Hdd as [->|Hdd]; [simpl in Hrec; by rewrite Hrec|].
  destruct (rec y (S level)); [by apply IH|done].
Qed.

Lemma describe_total_fuel (Hwf : ∃ root, graph_wf root g) f app path level :
  ¬ Cycle.has_cycle (g_graph g) → app ∈ od_keys (g_graph g) → NoDup (app :: path) →
  (∀ p, p ∈ path → p ∈ od_keys (g_graph g) ∧ tc (Cycle.edge (g_graph g)) p app) →
  length (od_keys (g_graph g)) < f + length path → is_Some (describe version_str range_str g f app level).
Proof.
  destruct Hwf as [root Hwf]. intros Hacyc. revert app path level.
  induction f as [|f IH]; intros app path level Happ Hnd Hpath Hlen.
  { exfalso. cut (S (length path) ≤ length (od_keys (g_graph g))); [lia|].
    apply (Propagation.nodup_path_le g path app Hnd).
    intros p [->|Hp]%elem_of_cons; [done|]. by apply Hpath. }
  cbn [describe]. destruct (Propagation.resolved_of root g Hwf app Happ) as (l & -> & Hl). simpl.
  apply describe_loop_total. intros [dep y] lv Hdd. destruct (Hl _ Hdd) as [Hy Hedge]; simpl in *.
  assert (Hpy : ∀ p, p ∈ app :: path → tc (Cycle.edge (g_graph g)) p y).
  { intros p [->|Hp]%elem_of_cons; [by apply tc_once|].
    eapply tc_r; [apply Hpath, Hp|exact Hedge]. }
  apply (IH y (app :: path)); [done| |..|simpl; lia].
  - constructor; [|done]. intros Hin. apply Hacyc. exists y. by apply Hpy.
  - intros p Hp. split; [|by apply Hpy]. apply elem_of_cons in Hp as [->|Hp]; [done|]. by apply Hpath.
Qed.

(** An app from which [app_source.dependencies] lead to a cycle. *)
Definition reaches_cycle (x : AppSource) : Prop :=
  ∃ u, rtc (resolved_edge g) x u ∧ tc (resolved_edge g) u u.

Lemma reaches_cycle_step x : reaches_cycle x → ∃ y, resolved_edge g x y ∧ reaches_cycle y.
Proof.
  assert (Hfirst : ∀ a b, tc (resolved_edge g) a b → ∃ y, resolved_edge g a y ∧ rtc (resolved_edge g) y b).
  { intros a b [a' b' H|a' b' c H1 H2]; exists b'; split; [done|constructor|done|by apply tc_rtc]. }
  intros (u & Hxu & Huu). destruct Hxu as [x|x y u Hxy Hyu].
  - destruct (Hfirst x x Huu) as (y & Hxy & Hyx). exists y. split; [done|]. by exists x.
  - exists y. split; [done|]. by exists u.
Qed.
End DescribeProps.

(** The [description] of a well-formed graph without cycles (what
    [__init__] checks with [_is_cyclic]) is computed: the recursion of
    [_describe] goes no deeper than the number of nodes. *)
Theorem description_total version_str range_str root g :
  graph_wf root g → Cycle.is_cyclic (g_graph g) = false →
  is_Some (description version_str range_str g root).
Proof.
  intros Hwf Hcyc. unfold description.
  apply (describe_total_fuel version_str range_str g (ex_intro _ root Hwf) _ root []).
  - intros Hc. apply Cycle.is_cyclic_complete in Hc. congruence.
  - apply (proj1 Hwf).
  - constructor; [set_solver|constructor].
  - set_solver.
  - simpl. lia.
Qed.

(** C34. [_describe] has no visited set: from an app whose dependencies
    lead to a cycle it never returns, whatever the recursion depth allowed
    (Python raises [RecursionError]).  [__init__] only logs a cyclic
    graph, so its [description] and [print_description] do not return. *)
Theorem describe_cyclic version_str range_str g app :
  reaches_cycle g app → ∀ fuel level, describe version_str range_str g fuel app level = None.
Proof.
  intros Hreach fuel. revert app Hreach. induction fuel as [|f IH]; intros app Hreach level; [done|].
  destruct (reaches_cycle_step g app Hreach) as (y & Hy & Hyc). cbn [describe].
  apply list_elem_of_fmap in Hy as (dd & -> & Hdd).
  eapply describe_loop_none; [exact Hdd|]. intros lv. by apply IH.
Qed.

Module TraversalExamples.
Import PropagationExamples.

(** A visitor that counts its calls and continues into the first
    dependency only. *)
Definition first_only : Visitor nat := λ n _ deps _, (S n, take 1 deps).

(** [x] and [y] depend on each other. *)
Definition x_src := mkAppSource "x" "x" None v1 true (Some [("y", on "y")]) None None.
Definition y_src := mkAppSource "y" "y" None v1 true (Some [("x", on "x")]) None None.
Definition cyc_env : GraphEnv := mkGraphEnv x_src ∅ (<["y":=y_src]> (<["x":=x_src]> ∅)) None "*".
Definition cyc_graph : Graph := (dependency_graph cyc_env diag0).1.

Definition version_str (v : Version) : string := "1.0.0".
Definition range_str (r : Range) : string := "*".
End TraversalExamples.

Module TraversalWitnesses.
Import PropagationExamples PropagationWitnesses TraversalExamples.

Lemma first_only_filtering : filtering_visitor first_only.
Proof. intros n app deps dts. apply submseteq_take. Qed.

Lemma traverse_total_witness :
  ∃ st, traverse first_only ex_graph a_src 0 = Some (inr (st, g_dependents ex_graph)).
Proof. apply (Traversal.traverse_total first_only a_src ex_graph 0 first_only_filtering ex_graph_wf). Defined.

(** The counting visitor that follows first dependencies is called on
    [a], [b] and [c], once each. *)
Lemma traverse_visits_once_witness : NoDup [a_src; b_src; c_src].
Proof.
  apply (Traversal.traverse_visits_once first_only ex_graph a_src 0 3 [a_src; b_src; c_src] (g_dependents ex_graph)).
  vm_compute. reflexivity.
Defined.

Lemma traverse_visits_reachable_witness :
  ∃ calls, traverse record_visit ex_graph a_src [] = Some (inr (calls, g_dependents ex_graph)) ∧ NoDup calls ∧
    ∀ x, x ∈ calls ↔ rtc (Cycle.edge (g_graph ex_graph)) a_src x.
Proof. apply (Traversal.traverse_visits_reachable a_src ex_graph ex_graph_wf). Defined.

Lemma description_total_witness : is_Some (description version_str range_str ex_graph a_src).
Proof.
  apply (Traversal.description_total version_str range_str a_src ex_graph ex_graph_wf). vm_compute. reflexivity.
Defined.

Lemma cyc_edge_xy : resolved_edge cyc_graph x_src y_src.
Proof. vm_compute. constructor. Qed.

Lemma cyc_edge_yx : resolved_edge cyc_graph y_src x_src.
Proof. vm_compute. constructor. Qed.

(** The graph [__init__] builds for two apps that depend on each other
    has no description, even with a thousand levels of recursion. *)
Lemma describe_cyclic_witness : describe version_str range_str cyc_graph 1000 x_src 1 = None.
Proof.
  apply (Traversal.describe_cyclic version_str range_str cyc_graph x_src).
  exists x_src. split; [constructor|]. eapply tc_l; [exact cyc_edge_xy|apply tc_once, cyc_edge_yx].
Defined.
End TraversalWitnesses.

End Traversal.
