(* ===== verification/JsonData.v ===== *)
(** * The JSON schema framework ([slim.app._internal.json_data])

    src/slim/app/_internal/json_data.py: a schema is a [JsonValue] (a data
    type, an optional converter, a default and a [required] flag) whose
    data type is [JsonBoolean], [JsonNumber], [JsonString], [JsonArray] of
    a [JsonValue] or [JsonObject] of named [JsonField]s and an optional
    [any] value for the other names.  [validate] reports problems through
    the callable [onerror] and answers whether the value is valid;
    [convert_from] converts a value in place, field by field, calling the
    converters.

    The Python values the framework sees are [PyVal]: what [json.load]
    produces (with ordered dicts) and the frozensets of strings the
    converters of this program return.  [onerror] is either the default
    [JsonSchema._onerror], which raises, or a callable that records its
    arguments and returns; [M] threads the list of calls to [onerror] and
    the exceptions.  A converter is a Python function from a value to a
    value or an exception.  Dicts are converted in place in Python; the
    model returns the converted value, which is the object the code
    returns (the caller's dict is that object). *)

From stdpp Require Import base list strings pretty gmap sets.
From S2P Require Import Prelude.

Module JsonData.

(** ** Python values *)

Inductive PyVal :=
| PNone
| PBool (b : bool)
| PNum (z : Z)
| PStr (s : string)
| PList (items : list PyVal)
| PDict (items : list (string * PyVal))
| PSet (elems : gset string).

(** What [json.load] produces. *)
Fixpoint of_json (v : JValue) : PyVal :=
  match v with
  | JNull => PNone
  | JBool b => PBool b
  | JNumber z => PNum z
  | JString s => PStr s
  | JArray items => PList (map of_json items)
  | JObject fields => PDict (map (λ kv, (kv.1, of_json kv.2)) fields)
  end.

(** The exceptions of the framework: what [JsonSchema._onerror] raises (a
    [ValueError] whose argument is a generator: the message is lost), the
    [ValueError], [TypeError] and [KeyError] of converters and of Python
    itself, and the errors of [str.format]. *)
Inductive Exc :=
| OnErrorRaised
| ValueError (msg : string)
| TypeError (msg : string)
| KeyError (key : string)
| FormatError.

(** [except (TypeError, ValueError)] *)
Definition catchable (e : Exc) : bool :=
  match e with OnErrorRaised | ValueError _ | TypeError _ => true | _ => false end.

Definition exc_str (e : Exc) : string :=
  match e with
  | OnErrorRaised => "<generator object>"
  | ValueError m | TypeError m => m
  | KeyError k => k
  | FormatError => "format"
  end.

Abbreviation Converter := (PyVal → Exc + PyVal).

(** ** Schemas *)

Inductive DataType :=
| JsonBoolean
| JsonNumber
| JsonString
| JsonArray (definition : JsonValue)
| JsonObject (fields : option (list (string * JsonValue))) (any : option JsonValue)
with JsonValue :=
| mkJsonValue (data_type : DataType) (converter : option Converter) (default : PyVal) (required : bool)
    (version : string).

Definition jv_type (jv : JsonValue) : DataType := let 'mkJsonValue dt _ _ _ _ := jv in dt.

(** The [name] properties. *)
Fixpoint type_name (dt : DataType) : string :=
  match dt with
  | JsonBoolean => "Boolean"
  | JsonNumber => "Number"
  | JsonString => "String"
  | JsonArray (mkJsonValue dt' _ _ _ _) => "Array of " +:+ type_name dt'
  | JsonObject _ _ => "Object"
  end.

(** [iter(value)]: the characters of a string, the items of a list, the
    keys of a dict, the elements of a set. *)
Definition iter_elems (v : PyVal) : option (list PyVal) :=
  match v with
  | PStr s => Some (map (λ c, PStr (String c EmptyString)) (String.list_ascii_of_string s))
  | PList l => Some l
  | PDict d => Some (map (λ kv, PStr kv.1) d)
  | PSet s => Some (map PStr (elements s))
  | _ => None
  end.

(** The [is_instance] methods: [bool]; a [Real] that is not a [bool];
    [bytes] or [str]; an [Iterable] or an instance of the element type;
    a [MutableMapping]. *)
Fixpoint is_instance (dt : DataType) (v : PyVal) : bool :=
  match dt, v with
  | JsonBoolean, PBool _ => true
  | JsonNumber, PNum _ => true
  | JsonString, PStr _ => true
  | JsonArray (mkJsonValue dt' _ _ _ _), _ => bool_decide (is_Some (iter_elems v)) || is_instance dt' v
  | JsonObject _ _, PDict _ => true
  | _, _ => false
  end.

(** [value.get(field_name)] and [value[field_name] = x] on a dict. *)
Definition dict_get (v : PyVal) (k : string) : PyVal :=
  match v with PDict d => default PNone (od_get d k) | _ => PNone end.
Definition dict_set (v : PyVal) (k : string) (x : PyVal) : PyVal :=
  match v with PDict d => PDict (od_set d k x) | _ => v end.
Definition dict_keys (v : PyVal) : list string :=
  match v with PDict d => od_keys d | _ => [] end.

(** ** The [onerror] and exception monad *)

Abbreviation Log := (list (list string)).
Record M (A : Type) := mkM { run : Log → (Exc + A) * Log }.
Arguments mkM {A}.
Arguments run {A}.

#[export] Instance M_ret : MRet M := λ A x, mkM (λ log, (inr x, log)).
#[export] Instance M_bind : MBind M := λ A B f m, mkM (λ log,
  match run m log with
  | (inl e, log') => (inl e, log')
  | (inr x, log') => run (f x) log'
  end).

Definition throw {A} (e : Exc) : M A := mkM (λ log, (inl e, log)).

(** A Python call that returns or raises. *)
Definition lift {A} (r : Exc + A) : M A := match r with inl e => throw e | inr x => mret x end.

(** [for i, x in enumerate(l)] collecting results. *)
Fixpoint mmapi_go {A B} (f : nat → A → M B) (i : nat) (l : list A) : M (list B) :=
  match l with
  | [] => mret []
  | x :: rest => y ← f i x; ys ← mmapi_go f (S i) rest; mret (y :: ys)
  end.
Definition mmapi {A B} (f : nat → A → M B) (l : list A) : M (list B) := mmapi_go f 0 l.

(** A [for] loop updating one value. *)
Fixpoint mfold {A B} (f : B → A → M B) (acc : B) (l : list A) : M B :=
  match l with
  | [] => mret acc
  | x :: rest => acc' ← f acc x; mfold f acc' rest
  end.

(** ** [name.format(i)]

    [JsonArray.convert_from] names the elements [name + '[{0}]'] formatted
    with the index, so braces in [name] are format syntax: [{{] and [}}]
    are braces, [{}] and [{0}] (a run of digits worth 0) are the index; a
    second [{}], another field, a lone brace or an unclosed field raise.
    Fields with a conversion or a format specification ([{0!r}],
    [{0:>3}]) are not modelled: they raise here. *)
Definition lbrace : Ascii.ascii := Ascii.ascii_of_nat 123.
Definition rbrace : Ascii.ascii := Ascii.ascii_of_nat 125.

Definition is_digit (c : Ascii.ascii) : bool :=
  bool_decide (48 ≤ Ascii.nat_of_ascii c ∧ Ascii.nat_of_ascii c ≤ 57).

(** The replacement field up to the closing brace, and what follows. *)
Fixpoint take_field (cs : list Ascii.ascii) : option (list Ascii.ascii * list Ascii.ascii) :=
  match cs with
  | [] => None
  | c :: rest =>
      if decide (c = rbrace) then Some ([], rest)
      else '(f, rest') ← take_field rest; Some (c :: f, rest')
  end.

(** [auto]: a [{}] was used; [manual]: a numbered field was used. *)
Fixpoint format_go (fuel : nat) (cs : list Ascii.ascii) (arg : list Ascii.ascii) (auto manual : bool)
    : option (list Ascii.ascii) :=
  match fuel with
  | 0 => None
  | S f =>
      match cs with
      | [] => Some []
      | c :: rest =>
          if decide (c = lbrace) then
            match rest with
            | c' :: rest' => if decide (c' = lbrace) then cons lbrace <$> format_go f rest' arg auto manual
                             else '(field, after) ← take_field rest; format_field f field after arg auto manual
            | [] => None
            end
          else if decide (c = rbrace) then
            match rest with
            | c' :: rest' => if decide (c' = rbrace) then cons rbrace <$> format_go f rest' arg auto manual else None
            | [] => None
            end
          else cons c <$> format_go f rest arg auto manual
      end
  end
with format_field (fuel : nat) (field after arg : list Ascii.ascii) (auto manual : bool) : option (list Ascii.ascii) :=
  match fuel with
  | 0 => None
  | S f =>
      match field with
      | [] => if auto || manual then None else app arg <$> format_go f after arg true manual
      | _ => if forallb is_digit field && forallb (λ c, bool_decide (c = Ascii.ascii_of_nat 48)) field && negb auto
             then app arg <$> format_go f after arg auto true else None
      end
  end.

Definition format_index (name : string) (i : nat) : Exc + string :=
  let cs := String.list_ascii_of_string name in
  match format_go (S (length cs)) cs (String.list_ascii_of_string (pretty i)) false false with
  | Some r => inr (String.string_of_list_ascii r)
  | None => inl FormatError
  end.

Section Framework.
(** [raises]: [onerror] is [JsonSchema._onerror]; otherwise it records its
    arguments and returns.  [py_str] is Python's [str] of a value. *)
Context (raises : bool) (py_str : PyVal → string).

(** A call [onerror] with the arguments [args]. *)
Definition onerror (args : list string) : M unit :=
  mkM (λ log, (if raises then inl OnErrorRaised else inr (), log ++ [args])).

(** [error_count += check is False] over a sequence of checks. *)
Fixpoint count_failures (checks : list (M bool)) : M nat :=
  match checks with
  | [] => mret 0
  | c :: rest => '(ok : bool) ← c; n ← count_failures rest; mret (if ok then n else S n)
  end.

(** [JsonDataType.validate] (lines 189-193). *)
Definition generic_validate (dt : DataType) (name : string) (value : PyVal) : M bool :=
  if is_instance dt value then mret true
  else onerror ["Expected "; type_name dt; " value for "; name; ", not " +:+ py_str value];; mret false.

(** [JsonValue.validate] (lines 124-130), given the [validate] of the
    data types. *)
Definition value_validate_with (type_validate : DataType → string → PyVal → M bool)
    (jv : JsonValue) (name : string) (value : PyVal) : M bool :=
  let 'mkJsonValue dt _ _ required _ := jv in
  match value with
  | PNone =>
      if required then onerror ["A value of type "; type_name dt; " is required for "; name];; mret false
      else mret true
  | _ => type_validate dt name value
  end.

(** [JsonArray.validate] (lines 243-256), given the [validate] of the
    data types. *)
Definition array_validate_with (type_validate : DataType → string → PyVal → M bool)
    (definition : JsonValue) (name : string) (value : PyVal) : M bool :=
  '(ok : bool) ← generic_validate (JsonArray definition) name value;
  if ok then
    match iter_elems value with
    | None => throw (TypeError "object is not iterable")
    | Some els =>
        n ← count_failures (imap (λ i e, value_validate_with type_validate definition (name +:+ "[" +:+ pretty i +:+ "]") e) els);
        mret (bool_decide (n = 0))
    end
  else mret false.

(** [JsonObject.validate] (lines 358-415), given the [validate] of the
    data types. *)
Definition object_validate_with (type_validate : DataType → string → PyVal → M bool)
    (fields : option (list (string * JsonValue))) (extra : option JsonValue) (name : string) (value : PyVal)
    : M bool :=
  '(ok : bool) ← generic_validate (JsonObject fields extra) name value;
  if ok then
    match fields, extra with
    | None, None => mret true
    | None, Some ex =>
        n ← count_failures (map (λ k, value_validate_with type_validate ex (name +:+ "." +:+ k) (dict_get value k)) (dict_keys value));
        mret (bool_decide (n = 0))
    | Some fs, _ =>
        n1 ← count_failures (map (λ kf, value_validate_with type_validate kf.2 (name +:+ "." +:+ kf.1) (dict_get value kf.1)) fs);
        n2 ← count_failures (map (λ k,
                if bool_decide (k ∈ map fst fs) then mret true
                else match extra with
                     | None => onerror ["Illegal field name: "; name; "."; k];; mret false
                     | Some ex => value_validate_with type_validate ex (name +:+ "." +:+ k) (dict_get value k)
                     end) (dict_keys value));
        mret (bool_decide (n1 + n2 = 0))
    end
  else mret false.

(** [data_type.validate(name, value, onerror)]: the method of the value's
    data type, [JsonDataType.validate] (lines 189-193) unless it is an
    array or an object. *)
Fixpoint type_validate (dt : DataType) (name : string) (value : PyVal) {struct dt} : M bool :=
  match dt with
  | JsonArray definition => array_validate_with type_validate definition name value
  | JsonObject fields extra => object_validate_with type_validate fields extra name value
  | _ => generic_validate dt name value
  end.

(** [JsonValue.validate] *)
Definition value_validate : JsonValue → string → PyVal → M bool := value_validate_with type_validate.

(** [JsonDataType.convert_from] (lines 169-179), which [JsonBoolean] and
    [JsonNumber] inherit, and [JsonString.convert_from] (lines 431-441),
    whose [string(value)] is the value itself for a [str]. *)
Definition generic_convert (dt : DataType) (name : string) (value : PyVal)
    (converter : option Converter) (default : PyVal) : M PyVal :=
  '(ok : bool) ← generic_validate dt name value;
  if ok then
    match converter with
    | None => mret value
    | Some c =>
        match c value with
        | inr v => mret v
        | inl e => if catchable e then onerror [name; ": "; exc_str e];; mret default else throw e
        end
    end
  else mret default.

(** The [str] of a generator: [type(value)(...)] for a [str] value does not
    run the generator. *)
Definition generator_repr : string := "<generator object>".

(** A converted element as a [(key, value)] pair for [dict(...)]: an
    iterable of two items whose first is a string key. *)
Definition dict_item (x : PyVal) : Exc + (string * PyVal) :=
  match iter_elems x with
  | Some [PStr k; v] => inr (k, v)
  | Some _ => inl (ValueError "dictionary update sequence element has the wrong length")
  | None => inl (TypeError "cannot convert dictionary update sequence element")
  end.

Definition set_item (x : PyVal) : Exc + string :=
  match x with PStr s => inr s | _ => inl (TypeError "unhashable type") end.

(** [JsonValue.convert_from] (lines 101-106), given the [convert_from] of
    the data types. *)
Definition value_convert_with
    (type_convert : DataType → string → PyVal → option Converter → PyVal → M PyVal)
    (jv : JsonValue) (name : string) (value : PyVal) : M PyVal :=
  let 'mkJsonValue dt converter default required _ := jv in
  match value with
  | PNone =>
      (if required then onerror ["A value of type "; type_name dt; " is required for "; name] else mret ());;
      mret default
  | _ => type_convert dt name value converter default
  end.

(** [JsonArray.convert_from] (lines 207-226), given the [convert_from] of
    the data types and their [validate]. *)
Definition array_convert_with
    (type_convert : DataType → string → PyVal → option Converter → PyVal → M PyVal)
    (definition : JsonValue) (name : string) (value : PyVal) (converter : option Converter) (default : PyVal)
    : M PyVal :=
  '(ok : bool) ← type_validate (JsonArray definition) name value;
  if ok then
    value' ←
      (if is_instance (jv_type definition) value then
         x ← value_convert_with type_convert definition name value; mret (PList [x])
       else
         let fname := name +:+ "[{0}]" in
         let convert_item i e := n ← lift (format_index fname i); value_convert_with type_convert definition n e in
         match value with
         | PList l => xs ← mmapi convert_item l; mret (PList xs)
         | PStr _ => mret (PStr generator_repr)
         | PDict d =>
             d' ← mfold (λ acc '(i, e), x ← convert_item i e; kv ← lift (dict_item x); mret (od_set acc kv.1 kv.2))
                    [] (imap pair (map (λ kv, PStr kv.1) d));
             mret (PDict d')
         | PSet st =>
             st' ← mfold (λ acc '(i, e), x ← convert_item i e; k ← lift (set_item x); mret (acc ∪ {[k]}))
                     ∅ (imap pair (map PStr (elements st)));
             mret (PSet st')
         | _ => throw (TypeError "object is not iterable")
         end);
    match converter with None => mret value' | Some c => lift (c value') end
  else mret default.

(** [JsonObject.convert_from] (lines 312-345), given the [convert_from] of
    the data types. *)
Definition object_convert_with
    (type_convert : DataType → string → PyVal → option Converter → PyVal → M PyVal)
    (fields : option (list (string * JsonValue))) (extra : option JsonValue) (name : string) (value : PyVal)
    (converter : option Converter) (default : PyVal) : M PyVal :=
  '(ok : bool) ← generic_validate (JsonObject fields extra) name value;
  if ok then
    value' ←
      (match fields, extra with
       | None, None => mret value
       | None, Some ex =>
           mfold (λ v k, x ← value_convert_with type_convert ex (name +:+ "." +:+ k) (dict_get v k); mret (dict_set v k x))
             value (dict_keys value)
       | Some fs, _ =>
           v1 ← mfold (λ v kf, x ← value_convert_with type_convert kf.2 (name +:+ "." +:+ kf.1) (dict_get v kf.1);
                               mret (dict_set v kf.1 x)) value fs;
           match extra with
           | None => mret v1
           | Some ex =>
               mfold (λ v k, if bool_decide (k ∈ map fst fs) then mret v
                             else x ← value_convert_with type_convert ex (name +:+ "." +:+ k) (dict_get v k); mret (dict_set v k x))
                 v1 (dict_keys v1)
           end
       end);
    match converter with
    | None => mret value'
    | Some c =>
        match c value' with
        | inr r => mret r
        | inl e => if catchable e then onerror [name; ": "; exc_str e];; mret PNone else throw e
        end
    end
  else mret default.

(** [data_type.convert_from(name, value, converter, default, onerror)]:
    the method of the value's data type, [JsonDataType.convert_from]
    (lines 169-179) or [JsonString.convert_from] unless it is an array or
    an object. *)
Fixpoint type_convert (dt : DataType) (name : string) (value : PyVal)
    (converter : option Converter) (default : PyVal) {struct dt} : M PyVal :=
  match dt with
  | JsonArray definition => array_convert_with type_convert definition name value converter default
  | JsonObject fields extra => object_convert_with type_convert fields extra name value converter default
  | _ => generic_convert dt name value converter default
  end.

(** [JsonValue.convert_from] *)
Definition value_convert : JsonValue → string → PyVal → M PyVal := value_convert_with type_convert.

End Framework.

(** [JsonSchema] and its [convert_from(value, onerror)] (lines 28-52): the
    result of [validate] is not used. *)
Record JsonSchema := mkJsonSchema { schema_name : string; schema_definition : JsonValue }.

Definition schema_convert (raises : bool) (py_str : PyVal → string) (schema : JsonSchema) (value : PyVal) : M PyVal :=
  value_validate raises py_str (schema_definition schema) (schema_name schema) value;;
  value_convert raises py_str (schema_definition schema) (schema_name schema) value.

(** With the default [onerror]: the result or the exception. *)
Definition convert_from (py_str : PyVal → string) (schema : JsonSchema) (value : PyVal) : Exc + PyVal :=
  (run (schema_convert true py_str schema value) []).1.

(** [JsonObject( *fields, any=extra)] (lines 294-305): the fields in an
    [OrderedDict] by name, a later field of a name replacing the value of
    an earlier one at its position; no fields gives [None]. *)
Definition json_object (fields : list (string * JsonValue)) (extra : option JsonValue) : DataType :=
  JsonObject (match fields with [] => None | _ => Some (foldl (λ acc f, od_set acc f.1 f.2) [] fields) end) extra.

(** * Properties *)

Lemma run_ret {A} (x : A) log : run (mret x) log = (inr x, log).
Proof. done. Qed.

Lemma run_bind {A B} (m : M A) (f : A → M B) log :
  run (m ≫= f) log = match run m log with (inl e, log') => (inl e, log') | (inr x, log') => run (f x) log' end.
Proof. done. Qed.

Lemma run_ret_bind {A B} (x : A) (f : A → M B) log : run (mret x ≫= f) log = run (f x) log.
Proof. done. Qed.

Lemma run_bind_assoc {A B C} (m : M A) (f : A → M B) (g : B → M C) log :
  run ((m ≫= f) ≫= g) log = run (m ≫= (λ x, f x ≫= g)) log.
Proof. rewrite !run_bind. destruct (run m log) as [[e|x] log']; [done|]. by rewrite run_bind. Qed.

Lemma run_bind_err {A B} (m : M A) (f : A → M B) e log log' :
  run m log = (inl e, log') → run (m ≫= f) log = (inl e, log').
Proof. intros Hm. by rewrite run_bind, Hm. Qed.

Lemma run_bind_ret {A B} (m : M A) (f : A → M B) x log log' :
  run m log = (inr x, log') → run (m ≫= f) log = run (f x) log'.
Proof. intros Hm. rewrite run_bind, Hm. done. Qed.

(** ** Constructing an object type *)

Lemma od_set_fold_keys_get (fields : list (string * JsonValue)) :
  od_keys (foldl (λ acc f, od_set acc f.1 f.2) [] fields) = ordered_set (map fst fields) ∧
  ∀ k, od_get (foldl (λ acc f, od_set acc f.1 f.2) [] fields) k = od_get (reverse fields) k.
Proof.
  induction fields as [|f fields [Hk Hg]] using rev_ind; [done|].
  rewrite foldl_app, map_app, reverse_snoc. cbn [foldl map].
  set (m := foldl (λ acc f, od_set acc f.1 f.2) [] fields) in *.
  assert (Hin : f.1 ∈ od_keys m ↔ f.1 ∈ map fst fields) by (rewrite Hk, elem_of_ordered_set; done).
  split.
  - rewrite od_keys_set, ordered_set_snoc, <- Hk.
    destruct (decide (f.1 ∈ od_keys m)), (decide (f.1 ∈ map fst fields)); tauto.
  - intros k. destruct f as [k' v]. cbn [od_get fst snd] in *.
    destruct (decide (k = k')) as [->|Hne]; [apply od_get_set_eq|].
    rewrite od_get_set_ne by done. apply Hg.
Qed.

(** [JsonObject( *fields)] keeps one field per name, in the order the
    names first occur, each with the last definition given for it. *)
Theorem json_object_fields fields extra :
  ∃ fs, json_object fields extra = JsonObject (if bool_decide (fields = []) then None else Some fs) extra ∧
    NoDup (map fst fs) ∧ map fst fs = ordered_set (map fst fields) ∧ ∀ k, od_get fs k = od_get (reverse fields) k.
Proof.
  destruct (od_set_fold_keys_get fields) as [Hk Hg]. exists (foldl (λ acc f, od_set acc f.1 f.2) [] fields).
  split_and!; [|unfold od_keys in Hk; rewrite Hk; apply ordered_set_NoDup|done|done].
  unfold json_object. by destruct fields; [rewrite bool_decide_true|rewrite bool_decide_false].
Qed.

(** ** One-step equations of the mutual fixpoints *)

Section Equations.
Context (raises : bool) (py_str : PyVal → string).

Lemma value_validate_eq dt c d r ver name v :
  value_validate raises py_str (mkJsonValue dt c d r ver) name v =
  match v with
  | PNone => if r then onerror raises ["A value of type "; type_name dt; " is required for "; name];; mret false
             else mret true
  | _ => type_validate raises py_str dt name v
  end.
Proof. done. Qed.

Lemma type_validate_array definition name v :
  type_validate raises py_str (JsonArray definition) name v =
  '(ok : bool) ← generic_validate raises py_str (JsonArray definition) name v;
  if ok then
    match iter_elems v with
    | None => throw (TypeError "object is not iterable")
    | Some els =>
        n ← count_failures (imap (λ i e, value_validate raises py_str definition (name +:+ "[" +:+ pretty i +:+ "]") e) els);
        mret (bool_decide (n = 0))
    end
  else mret false.
Proof. done. Qed.

Lemma type_validate_fields fs ex name v :
  type_validate raises py_str (JsonObject (Some fs) ex) name v =
  '(ok : bool) ← generic_validate raises py_str (JsonObject (Some fs) ex) name v;
  if ok then
    n1 ← count_failures (map (λ kf, value_validate raises py_str kf.2 (name +:+ "." +:+ kf.1) (dict_get v kf.1)) fs);
    n2 ← count_failures (map (λ k,
            if bool_decide (k ∈ map fst fs) then mret true
            else match ex with
                 | None => onerror raises ["Illegal field name: "; name; "."; k];; mret false
                 | Some e => value_validate raises py_str e (name +:+ "." +:+ k) (dict_get v k)
                 end) (dict_keys v));
    mret (bool_decide (n1 + n2 = 0))
  else mret false.
Proof. done. Qed.

Lemma type_validate_nofields ex name v :
  type_validate raises py_str (JsonObject None ex) name v =
  '(ok : bool) ← generic_validate raises py_str (JsonObject None ex) name v;
  if ok then
    match ex with
    | None => mret true
    | Some e =>
        n ← count_failures (map (λ k, value_validate raises py_str e (name +:+ "." +:+ k) (dict_get v k)) (dict_keys v));
        mret (bool_decide (n = 0))
    end
  else mret false.
Proof. by destruct ex. Qed.

Lemma value_convert_eq dt c d r ver name v :
  value_convert raises py_str (mkJsonValue dt c d r ver) name v =
  match v with
  | PNone => (if r then onerror raises ["A value of type "; type_name dt; " is required for "; name] else mret ());;
             mret d
  | _ => type_convert raises py_str dt name v c d
  end.
Proof. done. Qed.

Lemma type_convert_string name v c d :
  type_convert raises py_str JsonString name v c d = generic_convert raises py_str JsonString name v c d.
Proof. done. Qed.

Lemma type_convert_fields fs ex name v c d :
  type_convert raises py_str (JsonObject (Some fs) ex) name v c d =
  '(ok : bool) ← generic_validate raises py_str (JsonObject (Some fs) ex) name v;
  if ok then
    value' ←
      (v1 ← mfold (λ v kf, x ← value_convert raises py_str kf.2 (name +:+ "." +:+ kf.1) (dict_get v kf.1);
                           mret (dict_set v kf.1 x)) v fs;
       match ex with
       | None => mret v1
       | Some e =>
           mfold (λ v k, if bool_decide (k ∈ map fst fs) then mret v
                         else x ← value_convert raises py_str e (name +:+ "." +:+ k) (dict_get v k); mret (dict_set v k x))
             v1 (dict_keys v1)
       end);
    match c with
    | None => mret value'
    | Some cv =>
        match cv value' with
        | inr r => mret r
        | inl e => if catchable e then onerror raises [name; ": "; exc_str e];; mret PNone else throw e
        end
    end
  else mret d.
Proof. done. Qed.
End Equations.

Lemma imap_Forall {A B} (P : B → Prop) (f : nat → A → B) (l : list A) :
  (∀ i x, x ∈ l → P (f i x)) → Forall P (imap f l).
Proof.
  revert f. induction l as [|x l IH]; intros f Hf; [constructor|]. rewrite imap_cons. constructor.
  - apply Hf. by left.
  - apply IH. intros i y Hy. apply Hf. by right.
Qed.

(** Checks that all pass, quietly, count no failure. *)
Lemma count_failures_quiet checks log :
  Forall (λ c, ∀ log, run c log = (inr true, log)) checks → run (count_failures checks) log = (inr 0, log).
Proof.
  intros Hall. revert log. induction Hall as [|c checks Hc _ IH]; intros log; [done|].
  cbn [count_failures]. rewrite (run_bind_ret _ _ _ _ _ (Hc log)), (run_bind_ret _ _ _ _ _ (IH log)). done.
Qed.

(** A loop whose steps return a value quietly returns the list of values. *)
Lemma mmapi_go_quiet {A B} (f : nat → A → M B) (g : A → B) i l log :
  (∀ j x log, x ∈ l → run (f j x) log = (inr (g x), log)) → run (mmapi_go f i l) log = (inr (map g l), log).
Proof.
  revert i. induction l as [|x l IH]; intros i Hf; [done|]. cbn [mmapi_go].
  assert (Hf' : ∀ j y log', y ∈ l → run (f j y) log' = (inr (g y), log')) by (intros; apply Hf; by right).
  rewrite (run_bind_ret _ _ _ _ _ (Hf i x log ltac:(by left))), (run_bind_ret _ _ _ _ _ (IH (S i) Hf')). done.
Qed.

(** ** Element names

  [validate] names the elements [name + '[' + string(i) + ']'] and
  [convert_from] formats [name + '[{0}]'] with [i]: the two agree when
  [name] has no brace. *)
Lemma format_go_plain fuel cs arg rest :
  Forall (λ c, c ≠ lbrace ∧ c ≠ rbrace) cs → length cs + length rest < fuel →
  format_go fuel (cs ++ rest) arg false false = app cs <$> format_go (fuel - length cs) rest arg false false.
Proof.
  revert fuel. induction cs as [|c cs IH]; intros fuel Hcs Hlen.
  { simpl. rewrite Nat.sub_0_r. by destruct (format_go fuel rest arg false false). }
  apply Forall_cons in Hcs as [[Hl Hr] Hcs]. destruct fuel as [|fuel]; [simpl in Hlen; lia|].
  cbn [app format_go]. rewrite decide_False by done. rewrite decide_False by done.
  simpl in Hlen. rewrite IH by (done || lia). simpl. by destruct (format_go _ rest arg false false).
Qed.

Lemma list_ascii_of_string_app a b :
  String.list_ascii_of_string (a +:+ b) = String.list_ascii_of_string a ++ String.list_ascii_of_string b.
Proof. induction a as [|c a IH]; simpl; [done|]. by rewrite IH. Qed.

(** [convert_from] names the elements of an array as [validate]
    does, [name[i]], when the name has no brace: formatting
    [name + '[{0}]'] with [i] inserts the index.  (A brace in a field name
    of an [any] object is format syntax there.) *)
Theorem format_index_plain name i :
  Forall (λ c, c ≠ lbrace ∧ c ≠ rbrace) (String.list_ascii_of_string name) →
  format_index (name +:+ "[{0}]") i = inr (name +:+ "[" +:+ pretty i +:+ "]").
Proof.
  intros Hname. unfold format_index. rewrite list_ascii_of_string_app, format_go_plain;
    [|done|rewrite length_app; simpl; lia].
  rewrite length_app. replace (S (length (String.list_ascii_of_string name) + _) - _) with 6 by (simpl; lia).
  cbn. rewrite <-(String.string_of_list_ascii_of_string (name +:+ _)), !list_ascii_of_string_app. done.
Qed.

(** ** Induction on schemas *)

Definition on_some {A} (R : A → Prop) (o : option A) : Prop :=
  match o with Some x => R x | None => True end.

Section SchemaInd.
Context (P : DataType → Prop) (Q : JsonValue → Prop).
Context (HBool : P JsonBoolean) (HNum : P JsonNumber) (HStr : P JsonString).
Context (HArr : ∀ d, Q d → P (JsonArray d)).
Context (HObj : ∀ fs ex, on_some (Forall (λ kf : string * JsonValue, Q kf.2)) fs → on_some Q ex → P (JsonObject fs ex)).
Context (HVal : ∀ dt c d r ver, P dt → Q (mkJsonValue dt c d r ver)).

Fixpoint data_type_ind' (dt : DataType) : P dt :=
  match dt with
  | JsonBoolean => HBool
  | JsonNumber => HNum
  | JsonString => HStr
  | JsonArray d => HArr d (json_value_ind' d)
  | JsonObject fs ex =>
      HObj fs ex
        (match fs return on_some (Forall (λ kf : string * JsonValue, Q kf.2)) fs with
         | Some l =>
             (fix go (l : list (string * JsonValue)) : Forall (λ kf : string * JsonValue, Q kf.2) l :=
                match l with
                | [] => List.Forall_nil _
                | (k, f) :: rest => @List.Forall_cons _ (λ kf : string * JsonValue, Q kf.2) (k, f) rest (json_value_ind' f) (go rest)
                end) l
         | None => I
         end)
        (match ex return on_some Q ex with Some e => json_value_ind' e | None => I end)
  end
with json_value_ind' (jv : JsonValue) : Q jv :=
  match jv with mkJsonValue dt c d r ver => HVal dt c d r ver (data_type_ind' dt) end.
End SchemaInd.

(** ** [validate] answers whether it reported

  With an [onerror] that returns, a check either passes quietly, fails
  having called [onerror] at least once, or raises the [TypeError] of
  iterating a value that is not iterable. *)

Section Reports.
Context (py_str : PyVal → string).

Definition reports (c : M bool) : Prop :=
  ∀ log, ∃ r msgs, run c log = (r, log ++ msgs) ∧
    (r = inr true ∧ msgs = [] ∨ r = inr false ∧ msgs ≠ [] ∨ ∃ m, r = inl (TypeError m)).

Definition counts (c : M nat) : Prop :=
  ∀ log, ∃ r msgs, run c log = (r, log ++ msgs) ∧
    (r = inr 0 ∧ msgs = [] ∨ (∃ k, r = inr (S k)) ∧ msgs ≠ [] ∨ ∃ m, r = inl (TypeError m)).

Lemma reports_ret b : b = true → reports (mret b).
Proof. intros -> log. exists (inr true), []. rewrite app_nil_r. naive_solver. Qed.

Lemma reports_onerror args : reports (onerror false args;; mret false).
Proof. intros log. exists (inr false), [args]. naive_solver. Qed.

Lemma reports_generic dt name v : reports (generic_validate false py_str dt name v).
Proof. unfold generic_validate. destruct (is_instance dt v); [by apply reports_ret|apply reports_onerror]. Qed.

Ltac solve_nonempty := first [done | intros []%app_eq_nil; naive_solver].
Ltac solve_counts :=
  first [ left; split; [done|by rewrite ?app_nil_r]
        | right; left; split; [by eexists|solve_nonempty]
        | right; left; split; [rewrite bool_decide_false by lia; done|solve_nonempty]
        | right; right; by eexists ].

Lemma count_failures_counts cs : Forall reports cs → counts (count_failures cs).
Proof.
  induction 1 as [|c cs Hc _ IH]; intros log.
  { exists (inr 0), []. rewrite app_nil_r. naive_solver. }
  cbn [count_failures]. rewrite run_bind. destruct (Hc log) as (r & msgs & -> & Hr).
  destruct Hr as [[-> Hm]|[[-> Hne]|[m ->]]]; [| |eexists _, _; split; [reflexivity|solve_counts]].
  all: rewrite run_bind; destruct (IH (log ++ msgs)) as (r' & msgs' & -> & Hr'); rewrite <-(assoc_L (++)).
  all: destruct Hr' as [[-> Hm']|[[[k ->] Hne'] |[m' ->]]]; subst; eexists _, _; (split; [reflexivity|solve_counts]).
Qed.

Lemma reports_count_zero (c : M nat) :
  counts c → reports (n ← c; mret (bool_decide (n = 0))).
Proof.
  intros Hc log. rewrite run_bind. destruct (Hc log) as (r & msgs & -> & Hr).
  destruct Hr as [[-> ->]|[[[k ->] Hne]|[m ->]]]; eexists _, _; (split; [reflexivity|solve_counts]).
Qed.

Lemma reports_counts2 (c1 c2 : M nat) :
  counts c1 → counts c2 → reports (n1 ← c1; n2 ← c2; mret (bool_decide (n1 + n2 = 0))).
Proof.
  intros H1 H2 log. rewrite run_bind. destruct (H1 log) as (r & msgs & -> & Hr).
  destruct Hr as [[-> Hm]|[[[k ->] Hne]|[m ->]]]; [| |eexists _, _; split; [reflexivity|solve_counts]].
  all: rewrite run_bind; destruct (H2 (log ++ msgs)) as (r' & msgs' & -> & Hr'); rewrite <-(assoc_L (++)).
  all: destruct Hr' as [[-> Hm']|[[[k' ->] Hne'] |[m' ->]]]; subst; eexists _, _; (split; [reflexivity|solve_counts]).
Qed.
Lemma reports_throw m : reports (throw (TypeError m)).
Proof. intros log. exists (inl (TypeError m)), []. rewrite app_nil_r. split; [done|]. right; right. by eexists. Qed.

(** A check run after a passing check. *)
Lemma reports_seq (c k : M bool) : reports c → reports k → reports ('(ok : bool) ← c; if ok then k else mret false).
Proof.
  intros Hc Hk log. rewrite run_bind. destruct (Hc log) as (r & msgs & -> & Hr).
  destruct Hr as [[-> ->]|[[-> Hne]|[m ->]]].
  - rewrite app_nil_r. apply Hk.
  - eexists _, _. split; [reflexivity|]. by right; left.
  - eexists _, _. split; [reflexivity|]. right; right. by eexists.
Qed.

(** With an [onerror] that returns, [JsonValue.validate] returns
    [True] exactly when it did not call [onerror]: every failing check of
    a value, an element, a field or an illegal field name reports at
    least once.  The only exception it raises is the [TypeError] of
    iterating a non-iterable value that an array accepts as an element. *)
Theorem validate_reports jv name v : reports (value_validate false py_str jv name v).
Proof.
  revert name v. apply (json_value_ind' (λ dt, ∀ name v, reports (type_validate false py_str dt name v))
                                        (λ jv, ∀ name v, reports (value_validate false py_str jv name v))).
  1-3: intros name v; apply reports_generic.
  - intros d IH name v. rewrite type_validate_array. apply reports_seq; [apply reports_generic|].
    destruct (iter_elems v) as [els|]; [|apply reports_throw].
    apply reports_count_zero, count_failures_counts, imap_Forall. intros i x _. apply IH.
  - intros [fs|] ex Hfs Hex name v.
    + rewrite type_validate_fields. apply reports_seq; [apply reports_generic|].
      apply reports_counts2; apply count_failures_counts; apply Forall_fmap.
      * eapply Forall_impl; [exact Hfs|]. intros kf IH. apply IH.
      * apply Forall_forall. intros k _. unfold compose. case_bool_decide; [by apply reports_ret|].
        destruct ex as [e|]; [apply Hex|apply reports_onerror].
    + rewrite type_validate_nofields. apply reports_seq; [apply reports_generic|].
      destruct ex as [e|]; [|by apply reports_ret].
      apply reports_count_zero, count_failures_counts, Forall_fmap, Forall_forall. intros k _. apply Hex.
  - intros dt c d r ver IH name v. rewrite value_validate_eq.
    destruct v; try apply IH. destruct r; [apply reports_onerror|by apply reports_ret].
Qed.
End Reports.

Module JsonDataExamples.
Definition py_str0 (v : PyVal) : string := "".
(** An object of arrays of strings under any name. *)
Definition any_arrays : JsonSchema :=
  mkJsonSchema "o" (mkJsonValue (JsonObject None (Some (mkJsonValue (JsonArray (mkJsonValue JsonString None PNone false "1.0.0"))
                                                                    None PNone false "1.0.0"))) None PNone true "1.0.0").
End JsonDataExamples.

Module JsonDataWitnesses.
Import JsonDataExamples.

Lemma format_index_plain_witness :
  format_index ("workload" +:+ "[{0}]") 3 = inr ("workload" +:+ "[" +:+ pretty 3 +:+ "]").
Proof. apply (JsonData.format_index_plain "workload" 3). repeat constructor; discriminate. Defined.

(** A field name with a brace, under an [any] object, breaks the names
    [convert_from] formats for the elements of an array: [validate]
    accepts the value and [convert_from] raises. *)
Example brace_field_name :
  (run (value_validate true py_str0 (schema_definition any_arrays) "o" (PDict [("a{b}", PList [PStr "x"])])) []).1
    = inr true ∧
  convert_from py_str0 any_arrays (PDict [("a{b}", PList [PStr "x"])]) = inl FormatError.
Proof. split; vm_compute; reflexivity. Qed.
End JsonDataWitnesses.

End JsonData.
