(* ===== verification/DeploymentSchema.v ===== *)
(** * The schema of a deployment specification

    src/slim/app/_deployment.py lines 992-1055: [AppDeploymentSpecification.schema]
    is a required object with the fields [name] (a string through
    [SafeFilenameConverter]), [workload] (an array of strings through
    [WorkloadConverter]) and [inputGroups] (an optional array of strings
    through [InputGroupsConverter]), and the object-level [Converter].  The
    converters here are the Python methods on Python values ([PyVal]);
    they call the string-level models of DeploymentSpec.v and
    InputGroups.v.  Exception messages are kept only as far as the code
    uses them. *)

From stdpp Require Import base list gmap strings sets.
From S2P Require Import Prelude InputGroups DeploymentSpec JsonData.

Module DeploymentSchema.
Import JsonData.

(** The strings of an iterable of strings. *)
Fixpoint str_items (items : list PyVal) : option (list string) :=
  match items with
  | [] => Some []
  | PStr s :: rest => cons s <$> str_items rest
  | _ => None
  end.

(** Values Python cannot hash: lists and dicts. *)
Definition unhashable (v : PyVal) : bool :=
  match v with PList _ | PDict _ => true | _ => false end.

(** [SafeFilenameConverter.convert_from] (lines 1023-1029): [re.match]
    needs a string. *)
Definition safe_filename_converter : Converter := λ v,
  match v with
  | PStr s =>
      match DeploymentSpec.safe_filename_convert s with
      | inl _ => inl (ValueError "Illegal characters in deployment specification.name")
      | inr s' => inr (PStr s')
      end
  | _ => inl (TypeError "expected string or bytes-like object")
  end.

(** [WorkloadConverter.convert_from] (lines 1038-1041): [issuperset]
    builds a set of the items first, so an unhashable item raises
    [TypeError]; an item that is not a workload name fails the test. *)
Definition workload_converter : Converter := λ v,
  match iter_elems v with
  | None => inl (TypeError "object is not iterable")
  | Some items =>
      if existsb unhashable items then inl (TypeError "unhashable type")
      else
        match str_items items with
        | Some ws =>
            match DeploymentSpec.workload_convert ws with
            | inr w => inr (PSet w)
            | inl _ => inl (ValueError "Deployment specification.workload is invalid")
            end
        | None => inl (ValueError "Deployment specification.workload is invalid")
        end
  end.

(** [InputGroupsConverter.convert_from] (lines 1009-1016): [len(value)]
    needs a sized value, and [input_groups_convert] makes the empty list
    [no_input_groups].  The model's sets hold strings: a set of other
    items raises [TypeError] here. *)
Definition input_groups_converter : Converter := λ v,
  match iter_elems v with
  | None => inl (TypeError "object has no len()")
  | Some items =>
      match str_items items with
      | Some gs => inr (PSet (input_groups_convert gs))
      | None => inl (TypeError "unhashable type")
      end
  end.

(** [x in value] *)
Definition py_contains (v : PyVal) (x : string) : Exc + bool :=
  match v with
  | PSet s => inr (bool_decide (x ∈ s))
  | PList l => inr (existsb (λ y, match y with PStr s => bool_decide (s = x) | _ => false end) l)
  | PDict d => inr (bool_decide (x ∈ od_keys d))
  | PStr s => inr (bool_decide (String.index 0 x s ≠ None))
  | _ => inl (TypeError "argument is not iterable")
  end.

(** [value['workload']] *)
Definition dict_index (v : PyVal) (k : string) : Exc + PyVal :=
  match v with
  | PDict d => match od_get d k with Some x => inr x | None => inl (KeyError k) end
  | _ => inl (TypeError "object is not subscriptable")
  end.

(** [Converter.convert_from] (lines 994-1002). *)
Definition spec_converter : Converter := λ v,
  match dict_index v "workload" with
  | inl e => inl e
  | inr w =>
      match py_contains w "forwarder", dict_get v "inputGroups" with
      | inl e, _ => inl e
      | inr fw, PNone => inr (if fw then dict_set v "inputGroups" (PSet all_input_groups) else v)
      | inr fw, _ =>
          if fw then inr v
          else inl (ValueError "Deployment specification includes inputGroups, but does not include the forwarder workload")
      end
  end.

(** [JsonArray(JsonValue(JsonString()))] *)
Definition string_array : DataType := JsonArray (mkJsonValue JsonString None PNone false "1.0.0").

(** [AppDeploymentSpecification.schema] (lines 1048-1055) *)
Definition deployment_schema : JsonSchema :=
  mkJsonSchema "deployment specification"
    (mkJsonValue
       (JsonObject
          (Some [("name", mkJsonValue JsonString (Some safe_filename_converter) PNone true "1.0.0");
                 ("workload", mkJsonValue string_array (Some workload_converter) PNone true "1.0.0");
                 ("inputGroups", mkJsonValue string_array (Some input_groups_converter) PNone false "1.0.0")])
          None)
       (Some spec_converter) PNone true "1.0.0").

(** A specification as the converted dict: [inputGroups] is [None] when
    absent. *)
Definition spec_to_py (s : DeploymentSpec.DeploymentSpecification) : PyVal :=
  PDict [("name", PStr (DeploymentSpec.ds_name s));
         ("workload", PSet (DeploymentSpec.ds_workload s));
         ("inputGroups", match DeploymentSpec.ds_input_groups s with Some g => PSet g | None => PNone end)].

(** The JSON document of a specification: a name, a list of workloads
    and, optionally, a list of input groups. *)
Definition spec_json (name : string) (workload : list string) (input_groups : option (list string)) : PyVal :=
  PDict ([("name", PStr name); ("workload", PList (map PStr workload))] ++
         match input_groups with Some l => [("inputGroups", PList (map PStr l))] | None => [] end).

(** The fields of the schema. *)
Definition name_def : JsonValue := mkJsonValue JsonString (Some safe_filename_converter) PNone true "1.0.0".
Definition workload_def : JsonValue := mkJsonValue string_array (Some workload_converter) PNone true "1.0.0".
Definition input_groups_def : JsonValue := mkJsonValue string_array (Some input_groups_converter) PNone false "1.0.0".

(** * Properties *)

Lemma str_items_map ws : str_items (map PStr ws) = Some ws.
Proof. induction ws as [|w ws IH]; simpl; [done|]. by rewrite IH. Qed.

Lemma existsb_unhashable_str ws : existsb unhashable (map PStr ws) = false.
Proof. by induction ws. Qed.

(** A list of strings is a valid array of strings, quietly. *)
Lemma string_array_validate raises ps name ws log :
  run (type_validate raises ps string_array name (PList (map PStr ws))) log = (inr true, log).
Proof.
  cbn [type_validate string_array]. unfold array_validate_with, generic_validate. cbn [is_instance iter_elems].
  rewrite (bool_decide_eq_true_2 (is_Some (Some (map PStr ws)))) by by eexists.
  cbn [orb]. rewrite run_bind, run_ret. cbv iota beta.
  rewrite run_bind, count_failures_quiet; [done|].
  apply imap_Forall. intros i x Hx. apply list_elem_of_fmap in Hx as (s & -> & _). intros log'. done.
Qed.

(** Converting a list of strings keeps the strings and applies the
    array's converter, whose exception is not caught. *)
Lemma string_array_convert raises ps name ws c log :
  Forall (λ ch, ch ≠ lbrace ∧ ch ≠ rbrace) (String.list_ascii_of_string name) →
  run (type_convert raises ps string_array name (PList (map PStr ws)) (Some c) PNone) log =
  (c (PList (map PStr ws)), log).
Proof.
  intros Hname. cbn [type_convert string_array]. unfold array_convert_with. rewrite run_bind, string_array_validate. cbv iota beta.
  cbn [jv_type is_instance]. rewrite run_bind.
  unfold mmapi. rewrite run_bind, (mmapi_go_quiet _ id).
  - rewrite run_ret. cbv iota beta. rewrite map_id. by destruct (c (PList (map PStr ws))).
  - intros j x log' Hx. apply list_elem_of_fmap in Hx as (s & -> & _).
    rewrite run_bind, format_index_plain by done. done.
Qed.

Lemma deployment_validate raises ps n ws igs log :
  run (value_validate raises ps (schema_definition deployment_schema) (schema_name deployment_schema)
         (spec_json n ws igs)) log = (inr true, log).
Proof.
  destruct igs as [l|]; unfold schema_definition, schema_name, deployment_schema, spec_json; cbn [app].
  all: rewrite value_validate_eq; cbv iota; rewrite type_validate_fields; unfold generic_validate; cbn [is_instance].
  all: rewrite run_bind, run_ret; cbv iota beta; cbn [map].
  all: rewrite run_bind, count_failures_quiet; [rewrite run_bind, count_failures_quiet; [done|]|].
  all: repeat constructor; intros log'; try reflexivity.
  all: exact (string_array_validate raises ps _ _ log').
Qed.

Lemma convert_name_ok ps nm n n' log :
  DeploymentSpec.safe_filename_convert n = inr n' →
  run (value_convert true ps name_def nm (PStr n)) log = (inr (PStr n'), log).
Proof.
  intros Hn. unfold name_def. rewrite value_convert_eq. cbv iota. rewrite type_convert_string.
  unfold generic_convert, generic_validate. cbn [is_instance]. rewrite run_bind, run_ret. cbv iota beta.
  unfold safe_filename_converter. by rewrite Hn.
Qed.

Lemma convert_name_error ps nm n e log :
  DeploymentSpec.safe_filename_convert n = inl e →
  ∃ log', run (value_convert true ps name_def nm (PStr n)) log = (inl OnErrorRaised, log').
Proof.
  intros Hn. unfold name_def. rewrite value_convert_eq. cbv iota. rewrite type_convert_string.
  unfold generic_convert, generic_validate. cbn [is_instance]. rewrite run_bind, run_ret. cbv iota beta.
  unfold safe_filename_converter. rewrite Hn. by eexists.
Qed.

Lemma convert_workload ps nm ws log :
  Forall (λ ch, ch ≠ lbrace ∧ ch ≠ rbrace) (String.list_ascii_of_string nm) →
  run (value_convert true ps workload_def nm (PList (map PStr ws))) log =
  match DeploymentSpec.workload_convert ws with
  | inl _ => (inl (ValueError "Deployment specification.workload is invalid"), log)
  | inr w => (inr (PSet w), log)
  end.
Proof.
  intros Hnm. unfold workload_def. rewrite value_convert_eq. cbv iota. rewrite string_array_convert by done.
  unfold workload_converter. cbn [iter_elems]. rewrite existsb_unhashable_str, str_items_map.
  by destruct (DeploymentSpec.workload_convert ws).
Qed.

Lemma convert_input_groups ps nm l log :
  Forall (λ ch, ch ≠ lbrace ∧ ch ≠ rbrace) (String.list_ascii_of_string nm) →
  run (value_convert true ps input_groups_def nm (PList (map PStr l))) log =
  (inr (PSet (input_groups_convert l)), log).
Proof.
  intros Hnm. unfold input_groups_def. rewrite value_convert_eq. cbv iota. rewrite string_array_convert by done.
  unfold input_groups_converter. cbn [iter_elems]. by rewrite str_items_map.
Qed.

(** On the dict of a specification, the object-level [Converter] is
    the model [spec_convert] of DeploymentSpec.v: absent input groups
    become [ALL] with the forwarder workload, and input groups without it
    raise [ValueError]. *)
Theorem spec_converter_spec n w g :
  spec_converter (spec_to_py (DeploymentSpec.mkSpec n w g)) =
  match DeploymentSpec.spec_convert (DeploymentSpec.mkSpec n w g) with
  | inl _ => inl (ValueError "Deployment specification includes inputGroups, but does not include the forwarder workload")
  | inr s => inr (spec_to_py s)
  end.
Proof.
  unfold spec_converter, DeploymentSpec.spec_convert, spec_to_py. cbn [DeploymentSpec.ds_input_groups
    DeploymentSpec.ds_workload DeploymentSpec.ds_name].
  change (dict_index (PDict _) "workload") with (inr (PSet w) : Exc + PyVal). cbn [py_contains].
  destruct g as [g|]; [change (dict_get (PDict _) "inputGroups") with (PSet g)
                      |change (dict_get (PDict _) "inputGroups") with PNone];
    destruct (decide ("forwarder" ∈ w)).
  - rewrite bool_decide_true, decide_False by naive_solver. reflexivity.
  - rewrite bool_decide_false, decide_True by done. reflexivity.
  - rewrite bool_decide_true by done. reflexivity.
  - rewrite bool_decide_false by done. reflexivity.
Qed.

Ltac plain_name := apply (bool_decide_unpack _); vm_compute; reflexivity.

(** C32. [AppDeploymentSpecification.schema.convert_from] with the default
    [onerror], on the JSON document of a specification (a name, a list of
    workload names and optionally a list of input groups), is the model
    of DeploymentSpec.v: [SafeFilenameConverter], [WorkloadConverter] and
    [InputGroupsConverter] on the fields, then [Converter] on the object.
    An illegal name and a forwarder-less specification with input groups
    raise through [onerror]; an invalid workload raises the converter's
    own [ValueError], which [JsonArray.convert_from] does not catch. *)
Theorem deployment_schema_convert ps n ws igs :
  convert_from ps deployment_schema (spec_json n ws igs) =
  match DeploymentSpec.safe_filename_convert n with
  | inl _ => inl OnErrorRaised
  | inr n' =>
      match DeploymentSpec.workload_convert ws with
      | inl _ => inl (ValueError "Deployment specification.workload is invalid")
      | inr w =>
          match DeploymentSpec.spec_convert (DeploymentSpec.mkSpec n' w (input_groups_convert <$> igs)) with
          | inl _ => inl OnErrorRaised
          | inr s => inr (spec_to_py s)
          end
      end
  end.
Proof.
  unfold convert_from, schema_convert. rewrite run_bind, deployment_validate. cbv iota beta.
  unfold schema_definition, schema_name, deployment_schema, spec_json.
  destruct igs as [l|]; cbn [app]; rewrite value_convert_eq; cbv iota; rewrite type_convert_fields;
    unfold generic_validate; cbn [is_instance]; rewrite run_bind, run_ret; cbv iota beta.
  all: cbn [mfold fst snd]; rewrite !run_bind_assoc.
  all: change (mkJsonValue JsonString (Some safe_filename_converter) PNone true "1.0.0") with name_def;
    change (mkJsonValue string_array (Some workload_converter) PNone true "1.0.0") with workload_def;
    change (mkJsonValue string_array (Some input_groups_converter) PNone false "1.0.0") with input_groups_def;
    change (dict_get (PDict (("name", PStr n) :: _)) "name") with (PStr n).
  all: destruct (DeploymentSpec.safe_filename_convert n) as [e|n'] eqn:Hn;
    [destruct (convert_name_error ps ("deployment specification" +:+ "." +:+ "name") n e [] Hn) as [log' Hlog];
     by erewrite run_bind_err|].
  all: erewrite run_bind_ret; [|by apply convert_name_ok]; rewrite run_ret_bind.
  all: change (dict_get (dict_set (PDict (("name", PStr n) :: _)) "name" (PStr n')) "workload")
         with (PList (map PStr ws)).
  all: rewrite !run_bind_assoc, run_bind, convert_workload by plain_name.
  all: destruct (DeploymentSpec.workload_convert ws) as [e|w] eqn:Hw; [done|]; cbv iota beta.
  all: rewrite run_ret_bind.
  - change (dict_get (dict_set (dict_set (PDict (("name", PStr n) :: _)) "name" (PStr n')) "workload" (PSet w))
              "inputGroups") with (PList (map PStr l)).
    rewrite !run_bind_assoc, run_bind, convert_input_groups by plain_name. cbv iota beta. rewrite !run_ret_bind.
    change (dict_set (dict_set (dict_set (PDict _) "name" (PStr n')) "workload" (PSet w)) "inputGroups" _)
      with (spec_to_py (DeploymentSpec.mkSpec n' w (Some (input_groups_convert l)))).
    rewrite spec_converter_spec. by destruct (DeploymentSpec.spec_convert _).
  - change (dict_get (dict_set (dict_set (PDict (("name", PStr n) :: _)) "name" (PStr n')) "workload" (PSet w))
              "inputGroups") with PNone.
    unfold input_groups_def. rewrite value_convert_eq. cbv iota. rewrite !run_bind_assoc, !run_ret_bind.
    change (dict_set (dict_set (dict_set (PDict _) "name" (PStr n')) "workload" (PSet w)) "inputGroups" _)
      with (spec_to_py (DeploymentSpec.mkSpec n' w None)).
    rewrite spec_converter_spec. by destruct (DeploymentSpec.spec_convert _).
Qed.

Module DeploymentSchemaExamples.
Definition py_str0 (v : PyVal) : string := "".
Definition name_required : list string :=
  ["A value of type "; "String"; " is required for "; "deployment specification.name"].

(** [JsonSchema.convert_from] validates and then converts, and
    [convert_from] checks again what [validate] checked: with an
    [onerror] that returns, a specification without a name is reported
    twice, and the conversion goes on and yields a name of [None]. *)
Example missing_name_reported_twice :
  run (schema_convert false py_str0 deployment_schema (PDict [("workload", PList [PStr "indexer"])])) [] =
  (inr (PDict [("workload", PSet {["indexer"]}); ("name", PNone); ("inputGroups", PNone)]),
   [name_required; name_required]).
Proof. vm_compute. reflexivity. Qed.
End DeploymentSchemaExamples.

End DeploymentSchema.
