(* ===== verification/JsonHtml.v ===== *)
(** * The HTML documentation of a schema ([to_html])

    src/slim/app/_internal/json_data.py: [JsonSchema.to_html] (lines
    54-61), [JsonValue.to_html] (108-122), [JsonField.to_html] (144-159),
    [JsonDataType.to_html] (186-187), [JsonArray.to_html] (239-241) and
    [JsonObject.to_html] (350-356).  The methods build lxml elements with
    the E-factory and glue them with [itertools.chain], [tuple] and
    [*]-unpacking; a value of [HVal] is a cell ([e.TD]), a row of cells
    ([e.TR]), a header row ([e.TH]s), a caption or a tuple.  Iterating a
    value (an argument of [chain], an unpacked [*x]) gives the items of a
    tuple and the children of an element: the cells of a row, nothing for
    a cell, whose text is not a child.  [JsonObject.to_html] on an object
    with neither fields nor [any] reads [None.to_html] and raises
    [AttributeError]: that is [None] here.  The theorems show that the
    nesting of the tuples lines up: the table holds one six-cell row per
    documented value, in preorder, and no cell or tuple leaks into it. *)

From stdpp Require Import base list strings sets.
From S2P Require Import Prelude JsonData.

Module JsonHtml.
Import JsonData.

Inductive HVal :=
| HCell (text : string)
| HRow (cells : list string)
| HHeader (cells : list string)
| HCaption (texts : list string)
| HTup (items : list HVal).

(** [iter(v)] *)
Definition py_iter (v : HVal) : list HVal :=
  match v with
  | HTup items => items
  | HRow cells | HHeader cells => HCell <$> cells
  | HCell _ | HCaption _ => []
  end.

(** [itertools.chain( *args)] *)
Definition chain (args : list HVal) : list HVal := concat (py_iter <$> args).

(** [itertools.chain.from_iterable(v)] *)
Definition chain_from_iterable (v : HVal) : list HVal := chain (py_iter v).

(** The results of a generator, [None] when one of them raised. *)
Fixpoint all_some {A} (l : list (option A)) : option (list A) :=
  match l with
  | [] => Some []
  | Some x :: rest => xs ← all_some rest; Some (x :: xs)
  | None :: _ => None
  end.

(** [string(b)] of a [bool] *)
Definition bool_str (b : bool) : string := if b then "True" else "False".

(** [name + suffix], or [first] when [name] is [None]. *)
Definition extend_name (name : option string) (first suffix : string) : string :=
  match name with None => first | Some n => n +:+ suffix end.

Section ToHtml.
(** [string(value)] of a default value. *)
Context (py_str : PyVal → string).

(** [e.TR(e.TD(name), e.TD(self.data_type.name), e.TD(string(self.default)),
    e.TD(string(self.required)), e.TD(string(self.version)), e.TD(''))] *)
Definition value_row (name : string) (jv : JsonValue) : HVal :=
  let 'mkJsonValue dt _ default required version := jv in
  HRow [name; type_name dt; py_str default; bool_str required; version; ""].

(** [JsonValue.to_html(name)] (lines 108-122), given the data types'
    [to_html]. *)
Definition value_to_html_with (type_to_html : DataType → option string → option HVal)
    (jv : JsonValue) (name : string) : option HVal :=
  let 'mkJsonValue dt _ _ _ _ := jv in
  h ← type_to_html dt (Some name);
  Some (HTup (chain (HTup [value_row name jv] :: py_iter h))).

(** [JsonField.to_html(name)] (lines 144-159): the field's name, dotted
    under [name] when there is one, then the body of [JsonValue.to_html]. *)
Definition field_to_html_with (type_to_html : DataType → option string → option HVal)
    (field_name : string) (jv : JsonValue) (name : option string) : option HVal :=
  value_to_html_with type_to_html jv (extend_name name field_name ("." +:+ field_name)).

(** [to_html] of the data types: [JsonArray] (lines 239-241), [JsonObject]
    (350-356) and the others (186-187). *)
Fixpoint type_to_html (dt : DataType) (name : option string) {struct dt} : option HVal :=
  match dt with
  | JsonArray definition =>
      v ← value_to_html_with type_to_html definition (extend_name name "[i]" "[i]");
      Some (HTup [v])
  | JsonObject (Some fields) _ =>
      vs ← all_some (map (λ kf, field_to_html_with type_to_html kf.1 kf.2 name) fields);
      Some (HTup (chain [HTup vs]))
  | JsonObject None (Some extra) =>
      v ← value_to_html_with type_to_html extra (extend_name name "<name>" ".<name>");
      Some (HTup [v])
  | JsonObject None None => None
  | _ => Some (HTup [])
  end.

(** [JsonValue.to_html(name)] *)
Definition value_to_html : JsonValue → string → option HVal := value_to_html_with type_to_html.

(** [JsonSchema.to_html()]: the children of the [e.TABLE]. *)
Definition schema_to_html (schema : JsonSchema) : option (list HVal) :=
  h ← type_to_html (jv_type (schema_definition schema)) None;
  Some ([HCaption ["JSON Schema: "; schema_name schema];
         HHeader ["member"; "type"; "default"; "required"; "description"]] ++
        chain_from_iterable h).

End ToHtml.

(** * Properties *)

(** The documented values in preorder, with their dotted names: a value,
    then what its type documents (the element of an array, the fields of
    an object, or its [any] member when it has no fields). *)
Fixpoint type_doc (dt : DataType) (name : option string) {struct dt} : option (list (string * JsonValue)) :=
  match dt with
  | JsonArray definition => value_doc definition (extend_name name "[i]" "[i]")
  | JsonObject (Some fields) _ =>
      (λ groups, concat groups) <$> all_some (map (λ kf, value_doc kf.2 (extend_name name kf.1 ("." +:+ kf.1))) fields)
  | JsonObject None (Some extra) => value_doc extra (extend_name name "<name>" ".<name>")
  | JsonObject None None => None
  | _ => Some []
  end
with value_doc (jv : JsonValue) (name : string) {struct jv} : option (list (string * JsonValue)) :=
  let 'mkJsonValue dt _ _ _ _ := jv in
  rows ← type_doc dt (Some name);
  Some ((name, jv) :: rows).

Lemma all_some_map {A B C} (f : A → option B) (g : A → option C) (h : C → B) (l : list A) :
  (∀ x, x ∈ l → f x = h <$> g x) → all_some (map f l) = map h <$> all_some (map g l).
Proof.
  induction l as [|x l IH]; intros Hf; [done|]. cbn. rewrite Hf by set_solver.
  destruct (g x); [|done]. cbn. rewrite IH by set_solver. by destruct (all_some (map g l)).
Qed.

Section ToHtmlProps.
Context (py_str : PyVal → string).

Abbreviation row := (λ r : string * JsonValue, value_row py_str r.1 r.2).
(** A tuple of the rows of a group of values. *)
Abbreviation rows_tup := (λ g : list (string * JsonValue), HTup (row <$> g)).

(** What [JsonDataType.to_html] returns: a tuple of tuples of rows, whose
    rows together are the preorder of what the type documents; it raises
    exactly when that preorder meets an object with neither fields nor
    [any]. *)
Definition type_html_doc (dt : DataType) : Prop :=
  ∀ name, match type_to_html py_str dt name, type_doc dt name with
          | Some h, Some rows => ∃ groups, h = HTup (rows_tup <$> groups) ∧ concat groups = rows
          | None, None => True
          | _, _ => False
          end.

(** What [JsonValue.to_html] returns: the tuple of the rows of its preorder. *)
Definition value_html_doc (jv : JsonValue) : Prop :=
  ∀ name, value_to_html py_str jv name = rows_tup <$> value_doc jv name.

Lemma value_html_doc_one jv name :
  value_html_doc jv →
  match (λ v, HTup [v]) <$> value_to_html py_str jv name, value_doc jv name with
  | Some h, Some rows => ∃ groups, h = HTup (rows_tup <$> groups) ∧ concat groups = rows
  | None, None => True
  | _, _ => False
  end.
Proof.
  intros IH. rewrite IH. destruct (value_doc jv name) as [rows|]; [|done].
  exists [rows]. cbn. by rewrite app_nil_r.
Qed.

Lemma chain_rows groups : chain (rows_tup <$> groups) = row <$> concat groups.
Proof. unfold chain. by rewrite list_fmap_concat, <- list_fmap_compose. Qed.

Lemma value_html_doc_intro dt c d r ver : type_html_doc dt → value_html_doc (mkJsonValue dt c d r ver).
Proof.
  intros IH name. unfold value_to_html, value_to_html_with. cbn [value_doc]. specialize (IH (Some name)).
  destruct (type_to_html py_str dt _) as [h|], (type_doc dt _) as [rows|]; try done.
  destruct IH as (groups & -> & <-). cbn. do 3 f_equal. apply chain_rows.
Qed.

Lemma type_html_doc_all dt : type_html_doc dt.
Proof.
  apply (data_type_ind' type_html_doc value_html_doc); [by exists []..| | |apply value_html_doc_intro].
  - intros d IH name. pose proof (value_html_doc_one d (extend_name name "[i]" "[i]") IH).
    cbn [type_to_html type_doc]. fold (value_to_html py_str).
    by destruct (value_to_html py_str d _), (value_doc d _).
  - intros [fs|] [ex|] Hfs Hex name; cbn [type_to_html type_doc on_some] in *; unfold field_to_html_with;
    fold (value_to_html py_str).
    1,2: rewrite (all_some_map _ _ rows_tup) by (intros kf Hkf; apply (proj1 (Forall_forall _ _) Hfs kf Hkf));
         destruct (all_some _) as [groups|]; [|done];
         exists groups; split; [cbn; by rewrite app_nil_r|done].
    + pose proof (value_html_doc_one ex (extend_name name "<name>" ".<name>") Hex).
      by destruct (value_to_html py_str ex _), (value_doc ex _).
    + done.
Qed.

(** C28. The documentation table of a schema lines up: [JsonSchema.to_html]
    gives the caption, the header row, then exactly one six-cell row per
    documented value, in preorder (a value, then its array element, or its
    fields in order, or its [any] member when it has no fields), and no
    stray cell or nested tuple.  It raises [AttributeError] exactly when
    that preorder meets an object with neither fields nor [any]. *)
Theorem schema_to_html_rows schema :
  schema_to_html py_str schema =
    (λ rows, [HCaption ["JSON Schema: "; schema_name schema];
              HHeader ["member"; "type"; "default"; "required"; "description"]] ++ (row <$> rows))
    <$> type_doc (jv_type (schema_definition schema)) None.
Proof.
  unfold schema_to_html. pose proof (type_html_doc_all (jv_type (schema_definition schema)) None) as H.
  destruct (type_to_html _ _ _), (type_doc _ _); try done.
  destruct H as (groups & -> & <-). cbn. do 3 f_equal. apply chain_rows.
Qed.

End ToHtmlProps.

Module JsonHtmlExamples.

Definition py_str0 (v : PyVal) : string := "".

(** An app schema with a free-form [settings] object ([JsonObject()]). *)
Definition settings_schema : JsonSchema :=
  mkJsonSchema "app"
    (mkJsonValue (JsonObject (Some [("settings", mkJsonValue (JsonObject None None) None PNone false "1.0.0")]) None)
       None PNone true "1.0.0").

(** A schema whose documents convert without error cannot be
    documented: [JsonObject()] has neither fields nor [any], and its
    [to_html] raises [AttributeError] on [None.to_html]. *)
Example free_object_to_html_raises :
  schema_to_html py_str0 settings_schema = None ∧
  convert_from py_str0 settings_schema (PDict [("settings", PDict [("a", PNum 1)])]) =
    inr (PDict [("settings", PDict [("a", PNum 1)])]).
Proof. split; vm_compute; reflexivity. Qed.

End JsonHtmlExamples.

End JsonHtml.
