(* ===== verification/JsonConverters.v ===== *)
(** * The string converters of the JSON framework

    src/slim/app/_internal/json_data.py lines 458-542:
    [JsonFilenameConverter] (a file that must exist, with an optional
    [verify] callback), [JsonVersionConverter] (a semantic version, in an
    optional range) and [JsonVersionSpecConverter] (a version range).  The
    library calls they make are the Section's variables: [os.stat],
    [encode_string], [semantic_version.Version.coerce] and
    [semantic_version.Spec].  What a converter returns is a [Converted]
    value: a Python value, a version, a range, or the callable that
    [JsonFilenameConverter._verify] returns.  A failed [assert] is
    [AssertionFailed]; a raised exception is [Raised]. *)

From stdpp Require Import base list strings sets.
From S2P Require Import Prelude AppSource DeploymentPackage JsonData.

Module JsonConverters.
Import JsonData DeploymentPackage.

Inductive Converted (F : Type) :=
| CValue (v : PyVal)
| CVersion (v : Version)
| CRange (r : Range)
| CCallable (f : F).
Arguments CValue {F}. Arguments CVersion {F}. Arguments CRange {F}. Arguments CCallable {F}.

Inductive ConvError := AssertionFailed | Raised (e : Exc).

Section Converters.
(** [os.stat(path)]: the stat result, or the [strerror] of the [OSError]. *)
Context {Stat : Type} (os_stat : string → string + Stat).
(** [slim.utils.encode_string] *)
Context (encode_string : string → string).
(** [semantic_version.Version.coerce]: a version, or the [ValueError]. *)
Context (coerce : string → Exc + Version).
(** [semantic_version.Spec(text)]: a range, or the exception. *)
Context (parse_spec : string → Exc + Range).

(** [self._verify = lambda stat, value: value if verify is None else verify]
    (line 461): the conditional is the lambda's body, so with a [verify]
    the lambda returns [verify] itself. *)
Definition filename_verify {F} (verify : option F) (stat : Stat) (value : PyVal) : Converted F :=
  match verify with None => CValue value | Some f => CCallable f end.

(** [JsonFilenameConverter.convert_from] (lines 463-477). *)
Definition filename_convert {F} (verify : option F) (data_type : DataType) (value : PyVal)
    : ConvError + Converted F :=
  match data_type, value with
  | JsonString, PStr s =>
      match os_stat s with
      | inl strerror => inl (Raised (ValueError (strerror +:+ ": " +:+ encode_string s)))
      | inr stat => inr (filename_verify verify stat value)
      end
  | _, _ => inl AssertionFailed
  end.

(** [JsonVersionConverter.__init__] (lines 490-491): a string is parsed
    as a [Spec], a range is kept. *)
Definition version_converter (version_spec : option (string + Range)) : ConvError + option Range :=
  match version_spec with
  | None => inr None
  | Some (inr r) => inr (Some r)
  | Some (inl text) =>
      match parse_spec text with
      | inr r => inr (Some r)
      | inl e => inl (Raised e)
      end
  end.

(** [JsonVersionConverter.convert_from] (lines 493-505). *)
Definition version_convert (version_spec : option Range) (data_type : DataType) (value : PyVal)
    : ConvError + Version :=
  match data_type, value with
  | JsonString, PStr s =>
      match coerce s with
      | inl e => inl (Raised e)
      | inr v =>
          match version_spec with
          | None => inr v
          | Some r => if range_match r v then inr v
                      else inl (Raised (ValueError ("Illegal version number: " +:+ version_string v)))
          end
      end
  | _, _ => inl AssertionFailed
  end.

(** [JsonVersionSpecConverter.convert_from] (lines 519-531). *)
Definition version_spec_convert (data_type : DataType) (value : PyVal) : ConvError + Range :=
  match data_type, value with
  | JsonString, PStr s =>
      match parse_spec s with
      | inr r => inr r
      | inl (ValueError _) => inl (Raised (ValueError ("Illegal version specification: " +:+ s)))
      | inl e => inl (Raised e)
      end
  | _, _ => inl AssertionFailed
  end.

(** [convert_to] of the three converters (lines 479-485, 507-514,
    533-540): the [str] of a [Version]. *)
Definition version_convert_to (data_type : DataType) (value : Converted unit) : ConvError + string :=
  match data_type, value with
  | JsonString, CVersion v => inr (version_string v)
  | _, _ => inl AssertionFailed
  end.

(** * Properties *)

(** C29. [JsonFilenameConverter(verify)] never calls [verify]: on an
    existing file its [convert_from] returns the callback itself, so a
    [verify] that rejects every file rejects none, and the caller gets a
    function where it expects the file name; only without a [verify] is
    the name returned. *)
Theorem filename_convert_verify_ignored s stat m :
  os_stat s = inr stat →
  let reject : Stat → PyVal → Exc + PyVal := λ _ _, inl (ValueError m) in
  filename_convert (Some reject) JsonString (PStr s) = inr (CCallable reject) ∧
  filename_convert (@None (Stat → PyVal → Exc + PyVal)) JsonString (PStr s) = inr (CValue (PStr s)).
Proof. intros Hs. unfold filename_convert. by rewrite Hs. Qed.

End Converters.

Module JsonConvertersWitnesses.

Definition ex_stat (path : string) : string + unit :=
  if decide (path = "/etc/hosts") then inr () else inl "No such file or directory".

Lemma filename_convert_verify_ignored_witness :
  ex_stat "/etc/hosts" = inr () ∧
  let reject : unit → PyVal → Exc + PyVal := λ _ _, inl (ValueError "rejected") in
  filename_convert ex_stat id (Some reject) JsonString (PStr "/etc/hosts") = inr (CCallable reject) ∧
  filename_convert ex_stat id (@None (unit → PyVal → Exc + PyVal)) JsonString (PStr "/etc/hosts") =
    inr (CValue (PStr "/etc/hosts")).
Proof. split; [reflexivity|]. apply (filename_convert_verify_ignored ex_stat id "/etc/hosts" () "rejected"). reflexivity. Defined.

End JsonConvertersWitnesses.

End JsonConverters.
