(* ===== verification/InstallationGraph.v ===== *)
(** * The installation graph of a server class (interface)

    src/slim/app/_server_class.py drives [AppInstallationGraph] and
    [AppInstallation] of slim/app/_installation.py, a module that is not
    under src/: what the server-class code needs of them is stated here
    from the spec (section 3, Installation; section 4.3) as a type class
    [AppInstallationGraph] of operations and a class
    [AppInstallationGraphLaws] of the properties the server-class proofs
    use.  An installation is seen through the attributes the code reads:
    its app id, the package of its source, its dependents and whether its
    deployment package is empty.  [ListGraph] is an instance (the graph as
    an association list) that satisfies the laws; the examples of the
    server-class files run on it. *)

From stdpp Require Import base list gmap strings sets.
From S2P Require Import Prelude AppSource DependencyGraph.

Module InstallationGraph.
Import DependencyGraph.

(** [AppInstallation]: [id], [source.package], [dependents] and
    [deployment_package.is_empty]. *)
Record AppInstallation := mkInstallation {
  inst_id : string;
  inst_package : string;
  inst_dependents : list string;
  inst_is_empty : bool;
}.

#[export] Instance AppInstallation_eq_dec : EqDecision AppInstallation.
Proof. solve_decision. Defined.

(** The methods of [AppInstallationGraph] (and of the installations it
    holds) that _server_class.py calls.  [ig_from_dependency_graph] receives
    the server class as its name, workload and current graph, and may log;
    [ig_empty] is [AppInstallationGraph(server_class, ObjectView(()))];
    [ig_remove_installation] raises [KeyError] ([None]) on an app that is
    not installed; the two methods of [AppInstallation] that mutate an
    installation held by the graph are methods of the graph here. *)
Class AppInstallationGraph (IG : Type) := {
  ig_empty : IG;
  ig_ids : IG → list string;
  ig_get : IG → string → option AppInstallation;
  ig_remove_installation : IG → string → option IG;
  ig_update : IG → IG → bool → IG;
  ig_from_dependency_graph :
    string → gset string → IG → Graph → string → bool → bool → Diag → IG * Diag;
  ig_update_input_groups : IG → string → string → option (gset string) → IG;
  ig_create_deployment_package : IG → string → IG;
  ig_describe_installation : IG → AppInstallation → list AppInstallation;
}.

(** What the spec promises of the graph: installations are keyed by app
    id; removing an installation drops it (and possibly
    the dependencies only it required) and adds nothing; updating input
    groups or building a deployment package keeps the membership;
    building a graph only adds to the log, and the graph it builds does
    not depend on the log. *)
Class AppInstallationGraphLaws (IG : Type) `{!AppInstallationGraph IG} : Prop := {
  ig_empty_ids : ig_ids ig_empty = [];
  ig_get_ids g i : is_Some (ig_get g i) ↔ i ∈ ig_ids g;
  ig_get_id g i x : ig_get g i = Some x → inst_id x = i;
  ig_remove_None g i : ig_remove_installation g i = None ↔ i ∉ ig_ids g;
  ig_remove_ids g i g' : ig_remove_installation g i = Some g' → (i ∉ ig_ids g') ∧ ig_ids g' ⊆ ig_ids g;
  ig_update_input_groups_ids g i a x : ig_ids (ig_update_input_groups g i a x) = ig_ids g;
  ig_create_ids g i : ig_ids (ig_create_deployment_package g i) = ig_ids g;
  ig_from_dependency_graph_log n w a dg os v e d :
    diag_le d (ig_from_dependency_graph n w a dg os v e d).2;
  ig_from_dependency_graph_graph n w a dg os v e d d' :
    (ig_from_dependency_graph n w a dg os v e d).1 = (ig_from_dependency_graph n w a dg os v e d').1;
}.

(** [graph.values()]: the installations in the graph's order. *)
Definition ig_values `{AppInstallationGraph IG} (g : IG) : list AppInstallation := omap (ig_get g) (ig_ids g).

Section Laws.
Context `{AppInstallationGraphLaws IG}.

Lemma ig_get_None g i : ig_get g i = None ↔ i ∉ ig_ids g.
Proof. rewrite <- ig_get_ids. destruct (ig_get g i); naive_solver. Qed.

Lemma ig_remove_Some g i : i ∈ ig_ids g → ∃ g', ig_remove_installation g i = Some g'.
Proof.
  intros Hi. destruct (ig_remove_installation g i) as [g'|] eqn:Hr; [by eexists|].
  by apply ig_remove_None in Hr.
Qed.

End Laws.

(** ** An instance: the graph as an association list *)

Module ListGraph.
Section ListGraph.
(** Which apps have an empty deployment package. *)
Context (empty_package : string → bool).

Abbreviation LG := (list AppInstallation).

Definition lg_ids (g : LG) : list string := inst_id <$> g.
Definition lg_get (g : LG) (i : string) : option AppInstallation := snd <$> list_find (λ x, inst_id x = i) g.
Definition lg_remove (g : LG) (i : string) : option LG :=
  if decide (i ∈ lg_ids g) then
    Some ((λ x, mkInstallation (inst_id x) (inst_package x) (filter (λ j, j ≠ i) (inst_dependents x)) (inst_is_empty x))
            <$> filter (λ x, inst_id x ≠ i) g)
  else None.
(** [update]: the installations of the new graph replace those of the old. *)
Definition lg_update (old new : LG) (_ : bool) : LG :=
  filter (λ x, inst_id x ∉ lg_ids new) old ++ new.
Definition lg_node (dg : Graph) (s : AppSource) : AppInstallation :=
  mkInstallation (src_id s) (src_package s) (src_id ∘ snd <$> default [] (od_get (g_dependents dg) s)) false.
Definition lg_from_dependency_graph (_ : string) (_ : gset string) (apps : LG) (dg : Graph)
    (_ : string) (_ _ : bool) (d : Diag) : LG * Diag :=
  (lg_update apps (lg_node dg <$> od_keys (g_graph dg)) true, d).
Definition lg_update_input_groups (g : LG) (_ _ : string) (_ : option (gset string)) : LG := g.
(** [create_deployment_package]: whether the package is empty is given by
    [empty_package] on the package name. *)
Definition lg_create (g : LG) (i : string) : LG :=
  (λ x, if decide (inst_id x = i)
        then mkInstallation i (inst_package x) (inst_dependents x) (empty_package (inst_package x))
        else x) <$> g.
Definition lg_describe (_ : LG) (x : AppInstallation) : list AppInstallation := [x].

#[export] Instance list_graph : AppInstallationGraph LG := {
  ig_empty := [];
  ig_ids := lg_ids;
  ig_get := lg_get;
  ig_remove_installation := lg_remove;
  ig_update := lg_update;
  ig_from_dependency_graph := lg_from_dependency_graph;
  ig_update_input_groups := lg_update_input_groups;
  ig_create_deployment_package := lg_create;
  ig_describe_installation := lg_describe;
}.

Lemma lg_ids_filter (P : AppInstallation → Prop) `{∀ x, Decision (P x)} g j :
  j ∈ lg_ids (filter P g) ↔ ∃ x, x ∈ g ∧ P x ∧ inst_id x = j.
Proof.
  unfold lg_ids. rewrite list_elem_of_fmap. setoid_rewrite list_elem_of_filter. naive_solver.
Qed.

#[export] Instance list_graph_laws : AppInstallationGraphLaws LG.
Proof.
  split; cbn; [done| | | | | | | |done].
  - intros g i. unfold lg_get, lg_ids. rewrite fmap_is_Some, list_elem_of_fmap. split.
    + intros [[k x] (Hl & Hx & _)%list_find_Some]. exists x. split; [done|].
      by eapply list_elem_of_lookup_2.
    + intros (x & -> & Hx). by apply list_find_elem_of with x.
  - intros g i x. unfold lg_get. intros ([k y] & Hf & ->)%fmap_Some. by apply list_find_Some in Hf as (_ & ? & _).
  - intros g i. unfold lg_remove. case_decide; naive_solver.
  - intros g i g'. unfold lg_remove. case_decide; [intros [= <-]|done].
    assert (Hids : ∀ h, lg_ids ((λ x, mkInstallation (inst_id x) (inst_package x)
             (filter (λ j, j ≠ i) (inst_dependents x)) (inst_is_empty x)) <$> h) = lg_ids h).
    { intros h. unfold lg_ids. rewrite <- list_fmap_compose. done. }
    rewrite Hids. split; [rewrite lg_ids_filter; naive_solver|].
    intros j. rewrite lg_ids_filter. unfold lg_ids. rewrite list_elem_of_fmap. naive_solver.
  - done.
  - intros g i. unfold lg_create, lg_ids. rewrite <- list_fmap_compose. apply list_fmap_ext.
    intros _ x _. cbn. by case_decide.
  - intros. apply diag_le_refl.
Qed.

End ListGraph.
End ListGraph.

End InstallationGraph.
