(* ===== verification/ServerClass.v ===== *)
(** * A server class ([AppServerClass])

    src/slim/app/_server_class.py lines 62-211: a server class has a name,
    a workload and the installation graph of its apps, and shares with its
    collection the package repository, an ordered dict from package file
    name to the [AppSource] read from it ([None] until it is read).  The
    repository is one Python object for the collection and all its server
    classes, so the model keeps it once and the methods here take and
    return it.  Reading a package ([AppSource(path)]), testing for a tar
    file and copying a file are I/O: they are the Section's variables. *)

From stdpp Require Import base list gmap strings sets.
From S2P Require Import Prelude AppSource DependencyGraph PathOps InstallationGraph.

Module ServerClass.
Import InstallationGraph PathOps.

(** [AppServerClass]: [_name], [_workload] and [_apps]. *)
Record AppServerClass {IG : Type} := mkServerClass {
  sc_name : string;
  sc_workload : gset string;
  sc_apps : IG;
}.
Arguments AppServerClass : clear implicits.
Arguments mkServerClass {IG}.

(** The repository: package file name to [AppSource], [None] until read. *)
Abbreviation Repository := (list (string * option AppSource)).

Section ServerClass.
Context `{AppInstallationGraph IG}.

Abbreviation ServerClass := (AppServerClass IG).

(** [reload(apps)] (lines 186-187): the server class with a new installation graph. *)
Definition sc_set_apps (sc : ServerClass) (apps : IG) : ServerClass :=
  mkServerClass (sc_name sc) (sc_workload sc) apps.

(** [describe_app(app_id)] (lines 135-144): the installations of the
    [AppServerClassUpdate], [None] when the app is not installed. *)
Definition describe_app (sc : ServerClass) (app_id : string) : option (list AppInstallation) :=
  installation ← ig_get (sc_apps sc) app_id;
  Some (ig_describe_installation (sc_apps sc) installation).

(** [from_deployment_specification] (lines 146-161): a server class with
    the specification's workload and no apps; the caller stores it under
    its name. *)
Definition from_deployment_specification (name : string) (workload : gset string) : ServerClass :=
  mkServerClass name workload ig_empty.

(** [remove_app(app_id)] (lines 189-205): an app other apps still require
    is reported, its dependents recorded in the payload, and kept; the
    [KeyError] of [remove_installation] is [None]. *)
Definition sc_remove_app (sc : ServerClass) (app_id : string) (d : Diag) : option (ServerClass * Diag) :=
  match ig_get (sc_apps sc) app_id with
  | None => Some (sc, d)
  | Some installation =>
      let dependents := inst_dependents installation in
      if decide (0 < length dependents) then
        Some (sc, set_status StatusDependencyRequired
                    (set_dependency_requirements dependents (log_error (MsgStillRequired app_id dependents) d)))
      else
        apps ← ig_remove_installation (sc_apps sc) (inst_id installation);
        Some (sc_set_apps sc apps, d)
  end.

(** [update_installation(graph, disable_automatic_resolution)] (lines 207-208). *)
Definition sc_update_installation (sc : ServerClass) (g : IG) (disable_automatic_resolution : bool) : ServerClass :=
  sc_set_apps sc (ig_update (sc_apps sc) g disable_automatic_resolution).

Section Repository.
(** [AppSource(path)]: reading a source package. *)
Variable load_source : string → AppSource.
(** [tarfile.is_tarfile(path)]; [None] when it raises [OSError]. *)
Variable is_tarfile : string → option bool.
(** [shutil.copy(src, dir)] succeeds. *)
Variable copy_file : string → string → bool.

(** [add_source(package_path)] (lines 101-133): [None] is the [return None]
    of the three error exits. *)
Definition add_source (repository : Repository) (repository_path package_path : string) (d : Diag)
    : option string * Repository * Diag :=
  match is_tarfile package_path with
  | None => (None, repository, log_error (MsgCannotAdd package_path repository_path) d)
  | Some false => (None, repository, log_error (MsgNotSourcePackage package_path repository_path) d)
  | Some true =>
      let package := basename package_path in
      if decide (package ∈ od_keys repository) then (Some package, repository, d)
      else if copy_file package_path repository_path
      then (Some package, od_set repository package (Some (load_source (path_join repository_path package))), d)
      else (None, repository, log_error (MsgCannotAdd package repository_path) d)
  end.

(** [get_source(package)] (lines 163-178).  On a package not read yet the
    source is read from the joined path and stored under the joined path
    ([package] is rebound at line 175), not under the package name. *)
Definition get_source (repository : Repository) (repository_path package : string) (d : Diag)
    : option AppSource * Repository * Diag :=
  match od_get repository package with
  | None => (None, repository, log_error (MsgPackageNotFound package repository_path) d)
  | Some (Some source) => (Some source, repository, d)
  | Some None =>
      let package' := path_join repository_path package in
      let source := load_source package' in
      (Some source, od_set repository package' (Some source), d)
  end.

End Repository.

(** * Properties *)

Section RepositoryProps.
(** [AppSource(path)]: reading a source package. *)
Variable load_source : string → AppSource.
(** [tarfile.is_tarfile(path)]; [None] when it raises [OSError]. *)
Variable is_tarfile : string → option bool.
(** [shutil.copy(src, dir)] succeeds. *)
Variable copy_file : string → string → bool.

(** A package of the repository that has not been read is read again
    on every call: [get_source] stores the source under the joined path,
    so after two calls the package's own entry is still unresolved (the
    spec, section 5, says a resolved package is memoized for the lifetime
    of the collection). *)
Theorem get_source_not_memoized repository repository_path package d :
  od_get repository package = Some None → path_join repository_path package ≠ package →
  let '(s1, repo1, d1) := get_source load_source repository repository_path package d in
  let '(s2, repo2, d2) := get_source load_source repo1 repository_path package d1 in
  s1 = Some (load_source (path_join repository_path package)) ∧ s2 = s1 ∧ d2 = d ∧
  od_get repo2 package = Some None ∧
  od_get repo2 (path_join repository_path package) = Some (Some (load_source (path_join repository_path package))).
Proof.
  intros Hp Hne. unfold get_source. rewrite Hp. cbn.
  rewrite (od_get_set_ne _ _ _ _ Hne), Hp. cbn.
  rewrite !(od_get_set_ne _ _ _ _ Hne), Hp, od_get_set_eq. done.
Qed.

(** A package that [add_source] reports added can be fetched with
    [get_source] without an error. *)
Theorem add_source_get_source repository repository_path package_path d package repository' d' :
  add_source load_source is_tarfile copy_file repository repository_path package_path d = (Some package, repository', d') →
  ∃ source repository'', get_source load_source repository' repository_path package d' = (Some source, repository'', d').
Proof.
  unfold add_source, get_source.
  destruct (is_tarfile package_path) as [[]|]; [|done|done].
  case_decide as Hin.
  - intros [= <- <- <-]. destruct (od_get repository (basename package_path)) as [o|] eqn:Ho;
      [|by apply od_get_None in Ho].
    destruct o; eauto.
  - destruct (copy_file _ _); [intros [= <- <- <-]|done]. rewrite od_get_set_eq. eauto.
Qed.

End RepositoryProps.

Section Laws.
Context `{!AppInstallationGraphLaws IG}.

(** [AppServerClass.remove_app] never raises: an app that is not
    installed leaves the server class as it is; an app other apps require
    is kept and reported, with its dependents recorded in the payload and
    the status set to [STATUS_ERROR_DEPENDENCY_REQUIRED]; otherwise it is
    removed, and the graph loses no other app than those the removal
    takes with it. *)
Theorem sc_remove_app_spec (sc : ServerClass) app_id d :
  ∃ sc' d', sc_remove_app sc app_id d = Some (sc', d') ∧
    sc_name sc' = sc_name sc ∧ sc_workload sc' = sc_workload sc ∧
    match ig_get (sc_apps sc) app_id with
    | None => sc' = sc ∧ d' = d
    | Some x =>
        if decide (inst_dependents x = []) then
          (app_id ∉ ig_ids (sc_apps sc')) ∧ ig_ids (sc_apps sc') ⊆ ig_ids (sc_apps sc) ∧ d' = d
        else sc' = sc ∧
             d' = set_status StatusDependencyRequired (set_dependency_requirements (inst_dependents x)
                    (log_error (MsgStillRequired app_id (inst_dependents x)) d))
    end.
Proof.
  unfold sc_remove_app. destruct (ig_get (sc_apps sc) app_id) as [x|] eqn:Hx; [|by exists sc, d].
  pose proof (ig_get_id _ _ _ Hx) as Hid.
  destruct (inst_dependents x) as [|y ys] eqn:Hdeps; cbn.
  - destruct (ig_remove_Some (sc_apps sc) (inst_id x)) as [g' Hg'].
    { rewrite Hid, <- ig_get_ids, Hx. by eexists. }
    rewrite Hg'. cbn. apply ig_remove_ids in Hg'. rewrite Hid in Hg'.
    case_decide; [lia|]. case_decide; [|done]. exists (sc_set_apps sc g'), d. naive_solver.
  - case_decide; [|cbn in *; lia]. case_decide; [done|]. eexists _, _. naive_solver.
Qed.

End Laws.

End ServerClass.

Module ServerClassWitnesses.
Import ListGraph.

#[local] Instance ex_graph : AppInstallationGraph (list AppInstallation) := list_graph (λ _, false).
#[local] Instance ex_graph_laws : AppInstallationGraphLaws (list AppInstallation) := list_graph_laws _.

Definition ex_source : AppSource :=
  mkAppSource "/repo/a.tgz" "a" None (SemVer.mkVersion 1 0 0) true None None None.
Definition ex_load (_ : string) : AppSource := ex_source.
Definition ex_repository : Repository := [("a.tgz", None)].

Lemma get_source_not_memoized_witness :
  od_get ex_repository "a.tgz" = Some None ∧ path_join "/repo" "a.tgz" ≠ "a.tgz" ∧
  let '(s1, repo1, d1) := get_source ex_load ex_repository "/repo" "a.tgz" diag0 in
  let '(s2, repo2, d2) := get_source ex_load repo1 "/repo" "a.tgz" d1 in
  s1 = Some (ex_load (path_join "/repo" "a.tgz")) ∧ s2 = s1 ∧ d2 = diag0 ∧
  od_get repo2 "a.tgz" = Some None ∧
  od_get repo2 (path_join "/repo" "a.tgz") = Some (Some (ex_load (path_join "/repo" "a.tgz"))).
Proof.
  split; [reflexivity|]. split; [vm_compute; discriminate|].
  apply (get_source_not_memoized ex_load); [reflexivity|vm_compute; discriminate].
Defined.

Lemma add_source_get_source_witness :
  add_source ex_load (λ _, Some true) (λ _ _, true) [] "/repo" "/tmp/a.tgz" diag0 =
    (Some "a.tgz", [("a.tgz", Some ex_source)], diag0) ∧
  ∃ source repository'', get_source ex_load [("a.tgz", Some ex_source)] "/repo" "a.tgz" diag0 =
    (Some source, repository'', diag0).
Proof.
  split; [vm_compute; reflexivity|].
  apply (add_source_get_source ex_load (λ _, Some true) (λ _ _, true) [] "/repo" "/tmp/a.tgz" diag0).
  vm_compute. reflexivity.
Defined.

Definition ex_class : AppServerClass (list AppInstallation) :=
  mkServerClass "fwd" {["forwarder"]} [mkInstallation "a" "a.tgz" [] false; mkInstallation "b" "b.tgz" ["a"] false].

Lemma sc_remove_app_spec_witness :
  ∃ sc' d', sc_remove_app ex_class "a" diag0 = Some (sc', d') ∧
    sc_name sc' = "fwd" ∧ ("a" ∉ ig_ids (sc_apps sc')) ∧ d' = diag0.
Proof.
  destruct (sc_remove_app_spec ex_class "a" diag0) as (sc' & d' & Hr & Hn & _ & Hspec).
  change (ig_get (sc_apps ex_class) "a") with (Some (mkInstallation "a" "a.tgz" [] false)) in Hspec.
  cbv beta iota in Hspec. rewrite decide_True in Hspec by done. destruct Hspec as (Ha & _ & Hd).
  by exists sc', d'.
Defined.

End ServerClassWitnesses.

End ServerClass.
