(* ===== verification/ServerCollection.v ===== *)
(** * The server-class collection ([AppServerClassCollection])

    src/slim/app/_server_class.py lines 214-571: an ordered dict from name
    to server class, the shared package repository, the [validate] flag and
    the [installed_packages] index computed when the collection is built.
    The operations [add], [update_app], [remove_app] and
    [update_installation] are functions from the collection and the diagnostics
    to the new collection and diagnostics; an exception that escapes them
    is an [Exc] (the state it leaves behind is not kept: the command that
    raised ends).  The reading of packages and directories, the source's
    [validate_deployment_specification] are the Section's variables;
    [partition] is in Partition.v. *)

From stdpp Require Import base list gmap strings sets.
From S2P Require Import Prelude AppSource Cycle DependencyGraph DeploymentSpec Propagation PathOps InstallationGraph ServerClass.

Module ServerCollection.
Import InstallationGraph ServerClass DependencyGraph DeploymentSpec PathOps.

Record Collection {IG : Type} := mkCollection {
  col_classes : list (string * AppServerClass IG);
  col_repository : Repository;
  col_repository_path : string;
  col_validate : bool;
  col_installed_packages : list (string * string);
}.
Arguments Collection : clear implicits.
Arguments mkCollection {IG}.

(** The exceptions that escape the operations: [KeyError] of a dict
    lookup, [IndexError] of the static [get_deployment_specifications],
    the exceptions of the propagation, and [RecursionError] when the
    propagation's recursion does not end. *)
Inductive Exc :=
| KeyError (key : string)
| IndexError
| PropagationError (e : Propagation.PropError)
| RecursionError.

(** An installation action: [action.action], [action.name] and the
    [action.args] the code reads ([is_external] defaults to false). *)
Record Action := mkAction {
  act_action : string;
  act_name : string;
  act_app_id : string;
  act_app_package : string;
  act_deployment_packages : list DeploymentSpecification;
  act_combine : bool;
  act_workloads : option (list DeploymentSpecification);
  act_is_external : bool;
}.

Section Collection.
Context `{AppInstallationGraph IG}.

Abbreviation ServerClass := (AppServerClass IG).
Abbreviation Classes := (list (string * ServerClass)).

Definition set_classes (col : Collection IG) (classes : Classes) : Collection IG :=
  mkCollection classes (col_repository col) (col_repository_path col) (col_validate col)
    (col_installed_packages col).

(** [__init__] (lines 216-228): every installed app id to the file name
    of its source package; a later server class overrides an earlier one. *)
Definition installed_packages (classes : Classes) : list (string * string) :=
  foldl (λ acc e, foldl (λ acc x, od_set acc (inst_id x) (basename (inst_package x))) acc
                        (ig_values (sc_apps e.2)))
        [] classes.

Definition make_collection (repository : Repository) (repository_path : string) (classes : Classes)
    : Collection IG :=
  mkCollection classes repository repository_path true (installed_packages classes).

(** [app_source.manifest.targetWorkloads or ['*']]: an absent or empty
    list targets every workload. *)
Definition target_workloads (app : AppSource) : list string :=
  match src_target_workloads app with Some (w :: ws) => w :: ws | _ => ["*"] end.

(** ['*' in target_workloads or name in target_workloads] *)
Definition targets (tw : list string) (name : string) : bool :=
  bool_decide ("*" ∈ tw ∨ name ∈ tw).

(** [server_class.apps.get(app_id) is not None] *)
Definition installed (sc : ServerClass) (app_id : string) : bool :=
  bool_decide (is_Some (ig_get (sc_apps sc) app_id)).

(** ** [add] (lines 336-413) *)

(** The removal loop (lines 404-411): stop when the graph is empty, skip
    an installation a previous removal already took. *)
Fixpoint remove_empty (g : IG) (removal_list : list string) : Exc + IG :=
  match removal_list with
  | [] => inr g
  | i :: rest =>
      if decide (length (ig_ids g) = 0) then inr g
      else if decide (i ∉ ig_ids g) then remove_empty g rest
      else match ig_remove_installation g i with
           | None => inl (KeyError i)
           | Some g' => remove_empty g' rest
           end
  end.

Section Add.
(** [app_source.dependency_sources] and
    [app_source.populate_dependency_sources(path.abspath(repository), installed_packages)]:
    the packages read by the [AppDependencyGraph] constructor. *)
Variable dependency_sources : AppSource → gmap string AppSource.
Variable populate_dependency_sources : AppSource → string → list (string * string) → gmap string AppSource.
(** [source.validate_deployment_specification(specification)] *)
Variable validate_deployment_specification : AppSource → DeploymentSpecification → Diag → Diag.

(** [AppDependencyGraph(app_source, self.repository_path, self._installed_packages, target_os)] *)
Definition graph_env (app : AppSource) (repository_path : string) (installed : list (string * string))
    (target_os : string) : GraphEnv :=
  mkGraphEnv app (dependency_sources app) (populate_dependency_sources app repository_path installed)
    (Some installed) target_os.

(** One source of [source_specifications] (lines 395-402): validate its
    specification, update its input groups, build its deployment package
    and queue it for removal when the package is empty. *)
Definition package_step (app_id : string) (is_external : bool) (acc : IG * list string * Diag)
    (entry : AppSource * DeploymentSpecification) : Exc + (IG * list string * Diag) :=
  let '(g, removal_list, d) := acc in
  let '(source, specification) := entry in
  let d := validate_deployment_specification source specification d in
  match ig_get g (src_id source) with
  | None => inl (KeyError (src_id source))
  | Some _ =>
      let g := ig_update_input_groups g (src_id source) app_id (ds_input_groups specification) in
      let g := ig_create_deployment_package g (src_id source) in
      let is_empty := default false (inst_is_empty <$> ig_get g (src_id source)) in
      inr (g, if negb is_external && is_empty then removal_list ++ [src_id source] else removal_list, d)
  end.

(** One deployment specification (lines 369-413); [ec] is the local
    [error_count]. *)
Definition add_step (app : AppSource) (dg : Graph) (target_os : string) (validate is_external disable : bool)
    (acc : Classes * Diag * nat) (ds : DeploymentSpecification) : Exc + (Classes * Diag * nat) :=
  let '(classes, d, ec) := acc in
  let name := ds_name ds in
  if negb (targets (target_workloads app) name) then inr (classes, log_warning (MsgNonTargeted name) d, ec)
  else
    let '(sc, classes) :=
      match od_get classes name with
      | Some sc => (sc, classes)
      | None => let sc := from_deployment_specification name (ds_workload ds) in (sc, od_set classes name sc)
      end in
    let '(g, d) := ig_from_dependency_graph name (sc_workload sc) (sc_apps sc) dg target_os validate is_external d in
    if decide (ec < error_count d) then inr (classes, d, error_count d)
    else
      match Propagation.get_deployment_specifications app dg ds with
      | None => inl RecursionError
      | Some (inl e) => inl (PropagationError e)
      | Some (inr source_specifications) =>
          match fold_err (package_step (src_id app) is_external) (g, [], d) source_specifications with
          | inl e => inl e
          | inr (g, removal_list, d) =>
              match remove_empty g removal_list with
              | inl e => inl e
              | inr g => inr (od_set classes name (sc_update_installation sc g disable), d, ec)
              end
          end
      end.

Definition add (col : Collection IG) (app : AppSource) (specs : list DeploymentSpecification)
    (target_os : string) (is_external disable : bool) (d : Diag) : Exc + (Collection IG * Diag) :=
  let '(dg, d) := dependency_graph (graph_env app (col_repository_path col) (col_installed_packages col) target_os) d in
  if decide (error_count d ≠ 0) then inr (col, d)
  else
    match fold_err (add_step app dg target_os (col_validate col) is_external disable) (col_classes col, d, 0) specs with
    | inl e => inl e
    | inr (classes, d, _) => inr (set_classes col classes, d)
    end.

(** ** [update_app] (lines 416-453) *)

(** One server class: a class without the app that the app targets is
    skipped with a warning, any other is rebuilt. *)
Definition update_app_class (app : AppSource) (dg : Graph) (target_os : string) (validate : bool)
    (name : string) (sc : ServerClass) (d : Diag) (ec : nat) : ServerClass * Diag * nat :=
  if negb (installed sc (src_id app)) && targets (target_workloads app) name
  then (sc, log_warning (MsgAppNotTargeted (src_id app) name) d, ec)
  else
    let '(g, d) := ig_from_dependency_graph name (sc_workload sc) (sc_apps sc) dg target_os validate false d in
    if decide (ec < error_count d) then (sc, d, error_count d)
    else (sc_update_installation sc g false, d, ec).

Fixpoint update_app_loop (app : AppSource) (dg : Graph) (target_os : string) (validate : bool)
    (classes : Classes) (d : Diag) (ec : nat) : Classes * Diag :=
  match classes with
  | [] => ([], d)
  | (name, sc) :: rest =>
      let '(sc', d', ec') := update_app_class app dg target_os validate name sc d ec in
      let '(rest', d'') := update_app_loop app dg target_os validate rest d' ec' in
      ((name, sc') :: rest', d'')
  end.

Definition update_app (col : Collection IG) (app : AppSource) (target_os : string) (d : Diag)
    : Collection IG * Diag :=
  let '(dg, d) := dependency_graph (graph_env app (col_repository_path col) (col_installed_packages col) target_os) d in
  if decide (error_count d ≠ 0) then (col, d)
  else let '(classes, d) := update_app_loop app dg target_os (col_validate col) (col_classes col) d 0 in
       (set_classes col classes, d).

End Add.

(** ** [remove_app] (lines 502-510) *)

Definition remove_app_step (app_id : string) (acc : Classes * bool * Diag) (name : string)
    : Exc + (Classes * bool * Diag) :=
  let '(classes, found, d) := acc in
  match od_get classes name with
  | None => inl (KeyError name)
  | Some sc =>
      if decide (app_id ∈ ig_ids (sc_apps sc)) then
        match sc_remove_app sc app_id d with
        | None => inl (KeyError app_id)
        | Some (sc', d') => inr (od_set classes name sc', true, d')
        end
      else inr (classes, found, d)
  end.

Definition remove_app (classes : Classes) (app_id : string) (server_classes : list string) (d : Diag)
    : Exc + (Classes * Diag) :=
  match fold_err (remove_app_step app_id) (classes, false, d) server_classes with
  | inl e => inl e
  | inr (classes', found, d') => inr (classes', if found then d' else log_warning (MsgNotInstalled app_id) d')
  end.

(** [set(old_list) - set(new_list)] (lines 541-544): the server classes
    that have the app and that no specification names.  Python iterates
    the set in hash order; the model keeps the order of the collection. *)
Definition removal_list (classes : Classes) (app_id : string) (specs : list DeploymentSpecification) : list string :=
  filter (λ name, name ∉ ds_name <$> specs) (od_keys (filter (λ e, installed e.2 app_id = true) classes)).

(** ** [update_installation] (lines 512-568) *)

Section Actions.
Variable dependency_sources : AppSource → gmap string AppSource.
Variable populate_dependency_sources : AppSource → string → list (string * string) → gmap string AppSource.
Variable validate_deployment_specification : AppSource → DeploymentSpecification → Diag → Diag.
(** [AppSource(package_path, None)]: reading the package named by the action. *)
Variable load_app : string → Diag → AppSource * Diag.
(** [slim_configuration.repository_path] *)
Variable configuration_repository_path : string.

Definition update_installation (col : Collection IG) (action : Action) (target_os : string)
    (disable_automatic_resolution : bool) (d : Diag) : Exc + (Collection IG * Diag) :=
  if decide (act_action action = "remove") then
    match remove_app (col_classes col) (act_app_id action) (od_keys (col_classes col)) d with
    | inl e => inl e
    | inr (classes, d) => inr (set_classes col classes, d)
    end
  else if decide (act_action action = "add" ∨ act_action action = "set") then
    let '(app, d) := load_app (path_join configuration_repository_path (act_app_package action)) d in
    if decide (error_count d ≠ 0) then inr (col, d)
    else
      match AppDeploymentSpecification.get_deployment_specifications (act_deployment_packages action)
              (act_combine action) (act_workloads action) d with
      | None => inl IndexError
      | Some (specs, d) =>
          if decide (error_count d ≠ 0) then inr (col, d)
          else if decide (act_action action = "set") then
            match remove_app (col_classes col) (src_id app) (removal_list (col_classes col) (src_id app) specs) d with
            | inl e => inl e
            | inr (classes, d) =>
                if decide (error_count d ≠ 0) then inr (set_classes col classes, d)
                else add dependency_sources populate_dependency_sources validate_deployment_specification
                       (set_classes col classes) app specs target_os (act_is_external action)
                       disable_automatic_resolution d
            end
          else add dependency_sources populate_dependency_sources validate_deployment_specification
                 col app specs target_os (act_is_external action) disable_automatic_resolution d
      end
  else if decide (act_action action = "update") then
    let '(app, d) := load_app (path_join configuration_repository_path (act_app_package action)) d in
    if decide (error_count d ≠ 0) then inr (col, d)
    else inr (update_app dependency_sources populate_dependency_sources col app target_os d)
  else inr (col, log_error (MsgUnknownAction (act_name action)) d).

End Actions.

End Collection.

(** * Properties *)

Section Props.
Context `{AppInstallationGraphLaws IG}.

Abbreviation ServerClass := (AppServerClass IG).

(** ** The removal loop of [add] *)

(** The removal loop of [add] never raises: it removes every queued
    installation that is still in the graph (skipping those an earlier
    removal took with it, and stopping once the graph is empty), so none
    of them is left, and it removes nothing that was not there. *)
Theorem remove_empty_spec (g : IG) removal_list :
  ∃ g', remove_empty g removal_list = inr g' ∧
    (∀ i, i ∈ removal_list → i ∉ ig_ids g') ∧ ig_ids g' ⊆ ig_ids g.
Proof.
  revert g. induction removal_list as [|i rest IH]; intros g; cbn.
  - exists g. set_solver.
  - case_decide as Hlen.
    { exists g. apply nil_length_inv in Hlen. rewrite Hlen. set_solver. }
    case_decide as Hi.
    + destruct (IH g) as (g' & -> & Hrest & Hsub). exists g'. split_and!; [done| |done].
      intros j [->|Hj]%elem_of_cons; [set_solver|by apply Hrest].
    + destruct (ig_remove_Some g i Hi) as [g1 Hg1]. rewrite Hg1.
      apply ig_remove_ids in Hg1 as [Hi1 Hsub1].
      destruct (IH g1) as (g' & -> & Hrest & Hsub). exists g'. split_and!; [done| |set_solver].
      intros j [->|Hj]%elem_of_cons; [set_solver|by apply Hrest].
Qed.

Lemma remove_empty_key (g : IG) removal_list e : remove_empty g removal_list = inl e → ∃ k, e = KeyError k.
Proof.
  revert g. induction removal_list as [|i rest IH]; intros g; cbn; [done|].
  repeat case_match; try done; try by apply IH. intros [= <-]. by eexists.
Qed.

Section Add.
Variable dependency_sources : AppSource → gmap string AppSource.
Variable populate_dependency_sources : AppSource → string → list (string * string) → gmap string AppSource.
Variable validate_deployment_specification : AppSource → DeploymentSpecification → Diag → Diag.


Lemma dependency_graph_count env d : error_count d ≤ error_count (dependency_graph env d).2.
Proof. apply (errors_only_count graph_error), dependency_graph_errors. Qed.

Lemma dependency_graph_cyclic env d :
  Cycle.is_cyclic (g_graph (dependency_graph env d).1) = true → error_count (dependency_graph env d).2 ≠ 0.
Proof.
  unfold dependency_graph. destruct (default _ (add_source env d)) as [g d1].
  destruct (Cycle.is_cyclic (g_graph g)) eqn:Hc.
  - intros _. cbn [snd]. rewrite error_count_log_error. lia.
  - destruct (check_dependencies g d1) as [d2 []]; cbn [fst]; congruence.
Qed.

Lemma package_step_key app_id is_external acc entry e :
  package_step validate_deployment_specification app_id is_external acc entry = inl e → ∃ k, e = KeyError k.
Proof. unfold package_step. repeat case_match; try done. intros [= <-]. by eexists. Qed.

(** C15. An error logged before [add] (by the dependency graph or by any
    earlier operation: [SlimLogger.error_count()] counts every error of
    the process) makes [add] return without changing the collection. *)
Theorem add_aborts col app specs target_os is_external disable d :
  error_count d ≠ 0 →
  add dependency_sources populate_dependency_sources validate_deployment_specification col app specs target_os is_external disable d =
    inr (col, (dependency_graph (graph_env dependency_sources populate_dependency_sources app (col_repository_path col) (col_installed_packages col) target_os) d).2).
Proof.
  intros Hd. unfold add.
  pose proof (dependency_graph_count (graph_env dependency_sources populate_dependency_sources app (col_repository_path col) (col_installed_packages col) target_os) d).
  destruct (dependency_graph _ d) as [dg d1]. cbn in *. rewrite decide_True by lia. done.
Qed.

(** C14. [add] never overflows the recursion of the propagation: it only
    propagates over a dependency graph built without error, which is
    well formed and acyclic, where the recursion ends. *)
Theorem add_no_recursion_error col app specs target_os is_external disable d :
  add dependency_sources populate_dependency_sources validate_deployment_specification col app specs target_os is_external disable d ≠ inl RecursionError.
Proof.
  unfold add. set (env := graph_env dependency_sources populate_dependency_sources app (col_repository_path col) (col_installed_packages col) target_os).
  pose proof (dependency_graph_wf env d) as Hwf. pose proof (dependency_graph_cyclic env d) as Hcyc.
  destruct (dependency_graph env d) as [dg d1]. cbn in Hwf, Hcyc |- *.
  case_decide as Hd; [done|].
  assert (Hac : Cycle.is_cyclic (g_graph dg) = false) by (destruct (Cycle.is_cyclic _); [lia|done]).
  destruct (fold_err _ _ specs) as [e|[[classes d2] ec]] eqn:Hf; [|done].
  intros [= ->]. apply fold_err_inl in Hf as ([[classes' d'] ec'] & ds & _ & Hstep).
  revert Hstep. unfold add_step. repeat case_match; try done; intros Heq; simplify_eq.
  all: try (destruct (Propagation.get_deployment_specifications_total app dg ds Hwf Hac); congruence).
  all: match goal with
       | Hf : fold_err _ _ _ = inl _ |- _ =>
           apply fold_err_inl in Hf as (? & ? & _ & Hk); apply package_step_key in Hk as [? ?]; congruence
       | Hr : remove_empty _ _ = inl _ |- _ => destruct (remove_empty_key _ _ _ Hr); congruence
       end.
Qed.

(** [self._collection.get(name)], or a new server class stored under the
    name. *)
Lemma get_or_create (classes : list (string * ServerClass)) name workload sc c1 :
  match od_get classes name with
  | Some sc => (sc, classes)
  | None => let sc := from_deployment_specification name workload in (sc, od_set classes name sc)
  end = (sc, c1) →
  (∀ n, n ≠ name → od_get c1 n = od_get classes n) ∧ od_get c1 name = Some sc.
Proof.
  destruct (od_get classes name) eqn:E; intros [= <- <-]; [done|].
  split; [intros n Hn; by rewrite od_get_set_ne|by rewrite od_get_set_eq].
Qed.

(** The server classes of one step of [add]: a specification the app
    does not target leaves them as they are; otherwise only its own server
    class changes, and it is there afterwards. *)
Lemma add_step_classes app dg os v e dis classes d ec ds r :
  add_step validate_deployment_specification app dg os v e dis (classes, d, ec) ds = inr r →
  if targets (target_workloads app) (ds_name ds) then
    (∀ n, n ≠ ds_name ds → od_get r.1.1 n = od_get classes n) ∧ is_Some (od_get r.1.1 (ds_name ds))
  else r.1.1 = classes.
Proof.
  unfold add_step. destruct (targets _ _) eqn:Ht; cbn; [|by intros [= <-]].
  destruct (match od_get classes (ds_name ds) with Some sc => _ | None => _ end) as [sc c1] eqn:E.
  destruct (get_or_create _ _ _ _ _ E) as [Hne Hin].
  destruct (ig_from_dependency_graph _ _ _ _ _ _ _ _) as [g d1].
  case_decide; [intros [= <-]; cbn; split; [done|by rewrite Hin]|].
  repeat case_match; try done. all: intros [= <-]; cbn.
  all: split; [intros n Hn; rewrite od_get_set_ne by done; by apply Hne|by rewrite od_get_set_eq].
Qed.

Lemma add_loop_classes app dg os v e dis specs classes d ec r :
  fold_err (add_step validate_deployment_specification app dg os v e dis) (classes, d, ec) specs = inr r →
  (∀ n, n ∉ ds_name <$> filter (λ ds, targets (target_workloads app) (ds_name ds) = true) specs →
        od_get r.1.1 n = od_get classes n) ∧
  (∀ n, is_Some (od_get classes n) → is_Some (od_get r.1.1 n)) ∧
  (∀ ds, ds ∈ specs → targets (target_workloads app) (ds_name ds) = true → is_Some (od_get r.1.1 (ds_name ds))).
Proof.
  revert classes d ec. induction specs as [|ds specs IH]; intros classes d ec; cbn [fold_err].
  { intros [= <-]. split_and!; [done|done|set_solver]. }
  destruct (add_step validate_deployment_specification app dg os v e dis (classes, d, ec) ds) as [e'|[[c1 d1] ec1]] eqn:Hs; [intros ?; congruence|].
  intros Hf. apply add_step_classes in Hs. destruct (IH _ _ _ Hf) as (IH1 & IH2 & IH3).
  rewrite filter_cons. destruct (targets _ (ds_name ds)) eqn:Ht; cbn in Hs.
  - destruct Hs as [Hne Hin]. rewrite decide_True by done. split_and!.
    + intros n Hn. rewrite IH1 by set_solver. apply Hne. set_solver.
    + intros n Hn. apply IH2. destruct (decide (n = ds_name ds)) as [->|]; [done|by rewrite Hne].
    + intros ds' [->|Hds']%elem_of_cons Ht'; [by apply IH2|by apply IH3].
  - subst c1. rewrite decide_False by done. split_and!; [done|done|].
    intros ds' [->|Hds']%elem_of_cons Ht'; [congruence|by apply IH3].
Qed.

(** C13. [add] changes only the server classes of the specifications the
    app targets and keeps the repository, its path, the [validate] flag
    and the installed-packages index; when the dependency graph was built
    without error, every targeted server class is in the result (created
    from its specification when it was missing). *)
Theorem add_classes col app specs target_os is_external disable d col' d' :
  add dependency_sources populate_dependency_sources validate_deployment_specification col app specs target_os is_external disable d = inr (col', d') →
  col_repository col' = col_repository col ∧ col_repository_path col' = col_repository_path col ∧
  col_validate col' = col_validate col ∧ col_installed_packages col' = col_installed_packages col ∧
  (∀ n, n ∉ ds_name <$> filter (λ ds, targets (target_workloads app) (ds_name ds) = true) specs →
        od_get (col_classes col') n = od_get (col_classes col) n) ∧
  (error_count (dependency_graph (graph_env dependency_sources populate_dependency_sources app (col_repository_path col) (col_installed_packages col) target_os) d).2 = 0 →
   ∀ ds, ds ∈ specs → targets (target_workloads app) (ds_name ds) = true →
         is_Some (od_get (col_classes col') (ds_name ds))).
Proof.
  unfold add. destruct (dependency_graph _ d) as [dg d1]. cbn [snd].
  case_decide as Hd; [intros [= <- <-]; split_and!; done|].
  destruct (fold_err _ _ specs) as [e|[[classes d2] ec]] eqn:Hf; [done|]. intros [= <- <-].
  destruct (add_loop_classes _ _ _ _ _ _ _ _ _ _ _ Hf) as (H1 & _ & H3). cbn in *.
  split_and!; [done..| |]; [exact H1|]. intros _. exact H3.
Qed.

(** C25. [add] compares the log with a stale copy of the error count:
    the copy is updated only when a server class is skipped, so an error
    logged after the graph check of a class (by
    [validate_deployment_specification] on a dependency) leaves the log
    ahead of the copy, and the next server class the app targets is
    skipped whatever its own graph logs: it is created when missing and
    otherwise left as it is, without the app. *)
Theorem add_skips_after_validation_error app dg os v e dis classes d ec ds :
  ec < error_count d → targets (target_workloads app) (ds_name ds) = true →
  ∃ d', diag_le d d' ∧
    add_step validate_deployment_specification app dg os v e dis (classes, d, ec) ds =
      inr (match od_get classes (ds_name ds) with
           | Some _ => classes
           | None => od_set classes (ds_name ds) (from_deployment_specification (ds_name ds) (ds_workload ds))
           end, d', error_count d').
Proof.
  intros Hec Ht. unfold add_step. rewrite Ht. cbn [negb].
  destruct (od_get classes (ds_name ds)) as [sc|]; cbn zeta;
    [pose proof (ig_from_dependency_graph_log (ds_name ds) (sc_workload sc) (sc_apps sc) dg os v e d) as Hle
    |pose proof (ig_from_dependency_graph_log (ds_name ds) (ds_workload ds) ig_empty dg os v e d) as Hle];
    destruct (ig_from_dependency_graph _ _ _ _ _ _ _ _) as [g d1]; cbn in Hle;
    rewrite decide_True by (apply diag_le_errors in Hle; lia); by exists d1.
Qed.

(** ** [update_app] *)

Section Quiet.
(** An installation graph whose construction logs no error. *)
Hypothesis from_dependency_graph_quiet : ∀ n w a dg os v e d,
  d_errors (ig_from_dependency_graph n w a dg os v e d).2 = d_errors d.

Lemma update_app_loop_classes app dg os v d0 classes d :
  (update_app_loop app dg os v classes d (error_count d)).1 =
    (λ e : string * ServerClass, (e.1,
       if installed e.2 (src_id app) || negb (targets (target_workloads app) e.1)
       then sc_update_installation e.2 (ig_from_dependency_graph e.1 (sc_workload e.2) (sc_apps e.2) dg os v false d0).1 false
       else e.2)) <$> classes.
Proof.
  revert d. induction classes as [|[name sc] classes IH]; intros d; [done|].
  cbn [update_app_loop]. rewrite fmap_cons. cbn [fst snd]. unfold update_app_class.
  destruct (negb (installed sc (src_id app)) && targets (target_workloads app) name) eqn:Hskip.
  - apply andb_true_iff in Hskip as [Hn Ht]. rewrite <- error_count_log_warning with (m := MsgAppNotTargeted (src_id app) name).
    destruct (update_app_loop _ _ _ _ _ _ _) as [rest' d''] eqn:E. cbn.
    rewrite <- (IH (log_warning (MsgAppNotTargeted (src_id app) name) d)), E.
    destruct (installed _ _); [done|]. by rewrite Ht.
  - rewrite (ig_from_dependency_graph_graph _ _ _ _ _ _ _ d0 d).
    destruct (ig_from_dependency_graph name _ _ _ _ _ _ d) as [g d1] eqn:Hg.
    assert (Hc : error_count d1 = error_count d).
    { pose proof (from_dependency_graph_quiet name (sc_workload sc) (sc_apps sc) dg os v false d) as Hq.
      rewrite Hg in Hq. unfold error_count. cbn in Hq. by rewrite Hq. }
    rewrite decide_False by lia. rewrite <- Hc.
    destruct (update_app_loop _ _ _ _ _ _ _) as [rest' d''] eqn:E. cbn.
    rewrite <- (IH d1), E. cbn.
    destruct (installed _ _), (targets _ _); cbn in *; done.
Qed.

(** C11. [update_app] rebuilds the installation graph of every server
    class that has the app or that the app does not target, and leaves
    only the targeted server classes without the app alone (the spec,
    section 4.3, says it rebuilds those that have the app or that it
    targets).  Stated for an installation graph whose construction logs
    no error and a dependency graph built without error. *)
Theorem update_app_rebuilds col app target_os d dg d1 :
  dependency_graph (graph_env dependency_sources populate_dependency_sources app (col_repository_path col) (col_installed_packages col) target_os) d = (dg, d1) →
  error_count d1 = 0 →
  col_classes (update_app dependency_sources populate_dependency_sources col app target_os d).1 =
    (λ e : string * ServerClass, (e.1,
       if installed e.2 (src_id app) || negb (targets (target_workloads app) e.1)
       then sc_update_installation e.2
              (ig_from_dependency_graph e.1 (sc_workload e.2) (sc_apps e.2) dg target_os (col_validate col) false d1).1 false
       else e.2)) <$> col_classes col.
Proof.
  intros Hdg H0. unfold update_app. rewrite Hdg. rewrite decide_False by lia.
  pose proof (update_app_loop_classes app dg target_os (col_validate col) d1 (col_classes col) d1) as E.
  rewrite H0 in E. destruct (update_app_loop _ _ _ _ _ _ _) as [classes d2]. exact E.
Qed.

End Quiet.

End Add.

(** ** [remove_app] *)

(** What [AppServerClass.remove_app] leaves of a server class [sc]: the
    same class when the app is not installed, the class without the app
    when nothing requires it, the same class and a reported error when
    other apps require it. *)
Definition removal_outcome (app_id : string) (sc sc' : ServerClass) (d : Diag) : Prop :=
  sc_name sc' = sc_name sc ∧ sc_workload sc' = sc_workload sc ∧
  match ig_get (sc_apps sc) app_id with
  | None => sc' = sc
  | Some x =>
      if decide (inst_dependents x = []) then app_id ∉ ig_ids (sc_apps sc')
      else sc' = sc ∧ MsgStillRequired app_id (inst_dependents x) ∈ d_errors d
  end.

Lemma removal_outcome_le app_id sc sc' d d' :
  removal_outcome app_id sc sc' d → diag_le d d' → removal_outcome app_id sc sc' d'.
Proof.
  intros (Hn & Hw & Ho) (e & w & m & o & He & _). split_and!; [done|done|].
  destruct (ig_get _ _); [|done]. case_decide; [done|]. rewrite He. set_solver.
Qed.

Lemma removal_outcome_trans app_id sc sc1 sc2 d :
  removal_outcome app_id sc sc1 d → removal_outcome app_id sc1 sc2 d → removal_outcome app_id sc sc2 d.
Proof.
  intros (Hn1 & Hw1 & Ho1) (Hn2 & Hw2 & Ho2).
  split_and!; [congruence|congruence|].
  destruct (ig_get (sc_apps sc) app_id) as [x|] eqn:Hx; [case_decide|].
  - apply ig_get_None in Ho1 as Hno. rewrite Hno in Ho2. by subst.
  - destruct Ho1 as [-> Hm]. rewrite Hx, decide_False in Ho2 by done. naive_solver.
  - subst sc1. by rewrite Hx in Ho2.
Qed.

Lemma diag_le_still_required app_id deps d :
  diag_le d (set_status StatusDependencyRequired (set_dependency_requirements deps
               (log_error (MsgStillRequired app_id deps) d))).
Proof. exists [MsgStillRequired app_id deps], [], [], []. by rewrite !app_nil_r. Qed.

Lemma remove_app_step_spec app_id classes found d n :
  n ∈ od_keys classes →
  ∃ classes' found' d', remove_app_step app_id (classes, found, d) n = inr (classes', found', d') ∧
    diag_le d d' ∧ (∀ m, m ≠ n → od_get classes' m = od_get classes m) ∧
    (∀ sc, od_get classes n = Some sc → ∃ sc', od_get classes' n = Some sc' ∧ removal_outcome app_id sc sc' d') ∧
    (∀ sc, od_get classes n = Some sc → app_id ∉ ig_ids (sc_apps sc) → classes' = classes ∧ found' = found ∧ d' = d) ∧
    (found = true → found' = true).
Proof.
  intros Hn. destruct (od_get classes n) as [sc|] eqn:Hsc; [|by apply od_get_None in Hsc].
  unfold remove_app_step. rewrite Hsc. case_decide as Hin.
  - destruct (sc_remove_app_spec sc app_id d) as (sc' & d' & Hr & Hname & Hwl & Ho). rewrite Hr.
    eexists _, _, _. split; [done|].
    destruct (ig_get (sc_apps sc) app_id) as [x|] eqn:Hx; [|by apply ig_get_None in Hx].
    assert (Hd : diag_le d d').
    { case_decide; [destruct Ho as (_ & _ & ->); apply diag_le_refl|destruct Ho as [_ ->]; apply diag_le_still_required]. }
    split_and!; [done|intros m Hm; by rewrite od_get_set_ne| |naive_solver|done].
    intros ? [= <-]. exists sc'. rewrite od_get_set_eq. split; [done|]. split_and!; [done|done|].
    rewrite Hx. case_decide; [naive_solver|]. destruct Ho as [-> ->]. split; [done|]. cbn. set_solver.
  - eexists _, _, _. split; [done|]. split_and!; [apply diag_le_refl|done| |done|done].
    intros ? [= <-]. exists sc. split; [done|]. split_and!; [done|done|].
    apply ig_get_None in Hin. by rewrite Hin.
Qed.

Lemma remove_app_loop app_id names : ∀ classes found d,
  (∀ n, n ∈ names → n ∈ od_keys classes) →
  ∃ classes' found' d', fold_err (remove_app_step app_id) (classes, found, d) names = inr (classes', found', d') ∧
    diag_le d d' ∧
    (∀ n, n ∉ names → od_get classes' n = od_get classes n) ∧
    (∀ n sc, n ∈ names → od_get classes n = Some sc →
       ∃ sc', od_get classes' n = Some sc' ∧ removal_outcome app_id sc sc' d') ∧
    ((∀ n sc, n ∈ names → od_get classes n = Some sc → app_id ∉ ig_ids (sc_apps sc)) →
       classes' = classes ∧ found' = found ∧ d' = d).
Proof.
  induction names as [|n rest IH]; intros classes found d Hk; cbn [fold_err].
  { eexists _, _, _. split_and!; [done|apply diag_le_refl|done|set_solver|done]. }
  destruct (remove_app_step_spec app_id classes found d n) as (c1 & f1 & d1 & Hs & Hle1 & S2 & S3 & S4 & _);
    [set_solver|]. rewrite Hs.
  destruct (IH c1 f1 d1) as (c' & f' & d' & Hf & Hle & I2 & I3 & I4).
  { intros m Hm. apply elem_of_od_keys_get. destruct (decide (m = n)) as [->|Hmn].
    - destruct (od_get classes n) as [sc|] eqn:Hsc; [by destruct (S3 sc eq_refl) as (? & -> & _)|].
      exfalso. apply od_get_None in Hsc. apply Hsc, Hk. set_solver.
    - rewrite S2 by done. apply elem_of_od_keys_get, Hk. set_solver. }
  exists c', f', d'. split_and!; [done|by eapply diag_le_trans| | |].
  - intros m Hm. rewrite I2 by set_solver. apply S2. set_solver.
  - intros m sc Hm Hsc. destruct (decide (m = n)) as [->|Hmn].
    + destruct (S3 sc Hsc) as (sc1 & Hsc1 & Ho1). destruct (decide (n ∈ rest)) as [Hr|Hr].
      * destruct (I3 n sc1 Hr Hsc1) as (sc2 & Hsc2 & Ho2). exists sc2. split; [done|].
        eapply removal_outcome_trans; [|done]. by eapply removal_outcome_le.
      * exists sc1. rewrite I2 by done. split; [done|]. by eapply removal_outcome_le.
    + apply I3; [set_solver|]. by rewrite S2.
  - intros Hnone. destruct (od_get classes n) as [sc|] eqn:Hsc.
    + destruct (S4 sc eq_refl) as (-> & -> & ->); [apply (Hnone n); [set_solver|done]|].
      apply I4. intros m sc' Hm Hsc'. apply (Hnone m sc'); [set_solver|done].
    + exfalso. apply od_get_None in Hsc. apply Hsc, Hk. set_solver.
Qed.

(** C12. [AppServerClassCollection.remove_app] over server classes of the
    collection never raises: the server classes it is not given are
    unchanged, each one it is given ends as [AppServerClass.remove_app]
    leaves it (the app removed, or kept and reported when other apps
    require it), and when none of them has the app the classes are
    unchanged and the warning that the app has not been installed is
    the only message logged. *)
Theorem remove_app_spec classes app_id names d :
  (∀ n, n ∈ names → n ∈ od_keys classes) →
  ∃ classes' d', remove_app classes app_id names d = inr (classes', d') ∧
    (∀ n, n ∉ names → od_get classes' n = od_get classes n) ∧
    (∀ n sc, n ∈ names → od_get classes n = Some sc →
       ∃ sc', od_get classes' n = Some sc' ∧ removal_outcome app_id sc sc' d') ∧
    ((∀ n sc, n ∈ names → od_get classes n = Some sc → app_id ∉ ig_ids (sc_apps sc)) →
       classes' = classes ∧ d' = log_warning (MsgNotInstalled app_id) d).
Proof.
  intros Hk. destruct (remove_app_loop app_id names classes false d Hk) as (c' & f' & d' & Hf & _ & H1 & H2 & H3).
  unfold remove_app. rewrite Hf. eexists _, _. split; [done|]. split_and!; [done| |].
  - intros n sc Hn Hsc. destruct (H2 n sc Hn Hsc) as (sc' & ? & ?). exists sc'. split; [done|].
    destruct f'; [done|]. eapply removal_outcome_le; [done|apply diag_le_log_warning].
  - intros Hnone. by destruct (H3 Hnone) as (-> & -> & ->).
Qed.

(** ** The [set] action *)

Lemma removal_list_keys classes app_id specs n :
  n ∈ removal_list classes app_id specs → n ∈ od_keys classes.
Proof.
  unfold removal_list, od_keys. intros [_ Hn]%list_elem_of_filter.
  apply list_elem_of_fmap in Hn as (e & -> & He). apply list_elem_of_filter in He as [_ He].
  apply list_elem_of_fmap. by exists e.
Qed.

Lemma removal_list_complete classes app_id specs n sc :
  od_get classes n = Some sc → installed sc app_id = true → n ∉ ds_name <$> specs →
  n ∈ removal_list classes app_id specs.
Proof.
  intros Hsc Hi Hn. unfold removal_list, od_keys. apply list_elem_of_filter. split; [done|].
  apply list_elem_of_fmap. exists (n, sc). split; [done|]. apply list_elem_of_filter.
  split; [done|]. by apply od_get_Some_in.
Qed.

Section SetAction.
Variable dependency_sources : AppSource → gmap string AppSource.
Variable populate_dependency_sources : AppSource → string → list (string * string) → gmap string AppSource.
Variable validate_deployment_specification : AppSource → DeploymentSpecification → Diag → Diag.
Variable load_app : string → Diag → AppSource * Diag.
Variable configuration_repository_path : string.

(** C10. A [set] action that completes without any error leaves the app
    on no server class outside the new specifications: those it was on
    are emptied of it before the app is added to the new targets
    (section 4.3 of the spec), and [add] touches no other class. *)
Theorem set_removes_untargeted col action target_os disable d col' d' app d1 specs d2 :
  act_action action = "set" →
  load_app (path_join configuration_repository_path (act_app_package action)) d = (app, d1) →
  AppDeploymentSpecification.get_deployment_specifications (act_deployment_packages action)
    (act_combine action) (act_workloads action) d1 = Some (specs, d2) →
  update_installation dependency_sources populate_dependency_sources validate_deployment_specification
    load_app configuration_repository_path col action target_os disable d = inr (col', d') →
  error_count d' = 0 →
  ∀ n sc, od_get (col_classes col') n = Some sc → n ∉ ds_name <$> specs →
          ig_get (sc_apps sc) (src_id app) = None.
Proof.
  intros Hset Hload Hspecs. unfold update_installation. rewrite Hset.
  rewrite decide_False, decide_True by (try right; done). rewrite Hload.
  destruct (decide (error_count d1 ≠ 0)) as [|Hd1]; [intros [= <- <-]; done|]. rewrite Hspecs.
  destruct (decide (error_count d2 ≠ 0)) as [|Hd2]; [intros [= <- <-]; done|]. rewrite decide_True by done.
  destruct (remove_app_spec (col_classes col) (src_id app) (removal_list (col_classes col) (src_id app) specs) d2)
    as (classes1 & d3 & Hr & R1 & R2 & _); [apply removal_list_keys|]. rewrite Hr.
  destruct (decide (error_count d3 ≠ 0)) as [|Hd3]; [intros [= <- <-]; done|]. intros Hadd Hd' n sc Hsc Hn.
  destruct (add_classes dependency_sources populate_dependency_sources validate_deployment_specification
              _ _ _ _ _ _ _ _ _ Hadd) as (_ & _ & _ & _ & A & _).
  rewrite A in Hsc; cbn in Hsc; [|intros Hin; apply Hn; apply list_elem_of_fmap in Hin as (ds & -> & Hds);
                                  apply list_elem_of_filter in Hds as [_ Hds]; by apply list_elem_of_fmap_2].
  destruct (decide (n ∈ removal_list (col_classes col) (src_id app) specs)) as [Hrl|Hrl].
  - destruct (od_get (col_classes col) n) as [sc0|] eqn:Hsc0;
      [|by apply removal_list_keys, elem_of_od_keys_get in Hrl as [? ?]; congruence].
    destruct (R2 n sc0 Hrl Hsc0) as (sc1 & Hsc1 & _ & _ & Ho). rewrite Hsc in Hsc1. injection Hsc1 as <-.
    destruct (ig_get (sc_apps sc0) (src_id app)) as [x|] eqn:Hx; [|by subst].
    case_decide; [by apply ig_get_None|]. destruct Ho as [_ Hm].
    exfalso. apply Hd3. unfold error_count. destruct (d_errors d3); [set_solver|]. cbn. lia.
  - rewrite R1 in Hsc by done. destruct (ig_get (sc_apps sc) (src_id app)) eqn:Hg; [|done].
    exfalso. apply Hrl. apply (removal_list_complete _ _ _ _ sc); [done| |done].
    unfold installed. rewrite Hg. by apply bool_decide_eq_true.
Qed.

End SetAction.

End Props.

(** * Examples *)

Module ServerCollectionExamples.
Import ListGraph.

#[export] Instance ex_graph : AppInstallationGraph (list AppInstallation) := list_graph (λ _, false).
#[export] Instance ex_graph_laws : AppInstallationGraphLaws (list AppInstallation) := list_graph_laws _.

Definition v1 : SemVer.Version := SemVer.mkVersion 1 0 0.
(** App [a] targets the server class [fwd]; [a_all] is the same app
    targeting every workload. *)
Definition app_a : AppSource := mkAppSource "a.tgz" "a" None v1 true (Some []) None (Some ["fwd"]).
Definition app_a_all : AppSource := mkAppSource "a.tgz" "a" None v1 true (Some []) None None.
Definition inst_a : AppInstallation := mkInstallation "a" "a.tgz" [] false.
Definition fwd_class : AppServerClass (list AppInstallation) := mkServerClass "fwd" {["forwarder"]} [inst_a].
Definition idx_class : AppServerClass (list AppInstallation) := mkServerClass "idx" {["indexer"]} [].
Definition ex_col : Collection (list AppInstallation) :=
  mkCollection [("fwd", fwd_class); ("idx", idx_class)] [] "/repo" true [].
Definition empty_col : Collection (list AppInstallation) := mkCollection [] [] "/repo" true [].

Definition no_sources (_ : AppSource) : gmap string AppSource := ∅.
Definition no_repository (_ : AppSource) (_ : string) (_ : list (string * string)) : gmap string AppSource := ∅.
Definition no_validation (_ : AppSource) (_ : DeploymentSpecification) (d : Diag) : Diag := d.
(** A source whose specification named [x] is invalid. *)
Definition validate_x (s : AppSource) (spec : DeploymentSpecification) (d : Diag) : Diag :=
  if decide (ds_name spec = "x") then log_error (MsgInvalidSpecification (src_id s) "x") d else d.
Definition spec_of (name : string) : DeploymentSpecification := mkSpec name {["forwarder"]} None.

Definition ex_env : GraphEnv := graph_env no_sources no_repository app_a "/repo" [] "*".

Definition add_xy := add no_sources no_repository validate_x empty_col app_a_all [spec_of "x"; spec_of "y"] "*" false false diag0.
Definition add_xy_col := match add_xy with inr (c, _) => c | inl _ => empty_col end.
Definition add_xy_diag := match add_xy with inr (_, d) => d | inl _ => diag0 end.

(** [update_app] installs the app on a server class that neither has
    it nor is targeted by it: [idx] gets [a], which targets only [fwd]. *)
Example update_app_installs_untargeted :
  od_get (col_classes (update_app no_sources no_repository ex_col app_a "*" diag0).1) "idx" =
    Some (mkServerClass "idx" {["indexer"]} [inst_a]).
Proof. vm_compute. reflexivity. Qed.

End ServerCollectionExamples.

Module ServerCollectionWitnesses.
Import ListGraph ServerCollectionExamples.

Definition inst_b : AppInstallation := mkInstallation "b" "b.tgz" ["a"] true.

Lemma remove_empty_spec_witness :
  ∃ g', remove_empty [inst_a; inst_b] ["b"; "a"] = inr g' ∧
    (∀ i, i ∈ ["b"; "a"] → i ∉ ig_ids g') ∧ ig_ids g' ⊆ ig_ids [inst_a; inst_b].
Proof. apply (remove_empty_spec [inst_a; inst_b] ["b"; "a"]). Defined.

Definition diag_err : Diag := log_error (MsgUnknownAction "x") diag0.

Lemma add_aborts_witness :
  error_count diag_err ≠ 0 ∧
  add no_sources no_repository no_validation ex_col app_a [spec_of "fwd"] "*" false false diag_err =
    inr (ex_col, (dependency_graph ex_env diag_err).2).
Proof.
  split; [vm_compute; discriminate|].
  apply (add_aborts no_sources no_repository no_validation ex_col app_a [spec_of "fwd"] "*" false false diag_err).
  vm_compute. discriminate.
Defined.

Lemma add_no_recursion_error_witness :
  add no_sources no_repository validate_x empty_col app_a_all [spec_of "x"; spec_of "y"] "*" false false diag0
    ≠ inl RecursionError.
Proof. apply add_no_recursion_error. Defined.

Lemma add_classes_witness :
  add_xy = inr (add_xy_col, add_xy_diag) ∧
  od_get (col_classes add_xy_col) "z" = od_get (col_classes empty_col) "z" ∧
  is_Some (od_get (col_classes add_xy_col) "y").
Proof.
  assert (E : add_xy = inr (add_xy_col, add_xy_diag)) by (vm_compute; reflexivity).
  destruct (add_classes no_sources no_repository validate_x empty_col app_a_all _ "*" false false diag0 _ _ E)
    as (_ & _ & _ & _ & H1 & H2).
  split_and!; [done|apply H1; compute_done|].
  apply (H2 ltac:(vm_compute; reflexivity) (spec_of "y")); [compute_done|vm_compute; reflexivity].
Defined.

(** The server classes and the log after the step of [add] for [x]:
    the app is installed on [x] and validating its source logged an error
    that the copy of the count does not hold. *)
Definition add_x_step :=
  add_step validate_x app_a_all (dependency_graph (graph_env no_sources no_repository app_a_all "/repo" [] "*") diag0).1
    "*" true false false ([], diag0, 0) (spec_of "x").

Lemma add_skips_after_validation_error_witness :
  (0 < error_count (match add_x_step with inr r => r.1.2 | inl _ => diag0 end) ∧
   targets (target_workloads app_a_all) (ds_name (spec_of "y")) = true) ∧
  ∃ d', diag_le (match add_x_step with inr r => r.1.2 | inl _ => diag0 end) d' ∧
    add_step validate_x app_a_all (dependency_graph (graph_env no_sources no_repository app_a_all "/repo" [] "*") diag0).1
      "*" true false false
      (match add_x_step with inr r => r.1.1 | inl _ => [] end, match add_x_step with inr r => r.1.2 | inl _ => diag0 end, 0)
      (spec_of "y") =
    inr (match od_get (match add_x_step with inr r => r.1.1 | inl _ => [] end) (ds_name (spec_of "y")) with
         | Some _ => match add_x_step with inr r => r.1.1 | inl _ => [] end
         | None => od_set (match add_x_step with inr r => r.1.1 | inl _ => [] end) (ds_name (spec_of "y"))
                     (from_deployment_specification (ds_name (spec_of "y")) (ds_workload (spec_of "y")))
         end, d', error_count d').
Proof.
  split; [split; vm_compute; [lia|reflexivity]|].
  apply (@add_skips_after_validation_error (list AppInstallation) ex_graph ex_graph_laws validate_x); vm_compute;
    [lia|reflexivity].
Defined.

Lemma update_app_rebuilds_witness :
  error_count (dependency_graph ex_env diag0).2 = 0 ∧
  col_classes (update_app no_sources no_repository ex_col app_a "*" diag0).1 =
    [("fwd", mkServerClass "fwd" {["forwarder"]} [inst_a]); ("idx", mkServerClass "idx" {["indexer"]} [inst_a])].
Proof.
  split; [vm_compute; reflexivity|].
  rewrite (@update_app_rebuilds (list AppInstallation) ex_graph ex_graph_laws no_sources no_repository (λ _ _ _ _ _ _ _ _, eq_refl) ex_col app_a "*" diag0
             _ _ (surjective_pairing _)) by (vm_compute; reflexivity).
  vm_compute. reflexivity.
Defined.

Lemma remove_app_spec_witness :
  ∃ classes' d', remove_app (col_classes ex_col) "a" ["fwd"; "idx"] diag0 = inr (classes', d') ∧
    (∀ n, n ∉ ["fwd"; "idx"] → od_get classes' n = od_get (col_classes ex_col) n) ∧
    (∀ n sc, n ∈ ["fwd"; "idx"] → od_get (col_classes ex_col) n = Some sc →
       ∃ sc', od_get classes' n = Some sc' ∧ removal_outcome "a" sc sc' d') ∧
    ((∀ n sc, n ∈ ["fwd"; "idx"] → od_get (col_classes ex_col) n = Some sc → "a" ∉ ig_ids (sc_apps sc)) →
       classes' = col_classes ex_col ∧ d' = log_warning (MsgNotInstalled "a") diag0).
Proof. apply remove_app_spec. apply Forall_forall. compute_done. Defined.

Definition set_action : Action := mkAction "set" "set" "a" "a.tgz" [spec_of "idx"] false (Some []) false.
Definition load_a (_ : string) (d : Diag) : AppSource * Diag := (app_a, d).
Definition set_specs : list DeploymentSpecification :=
  default [] (fst <$> AppDeploymentSpecification.get_deployment_specifications [spec_of "idx"] false (Some []) diag0).
Definition set_result :=
  update_installation no_sources no_repository no_validation load_a "/repo" ex_col set_action "*" false diag0.
Definition set_col := match set_result with inr (c, _) => c | inl _ => ex_col end.
Definition set_diag := match set_result with inr (_, d) => d | inl _ => diag0 end.

Lemma set_removes_untargeted_witness :
  set_result = inr (set_col, set_diag) ∧ error_count set_diag = 0 ∧
  ig_get (sc_apps (default fwd_class (od_get (col_classes set_col) "fwd"))) "a" = None.
Proof.
  assert (E : set_result = inr (set_col, set_diag)) by (vm_compute; reflexivity).
  assert (H0 : error_count set_diag = 0) by (vm_compute; reflexivity).
  split_and!; [done|done|].
  refine (set_removes_untargeted no_sources no_repository no_validation load_a "/repo" ex_col set_action "*" false
            diag0 set_col set_diag app_a diag0 set_specs diag0 eq_refl eq_refl _ E H0 "fwd" _ _ _).
  - vm_compute. reflexivity.
  - vm_compute. reflexivity.
  - compute_done.
Defined.

End ServerCollectionWitnesses.

End ServerCollection.
