(* ===== verification/Partition.v ===== *)
(** * Partitioning an app for its server classes

    src/slim/app/_server_class.py: [AppServerClassCollection.partition]
    (lines 455-484) and [AppServerClassUpdate.save] (lines 576-617).  For
    each server class that has the app and that the app targets,
    [describe_app] gives an [AppServerClassUpdate] and [save] writes its
    archive: with [partition_all], one tar archive holding the
    sub-package of every installation that produced one (each sub-package
    file removed once added), renamed into place, or removed when it holds
    none; without it, the package of the app's own installation.  [save]
    records an installation action in the payload; [partition] writes the
    actions to [installation-actions.json] when it produced a package.  The
    file operations are a trace of [FsOp] steps in the order the code runs
    them; [installation.partition(output_dir)], [mkstemp], the app's
    [package_prefix] and [path.abspath] are the Section's variables. *)

From stdpp Require Import base list gmap strings sets.
From S2P Require Import Prelude AppSource PathOps InstallationGraph ServerClass ServerCollection.

Module Partition.
Import InstallationGraph ServerClass ServerCollection PathOps.

(** The file-system steps of [save] and [partition]. *)
Inductive FsOp :=
| OpMkstemp (path : string)                 (** [mkstemp(dir=output_dir)] *)
| OpTarAdd (name arcname : string)          (** [package.add(name, arcname=...)] *)
| OpRemove (path : string)                  (** [os.remove(path)] *)
| OpRename (src dst : string)               (** [os.rename(src, dst)] *)
| OpWriteActions (path : string) (actions : list (string * option (list string) * option string)).
      (** [installation-actions.json] with the payload's actions *)

Section Partition.
Context `{AppInstallationGraph IG}.

Abbreviation ServerClass := (AppServerClass IG).

(** [installation.partition(output_dir)]: the sub-package written, if any. *)
Variable installation_partition : AppInstallation → option string.
(** [app_source.package_prefix] *)
Variable package_prefix : AppSource → string.
(** The [package_name] of [mkstemp(dir=output_dir)]. *)
Variable mkstemp : string → string.
(** [path.abspath] *)
Variable abspath : string → string.

(** [if sub_package_name:] *)
Definition sub_package (installation : AppInstallation) : option string :=
  match installation_partition installation with
  | Some name => if bool_decide (name ≠ "") then Some name else None
  | None => None
  end.

(** One round of the loop over the additions (lines 598-604). *)
Definition save_sub_package (arcname : string) (acc : nat * list FsOp) (installation : AppInstallation)
    : nat * list FsOp :=
  let '(count, ops) := acc in
  match sub_package installation with
  | Some name => (S count, ops ++ [OpTarAdd name (path_join arcname (basename name)); OpRemove name])
  | None => (count, ops)
  end.

(** The archive [AppServerClassUpdate.save] writes (lines 584-615): its
    path, if any, and the file steps. *)
Definition save_archive (sc : ServerClass) (additions : option (list AppInstallation))
    (app : AppSource) (output_dir : string) (partition_all : bool) : option string * list FsOp :=
  match additions with
  | None => (None, [])
  | Some installations =>
      let arcname := package_prefix app +:+ "-" +:+ sc_name sc in
      if partition_all then
        let package_name := mkstemp output_dir in
        let '(count, ops) := foldl (save_sub_package arcname) (0, [OpMkstemp package_name]) installations in
        if bool_decide (count = 0) then (None, ops ++ [OpRemove package_name])
        else
          let add := abspath (path_join output_dir (arcname +:+ ".tar.gz")) in
          (Some add, ops ++ [OpRename package_name add])
      else
        match list_find (λ i, inst_id i = src_id app) installations with
        | Some (_, i) => (installation_partition i, [])
        | None => (None, [])
        end
  end.

(** [AppServerClassUpdate(server_class, removals, additions).save(app_source,
    output_dir, partition_all)] (lines 582-623): the archive, then the
    installation action recorded in the payload. *)
Definition update_save (sc : ServerClass) (removals additions : option (list AppInstallation))
    (app : AppSource) (output_dir : string) (partition_all : bool) (d : Diag)
    : option string * list FsOp * Diag :=
  let remove := match removals with Some l => Some (inst_id <$> l) | None => None end in
  let '(add, ops) := save_archive sc additions app output_dir partition_all in
  (add, ops, add_installation_action (sc_name sc) remove add d).

(** One round of the loop of [partition] (lines 463-478). *)
Definition partition_step (app : AppSource) (output_dir : string) (partition_all : bool)
    (acc : list string * list FsOp * Diag) (e : string * ServerClass) : list string * list FsOp * Diag :=
  let '(packages, ops, d) := acc in
  let '(name, sc) := e in
  let tw := target_workloads app in
  match describe_app sc (src_id app) with
  | None => (packages, ops, if bool_decide (("*" ∉ tw) ∧ name ∈ tw) then log_warning (MsgNotTargetedWorkload name) d else d)
  | Some installations =>
      if bool_decide (("*" ∉ tw) ∧ (name ∉ tw)) then (packages, ops, log_warning (MsgNonTargeted name) d)
      else
        let '(package, ops', d') := update_save sc None (Some installations) app output_dir partition_all d in
        match package with
        | None => (packages, ops ++ ops', log_warning (MsgNotTargetedWorkload name) d')
        | Some p => (packages ++ [p], ops ++ ops', d')
        end
  end.

(** [partition(app_source, output_dir, partition_all)] (lines 455-484). *)
Definition partition (col : Collection IG) (app : AppSource) (output_dir : string) (partition_all : bool)
    (d : Diag) : list string * list FsOp * Diag :=
  let '(packages, ops, d') := foldl (partition_step app output_dir partition_all) ([], [], d) (col_classes col) in
  if bool_decide (0 < length packages)
  then (packages, ops ++ [OpWriteActions (path_join output_dir "installation-actions.json") (d_installation_actions d')], d')
  else (packages, ops, d').

End Partition.

(** * Properties *)

Lemma targets_false tw name : targets tw name = false ↔ ("*" ∉ tw) ∧ (name ∉ tw).
Proof. unfold targets. rewrite bool_decide_eq_false. tauto. Qed.

Section PartitionProps.
Context `{AppInstallationGraph IG}.
Variable installation_partition : AppInstallation → option string.
Variable package_prefix : AppSource → string.
Variable mkstemp : string → string.
Variable abspath : string → string.

Abbreviation ServerClass := (AppServerClass IG).
Abbreviation sub := (sub_package installation_partition).

(** The steps of one sub-package: added to the archive under the class's
    directory, then removed. *)
Definition sub_package_ops (arcname name : string) : list FsOp :=
  [OpTarAdd name (path_join arcname (basename name)); OpRemove name].

Lemma save_sub_package_step arcname count ops x :
  save_sub_package installation_partition arcname (count, ops) x =
  match sub x with Some name => (S count, ops ++ sub_package_ops arcname name) | None => (count, ops) end.
Proof. done. Qed.

Lemma save_sub_package_loop arcname insts count ops :
  foldl (save_sub_package installation_partition arcname) (count, ops) insts =
  (count + length (omap sub insts), ops ++ concat (map (sub_package_ops arcname) (omap sub insts))).
Proof.
  revert count ops. induction insts as [|x insts IH]; intros count ops; cbn [foldl omap list_omap].
  { cbn. by rewrite Nat.add_0_r, app_nil_r. }
  rewrite save_sub_package_step. destruct (sub x) as [name|]; rewrite IH; cbn.
  - f_equal; [lia|]. by rewrite <- app_assoc.
  - done.
Qed.

(** C20. With [partition_all], [AppServerClassUpdate.save] puts into one
    archive exactly the sub-packages that the installations produced, in
    order, each under the class's directory and removed right after it
    is added; with none, it removes the temporary file and returns
    [None]; otherwise it renames the temporary file to the archive path
    and returns that path.  Either way it records one installation action
    naming the class and the archive. *)
Theorem update_save_partition_all (sc : ServerClass) insts app output_dir d :
  let arcname := package_prefix app +:+ "-" +:+ sc_name sc in
  let subs := omap sub insts in
  let add := if bool_decide (subs = []) then None
             else Some (abspath (path_join output_dir (arcname +:+ ".tar.gz"))) in
  update_save installation_partition package_prefix mkstemp abspath sc None (Some insts) app output_dir true d =
    (add,
     OpMkstemp (mkstemp output_dir) :: concat (map (sub_package_ops arcname) subs) ++
       [match add with None => OpRemove (mkstemp output_dir) | Some a => OpRename (mkstemp output_dir) a end],
     add_installation_action (sc_name sc) None add d).
Proof.
  cbn zeta. unfold update_save, save_archive. rewrite save_sub_package_loop. cbn [plus].
  destruct (omap sub insts) as [|s subs] eqn:Hsubs; cbn [length]; [done|].
  rewrite !bool_decide_false by (done || lia). by cbn.
Qed.

(** The classes [partition] saves for, with the archive of each: those
    that have the app and that it targets, in collection order. *)
Definition saved (app : AppSource) (output_dir : string) (partition_all : bool)
    (classes : list (string * ServerClass)) : list (ServerClass * (option string * list FsOp)) :=
  omap (λ e : string * ServerClass,
          if targets (target_workloads app) e.1
          then (λ insts, (e.2, save_archive installation_partition package_prefix mkstemp abspath e.2 (Some insts)
                                 app output_dir partition_all))
                 <$> describe_app e.2 (src_id app)
          else None) classes.

(** What a sequence of rounds of [partition] adds: the packages, the file
    steps and the installation actions of the classes it saves for. *)
Definition partition_adds (s : list (ServerClass * (option string * list FsOp)))
    (acc acc' : list string * list FsOp * Diag) : Prop :=
  acc'.1.1 = acc.1.1 ++ omap (λ x, x.2.1) s ∧
  acc'.1.2 = acc.1.2 ++ concat (map (λ x, x.2.2) s) ∧
  d_installation_actions acc'.2 = d_installation_actions acc.2 ++ map (λ x, (sc_name x.1, None, x.2.1)) s.

Lemma partition_step_adds app output_dir partition_all acc e :
  partition_adds (saved app output_dir partition_all [e]) acc
    (partition_step installation_partition package_prefix mkstemp abspath app output_dir partition_all acc e).
Proof.
  destruct acc as [[packages ops] d], e as [name sc]. unfold partition_step, saved, partition_adds.
  cbn -[save_archive].
  destruct (describe_app sc (src_id app)) as [insts|]; cbn -[save_archive].
  - destruct (targets _ name) eqn:Ht; cbn -[save_archive].
    + rewrite bool_decide_false by (rewrite <- targets_false; congruence).
      unfold update_save. destruct (save_archive _ _ _ _ _ _ _ _ _) as [[p|] o]; cbn; split_and!; by rewrite ?app_nil_r.
    + apply targets_false in Ht. rewrite bool_decide_true by done. cbn. split_and!; by rewrite ?app_nil_r.
  - destruct (targets _ name); cbn; (split_and!; [by rewrite ?app_nil_r..|]); by case_bool_decide; rewrite app_nil_r.
Qed.

Lemma partition_loop app output_dir partition_all classes acc :
  partition_adds (saved app output_dir partition_all classes) acc
    (foldl (partition_step installation_partition package_prefix mkstemp abspath app output_dir partition_all)
       acc classes).
Proof.
  revert acc. induction classes as [|e classes IH]; intros acc.
  { unfold partition_adds. cbn. by rewrite !app_nil_r. }
  cbn [foldl]. pose proof (partition_step_adds app output_dir partition_all acc e) as (H1 & H2 & H3).
  destruct (IH (partition_step installation_partition package_prefix mkstemp abspath app output_dir partition_all acc e))
    as (H1' & H2' & H3').
  change (e :: classes) with ([e] ++ classes). unfold saved in *. rewrite omap_app.
  unfold partition_adds. rewrite H1', H2', H3', H1, H2, H3, omap_app, map_app, concat_app, map_app.
  by rewrite <- !app_assoc.
Qed.

Lemma partition_result col app output_dir partition_all d :
  let s := saved app output_dir partition_all (col_classes col) in
  let '(packages, ops, d') :=
    partition installation_partition package_prefix mkstemp abspath col app output_dir partition_all d in
  packages = omap (λ x, x.2.1) s ∧
  d_installation_actions d' = d_installation_actions d ++ map (λ x, (sc_name x.1, None, x.2.1)) s ∧
  ops = concat (map (λ x, x.2.2) s) ++
        (if bool_decide (0 < length packages)
         then [OpWriteActions (path_join output_dir "installation-actions.json") (d_installation_actions d')]
         else []).
Proof.
  cbn zeta. unfold partition.
  pose proof (partition_loop app output_dir partition_all (col_classes col) ([], [], d)) as (H1 & H2 & H3).
  destruct (foldl _ _ _) as [[packages ops] d']. cbn in H1, H2, H3. subst packages ops.
  case_bool_decide; cbn; (split_and!; [done|done|]); case_bool_decide; try done; by rewrite app_nil_r.
Qed.

(** C19. [partition] records one installation action in the payload for
    each server class that has the app and that the app targets, in
    collection order, naming the class and its archive ([None] when
    [save] wrote none); it returns the archives that exist, in the same
    order; its file steps are those of the saves, in order, followed by
    the writing of [installation-actions.json] with all the payload's
    actions exactly when it returns a package (the spec: every add and
    remove is recorded as an installation action for audit). *)
Theorem partition_audit col app output_dir partition_all d :
  let s := saved app output_dir partition_all (col_classes col) in
  let '(packages, ops, d') :=
    partition installation_partition package_prefix mkstemp abspath col app output_dir partition_all d in
  packages = omap (λ x, x.2.1) s ∧
  d_installation_actions d' = d_installation_actions d ++ map (λ x, (sc_name x.1, None, x.2.1)) s ∧
  ops = concat (map (λ x, x.2.2) s) ++
        (if bool_decide (packages = []) then []
         else [OpWriteActions (path_join output_dir "installation-actions.json") (d_installation_actions d')]).
Proof.
  pose proof (partition_result col app output_dir partition_all d) as Hr. cbn zeta in *.
  destruct (partition _ _ _ _ _ _ _ _ _) as [[packages ops] d']. destruct Hr as (Hp & Ha & Ho).
  split_and!; [done|done|]. rewrite Ho. destruct packages; [done|]. by rewrite bool_decide_true by (cbn; lia).
Qed.

End PartitionProps.

End Partition.
