(* ===== verification/ConfExport.v ===== *)
(** * Writing the configuration of a deployment package

    src/slim/app/_deployment.py lines 688-705, the loop of
    [AppDeploymentPackage._export]: for every configuration file of the
    partition ([self._configuration]) and every file of it, the file
    [path.join(source, file_name)] is opened for writing (its directory
    created when [io.open] raises [ENOENT]) and gets, for each stanza, the
    header [[name]] with the newlines of the name escaped as
    backslash-newline, then one line per setting.  The file system is the
    record [FileSystem] (file contents and directories); an [IOError] other
    than [ENOENT] ends the loop and is returned with the file system as it
    is when it is raised.  The stanza headers are read back by the line
    reader of file_reader.py, which joins a line ending in backslash-newline
    with the next one: [stanza_header_read_back] shows that this gives back
    the stanza name. *)

From stdpp Require Import base list gmap strings sets.
From S2P Require Import Prelude PathOps DeploymentPackage FileReader.

Module ConfExport.
Import PathOps DeploymentPackage FileReader.

Definition lbracket : Ascii.ascii := Ascii.ascii_of_nat 91.
Definition rbracket : Ascii.ascii := Ascii.ascii_of_nat 93.

(** [s.replace('\n', '\\\n')] *)
Fixpoint escape_newlines (cs : list Ascii.ascii) : list Ascii.ascii :=
  match cs with
  | [] => []
  | c :: rest =>
      if decide (c = newline) then backslash :: newline :: escape_newlines rest
      else c :: escape_newlines rest
  end.

(** [print('[', stanza_name.replace('\n', '\\\n'), ']', file=ostream, sep='')] *)
Definition stanza_header (stanza_name : string) : list Ascii.ascii :=
  lbracket :: escape_newlines (chars stanza_name) ++ [rbracket; newline].

(** The lines iterating over a text stream yields: each ends with its
    newline, the last one may not.  (Reading splits at ['\n'] only; a
    ['\r'] in the text is not a line end here.) *)
Fixpoint lines_of (cs : list Ascii.ascii) : list Line :=
  match cs with
  | [] => []
  | c :: rest =>
      if decide (c = newline) then [c] :: lines_of rest
      else match lines_of rest with
           | [] => [[c]]
           | l :: ls => (c :: l) :: ls
           end
  end.

(** The state the export works on: the contents of the files and the
    directories that exist. *)
Record FileSystem := mkFS {
  fs_files : gmap string (list Ascii.ascii);
  fs_dirs : gset string;
}.

Definition ENOENT : nat := 2.
Definition EEXIST : nat := 17.

Section Export.
(** [string(setting)]: the text of a setting (the configuration classes are
    not under src/). *)
Variable setting_str : Setting → string.
(** The errno [io.open(file_name, mode='w')] raises on a file whose
    directory exists ([None] when it opens): permissions, a full disk. *)
Variable open_errno : string → option nat.

(** [print(string(stanza_info[setting_name]), file=ostream)] *)
Definition setting_line (s : Setting) : list Ascii.ascii := chars (setting_str s) ++ [newline].

(** The body of [with ostream:] (lines 700-705): each stanza's header, then
    its settings.  The keys of the partition's dicts are distinct, so going
    through the entries is going through the keys and looking them up. *)
Definition render_conf_file (file_info : list (string * list (string * Setting))) : list Ascii.ascii :=
  concat (map (λ stanza, stanza_header stanza.1 ++ concat (map (λ setting, setting_line setting.2) stanza.2))
            file_info).

(** The files the two loops write, in their order (lines 688-691):
    [path.join(source, file_name)] and its text. *)
Definition export_writes (source : string) (configuration : Partition) : list (string * list Ascii.ascii) :=
  concat (map (λ configuration_info,
                map (λ file_info, (path_join source file_info.1, render_conf_file file_info.2))
                  configuration_info.2)
            configuration).

(** [io.open(file_name, encoding='utf-8', mode='w', newline='')]: [ENOENT]
    when the directory is missing. *)
Definition io_open (fs : FileSystem) (file_name : string) : option nat :=
  if decide (dirname file_name ∈ fs_dirs fs) then open_errno file_name else Some ENOENT.

(** [os.makedirs(dir)] raises [FileExistsError] on a directory that exists. *)
Definition makedirs (fs : FileSystem) (dir : string) : nat + FileSystem :=
  if decide (dir ∈ fs_dirs fs) then inl EEXIST else inr (mkFS (fs_files fs) ({[dir]} ∪ fs_dirs fs)).

(** Opening in mode ['w'] truncates; the [with] block writes the text. *)
Definition write_file (fs : FileSystem) (file_name : string) (text : list Ascii.ascii) : FileSystem :=
  mkFS (<[file_name := text]> (fs_files fs)) (fs_dirs fs).

(** One file (lines 692-705): open it; on [ENOENT] create its directory and
    open it again; any other error is raised, with the file system as it is. *)
Definition export_file (fs : FileSystem) (w : string * list Ascii.ascii) : (nat * FileSystem) + FileSystem :=
  let '(file_name, text) := w in
  match io_open fs file_name with
  | None => inr (write_file fs file_name text)
  | Some e =>
      if decide (e ≠ ENOENT) then inl (e, fs)
      else
        match makedirs fs (dirname file_name) with
        | inl e' => inl (e', fs)
        | inr fs' =>
            match io_open fs' file_name with
            | None => inr (write_file fs' file_name text)
            | Some e' => inl (e', fs')
            end
        end
  end.

(** The loop of lines 688-705. *)
Definition export_configuration (fs : FileSystem) (source : string) (configuration : Partition)
    : (nat * FileSystem) + FileSystem :=
  fold_err export_file fs (export_writes source configuration).

End Export.

(** * Properties *)

(** ** Reading a stanza header back *)

Lemma lines_of_cons_ne c cs : lines_of (c :: cs) ≠ [].
Proof. simpl. case_decide; [done|]. by destruct (lines_of cs). Qed.

(** A text that ends with a newline is a whole number of lines. *)
Lemma lines_of_app_newline a b : lines_of (a ++ newline :: b) = lines_of (a ++ [newline]) ++ lines_of b.
Proof.
  induction a as [|c a IH]; cbn [app lines_of]; [by rewrite !decide_True|].
  rewrite IH. case_decide; [done|]. destruct (lines_of (a ++ [newline])) eqn:Hl; [|done].
  destruct a; by apply lines_of_cons_ne in Hl.
Qed.

Lemma ends_with_continuation_app2 pre a b :
  ends_with_continuation (pre ++ [a; b]) = bool_decide (b = newline) && bool_decide (a = backslash).
Proof. unfold ends_with_continuation. by rewrite rev_app_distr. Qed.

Lemma continuation_ref_unfold line stream :
  continuation_ref line stream =
  if ends_with_continuation line then
    match stream with [] => (line, []) | c :: rest => continuation_ref (join_continuation line c) rest end
  else (line, stream).
Proof. by destruct stream. Qed.

(** The lines of an escaped name followed by ["]\n"]: joined by the
    continuation loop after any prefix, they give back the name; there is
    one line more than the name has newlines. *)
Lemma escaped_lines cs :
  ∃ l ls, lines_of (escape_newlines cs ++ [rbracket; newline]) = l :: ls ∧
    length ls = length (filter (λ c, c = newline) cs) ∧
    ∀ pre rest, continuation_ref (pre ++ l) (ls ++ rest) = (pre ++ cs ++ [rbracket; newline], rest).
Proof.
  induction cs as [|c cs (l & ls & Hl & Hlen & Hcont)].
  - exists [rbracket; newline], []. split_and!; [done|done|]. intros pre rest.
    rewrite continuation_ref_unfold, ends_with_continuation_app2. done.
  - cbn [escape_newlines]. rewrite filter_cons. case_decide as Hc.
    + subst c. exists [backslash; newline], (l :: ls). cbn [app lines_of]. rewrite Hl.
      split_and!; [done|simpl; lia|]. intros pre rest. cbn [app].
      rewrite continuation_ref_unfold, ends_with_continuation_app2, !bool_decide_eq_true_2 by done.
      unfold join_continuation. rewrite length_app. cbn. rewrite Nat.add_sub, take_app_length.
      rewrite cons_middle, app_assoc, Hcont. by rewrite <- app_assoc.
    + exists (c :: l), ls. cbn [app lines_of]. rewrite decide_False by done. rewrite Hl.
      split_and!; [done|done|]. intros pre rest.
      rewrite cons_middle, app_assoc, Hcont. by rewrite <- app_assoc.
Qed.

Lemma stanza_header_lines name text :
  ∃ l ls, lines_of (stanza_header name ++ text) = (lbracket :: l) :: ls ++ lines_of text ∧
    length ls = length (filter (λ c, c = newline) (chars name)) ∧
    ∀ rest, continuation_ref (lbracket :: l) (ls ++ rest) = (lbracket :: chars name ++ [rbracket; newline], rest).
Proof.
  destruct (escaped_lines (chars name)) as (l & ls & Hl & Hlen & Hcont).
  exists l, ls. split_and!; [|done|intros rest; apply (Hcont [lbracket])].
  assert (Hh : stanza_header name ++ text = (lbracket :: escape_newlines (chars name) ++ [rbracket]) ++ newline :: text).
  { unfold stanza_header. cbn [app]. by rewrite <- !app_assoc. }
  rewrite Hh, lines_of_app_newline. cbn [app lines_of]. rewrite <- app_assoc. cbn [app].
  rewrite decide_False by done. by rewrite Hl.
Qed.

(** C26. A stanza header written by [_export] reads back as the stanza
    name: reading the first line of the file with the line reader and
    joining its continuation lines ([FileReader.read_continuation]) gives
    ["[" + name + "]\n"] for any name, newlines and backslashes included,
    and leaves the reader at the text after the header, one line further
    on than the name has newlines. *)
Theorem stanza_header_read_back name text n :
  ∃ l r, next (mkReader (lines_of (stanza_header name ++ text)) n None) = inr (l, r) ∧
    read_continuation r l =
      Some (lbracket :: chars name ++ [rbracket; newline],
            mkReader (lines_of text) (n + S (length (filter (λ c, c = newline) (chars name)))) None).
Proof.
  destruct (stanza_header_lines name text) as (l & ls & Hl & Hlen & Hcont).
  unfold next. cbn [fr_line fr_stream fr_line_number]. rewrite Hl. eexists _, _. split; [done|].
  rewrite read_continuation_spec, Hcont. cbn. rewrite length_app. do 3 f_equal. lia.
Qed.

(** ** The files written *)

Section ExportProps.
Variable setting_str : Setting → string.
Variable open_errno : string → option nat.

(** A file whose [io.open] raises nothing but [ENOENT] is written, its
    directory created when missing. *)
Lemma export_file_ok fs w :
  open_errno w.1 = None →
  ∃ fs', export_file open_errno fs w = inr fs' ∧ fs_files fs' = <[w.1 := w.2]> (fs_files fs) ∧
    fs_dirs fs ⊆ fs_dirs fs' ∧ dirname w.1 ∈ fs_dirs fs'.
Proof.
  destruct w as [p t]. cbn. intros Hp. unfold export_file, io_open. case_decide as Hd.
  - rewrite Hp. eexists. split_and!; [done|done|done|done].
  - rewrite decide_False by (unfold ENOENT; naive_solver). unfold makedirs. rewrite decide_False by done.
    cbn. rewrite decide_True by set_solver. rewrite Hp. eexists. split_and!; [done|done|cbn; set_solver|cbn; set_solver].
Qed.

Lemma export_loop fs ws :
  Forall (λ w, open_errno w.1 = None) ws →
  ∃ fs', fold_err (export_file open_errno) fs ws = inr fs' ∧
    fs_files fs' = list_to_map (reverse ws) ∪ fs_files fs ∧
    fs_dirs fs ⊆ fs_dirs fs' ∧ ∀ w, w ∈ ws → dirname w.1 ∈ fs_dirs fs'.
Proof.
  revert fs. induction ws as [|w ws IH]; intros fs Hws.
  - exists fs. split_and!; [done|by rewrite reverse_nil, list_to_map_nil, (left_id_L ∅ (∪))|done|set_solver].
  - apply Forall_cons in Hws as [Hw Hws].
    destruct (export_file_ok fs w Hw) as (fs1 & H1 & Hf1 & Hd1 & Hw1).
    destruct (IH fs1 Hws) as (fs2 & H2 & Hf2 & Hd2 & Hw2).
    exists fs2. cbn [fold_err]. rewrite H1. split_and!; [done| |set_solver|set_solver].
    rewrite Hf2, Hf1, reverse_cons, list_to_map_app, <- map_union_assoc. cbn.
    by rewrite <- insert_union_l, (left_id_L ∅ (∪)).
Qed.

(** Whether it raises or not, writing the configuration never removes a
    directory. *)
Lemma export_file_dirs fs w :
  match export_file open_errno fs w with inl (_, fs') | inr fs' => fs_dirs fs ⊆ fs_dirs fs' end.
Proof.
  destruct w as [p t]. unfold export_file, io_open, makedirs.
  repeat (case_decide || case_match); simplify_eq/=; set_solver.
Qed.

Lemma export_configuration_dirs fs source configuration :
  match export_configuration setting_str open_errno fs source configuration with
  | inl (_, fs') | inr fs' => fs_dirs fs ⊆ fs_dirs fs'
  end.
Proof.
  unfold export_configuration. generalize (export_writes setting_str source configuration) as ws.
  intros ws. revert fs. induction ws as [|w ws IH]; intros fs; cbn [fold_err]; [done|].
  pose proof (export_file_dirs fs w) as Hw. destruct (export_file _ fs w) as [[e fs1]|fs1]; [done|].
  specialize (IH fs1). destruct (fold_err _ fs1 ws) as [[??]|?]; set_solver.
Qed.

(** C27. When no [io.open] raises an error other than [ENOENT], [_export]
    writes every file of the partition, creating the missing directories:
    each path holds the text of the last file the loop writes to it (the
    stanza headers and setting lines of [render_conf_file]), the other
    files are as they were, and no directory is removed. *)
Theorem export_configuration_writes fs source configuration :
  (∀ w, w ∈ export_writes setting_str source configuration → open_errno w.1 = None) →
  ∃ fs', export_configuration setting_str open_errno fs source configuration = inr fs' ∧
    fs_files fs' = list_to_map (reverse (export_writes setting_str source configuration)) ∪ fs_files fs ∧
    fs_dirs fs ⊆ fs_dirs fs' ∧
    ∀ w, w ∈ export_writes setting_str source configuration → dirname w.1 ∈ fs_dirs fs'.
Proof. intros Hok. apply export_loop, Forall_forall. naive_solver. Qed.

(** An [IOError] other than [ENOENT] from [io.open] is raised by
    [_export]: the loop stops at that file, the files before it are
    written and none after it. *)
Theorem export_configuration_error fs source configuration pre w post e :
  export_writes setting_str source configuration = pre ++ w :: post →
  Forall (λ w, open_errno w.1 = None) pre → open_errno w.1 = Some e → e ≠ ENOENT →
  ∃ fs', export_configuration setting_str open_errno fs source configuration = inl (e, fs') ∧
    fs_files fs' = list_to_map (reverse pre) ∪ fs_files fs.
Proof.
  intros Hws Hpre Hw He. unfold export_configuration. rewrite Hws, fold_err_app.
  destruct (export_loop fs pre Hpre) as (fs1 & -> & Hf1 & _). cbn [fold_err].
  destruct w as [p t]. cbn in Hw. unfold export_file, io_open. case_decide as Hd.
  - rewrite Hw, decide_True by done. by exists fs1.
  - rewrite decide_False by (unfold ENOENT; naive_solver). unfold makedirs. rewrite decide_False by done.
    cbn. rewrite decide_True by set_solver. rewrite Hw. by eexists.
Qed.

End ExportProps.

Module ConfExportWitnesses.

Definition ex_setting_str (s : Setting) : string := setting_name s +:+ " = " +:+ setting_value s.
Definition ex_partition : Partition :=
  [("inputs", [("default/inputs.conf", [("monitor", [("index", mkSetting "index" "main")])]);
               ("local/inputs.conf", [("script", [("disabled", mkSetting "disabled" "0")])])])].
Definition ex_fs : FileSystem := mkFS ∅ {["/out/app"; "/out/app/local"]}.
Definition ex_writes := export_writes ex_setting_str "/out/app" ex_partition.

Lemma export_configuration_writes_witness :
  (∀ w, w ∈ ex_writes → (λ _ : string, @None nat) w.1 = None) ∧
  ∃ fs', export_configuration ex_setting_str (λ _, None) ex_fs "/out/app" ex_partition = inr fs' ∧
    fs_files fs' = list_to_map (reverse ex_writes) ∪ fs_files ex_fs ∧
    fs_dirs ex_fs ⊆ fs_dirs fs' ∧ ∀ w, w ∈ ex_writes → dirname w.1 ∈ fs_dirs fs'.
Proof.
  split; [done|]. apply (export_configuration_writes ex_setting_str (λ _, None)). done.
Defined.

Definition ex_denied (p : string) : option nat := if decide (p = "/out/app/local/inputs.conf") then Some 13 else None.

Lemma export_configuration_error_witness :
  ∃ fs', export_configuration ex_setting_str ex_denied ex_fs "/out/app" ex_partition = inl (13, fs') ∧
    fs_files fs' = list_to_map (reverse (take 1 ex_writes)) ∪ fs_files ex_fs.
Proof.
  apply (export_configuration_error ex_setting_str ex_denied ex_fs "/out/app" ex_partition
           (take 1 ex_writes) (("/out/app/local/inputs.conf", render_conf_file ex_setting_str
              [("script", [("disabled", mkSetting "disabled" "0")])])) []);
    [vm_compute; reflexivity|repeat constructor|reflexivity|unfold ENOENT; lia].
Defined.

End ConfExportWitnesses.

End ConfExport.
