(* ===== verification/Persistence.v ===== *)
(** * Loading, reloading and saving a server-class collection

    src/slim/app/_server_class.py: [AppServerClass.__init__] (lines 64-71)
    and [to_dict] (180-184), [AppServerClassCollection.load] (277-324),
    [reload] (326-332) and [save] (486-494).  The installation-graph
    document maps each server-class name to its [workload] (the sorted
    list of its workload set) and its [apps] (the graph's own document).
    What the code needs of [AppInstallationGraph] here, its [to_dict] and
    its construction from a document, is the interface
    [InstallationGraphDocument] (the graph is outside [src/]).  No law is
    assumed of it: the construction may raise on a document, as the
    docstring of [reload] says, and the round-trip theorems take as a
    hypothesis that each class's graph can be rebuilt from its own
    document.  [os.chdir], the file system, [tarfile.is_tarfile], the JSON
    decoding of [ObjectView] and the encoder [_encode] are Section
    variables; the [os.chdir(current_directory)] of the [finally] clause
    returns to a directory that exists and is not modelled. *)

From stdpp Require Import base list gmap strings sets sorting.
From S2P Require Import Prelude AppSource InstallationGraph ServerClass ServerCollection.

Module Persistence.
Import InstallationGraph ServerClass ServerCollection.

(** [AppInstallationGraph.to_dict()] and [AppInstallationGraph(server_class,
    apps)], which raises ([None]) on a document it cannot read. *)
Class InstallationGraphDocument (IG : Type) := {
  ig_to_dict : IG → JValue;
  ig_of_object : string → gset string → JValue → option IG;
}.

(** [object_view.<name>] on a JSON object. *)
Definition json_attr (v : JValue) (k : string) : option JValue :=
  match v with JObject fields => od_get fields k | _ => None end.

Definition json_string (v : JValue) : option string :=
  match v with JString s => Some s | _ => None end.

(** [frozenset(object_view.workload)] on a list of strings. *)
Definition json_string_set (v : JValue) : option (gset string) :=
  match v with JArray items => list_to_set <$> mapM json_string items | _ => None end.

(** Python's [a >= b] on strings: code points compared lexicographically. *)
Definition str_ge (a b : string) : Prop := String.leb b a = true.

#[export] Instance str_ge_dec : RelDecision str_ge.
Proof. intros a b. unfold str_ge. apply _. Defined.

(** [sorted(workload, reverse=True)]: strings in decreasing order. *)
Definition sorted_desc (l : list string) : list string := merge_sort str_ge l.

(** The exceptions [load] raises: [os.chdir] of the repository's
    [OSError] (with its errno), a text [ObjectView] cannot decode to an
    object, and an exception of [AppServerClass(name, info, ...)]. *)
Inductive LoadError := LoadOSError (errno : nat) | LoadDecodeError | LoadAttributeError.

Section Persist.
Context `{AppInstallationGraph IG, !InstallationGraphDocument IG}.

Abbreviation ServerClass := (AppServerClass IG).
Abbreviation Classes := (list (string * ServerClass)).

(** [AppServerClass.to_dict] (lines 180-184) *)
Definition sc_to_dict (sc : ServerClass) : JValue :=
  JObject [("workload", JArray (JString <$> sorted_desc (elements (sc_workload sc))));
           ("apps", ig_to_dict (sc_apps sc))].

(** [AppServerClass.__init__(name, object_view, ...)] (lines 64-71): the
    workload, then [reload(object_view.apps)], which builds the graph for
    the class being made. *)
Definition sc_of_object (name : string) (info : JValue) : option ServerClass :=
  w ← json_attr info "workload" ≫= json_string_set;
  apps ← json_attr info "apps";
  g ← ig_of_object name w apps;
  Some (mkServerClass name w g).

(** [graph_json] of [save] (lines 487-489). *)
Definition graph_json (col : Collection IG) : JValue :=
  JObject ((λ e : string * ServerClass, (e.1, sc_to_dict e.2)) <$> col_classes col).

Section Save.
(** [string(_encode(graph_json))] *)
Variable encode : JValue → string.

(** [save(filename)] (lines 486-494): the document goes to the payload
    and, with a file name, its text to the file (the debug-only
    [graph-updates.json] is not modelled). *)
Definition save (col : Collection IG) (filename : option string) (d : Diag) : option (string * string) * Diag :=
  let g := graph_json col in
  (match filename with None => None | Some f => Some (f, encode g) end, set_installation_graph g d).
End Save.

(** One round of the server-class loop of [load] (lines 318-322): the
    duplicate warning, then [AppServerClass(name, info, ...)], whose
    exception ends [load]. *)
Definition load_class_step (doc : list (string * JValue)) (acc : Classes * Diag) (name : string)
    : Diag + (Classes * Diag) :=
  let '(classes, d) := acc in
  let d' := if decide (name ∈ od_keys classes) then log_warning (MsgDuplicateServerClass name) d else d in
  match od_get doc name ≫= sc_of_object name with
  | Some sc => inr (od_set classes name sc, d')
  | None => inl d'
  end.

Definition load_classes (doc : list (string * JValue)) (d : Diag) : Diag + (Classes * Diag) :=
  fold_err (load_class_step doc) ([], d) (od_keys doc).

(** One round of [reload] (lines 326-332): the class's graph rebuilt from
    its own document ([ObjectView(string(_encode(...)))] decodes what the
    encoder wrote); the classes before a failing one stay reloaded. *)
Definition reload_step (classes : Classes) (e : string * ServerClass) : Classes + Classes :=
  let sc := e.2 in
  match ig_of_object (sc_name sc) (sc_workload sc) (ig_to_dict (sc_apps sc)) with
  | Some g => inr (od_set classes e.1 (sc_set_apps sc g))
  | None => inl classes
  end.

(** [reload()]: the collection, reloaded or as it is when the exception is raised. *)
Definition reload (col : Collection IG) : Collection IG + Collection IG :=
  match fold_err reload_step (col_classes col) (col_classes col) with
  | inl classes => inl (set_classes col classes)
  | inr classes => inr (set_classes col classes)
  end.

Section Load.
(** [os.chdir(path)]: the errno of the [OSError] it raises. *)
Variable chdir_errno : string → option nat.
(** [os.listdir(path)]; [None] on [OSError]. *)
Variable listdir : string → option (list string).
(** [path.isfile(name) and tarfile.is_tarfile(name)] *)
Variable is_package : string → bool.
(** [io.open(filename).read()]; [None] on [OSError]. *)
Variable read_text : string → option string.
(** [ObjectView(text)]: the decoded document; [None] when decoding raises. *)
Variable object_view : string → option JValue.
(** [path.abspath] *)
Variable abspath : string → string.

(** The repository of [load] (lines 281-295): every package of the
    directory, none of them read yet.  [os.chdir] comes before the [try]:
    its [OSError] propagates ([inl]); one of [os.listdir] is logged. *)
Definition load_repository (repository_path : string) (d : Diag) : nat + (Repository * Diag) :=
  match chdir_errno repository_path with
  | Some e => inl e
  | None =>
      match listdir repository_path with
      | None => inr ([], log_error (MsgCannotAccessRepository repository_path) d)
      | Some names => inr (foldl (λ r n, if is_package n then od_set r n None else r) [] names, d)
      end
  end.

(** [load(file, repository_path)] (lines 277-324), for a file name. *)
Definition load (filename repository_path : string) (d : Diag) : (LoadError + option (Collection IG)) * Diag :=
  let repository_path := abspath repository_path in
  match load_repository repository_path d with
  | inl e => (inl (LoadOSError e), d)
  | inr (repository, d) =>
      match read_text filename with
      | None => (inr None, log_error (MsgCannotLoadGraph filename) d)
      | Some text =>
          match object_view text with
          | Some (JObject doc) =>
              match load_classes doc d with
              | inl d' => (inl LoadAttributeError, d')
              | inr (classes, d') => (inr (Some (make_collection repository repository_path classes)), d')
              end
          | _ => (inl LoadDecodeError, d)
          end
      end
  end.

End Load.

End Persist.

(** * Properties *)

Lemma sorted_desc_set (w : gset string) : list_to_set (sorted_desc (elements w)) = w.
Proof.
  apply set_eq. intros x. rewrite elem_of_list_to_set.
  unfold sorted_desc. rewrite (merge_sort_Permutation _ _). apply elem_of_elements.
Qed.

Lemma json_string_set_strings (l : list string) : json_string_set (JArray (JString <$> l)) = Some (list_to_set l).
Proof. cbn. by rewrite (mapM_fmap_Some json_string JString) by done. Qed.

Section PersistProps.
Context `{AppInstallationGraph IG, !InstallationGraphDocument IG}.

(** The graph of a class can be rebuilt, for a class of that name and
    workload, from its own document: [AppInstallationGraph(server_class,
    ObjectView(...))] does not raise. *)
Definition graph_rebuilds (name : string) (sc : AppServerClass IG) : Prop :=
  is_Some (ig_of_object name (sc_workload sc) (ig_to_dict (sc_apps sc))).

(** The loaded class is the saved one: its key as name, the same
    workload, and the graph rebuilt from the saved graph's document. *)
Definition same_class (e e' : string * AppServerClass IG) : Prop :=
  e'.1 = e.1 ∧ sc_name e'.2 = e.1 ∧ sc_workload e'.2 = sc_workload e.2 ∧
  ig_of_object e.1 (sc_workload e.2) (ig_to_dict (sc_apps e.2)) = Some (sc_apps e'.2).

Lemma sc_of_object_to_dict name (sc : AppServerClass IG) g :
  ig_of_object name (sc_workload sc) (ig_to_dict (sc_apps sc)) = Some g →
  sc_of_object name (sc_to_dict sc) = Some (mkServerClass name (sc_workload sc) g).
Proof.
  intros Hg. unfold sc_of_object, sc_to_dict. cbn -[json_string_set ig_of_object].
  repeat first [rewrite decide_True by done | rewrite decide_False by done]. cbn [mbind option_bind].
  rewrite json_string_set_strings, sorted_desc_set. cbn [mbind option_bind]. by rewrite Hg.
Qed.

(** A class of the document not loaded yet is rebuilt and appended, with
    no warning. *)
Lemma load_class_step_fresh doc acc d name (sc : AppServerClass IG) :
  name ∉ od_keys acc → od_get doc name = Some (sc_to_dict sc) → graph_rebuilds name sc →
  ∃ sc', load_class_step doc (acc, d) name = inr (acc ++ [(name, sc')], d) ∧ same_class (name, sc) (name, sc').
Proof.
  intros Hfresh Hdoc [g Hg]. unfold load_class_step. rewrite decide_False, Hdoc by done. cbn [mbind option_bind].
  rewrite (sc_of_object_to_dict name sc g Hg), od_set_fresh by done.
  eexists. split; [done|]. by split_and!.
Qed.

Lemma load_classes_loop doc (post : list (string * AppServerClass IG)) acc d :
  NoDup (od_keys acc ++ map fst post) →
  (∀ e, e ∈ post → od_get doc e.1 = Some (sc_to_dict e.2)) → Forall (λ e, graph_rebuilds e.1 e.2) post →
  ∃ post', fold_err (load_class_step doc) (acc, d) (map fst post) = inr (acc ++ post', d) ∧
    Forall2 same_class post post'.
Proof.
  revert acc. induction post as [|[name sc] post IH]; intros acc Hnd Hdoc Hreb.
  { exists []. by rewrite app_nil_r. }
  apply Forall_cons in Hreb as [Hr Hreb].
  destruct (load_class_step_fresh doc acc d name sc) as (sc' & Hstep & Hsame); [|by apply (Hdoc (name, sc)); left|done|].
  { intros Hin. apply NoDup_app in Hnd as (_ & Hd & _). apply (Hd name Hin). by left. }
  cbn [map fold_err fst]. rewrite Hstep.
  destruct (IH (acc ++ [(name, sc')])) as (post' & Hf & Hpost); [| |done|].
  - unfold od_keys in *. rewrite map_app, <- app_assoc. done.
  - intros e' He'. apply Hdoc. by right.
  - exists ((name, sc') :: post'). rewrite Hf, <- app_assoc. split; [done|]. by constructor.
Qed.

Lemma od_keys_values {V} (f : AppServerClass IG → V) (classes : list (string * AppServerClass IG)) :
  od_keys ((λ e : string * AppServerClass IG, (e.1, f e.2)) <$> classes) = od_keys classes.
Proof. induction classes as [|e classes IH]; [done|]. cbn. by f_equal. Qed.

Lemma load_classes_graph_json (col : Collection IG) doc d :
  graph_json col = JObject doc → NoDup (od_keys (col_classes col)) →
  Forall (λ e, graph_rebuilds e.1 e.2) (col_classes col) →
  ∃ classes, load_classes doc d = inr (classes, d) ∧ Forall2 same_class (col_classes col) classes.
Proof.
  unfold graph_json. intros [= <-] Hnd Hreb. unfold load_classes. rewrite od_keys_values.
  destruct (load_classes_loop ((λ e : string * AppServerClass IG, (e.1, sc_to_dict e.2)) <$> col_classes col)
              (col_classes col) [] d) as (classes & Hf & Hc); [done| |done|by exists classes].
  intros e He. apply od_get_elem_NoDup; [by rewrite od_keys_values|].
  apply list_elem_of_fmap. by exists e.
Qed.

(** A class after [reload]: the same key, name and workload, and the
    graph rebuilt from the old graph's document. *)
Definition reloaded (e e' : string * AppServerClass IG) : Prop :=
  e'.1 = e.1 ∧ sc_name e'.2 = sc_name e.2 ∧ sc_workload e'.2 = sc_workload e.2 ∧
  ig_of_object (sc_name e.2) (sc_workload e.2) (ig_to_dict (sc_apps e.2)) = Some (sc_apps e'.2).

(** The classes whose graphs rebuild are reloaded in place, one after the
    other, whatever follows them. *)
Lemma reload_loop (post pre rest : list (string * AppServerClass IG)) :
  NoDup (od_keys pre ++ od_keys post) → Forall (λ e, graph_rebuilds (sc_name e.2) e.2) post →
  ∃ post', fold_err reload_step (pre ++ post ++ rest) post = inr (pre ++ post' ++ rest) ∧ Forall2 reloaded post post'.
Proof.
  revert pre. induction post as [|[name sc] post IH]; intros pre Hnd Hreb.
  { by exists []. }
  apply Forall_cons in Hreb as [[g Hg] Hreb]. cbn [fst snd] in Hg.
  cbn [fold_err]. unfold reload_step at 1. cbn [fst snd]. rewrite Hg. cbn [app].
  rewrite od_set_app by (intros Hin; apply NoDup_app in Hnd as (_ & Hd & _); apply (Hd name Hin); by left).
  destruct (IH (pre ++ [(name, sc_set_apps sc g)])) as (post' & Hf & Hpost); [|done|].
  - unfold od_keys in *. rewrite map_app, <- app_assoc. done.
  - exists ((name, sc_set_apps sc g) :: post'). rewrite <- app_assoc in Hf. cbn in Hf. rewrite Hf.
    split; [by rewrite <- app_assoc|]. constructor; [|done]. by split_and!.
Qed.

(** C17. When the graph of every server class can be rebuilt from its
    document, [reload] returns normally and rebuilds each of them from its
    document, keeping the classes in order with their names and
    workloads; the repository, its path, the validation flag and the
    index of installed packages are untouched (the spec: reload
    re-derives server classes from their serialized state). *)
Theorem reload_keeps_classes (col : Collection IG) :
  NoDup (od_keys (col_classes col)) → Forall (λ e, graph_rebuilds (sc_name e.2) e.2) (col_classes col) →
  ∃ classes, reload col = inr (set_classes col classes) ∧ Forall2 reloaded (col_classes col) classes.
Proof.
  intros Hnd Hreb. unfold reload. destruct (reload_loop (col_classes col) [] []) as (classes & Hf & Hc); [done|done|].
  rewrite app_nil_l, !app_nil_r in Hf. rewrite Hf. by exists classes.
Qed.

(** C18. [reload] fails the way [load] may (its docstring): when the graph
    of a server class cannot be rebuilt from its document, the exception
    propagates with the classes before it reloaded, that class and the
    ones after it as they were. *)
Theorem reload_error_partial (col : Collection IG) pre e post :
  col_classes col = pre ++ e :: post → NoDup (od_keys (col_classes col)) →
  Forall (λ e, graph_rebuilds (sc_name e.2) e.2) pre →
  ig_of_object (sc_name e.2) (sc_workload e.2) (ig_to_dict (sc_apps e.2)) = None →
  ∃ pre', reload col = inl (set_classes col (pre' ++ e :: post)) ∧ Forall2 reloaded pre pre'.
Proof.
  intros Hcl Hnd Hreb He. unfold reload. rewrite Hcl in Hnd |- *.
  destruct (reload_loop pre [] (e :: post)) as (pre' & Hf & Hc); [|done|].
  { unfold od_keys in *. rewrite map_app in Hnd. by apply NoDup_app in Hnd as (Hnd & _ & _). }
  rewrite fold_err_app. rewrite app_nil_l in Hf. rewrite Hf. cbn [fold_err]. unfold reload_step at 1.
  rewrite He. by exists pre'.
Qed.

Section LoadProps.
Variable encode : JValue → string.
Variable chdir_errno : string → option nat.
Variable listdir : string → option (list string).
Variable is_package : string → bool.
Variable read_text : string → option string.
Variable object_view : string → option JValue.
Variable abspath : string → string.

(** C16. Saving a collection and loading the file back reproduces its
    server classes in order, each with its name, its workload and its
    graph rebuilt from the saved graph's document (the spec's round-trip
    requirement), with the repository the directory listing gives and no
    message beyond the listing's: the document also goes to the payload.
    The hypotheses are that the file holds what [save] wrote, that
    decoding gives back the encoded document, that [os.chdir] into the
    repository succeeds and that each class's graph can be rebuilt from
    its document; the keys of the ordered dict are distinct. *)
Theorem save_load_roundtrip (col : Collection IG) filename repository_path text d0 d1 d :
  NoDup (od_keys (col_classes col)) → Forall (λ e, graph_rebuilds e.1 e.2) (col_classes col) →
  save encode col (Some filename) d0 = (Some (filename, text), d1) →
  read_text filename = Some text →
  object_view text = Some (graph_json col) →
  chdir_errno (abspath repository_path) = None →
  d_installation_graph d1 = Some (graph_json col) ∧
  ∃ repository dl col',
    load_repository chdir_errno listdir is_package (abspath repository_path) d = inr (repository, dl) ∧
    load chdir_errno listdir is_package read_text object_view abspath filename repository_path d =
      (inr (Some col'), dl) ∧
    col_repository col' = repository ∧ Forall2 same_class (col_classes col) (col_classes col').
Proof.
  intros Hnd Hreb [= <- <-] Hread Hview Hcd. split; [done|].
  assert (∃ repository dl, load_repository chdir_errno listdir is_package (abspath repository_path) d =
            inr (repository, dl)) as (repository & dl & Hrepo).
  { unfold load_repository. rewrite Hcd. destruct (listdir _); eauto. }
  unfold load. rewrite Hrepo, Hread, Hview.
  destruct (graph_json col) as [| | | | |doc] eqn:Hg; try (unfold graph_json in Hg; done).
  destruct (load_classes_graph_json col doc dl Hg Hnd Hreb) as (classes & -> & Hc).
  by do 3 eexists.
Qed.

End LoadProps.

End PersistProps.

(** ** The association-list graph as a document *)

Module ListGraphDocument.
Import ListGraph.

Definition installation_to_dict (x : AppInstallation) : JValue :=
  JObject [("package", JString (inst_package x)); ("dependents", JArray (JString <$> inst_dependents x));
           ("empty", JBool (inst_is_empty x))].

Definition installation_of_object (id : string) (v : JValue) : option AppInstallation :=
  p ← json_attr v "package" ≫= json_string;
  ds ← json_attr v "dependents";
  ds' ← (match ds with JArray items => mapM json_string items | _ => None end);
  e ← json_attr v "empty";
  match e with JBool b => Some (mkInstallation id p ds' b) | _ => None end.

#[export] Instance list_graph_document : InstallationGraphDocument (list AppInstallation) := {
  ig_to_dict g := JObject ((λ x, (inst_id x, installation_to_dict x)) <$> g);
  ig_of_object _ _ v :=
    match v with JObject fields => mapM (λ kv, installation_of_object kv.1 kv.2) fields | _ => None end;
}.

(** The association-list graph is rebuilt from its document as it was. *)
Lemma list_graph_of_object_to_dict n w (g : list AppInstallation) : ig_of_object n w (ig_to_dict g) = Some g.
Proof.
  cbn. rewrite (mapM_fmap_Some _ (λ x, (inst_id x, installation_to_dict x))); [done|].
  intros [id p ds b]. unfold installation_of_object, installation_to_dict. cbn -[json_string].
  repeat first [rewrite decide_True by done | rewrite decide_False by done]. cbn.
  by rewrite (mapM_fmap_Some json_string JString) by done.
Qed.

End ListGraphDocument.

Module PersistenceWitnesses.
Import ListGraph ListGraphDocument.

#[local] Instance ex_graph : AppInstallationGraph (list AppInstallation) := list_graph (λ _, false).

Definition ex_classes : list (string * AppServerClass (list AppInstallation)) :=
  [("fwd", mkServerClass "fwd" {["forwarder"]} [mkInstallation "a" "a.tgz" [] false; mkInstallation "b" "b.tgz" ["a"] false]);
   ("idx", mkServerClass "idx" {["indexer"; "searchHead"]} [mkInstallation "b" "b.tgz" [] true])].
Definition ex_col : Collection (list AppInstallation) := mkCollection ex_classes [("a.tgz", None)] "/repo" true [].
Definition ex_encode (_ : JValue) : string := "graph".
Definition ex_read (f : string) : option string := if decide (f = "graph.json") then Some "graph" else None.
Definition ex_view (_ : string) : option JValue := Some (graph_json ex_col).

Definition ex_chdir (_ : string) : option nat := None.
Definition ex_listdir (_ : string) : option (list string) := Some ["a.tgz"; "notes.txt"].
Definition ex_is_package (n : string) : bool := bool_decide (n = "a.tgz").

Lemma save_load_roundtrip_witness :
  d_installation_graph (set_installation_graph (graph_json ex_col) diag0) =
    Some (graph_json ex_col) ∧
  ∃ repository dl col',
    load_repository ex_chdir ex_listdir ex_is_package (id "/repo") diag0 = inr (repository, dl) ∧
    load ex_chdir ex_listdir ex_is_package ex_read ex_view id "graph.json" "/repo" diag0 =
      (inr (Some col'), dl) ∧
    col_repository col' = repository ∧ Forall2 same_class (col_classes ex_col) (col_classes col').
Proof.
  apply (save_load_roundtrip ex_encode ex_chdir ex_listdir ex_is_package ex_read ex_view id
           ex_col "graph.json" "/repo" "graph" diag0 (set_installation_graph (graph_json ex_col) diag0) diag0);
    [compute_done|repeat constructor; eexists; apply list_graph_of_object_to_dict|reflexivity|reflexivity|reflexivity|
     reflexivity].
Defined.

Lemma reload_keeps_classes_witness :
  ∃ classes, reload ex_col = inr (set_classes ex_col classes) ∧
    Forall2 reloaded (col_classes ex_col) classes.
Proof.
  apply (reload_keeps_classes ex_col);
    [compute_done|repeat constructor; eexists; apply list_graph_of_object_to_dict].
Defined.

End PersistenceWitnesses.

Module PersistenceErrorWitnesses.
Import ListGraph.

#[local] Instance ex_graph : AppInstallationGraph (list AppInstallation) := list_graph (λ _, false).

(** The graph of ["idx"] is one its construction rejects. *)
Definition ex_classes_bad : list (string * AppServerClass (list AppInstallation)) :=
  [("fwd", mkServerClass "fwd" {["forwarder"]} [mkInstallation "a" "a.tgz" [] false]);
   ("idx", mkServerClass "idx" {["indexer"]} [mkInstallation "b" "b.tgz" [] true]);
   ("hf", mkServerClass "hf" {["forwarder"]} [])].
Definition ex_col_bad : Collection (list AppInstallation) := mkCollection ex_classes_bad [] "/repo" false [].
#[local] Instance ex_document_strict : InstallationGraphDocument (list AppInstallation) := {
  ig_to_dict := @ig_to_dict _ ListGraphDocument.list_graph_document;
  ig_of_object n w v := if decide (n = "idx") then None else @ig_of_object _ ListGraphDocument.list_graph_document n w v;
}.

Lemma reload_error_partial_witness :
  ∃ pre', reload ex_col_bad =
            inl (set_classes ex_col_bad (pre' ++ ("idx", mkServerClass "idx" {["indexer"]} [mkInstallation "b" "b.tgz" [] true])
                                             :: [("hf", mkServerClass "hf" {["forwarder"]} [])])) ∧
    Forall2 reloaded [("fwd", mkServerClass "fwd" {["forwarder"]} [mkInstallation "a" "a.tgz" [] false])]
      pre'.
Proof.
  apply (reload_error_partial ex_col_bad); [reflexivity|compute_done| |reflexivity].
  repeat constructor. eexists. reflexivity.
Defined.

End PersistenceErrorWitnesses.

End Persistence.
