(* ===== verification/PackageExport.v ===== *)
(** * Building and exporting a deployment package

    src/slim/app/_deployment.py: [AppDeploymentPackage.__init__] (lines
    465-522) composed from the pieces of DeploymentPackage.v, and the
    export of the package: [export] (lines 572-611), [_export] (677-716)
    with the writing loop of ConfExport.v, and [__str__] (536-542), the
    text of the debug file [<stage>.configuration.json].

    The state is a [Disk]: the [FileSystem] of ConfExport.v and the tar
    archives written, each the list of its members.  The library calls
    are written after CPython's [shutil], [os] and [tarfile]:
    [shutil.rmtree] removes a directory and everything under it,
    [os.remove] a file, and [TarFile.add(name, arcname, filter)] adds
    [name] and everything under it, renamed under [arcname], passing each
    member to [filter].  [shutil.copytree] and the JSON encoder are
    Section variables; so is [slim.utils.internal.hash_object], which
    reads the file at its path.  [tarfile.open(archive, 'w:gz')] opens
    its file as [io.open] does, with the same errno variable.  Exceptions
    are the [errno] of the [IOError] raised, with the disk as it is then.

    The members of an archive are listed files last, not in the order of
    [tarfile]'s walk; nothing here depends on that order: the file digest
    is sorted by name, and the theorems state which members an archive
    holds. *)

From stdpp Require Import base list gmap strings sets sorting.
From S2P Require Import Prelude AppSource DeploymentSpec PathOps DeploymentPackage ConfExport.

Module PackageExport.
Import PathOps DeploymentPackage ConfExport.

(** ** The package *)

(** The attributes [AppDeploymentPackage.__init__] sets. *)
Record Package := mkPackage {
  pkg_name : string;
  pkg_stage_name : string;
  pkg_archive_name : string;
  pkg_configuration : Partition;
  pkg_app_root : string;
  pkg_asset_filenames : gset string;
  pkg_is_empty : bool;
}.

Section Init.
Context (inputs_rule default_rule : PackagingRule).

(** [AppDeploymentPackage(app_source, deployment_specification)] (lines
    465-522): [app_root] is [app_source.directory], [id] the manifest's
    [info.id], [files] the configuration files, [tree] the app directory
    and [info] the manifest's license, privacy policy and release notes.
    [_set_asset_filenames] may raise [KeyError]. *)
Definition package_init (app : AppSource) (app_root : string) (id : ManifestId)
    (files : list ConfigurationFile) (tree : Tree) (info : list InfoItem)
    (spec : DeploymentSpecification) : option (AssetError + Package) :=
  let configuration := partition_configuration inputs_rule default_rule app app_root spec files in
  let names := map fst configuration in
  r ← set_asset_filenames names (exclusion_patterns (ds_workload spec)) app_root tree;
  match r with
  | inl e => Some (inl e)
  | inr assets =>
      is_empty ← detect_is_empty app_root info assets names;
      Some (inr (mkPackage (package_name app_root id) (stage_name app_root id spec)
                  (archive_name app_root id spec) configuration app_root assets is_empty))
  end.

End Init.

(** ** The disk *)

Inductive TarEntry := TarDir | TarFile (contents : list Ascii.ascii).

(** A [TarInfo]: the member's name and what it holds. *)
Record TarInfo := mkTarInfo { ti_name : string; ti_entry : TarEntry }.

Record Disk := mkDisk {
  disk_fs : FileSystem;
  disk_archives : gmap string (list TarInfo);
}.

(** [cs] without the prefix [pre], if it has it. *)
Fixpoint strip_prefix (pre cs : list Ascii.ascii) : option (list Ascii.ascii) :=
  match pre, cs with
  | [], _ => Some cs
  | a :: pre', b :: cs' => if decide (a = b) then strip_prefix pre' cs' else None
  | _ :: _, [] => None
  end.

(** The path of [p] inside the directory [root], if [p] is under it. *)
Definition under (root p : string) : option string :=
  of_chars <$> strip_prefix (chars (root +:+ sep)) (chars p).

(** [shutil.rmtree(p)] *)
Definition rmtree (fs : FileSystem) (p : string) : FileSystem :=
  mkFS (filter (λ kv, kv.1 ≠ p ∧ under p kv.1 = None) (fs_files fs))
       (filter (λ q, q ≠ p ∧ under p q = None) (fs_dirs fs)).

(** [os.remove(p)] *)
Definition os_remove (fs : FileSystem) (p : string) : FileSystem :=
  mkFS (delete p (fs_files fs)) (fs_dirs fs).

(** The members [TarFile.add(name, arcname)] adds: [name] itself, then
    the directories and the files under it. *)
Definition tar_members (fs : FileSystem) (name arcname : string) : list TarInfo :=
  (if decide (name ∈ fs_dirs fs) then [mkTarInfo arcname TarDir]
   else match fs_files fs !! name with Some c => [mkTarInfo arcname (TarFile c)] | None => [] end) ++
  omap (λ q, rel ← under name q; Some (mkTarInfo (path_join arcname rel) TarDir)) (elements (fs_dirs fs)) ++
  omap (λ kv : string * list Ascii.ascii, rel ← under name kv.1; Some (mkTarInfo (path_join arcname rel) (TarFile kv.2)))
    (map_to_list (fs_files fs)).

(** [package.add(source, arcname, filter=filter)] with a filter that
    returns the member it is given, as [append_digest] does, and updates
    its own state ([None]: no filter). *)
Definition tar_filter {S} (filter : option (S → TarInfo → S)) (members : list TarInfo) (s : S) : S :=
  match filter with None => s | Some f => foldl f s members end.

(** [io.open(filename, mode='w')] and [ostream.write(text)], without the
    retry of [_export]: an [IOError] is raised. *)
Definition write_text (dk : Disk) (filename : string) (text : string) (open_errno : string → option nat)
    : nat + Disk :=
  match io_open open_errno (disk_fs dk) filename with
  | Some e => inl e
  | None => inr (mkDisk (write_file (disk_fs dk) filename (chars text)) (disk_archives dk))
  end.

(** One entry of the file digest: [OrderedDict(name, objectId, size)]. *)
Record DigestEntry := mkDigestEntry { de_name : string; de_object_id : string; de_size : nat }.

(** [sorted(digest, key=lambda item: item['name'])] compares names. *)
Definition name_le (a b : DigestEntry) : Prop := String.leb (de_name a) (de_name b) = true.

#[export] Instance name_le_dec : RelDecision name_le.
Proof. intros a b. unfold name_le. apply _. Defined.

Section Export.
(** [string(setting)] and the [io.open] errors, as in ConfExport.v. *)
Variable setting_str : Setting → string.
Variable open_errno : string → option nat.
(** [shutil.copytree(src, dst, ignore=ignore)] *)
Variable copytree : (string → list string → list string) → string → string → FileSystem → FileSystem.
(** [hash_object(path, size)] *)
Variable hash_object : string → nat → string.
(** [_encode]: the JSON text of a value; [to_dict] of a setting. *)
Variable encode : JValue → string.
Variable setting_json : Setting → JValue.

(** Lines 679-686: whatever is at the staging path is removed, then the
    app directory is copied there, without the files that are not assets. *)
Definition stage_source (pkg : Package) (source : string) (fs : FileSystem) : FileSystem :=
  let fs := if decide (source ∈ fs_dirs fs) then rmtree fs source
            else if decide (is_Some (fs_files fs !! source)) then os_remove fs source else fs in
  copytree (ignore_assets (pkg_asset_filenames pkg)) (pkg_app_root pkg) source fs.

(** [_export(output_dir, filter, keep_source)] (lines 677-716). *)
Definition export_ {S} (pkg : Package) (output_dir : string) (filter : option (S → TarInfo → S)) (s : S)
    (keep_source : bool) (dk : Disk) : (nat * Disk) + (Disk * S) :=
  let source := path_join output_dir (pkg_stage_name pkg) in
  let fs := stage_source pkg source (disk_fs dk) in
  match export_configuration setting_str open_errno fs source (pkg_configuration pkg) with
  | inl (e, fs') => inl (e, mkDisk fs' (disk_archives dk))
  | inr fs' =>
      let archive := path_join output_dir (pkg_archive_name pkg) in
      (* [tarfile.open(archive, 'w:gz')] opens the file as [io.open] does *)
      match io_open open_errno fs' archive with
      | Some e => inl (e, mkDisk fs' (disk_archives dk))
      | None =>
          let members := tar_members fs' source (basename (pkg_app_root pkg)) in
          let s' := tar_filter filter members s in
          let archives := <[archive := members]> (disk_archives dk) in
          if keep_source then inr (mkDisk fs' archives, s')
          else inr (mkDisk (rmtree fs' source) archives, s')
      end
  end.

(** [append_digest(tar_info)] (lines 591-596): a file member is hashed at
    [path.join(source_container, name)]. *)
Definition append_digest (source_container : string) (digest : list DigestEntry) (ti : TarInfo)
    : list DigestEntry :=
  match ti_entry ti with
  | TarDir => digest
  | TarFile c =>
      let size := length c in
      digest ++ [mkDigestEntry (ti_name ti) (hash_object (path_join source_container (ti_name ti)) size) size]
  end.

Definition digest_json (e : DigestEntry) : JValue :=
  JObject [("name", JString (de_name e)); ("objectId", JString (de_object_id e));
           ("size", JNumber (Z.of_nat (de_size e)))].

(** The partition as nested [OrderedDict]s. *)
Definition partition_json (configuration : Partition) : JValue :=
  JObject (map (λ c, (c.1, JObject (map (λ f, (f.1, JObject (map (λ st, (st.1,
    JObject (map (λ s, (s.1, setting_json s.2)) st.2))) f.2))) c.2))) configuration).

(** [AppDeploymentPackage.__str__] (lines 536-542) *)
Definition package_str (pkg : Package) : string :=
  encode (JObject [("name", JString (pkg_name pkg)); ("archive_name", JString (pkg_archive_name pkg));
                   ("configuration", partition_json (pkg_configuration pkg))]).

(** [export(output_dir)] (lines 572-611): with debug logging on, the
    configuration is saved first and the digest of the archive's files
    after. *)
Definition export (pkg : Package) (debug : bool) (output_dir : string) (dk : Disk) (d : Diag)
    : (nat * Disk) + (string * Disk * Diag) :=
  let result := path_join output_dir (pkg_archive_name pkg) in
  if negb debug then
    match export_ pkg output_dir (@None (unit → TarInfo → unit)) tt false dk with
    | inl e => inl e
    | inr (dk', _) => inr (result, dk', d)
    end
  else
    let filename := path_join output_dir (pkg_stage_name pkg +:+ ".configuration.json") in
    match write_text dk filename (package_str pkg) open_errno with
    | inl e => inl (e, dk)
    | inr dk1 =>
        let d1 := log_message LevelDebug (MsgSavedConfiguration (pkg_stage_name pkg) filename) d in
        let source_container := dirname (pkg_app_root pkg) in
        match export_ pkg output_dir (Some (append_digest source_container)) [] false dk1 with
        | inl e => inl e
        | inr (dk2, digest) =>
            let filename := path_join output_dir (pkg_stage_name pkg +:+ ".file-digest.json") in
            let text := encode (JArray (digest_json <$> merge_sort name_le digest)) in
            match write_text dk2 filename text open_errno with
            | inl e => inl (e, dk2)
            | inr dk3 => inr (result, dk3, log_message LevelDebug (MsgSavedDigest (pkg_stage_name pkg) filename) d1)
            end
        end
    end.

End Export.

(** * Properties *)

(** ** Paths under a directory *)

Lemma chars_app a b : chars (a +:+ b) = chars a ++ chars b.
Proof. induction a as [|c a IH]; [done|]. change (String c a +:+ b) with (String c (a +:+ b)). cbn. by rewrite IH. Qed.

Lemma strip_prefix_app pre r : strip_prefix pre (pre ++ r) = Some r.
Proof. induction pre as [|a pre IH]; cbn; [done|by rewrite decide_True]. Qed.

Lemma strip_prefix_Some pre cs r : strip_prefix pre cs = Some r → cs = pre ++ r.
Proof.
  revert cs. induction pre as [|a pre IH]; intros [|b cs]; cbn; try congruence.
  case_decide; [subst; intros ?%IH; by f_equal|done].
Qed.

(** A path under [root] is longer than [root]: the paths no longer than
    it are not under it. *)
Lemma under_length root p r : under root p = Some r → length (chars root) < length (chars p).
Proof.
  unfold under. intros (r' & Hr & _)%fmap_Some. apply strip_prefix_Some in Hr.
  rewrite Hr, !length_app, chars_app, length_app. cbn. lia.
Qed.

(** [path.join(root, rel)] is under [root] at [rel] when [root] is a
    non-empty path without a trailing slash and [rel] is relative. *)
Lemma under_path_join root rel :
  root ≠ "" → endswith root sep = false → startswith rel sep = false →
  under root (path_join root rel) = Some rel.
Proof.
  intros Hne Hend Hrel. unfold path_join. rewrite Hrel, Hend, bool_decide_false by done. cbn [orb].
  unfold under, str_append. rewrite !chars_app, app_assoc, strip_prefix_app. cbn.
  by rewrite String.string_of_list_ascii_of_string.
Qed.

Lemma rmtree_files fs p q :
  fs_files (rmtree fs p) !! q = if decide (q ≠ p ∧ under p q = None) then fs_files fs !! q else None.
Proof.
  unfold rmtree. cbn. rewrite map_lookup_filter. destruct (fs_files fs !! q); cbn; [|by case_decide].
  case_decide; [by rewrite option_guard_True|by rewrite option_guard_False].
Qed.

Lemma elem_of_rmtree_dirs fs p q : q ∈ fs_dirs (rmtree fs p) ↔ q ∈ fs_dirs fs ∧ q ≠ p ∧ under p q = None.
Proof. unfold rmtree. cbn. rewrite elem_of_filter. tauto. Qed.

(** Nothing is left at or under a directory [rmtree] removed. *)
Lemma rmtree_gone fs p q :
  q = p ∨ is_Some (under p q) → fs_files (rmtree fs p) !! q = None ∧ q ∉ fs_dirs (rmtree fs p).
Proof.
  intros Hq. rewrite rmtree_files, elem_of_rmtree_dirs.
  split; [case_decide; [|done]|]; destruct Hq as [->|[r Hr]]; naive_solver.
Qed.

(** A file of the file system under [name] is a member of the archive. *)
Lemma tar_members_file fs name arcname p rel c :
  fs_files fs !! p = Some c → under name p = Some rel →
  mkTarInfo (path_join arcname rel) (TarFile c) ∈ tar_members fs name arcname.
Proof.
  intros Hp Hu. unfold tar_members. rewrite !elem_of_app. right; right.
  apply list_elem_of_omap. exists (p, c). rewrite elem_of_map_to_list. cbn. by rewrite Hu.
Qed.

(** ** Exporting *)

#[export] Instance name_le_total : Total name_le.
Proof. intros a b. apply String.leb_total. Qed.

Section ExportProps.
Variable setting_str : Setting → string.
Variable open_errno : string → option nat.
Variable copytree : (string → list string → list string) → string → string → FileSystem → FileSystem.
Variable hash_object : string → nat → string.
Variable encode : JValue → string.
Variable setting_json : Setting → JValue.

(** When no [io.open] of the configuration raises an error other than
    [ENOENT] and the archive can be opened, [_export] writes the
    configuration over the staged copy, archives the staging directory and
    removes it unless [keep_source]. *)
Lemma export_ok {S} pkg output_dir (filter : option (S → TarInfo → S)) s keep_source dk :
  let source := path_join output_dir (pkg_stage_name pkg) in
  let ws := export_writes setting_str source (pkg_configuration pkg) in
  let archive := path_join output_dir (pkg_archive_name pkg) in
  (∀ w, w ∈ ws → open_errno w.1 = None) →
  open_errno archive = None → dirname archive ∈ fs_dirs (stage_source copytree pkg source (disk_fs dk)) →
  ∃ fs', fs_files fs' = list_to_map (reverse ws) ∪ fs_files (stage_source copytree pkg source (disk_fs dk)) ∧
    fs_dirs (stage_source copytree pkg source (disk_fs dk)) ⊆ fs_dirs fs' ∧
    let members := tar_members fs' source (basename (pkg_app_root pkg)) in
    export_ setting_str open_errno copytree pkg output_dir filter s keep_source dk =
      inr (mkDisk (if keep_source then fs' else rmtree fs' source)
             (<[path_join output_dir (pkg_archive_name pkg) := members]> (disk_archives dk)),
           tar_filter filter members s).
Proof.
  intros source ws archive Hok Harch Hdir.
  destruct (export_loop open_errno (stage_source copytree pkg source (disk_fs dk)) ws)
    as (fs' & Hfs' & Hfiles & Hdirs & _); [by apply Forall_forall|].
  exists fs'. split_and!; [done|done|]. unfold export_. fold source archive.
  unfold export_configuration. fold ws. rewrite Hfs'. unfold io_open at 1.
  rewrite decide_True by (by apply Hdirs). rewrite Harch. by destruct keep_source.
Qed.

(** [shutil.copytree] creates its destination and removes no directory. *)
Hypothesis copytree_dst : ∀ ignore src dst fs, dst ∈ fs_dirs (copytree ignore src dst fs).
Hypothesis copytree_dirs : ∀ ignore src dst fs, fs_dirs fs ⊆ fs_dirs (copytree ignore src dst fs).

Lemma stage_source_dirs pkg source fs q :
  q ∈ fs_dirs fs → q ≠ source → under source q = None → q ∈ fs_dirs (stage_source copytree pkg source fs).
Proof using copytree_dirs.
  intros Hq Hne Hu. unfold stage_source. apply copytree_dirs.
  repeat case_decide; rewrite ?elem_of_rmtree_dirs; cbn; first [done | by split_and!].
Qed.

(** C23. An [IOError] other than [ENOENT] while [_export] writes the
    configuration leaves the staging directory in [output_dir]: the
    exception propagates with the staged copy and the files written before
    it on disk, and no archive is written.  The spec's export removes the
    staging directory; the code does so only on success. *)
Theorem export_error_keeps_staging {S} pkg output_dir (filter : option (S → TarInfo → S)) s keep_source dk
    pre w post e :
  let source := path_join output_dir (pkg_stage_name pkg) in
  export_writes setting_str source (pkg_configuration pkg) = pre ++ w :: post →
  Forall (λ w, open_errno w.1 = None) pre → open_errno w.1 = Some e → e ≠ ENOENT →
  ∃ dk', export_ setting_str open_errno copytree pkg output_dir filter s keep_source dk = inl (e, dk') ∧
    source ∈ fs_dirs (disk_fs dk') ∧ disk_archives dk' = disk_archives dk ∧
    fs_files (disk_fs dk') = list_to_map (reverse pre) ∪ fs_files (stage_source copytree pkg source (disk_fs dk)).
Proof.
  intros source Hws Hpre Hw He. set (fs := stage_source copytree pkg source (disk_fs dk)).
  destruct (export_configuration_error setting_str open_errno fs source (pkg_configuration pkg) pre w post e Hws Hpre Hw He)
    as (fs' & Heq & Hfiles).
  pose proof (export_configuration_dirs setting_str open_errno fs source (pkg_configuration pkg)) as Hdirs.
  rewrite Heq in Hdirs. exists (mkDisk fs' (disk_archives dk)). unfold export_. fold source fs. rewrite Heq.
  split_and!; [done| |done|done]. apply Hdirs. apply copytree_dst.
Qed.

(** C21. [_export] puts the configuration it writes into the archive: when
    no [io.open] raises an error other than [ENOENT] and the archive can
    be opened (its directory exists apart from the staging directory and
    [tarfile.open] raises nothing), the archive
    [path.join(output_dir, archive_name)] holds, for every file of the
    partition (at a relative name), a member at that name under the app
    directory's base name with the text the export wrote last to it.
    Without [keep_source], nothing is left at or under the staging
    directory. *)
Theorem export_archive_configuration {S} pkg output_dir (filter : option (S → TarInfo → S)) s keep_source dk :
  let source := path_join output_dir (pkg_stage_name pkg) in
  let ws := export_writes setting_str source (pkg_configuration pkg) in
  let archive := path_join output_dir (pkg_archive_name pkg) in
  source ≠ "" → endswith source sep = false →
  (∀ w, w ∈ ws → open_errno w.1 = None) →
  open_errno archive = None → dirname archive ∈ fs_dirs (disk_fs dk) →
  dirname archive ≠ source → under source (dirname archive) = None →
  ∃ dk' s', export_ setting_str open_errno copytree pkg output_dir filter s keep_source dk = inr (dk', s') ∧
    ∃ members, disk_archives dk' !! path_join output_dir (pkg_archive_name pkg) = Some members ∧
      (∀ file_name text, startswith file_name sep = false →
         (list_to_map (reverse ws) : gmap string (list Ascii.ascii)) !! path_join source file_name = Some text →
         mkTarInfo (path_join (basename (pkg_app_root pkg)) file_name) (TarFile text) ∈ members) ∧
      (keep_source = false → ∀ p, p = source ∨ is_Some (under source p) →
         fs_files (disk_fs dk') !! p = None ∧ p ∉ fs_dirs (disk_fs dk')).
Proof.
  intros source ws archive Hne Hend Hok Harch Had Hans Hau.
  destruct (export_ok pkg output_dir filter s keep_source dk Hok Harch) as (fs' & Hfiles & _ & ->);
    [by apply stage_source_dirs|]. do 2 eexists. split; [done|]. eexists. cbn. split; [apply lookup_insert_eq|split].
  - intros file_name text Hrel Hw. apply (tar_members_file _ _ _ (path_join source file_name)).
    + rewrite Hfiles. by apply lookup_union_Some_l.
    + by apply under_path_join.
  - intros -> p Hp. by apply rmtree_gone.
Qed.

(** C24. When the configuration is written and the archive's directory
    exists apart from the staging directory but [tarfile.open(archive,
    'w:gz')] raises, [_export] raises the same error: no archive is
    written and the staging directory, with the rewritten configuration,
    is left in [output_dir]. *)
Theorem export_archive_open_error {S} pkg output_dir (filter : option (S → TarInfo → S)) s keep_source dk e :
  let source := path_join output_dir (pkg_stage_name pkg) in
  let ws := export_writes setting_str source (pkg_configuration pkg) in
  let archive := path_join output_dir (pkg_archive_name pkg) in
  (∀ w, w ∈ ws → open_errno w.1 = None) → open_errno archive = Some e →
  dirname archive ∈ fs_dirs (disk_fs dk) → dirname archive ≠ source → under source (dirname archive) = None →
  ∃ dk', export_ setting_str open_errno copytree pkg output_dir filter s keep_source dk = inl (e, dk') ∧
    disk_archives dk' = disk_archives dk ∧ source ∈ fs_dirs (disk_fs dk') ∧
    fs_files (disk_fs dk') = list_to_map (reverse ws) ∪ fs_files (stage_source copytree pkg source (disk_fs dk)).
Proof.
  intros source ws archive Hok He Had Hans Hau.
  destruct (export_loop open_errno (stage_source copytree pkg source (disk_fs dk)) ws)
    as (fs' & Hfs' & Hfiles & Hdirs & _); [by apply Forall_forall|].
  exists (mkDisk fs' (disk_archives dk)). unfold export_. fold source archive.
  unfold export_configuration. fold ws. rewrite Hfs'. unfold io_open at 1.
  rewrite decide_True by (by apply Hdirs, stage_source_dirs). rewrite He.
  split_and!; [done|done| |done]. apply Hdirs, copytree_dst.
Qed.

(** The entry [append_digest] records for a member: files only, hashed at
    [path.join(source_container, name)]. *)
Definition file_entry (source_container : string) (ti : TarInfo) : option DigestEntry :=
  match ti_entry ti with
  | TarDir => None
  | TarFile c => Some (mkDigestEntry (ti_name ti) (hash_object (path_join source_container (ti_name ti)) (length c)) (length c))
  end.

Lemma foldl_append_digest container acc members :
  foldl (append_digest hash_object container) acc members = acc ++ omap (file_entry container) members.
Proof.
  revert acc. induction members as [|ti members IH]; intros acc; cbn; [by rewrite app_nil_r|].
  destruct ti as [n [|c]]; cbn; rewrite IH; [done|by rewrite <- app_assoc].
Qed.

(** C22. With debug logging on, [export] writes the file digest of the
    archive: [<stage>.file-digest.json] holds the JSON list of one entry
    per file member of the archive (directories have none), sorted by
    name, each with the member's size and the [hash_object] of the file at
    [path.join(path.dirname(app_root), name)], the app's own file and not
    the staged copy the archive was made from.  It returns the archive's
    path.  This holds when the directories of the two JSON files and of
    the archive exist apart from the staging directory, none of the three
    fails to open, and no [io.open] raises an error other than [ENOENT] on
    the configuration. *)
Theorem export_debug_digest pkg output_dir dk d :
  let source := path_join output_dir (pkg_stage_name pkg) in
  let conf_file := path_join output_dir (pkg_stage_name pkg +:+ ".configuration.json") in
  let digest_file := path_join output_dir (pkg_stage_name pkg +:+ ".file-digest.json") in
  open_errno conf_file = None → open_errno digest_file = None →
  dirname conf_file ∈ fs_dirs (disk_fs dk) → dirname digest_file ∈ fs_dirs (disk_fs dk) →
  dirname digest_file ≠ source → under source (dirname digest_file) = None →
  (∀ w, w ∈ export_writes setting_str source (pkg_configuration pkg) → open_errno w.1 = None) →
  let archive := path_join output_dir (pkg_archive_name pkg) in
  open_errno archive = None → dirname archive ∈ fs_dirs (disk_fs dk) →
  dirname archive ≠ source → under source (dirname archive) = None →
  ∃ dk' members ds,
    export setting_str open_errno copytree hash_object encode setting_json pkg true output_dir dk d =
      inr (path_join output_dir (pkg_archive_name pkg), dk', d) ∧
    disk_archives dk' !! path_join output_dir (pkg_archive_name pkg) = Some members ∧
    fs_files (disk_fs dk') !! digest_file = Some (chars (encode (JArray (digest_json <$> ds)))) ∧
    Sorted name_le ds ∧ ds ≡ₚ omap (file_entry (dirname (pkg_app_root pkg))) members.
Proof.
  intros source conf_file digest_file Hconf Hdigest Hcd Hdd Hne Hu Hok archive Harch Had Hans Hau.
  unfold export. cbn [negb].
  fold conf_file digest_file.
  unfold write_text at 1, io_open at 1. rewrite decide_True by done. rewrite Hconf.
  set (dk1 := mkDisk _ _).
  destruct (export_ok pkg output_dir (Some (append_digest hash_object (dirname (pkg_app_root pkg)))) [] false dk1 Hok Harch)
    as (fs' & _ & Hdirs & ->); [by apply stage_source_dirs|].
  cbn [tar_filter]. rewrite foldl_append_digest. unfold write_text, io_open. cbn [disk_fs].
  rewrite decide_True, Hdigest.
  2:{ apply elem_of_rmtree_dirs. split_and!; [|done|done]. apply Hdirs, stage_source_dirs; done. }
  do 3 eexists. split; [done|]. cbn. split_and!; [apply lookup_insert_eq|apply lookup_insert_eq| |].
  - apply Sorted_merge_sort. apply _.
  - apply merge_sort_Permutation.
Qed.

End ExportProps.

Module PackageExportExamples.
Import DeploymentSpec DeploymentPackageExamples.

Definition ex_setting_str (s : Setting) : string := setting_name s +:+ " = " +:+ setting_value s.

(** App [a] at [/apps/a]: a manifest, [default/inputs.conf] and a script. *)
Definition ex_tree : Tree := Dir ["app.manifest"] [("bin", Dir ["run.py"] []); ("default", Dir ["inputs.conf"] [])].
Definition ex_id : ManifestId := mkManifestId None (Some "a") v1.
Definition ex_init := package_init no_passwords include_all app_a "/apps/a" ex_id [inputs_conf] ex_tree [] spec_sh.
Definition ex_pkg : Package :=
  match ex_init with Some (inr p) => p | _ => mkPackage "" "" "" [] "" ∅ false end.

Definition ex_original : list Ascii.ascii := chars "[monitor]
host = h
password = x
".
Definition ex_disk : Disk :=
  mkDisk (mkFS {[ "/apps/a/app.manifest" := chars "{}"; "/apps/a/default/inputs.conf" := ex_original;
                  "/apps/a/bin/run.py" := chars "print()" ]}
               {[ "/"; "/apps"; "/apps/a"; "/apps/a/bin"; "/apps/a/default"; "/out" ]})
         ∅.

(** A [copytree] that creates the destination and copies the entries the
    [ignore] callable keeps, one level at a time. *)
Definition ex_copytree (ignore : string → list string → list string) (src dst : string) (fs : FileSystem)
    : FileSystem :=
  let keep p := bool_decide (ignore (dirname p) [basename p] = []) in
  mkFS (list_to_map (omap (λ kv : string * list Ascii.ascii, rel ← under src kv.1;
                              if keep kv.1 then Some (path_join dst rel, kv.2) else None)
                          (map_to_list (fs_files fs))) ∪ fs_files fs)
       ({[dst]} ∪ list_to_set (omap (λ q, rel ← under src q; if keep q then Some (path_join dst rel) else None)
                                  (elements (fs_dirs fs))) ∪ fs_dirs fs).

Lemma ex_copytree_dst ignore src dst fs : dst ∈ fs_dirs (ex_copytree ignore src dst fs).
Proof. cbn. set_solver. Qed.

Lemma ex_copytree_dirs ignore src dst fs : fs_dirs fs ⊆ fs_dirs (ex_copytree ignore src dst fs).
Proof. cbn. set_solver. Qed.

(** Configuration files cannot be opened in the staged copy. *)
Definition ex_denied (p : string) : option nat :=
  if decide (p = "/out/a-1.0.0-sh/default/inputs.conf") then Some 13 else None.

(** The archive cannot be opened. *)
Definition ex_archive_denied (p : string) : option nat :=
  if decide (p = "/out/a-1.0.0-sh.tar.gz") then Some 28 else None.

Definition ex_encode (v : JValue) : string := json_type_name v.
Definition ex_setting_json (s : Setting) : JValue := JString (setting_value s).

End PackageExportExamples.

Module PackageExportWitnesses.
Import DeploymentSpec DeploymentPackageExamples PackageExportExamples.

Lemma export_archive_configuration_witness :
  ∃ dk' s', export_ ex_setting_str (λ _, None) ex_copytree ex_pkg "/out" (@None (unit → TarInfo → unit)) tt false ex_disk
              = inr (dk', s') ∧
    ∃ members, disk_archives dk' !! path_join "/out" (pkg_archive_name ex_pkg) = Some members ∧
      (∀ file_name text, startswith file_name sep = false →
         (list_to_map (reverse (export_writes ex_setting_str (path_join "/out" (pkg_stage_name ex_pkg))
                                  (pkg_configuration ex_pkg))) : gmap string (list Ascii.ascii))
           !! path_join (path_join "/out" (pkg_stage_name ex_pkg)) file_name = Some text →
         mkTarInfo (path_join (basename (pkg_app_root ex_pkg)) file_name) (TarFile text) ∈ members) ∧
      (false = false → ∀ p, p = path_join "/out" (pkg_stage_name ex_pkg) ∨
                             is_Some (under (path_join "/out" (pkg_stage_name ex_pkg)) p) →
         fs_files (disk_fs dk') !! p = None ∧ p ∉ fs_dirs (disk_fs dk')).
Proof.
  apply (export_archive_configuration ex_setting_str (λ _, None) ex_copytree ex_copytree_dirs ex_pkg "/out" None tt false
           ex_disk);
    [vm_compute; congruence|vm_compute; reflexivity|intros; reflexivity|reflexivity|vm_compute; reflexivity|
     vm_compute; congruence|vm_compute; reflexivity].
Defined.

Lemma export_error_keeps_staging_witness :
  ∃ dk', export_ ex_setting_str ex_denied ex_copytree ex_pkg "/out" (@None (unit → TarInfo → unit)) tt false ex_disk
           = inl (13, dk') ∧
    path_join "/out" (pkg_stage_name ex_pkg) ∈ fs_dirs (disk_fs dk') ∧ disk_archives dk' = disk_archives ex_disk ∧
    fs_files (disk_fs dk') = list_to_map (reverse []) ∪
      fs_files (stage_source ex_copytree ex_pkg (path_join "/out" (pkg_stage_name ex_pkg)) (disk_fs ex_disk)).
Proof.
  apply (export_error_keeps_staging ex_setting_str ex_denied ex_copytree ex_copytree_dst ex_pkg "/out" None tt false ex_disk
           [] ("/out/a-1.0.0-sh/default/inputs.conf", chars "[monitor]
host = h
") []);
    [vm_compute; reflexivity|constructor|reflexivity|unfold ENOENT; lia].
Defined.

Lemma export_archive_open_error_witness :
  ∃ dk', export_ ex_setting_str ex_archive_denied ex_copytree ex_pkg "/out" (@None (unit → TarInfo → unit)) tt false
           ex_disk = inl (28, dk') ∧
    disk_archives dk' = disk_archives ex_disk ∧ path_join "/out" (pkg_stage_name ex_pkg) ∈ fs_dirs (disk_fs dk') ∧
    fs_files (disk_fs dk') =
      list_to_map (reverse (export_writes ex_setting_str (path_join "/out" (pkg_stage_name ex_pkg))
                              (pkg_configuration ex_pkg))) ∪
      fs_files (stage_source ex_copytree ex_pkg (path_join "/out" (pkg_stage_name ex_pkg)) (disk_fs ex_disk)).
Proof.
  apply (export_archive_open_error ex_setting_str ex_archive_denied ex_copytree ex_copytree_dst ex_copytree_dirs ex_pkg
           "/out" None tt false ex_disk 28);
    [intros w Hw; vm_compute in Hw; apply list_elem_of_In in Hw; destruct Hw as [<-|[]]; reflexivity|
     reflexivity|vm_compute; reflexivity|vm_compute; congruence|vm_compute; reflexivity].
Defined.

Lemma export_debug_digest_witness :
  ∃ dk' members ds,
    export ex_setting_str (λ _, None) ex_copytree (λ p _, p) ex_encode ex_setting_json ex_pkg true "/out" ex_disk diag0 =
      inr (path_join "/out" (pkg_archive_name ex_pkg), dk', diag0) ∧
    disk_archives dk' !! path_join "/out" (pkg_archive_name ex_pkg) = Some members ∧
    fs_files (disk_fs dk') !! path_join "/out" (pkg_stage_name ex_pkg +:+ ".file-digest.json") =
      Some (chars (ex_encode (JArray (digest_json <$> ds)))) ∧
    Sorted name_le ds ∧ ds ≡ₚ omap (file_entry (λ p _, p) (dirname (pkg_app_root ex_pkg))) members.
Proof.
  apply (export_debug_digest ex_setting_str (λ _, None) ex_copytree (λ p _, p) ex_encode ex_setting_json
           ex_copytree_dirs ex_pkg "/out" ex_disk diag0);
    [reflexivity|reflexivity|vm_compute; reflexivity|vm_compute; reflexivity|vm_compute; congruence|
     vm_compute; reflexivity|intros; reflexivity|reflexivity|vm_compute; reflexivity|vm_compute; congruence|
     vm_compute; reflexivity].
Defined.

End PackageExportWitnesses.

End PackageExport.
