(* ===== verification/SourcePackage.v ===== *)
(** * The source package of an app

    src/slim/app/_deployment.py lines 154-180,
    [AppDependencyGraph.export_source_package(output_dir)]: a gzipped tar
    archive [<package_prefix>.tar.gz] holding the app's directory under its
    id, filtered by [SlimIgnore], and, when the dependency graph has more
    nodes than the root, a [.dependencies] directory entry and the
    package of every other node at [.dependencies/<basename>].  The
    payload records the archive's path.  The archive is written on the
    [Disk] of PackageExport.v; [SlimIgnore], [SlimConstants.DEPENDENCIES_DIR],
    the app's [directory] and [package_prefix] and [path.abspath] are
    outside [src/] and are Section variables.  [TarFile.add] raises
    [FileNotFoundError] ([ENOENT]) on a package that does not exist; the
    archive then keeps the members added before. *)

From stdpp Require Import base list gmap strings sets.
From S2P Require Import Prelude AppSource PathOps DependencyGraph ConfExport PackageExport.

Module SourcePackage.
Import PathOps DependencyGraph ConfExport PackageExport.

(** The directories from [acc] down through the components [comps]. *)
Fixpoint path_prefixes (acc : string) (comps : list string) : list string :=
  match comps with
  | [] => []
  | c :: rest => let p := path_join acc c in p :: path_prefixes p rest
  end.

(** The names [TarFile.add(name, arcname)] passes to its filter before it
    reaches the member [m]: [arcname], each directory below it, then [m]. *)
Definition name_chain (arcname m : string) : list string :=
  arcname :: match under arcname m with
             | Some rel => path_prefixes arcname (of_chars <$> split_on slash (chars rel))
             | None => []
             end.

(** [TarFile.add(name, arcname, filter)] with a filter that drops the
    members it rejects: a rejected directory is not descended into. *)
Definition tar_add_filtered (keep : string → bool) (fs : FileSystem) (name arcname : string) : list TarInfo :=
  filter (λ ti, forallb keep (name_chain arcname (ti_name ti)) = true) (tar_members fs name arcname).

Section SourcePackage.
(** [source.package_prefix], [source.directory] *)
Variable package_prefix : AppSource → string.
Variable directory : AppSource → string.
(** [SlimIgnore(app_name, directory).filter(tar_info)] is [None]. *)
Variable slim_ignore : string → string → string → bool.
(** [SlimConstants.DEPENDENCIES_DIR] *)
Variable dependencies_dir : string.
Variable abspath : string → string.

(** [source_package.add(package, arcname=path.join('.dependencies',
    path.basename(package)))] (lines 176-177): [ENOENT] when the package
    does not exist. *)
Definition add_dependency (fs : FileSystem) (members : list TarInfo) (dependency : AppSource)
    : (nat * list TarInfo) + list TarInfo :=
  let package := src_package dependency in
  match fs_files fs !! package with
  | Some c => inr (members ++ [mkTarInfo (path_join ".dependencies" (basename package)) (TarFile c)])
  | None => inl (ENOENT, members)
  end.

(** [export_source_package(output_dir)] (lines 154-180) of the graph [g]
    whose root is [source]. *)
Definition export_source_package (g : Graph) (source : AppSource) (output_dir : string) (dk : Disk) (d : Diag)
    : (nat * Disk) + (string * Disk * Diag) :=
  let app_name := src_id source in
  let source_package_path := path_join output_dir (package_prefix source +:+ ".tar.gz") in
  let fs := disk_fs dk in
  let write members := mkDisk fs (<[source_package_path := members]> (disk_archives dk)) in
  let members := tar_add_filtered (λ n, negb (slim_ignore app_name (directory source) n)) fs (directory source) app_name in
  let result :=
    if bool_decide (1 < length (g_graph g)) then
      fold_err (λ ms dependency, if decide (dependency = source) then inr ms else add_dependency fs ms dependency)
        (members ++ [mkTarInfo dependencies_dir TarDir]) (od_keys (g_graph g))
    else inr members in
  match result with
  | inl (e, ms) => inl (e, write ms)
  | inr ms => inr (abspath source_package_path, write ms, set_source_package source_package_path d)
  end.
End SourcePackage.

(** * Properties *)

Section SourcePackageProps.
Variable package_prefix : AppSource → string.
Variable directory : AppSource → string.
Variable slim_ignore : string → string → string → bool.
Variable dependencies_dir : string.
Variable abspath : string → string.

(** The member of a dependency's package, when the package exists. *)
Definition dependency_member (fs : FileSystem) (x : AppSource) : option TarInfo :=
  c ← fs_files fs !! src_package x; Some (mkTarInfo (path_join ".dependencies" (basename (src_package x))) (TarFile c)).

Lemma dependency_member_Some fs x c :
  fs_files fs !! src_package x = Some c →
  dependency_member fs x = Some (mkTarInfo (path_join ".dependencies" (basename (src_package x))) (TarFile c)).
Proof. intros Hc. unfold dependency_member. by rewrite Hc. Qed.

Abbreviation dependency_step fs source :=
  (λ ms dependency, if decide (dependency = source) then inr ms else add_dependency fs ms dependency).

Lemma dependency_loop_ok fs source ms l :
  (∀ x, x ∈ filter (λ x, x ≠ source) l → is_Some (fs_files fs !! src_package x)) →
  fold_err (dependency_step fs source) ms l = inr (ms ++ omap (dependency_member fs) (filter (λ x, x ≠ source) l)).
Proof.
  revert ms. induction l as [|x l IH]; intros ms Hex; cbn [fold_err]; cbv beta; [by rewrite app_nil_r|].
  destruct (decide (x = source)) as [->|Hx].
  - rewrite filter_cons_False in * by naive_solver. by apply IH.
  - rewrite filter_cons_True in * by done.
    destruct (Hex x) as [c Hc]; [set_solver|]. unfold add_dependency at 1. rewrite Hc.
    rewrite IH by (intros y Hy; apply Hex; set_solver).
    cbn [omap list_omap]. rewrite (dependency_member_Some _ _ _ Hc). by rewrite <- app_assoc.
Qed.

Lemma dependency_loop_err fs source ms l pre x post :
  filter (λ x, x ≠ source) l = pre ++ x :: post →
  Forall (λ y, is_Some (fs_files fs !! src_package y)) pre → fs_files fs !! src_package x = None →
  fold_err (dependency_step fs source) ms l = inl (ENOENT, ms ++ omap (dependency_member fs) pre).
Proof.
  revert ms pre. induction l as [|y l IH]; intros ms pre Hl Hpre Hx; [by destruct pre|]. cbn [fold_err]; cbv beta.
  destruct (decide (y = source)) as [->|Hy].
  - rewrite filter_cons_False in Hl by naive_solver. by apply IH.
  - rewrite filter_cons_True in Hl by done.
    destruct pre as [|z pre]; simplify_eq/=.
    + unfold add_dependency. rewrite Hx. by rewrite app_nil_r.
    + apply Forall_cons in Hpre as [[c Hc] Hpre]. unfold add_dependency at 1. rewrite Hc.
      rewrite (IH _ pre) by done. cbn [omap list_omap]. rewrite (dependency_member_Some _ _ _ Hc). by rewrite <- app_assoc.
Qed.

(** When the package of every other node exists,
    [export_source_package] writes [<package_prefix>.tar.gz] in
    [output_dir]: the app's directory under its id as [SlimIgnore] keeps
    it, then, when the graph has more nodes than the root, the
    [.dependencies] directory entry and, in graph order, the package of
    every other node at [.dependencies/<basename>] with its bytes.  It
    records the path in the payload and returns its absolute path. *)
Theorem export_source_package_members g source output_dir dk d :
  let path := path_join output_dir (package_prefix source +:+ ".tar.gz") in
  let deps := filter (λ x, x ≠ source) (od_keys (g_graph g)) in
  (∀ x, x ∈ deps → is_Some (fs_files (disk_fs dk) !! src_package x)) →
  export_source_package package_prefix directory slim_ignore dependencies_dir abspath g source output_dir dk d =
    inr (abspath path,
         mkDisk (disk_fs dk) (<[path := tar_add_filtered (λ n, negb (slim_ignore (src_id source) (directory source) n))
                                          (disk_fs dk) (directory source) (src_id source) ++
                                        if bool_decide (1 < length (g_graph g))
                                        then mkTarInfo dependencies_dir TarDir :: omap (dependency_member (disk_fs dk)) deps
                                        else []]> (disk_archives dk)),
         set_source_package path d).
Proof.
  intros path deps Hex. unfold export_source_package. fold path. case_bool_decide.
  - rewrite dependency_loop_ok by done. by rewrite <- app_assoc.
  - by rewrite app_nil_r.
Qed.

(** A dependency whose package does not exist makes
    [export_source_package] raise [FileNotFoundError]: the archive keeps
    the app's directory, the [.dependencies] entry and the packages of the
    nodes before it, and the payload records nothing. *)
Theorem export_source_package_missing g source output_dir dk d pre x post :
  let path := path_join output_dir (package_prefix source +:+ ".tar.gz") in
  1 < length (g_graph g) →
  filter (λ x, x ≠ source) (od_keys (g_graph g)) = pre ++ x :: post →
  Forall (λ y, is_Some (fs_files (disk_fs dk) !! src_package y)) pre → fs_files (disk_fs dk) !! src_package x = None →
  export_source_package package_prefix directory slim_ignore dependencies_dir abspath g source output_dir dk d =
    inl (ENOENT, mkDisk (disk_fs dk) (<[path := tar_add_filtered (λ n, negb (slim_ignore (src_id source) (directory source) n))
                                                  (disk_fs dk) (directory source) (src_id source) ++
                                                mkTarInfo dependencies_dir TarDir :: omap (dependency_member (disk_fs dk)) pre]>
                                        (disk_archives dk))).
Proof.
  intros path Hlen Hl Hpre Hx. unfold export_source_package. fold path. rewrite bool_decide_true by done.
  rewrite (dependency_loop_err _ _ _ _ pre x post) by done. by rewrite <- app_assoc.
Qed.

End SourcePackageProps.

Module SourcePackageWitnesses.
Import SemVer.

Definition v1 : Version := mkVersion 1 0 0.
Definition app_x : AppSource := mkAppSource "/repo/x-1.0.0.tgz" "x" None v1 true (Some []) None None.
Definition lib_y : AppSource := mkAppSource "/repo/y-1.0.0.tgz" "y" None v1 true (Some []) None None.
Definition ex_graph : Graph := mkGraph [(app_x, [lib_y]); (lib_y, [])] [] [] ∅.
Definition ex_fs : FileSystem :=
  mkFS {[ "/apps/x/app.manifest" := []; "/repo/y-1.0.0.tgz" := [Ascii.ascii_of_nat 31] ]} {[ "/apps/x"; "/out" ]}.
Definition ex_prefix (s : AppSource) : string := src_id s +:+ "-1.0.0".
Definition ex_directory (s : AppSource) : string := "/apps/" +:+ src_id s.
Definition keep_all (_ _ _ : string) : bool := false.

Lemma export_source_package_members_witness :
  (∀ x, x ∈ filter (λ x, x ≠ app_x) (od_keys (g_graph ex_graph)) → is_Some (fs_files ex_fs !! src_package x)) ∧
  export_source_package ex_prefix ex_directory keep_all ".dependencies" id ex_graph app_x "/out" (mkDisk ex_fs ∅) diag0 =
    inr (id (path_join "/out" (ex_prefix app_x +:+ ".tar.gz")),
         mkDisk ex_fs (<[path_join "/out" (ex_prefix app_x +:+ ".tar.gz") :=
                          tar_add_filtered (λ n, negb (keep_all (src_id app_x) (ex_directory app_x) n)) ex_fs
                            (ex_directory app_x) (src_id app_x) ++
                          if bool_decide (1 < length (g_graph ex_graph))
                          then mkTarInfo ".dependencies" TarDir ::
                                 omap (dependency_member ex_fs) (filter (λ x, x ≠ app_x) (od_keys (g_graph ex_graph)))
                          else []]> ∅),
         set_source_package (path_join "/out" (ex_prefix app_x +:+ ".tar.gz")) diag0).
Proof.
  assert (Hex : ∀ x, x ∈ filter (λ x, x ≠ app_x) (od_keys (g_graph ex_graph)) → is_Some (fs_files ex_fs !! src_package x)).
  { intros x Hx. vm_compute in Hx. apply list_elem_of_In in Hx as [<-|[]]. vm_compute. by eexists. }
  split; [exact Hex|]. exact (export_source_package_members ex_prefix ex_directory keep_all ".dependencies" id
                                ex_graph app_x "/out" (mkDisk ex_fs ∅) diag0 Hex).
Defined.

Lemma export_source_package_missing_witness :
  export_source_package ex_prefix ex_directory keep_all ".dependencies" id ex_graph app_x "/out"
    (mkDisk (mkFS {[ "/apps/x/app.manifest" := [] ]} {[ "/apps/x"; "/out" ]}) ∅) diag0 =
  inl (ENOENT, mkDisk (mkFS {[ "/apps/x/app.manifest" := [] ]} {[ "/apps/x"; "/out" ]})
                 (<[path_join "/out" (ex_prefix app_x +:+ ".tar.gz") :=
                    tar_add_filtered (λ n, negb (keep_all (src_id app_x) (ex_directory app_x) n))
                      (mkFS {[ "/apps/x/app.manifest" := [] ]} {[ "/apps/x"; "/out" ]}) (ex_directory app_x) (src_id app_x) ++
                    mkTarInfo ".dependencies" TarDir ::
                      omap (dependency_member (mkFS {[ "/apps/x/app.manifest" := [] ]} {[ "/apps/x"; "/out" ]})) []]> ∅)).
Proof.
  apply (export_source_package_missing ex_prefix ex_directory keep_all ".dependencies" id ex_graph app_x "/out"
           (mkDisk (mkFS {[ "/apps/x/app.manifest" := [] ]} {[ "/apps/x"; "/out" ]}) ∅) diag0 [] lib_y []);
    [vm_compute; lia|vm_compute; reflexivity|constructor|vm_compute; reflexivity].
Defined.

End SourcePackageWitnesses.

End SourcePackage.
